(* ===== verification/_CoqProject ===== *)
-Q . S2P
Prelude.v
Locks.v
Endian.v
ByteArray.v
Codec.v
CodecSpec.v
ByteArrayQueue.v
ByteArrayIO.v
Timer.v
Stream.v
Text.v
Http.v
HttpResponse.v
Servlet.v
HttpSession.v
Address.v
Ragel.v
RagelRun.v
Uri.v
HttpGrammar.v
HttpWire.v
HttpClientGrammar.v
ResponseWire.v
Context.v
Fiber.v
FiberRun.v
Scheduler.v
SchedulerRun.v
Schedulers.v
IOManager.v
IOSections.v
Env.v
FSUtil.v
LogFormatter.v
Yaml.v
Config.v
HttpSizes.v
Log.v
LogConfig.v
FdManager.v
Hook.v
Socket.v
TcpServer.v
Thread.v
