(* ===== verification/Prelude.v ===== *)
(** * sylar-lin: a verification library

    sylar is a C++ server framework on fibers.  A [ByteArray] buffers and
    serialises data; a [TimerManager] keeps timers; a [Scheduler] runs [Fiber]s
    on threads, and [IOManager] is a scheduler that also waits for timers and for
    events of descriptors.  hook.cpp replaces the blocking system calls by calls
    that suspend the fiber in the [IOManager], with the contexts of [FdManager];
    [Socket] and [TcpServer] build on them; streams read and write sockets; the
    HTTP layer parses requests and responses from streams and dispatches them to
    servlets; [Address] computes with socket addresses.  [Config] keeps typed
    variables that YAML documents set, the loggers write formatted events and are
    set up by such a variable, [Env] reads the command line.  This library models
    these parts, each function of the source one definition, and proves what makes
    them correct.  All paths are below src/sylar/.

    ** Conventions

    C++ integers are [Z], with the width written where the code computes ([uint]
    and [sint] below, abbreviated [u8] to [u64], [i32], [i64]); bytes are [Z]
    values below 256 and strings lists of bytes.  Code that changes an object is
    a computation of the monad [M]: it returns, throws an exception, or faults
    (null pointer, access out of range, failed assertion, endless loop), and the
    object keeps what was done to it.  Shared objects live in heaps ([gmap]).
    The clock, the kernel, the file system, yaml-cpp, the peer of a connection and
    the generated parsers are arguments or type classes with their documented laws;
    each class has an instance, which the examples use.

    ** Files

    - Locks.v: the locks and guards of mutex.h over the class [Pthread].  Threads
      that run sections under the guards of one lock, interleaved access by access,
      do what a serial run of the sections does (refinement), which is why the other
      files take a section as one step; guards in each other, and [set_value] of a
      configuration variable, which is two sections.
    - Endian.v: [namespace Endian] of util.cpp.  The conversions put the most
      significant byte first and undo each other.
    - ByteArray.v: the block chain of bytearry.cpp ([MemoryBlock], [write],
      [read], the two positions, [expand_capacity], the iovec functions) with its
      invariant [wf].  Codec.v: the typed readers and writers over the interface
      [ByteBuffer], zigzag and varints included.  CodecSpec.v: the encodings
      written down apart from the code, and that the readers answer by them.
      ByteArrayQueue.v: the array implements the interface and an abstract queue
      of bytes (refinement); values of all types come back as they were written;
      a typed read returns what its encoding says the bytes stand for or throws
      and leaves the position; varint buffers do not overflow.
      ByteArrayIO.v: hex dump, saving to and loading from files.
    - Timer.v: timer.cpp; the [std::set] of timers is the list of its elements in
      the comparator's order.  After any run the queue is strictly ordered;
      exactly the due timers are handed out, and the recurring ones rearmed whose
      moment is free; the time to the next timer is exact; what the comparator on
      the expiration alone leads to.
    - Context.v: swap_context.S as instructions over registers and memory, and
      [make_context].  A context that was switched away from is resumed with its
      registers, stack and control words; a new one starts its function on an
      aligned stack of its own.
    - Fiber.v: the fibers of fiber.cpp on any number of threads, their states, the
      call stacks of the threads and the bytes of their stacks, which shared stacks
      save and restore.  FiberRun.v: over every run, resuming and yielding are
      nested and the bytes of a fiber are those it left; two pools that alias, a
      stack that is blocked, a pointer that dangles and ids that repeat.
    - Scheduler.v: scheduler.cpp; the threads of a scheduler interleave at the
      points where they share state, as executable actions.  For callers that add
      and wake only fibers nobody holds, and add none after the threads' last look,
      a stopped scheduler leaves only pinned tasks; two runs show what goes wrong
      otherwise and what becomes of pins.  SchedulerRun.v: for any callers, a fiber
      is in as many places as it was added more often than let go, so that one that is
      not added again too early is on one thread; none is lost; the counters are exact.
      Schedulers.v: all schedulers of a process with the thread-local variables; a
      thread of a scheduler finds it with [GetThis], the assertion and the joining of
      [stop], and a scheduler that is forgotten.
    - IOManager.v: iomanager.cpp over Scheduler.v, Timer.v and the class [Epoll].
      In any run, refusals of [epoll_ctl] and reports of [EPOLLHUP] included, each
      direction waited for has its fiber and is watched, and the pending counter is
      off by exactly what double registrations, refused removals and unexpected
      reports make of it; a waiter is handed over once; a round of [idle] serves the
      due timers and does not oversleep; two runs in which the counter goes wrong.
      IOSections.v: the sections of [add_event] and [cancel_event] apart, which make
      up the operations; two runs in which another thread comes in between and a
      fiber is never woken; the destructor.
    - Thread.v: thread.cpp and the semaphore of mutex.cpp; the constructor and [run]
      interleave on one object.  In every run of callers that pass a function and
      delete only what they have joined, without interrupted waits, nothing that is
      gone is accessed, thread and object know each other and callbacks run once; the constructor never waits for good; runs in
      which an object is deleted too early or the wait is interrupted.
    - FdManager.v: fdmanager.cpp and the descriptor calls of hook.cpp ([fcntl],
      [ioctl], [socket], [close], timeouts).  The flags belong to open
      file descriptions.  The kernel's descriptor is non-blocking, and the user sees
      the flag the user has set (refinement), unless the flag is turned off
      with [ioctl] or through a duplicate; runs that do so.
    - Hook.v: [hook_iofunc], [connect], [accept], [close] and the sleeping calls of
      hook.cpp over IOManager.v and FdManager.v, with the [timer_info]s the timers
      mark.  A hooked call returns the first answer that is neither an interruption nor
      "not ready", and waits once for each of the latter; the timer of a call that
      timed out marks it, wakes it once and leaves no waiting event behind; the
      milliseconds a sleep is armed with.
    - Socket.v: socket.cpp over the class [Net]; TcpServer.v: tcp_server.cpp over
      Socket.v and Hook.v.  Which addresses are bound, by the answers of the
      system calls, what [stop] leaves open, which descriptors are never closed.
    - Stream.v: the fixed-length loops and the decoder of chunked bodies of
      stream.cpp over the interface [Transport] of a socket.  Everything asked
      for arrives, whatever the sizes of the single reads; a chunked body (the
      grammar of RFC 9112 without extensions) is decoded exactly unless a read ends
      inside a line end, and its trailer is left unread.
    - Http.v, HttpResponse.v: http.cpp and type.h; header tables are finite maps
      up to case, the connection header agrees with the flag, [set_body]
      announces the length.  Servlet.v: http_servlet.cpp; the priority of the
      dispatch.  HttpSession.v: http_parser.cpp, http_session.cpp,
      http_connection.cpp, http_server.cpp over the class [Machine] of the
      generated parsers; bodies are assembled exactly, a connection is
      served exactly until a response asks to close, and which bytes get lost.
      HttpSizes.v: the buffer and body sizes of http_parser.cpp, globals that follow
      configuration variables through listeners.
    - Ragel.v: expressions with actions and priorities, the machine Ragel makes of
      them, and how to follow it through a text.  RagelRun.v: the generated loop over
      a buffer.  Uri.v: uri.rl and [URI]; a URI is parsed back from its text, and
      texts that are not.  HttpGrammar.v: http11_parser.rl; HttpClientGrammar.v:
      httpclient_parser.rl; both are instances of [Machine].  HttpWire.v: a request
      that is printed, and whose head is received in one read, is the request that was
      sent.  ResponseWire.v: the
      same of responses.
    - Address.v: address.cpp; networks and broadcast addresses, the order of
      addresses, lookup strings, unix paths, text forms.

    - Text.v: characters, decimal numbers and case, shared by the text formats.
    - Env.v: env.cpp.  The options of a command line are entered as written.
      FSUtil.v: the directories and files of util.cpp over a file system with laws;
      [make_dir] makes every directory of the path.
    - LogFormatter.v: levels, events, the pattern parser and the items of log.cpp.
      The parser with its index ends on every pattern and agrees with a scanner that
      reads one character at a time; a pattern written from items is parsed back.
      Log.v: loggers, appenders and the manager; the appenders take turns on an
      event, with files that are opened again or lost, every pointer of the manager is
      valid.
      LogConfig.v: the [logs] variable, its converters and its listener; which
      loggers are as the new value says and which are deleted.
    - Yaml.v: the container converters of config.h over the data model of YAML; a
      container comes back from its text.  Config.v: config.h and config.cpp; the
      type of a variable never changes, and a document assigns to a variable the
      texts of the nodes whose path spells its name, in order.

    Clients are proved against interfaces: [ByteBuffer] (Codec.v on
    ByteArray.v), [Transport] (HTTP on sockets), [Guards] (sections on locks), [Machine], [Epoll], [Net],
    [Descriptors], [Files], [Yaml], [Converter] and [Types].

    ** Fuel and bounds

    Loops of the array carry fuel computed from their data (bytes left, blocks
    needed), and running out is the fault [Diverges], which the theorems exclude.
    [fix_length] has the length as fuel, since every turn moves at least one
    byte.  [read_chunked_body] is given at least the length of the encoded body,
    at most one turn per byte.  Loops whose number of turns is up to the peer
    ([read_head], [handle_client]) take any fuel and return [None] when it is
    used up; the theorems about them start from a head that was read, or say
    which connections end with some fuel.  [set_auto_close] and [set_header] of a request
    call each other: their fuel is shown to be enough.  The steps of the
    scheduler and of threads need none, a run is a list of actions.  [init_loop]
    has the length of the pattern as fuel, since every turn moves the index, and
    [read_format] one more than it; [make_dir_loop] the length of the path.  All
    three are shown never to run out.  The retry loop of a hooked call consumes the
    list of the system's answers and of the wake-ups; a call for which they do not
    suffice is still asleep or repeating.  Machines read a buffer byte by byte and
    need no fuel; what they do on the bytes of a class is established by evaluating
    all of them.

    ** Not modelled

    The code Ragel generates, of which the grammars are the source; the log output
    of the other components; the lookup of system functions with dlsym; backtraces
    and ids, which are calls of the system; the macros of macro.h and the singleton
    templates, which have no state of their own; tests and examples. *)

From Stdlib Require Export ZArith Lia.
From stdpp Require Export prelude list strings gmap.

#[global] Open Scope Z_scope.

(** ** Machine integers

    Every C++ integer is a [Z]; its width is written out where the code
    computes.  [uint w] is the value kept by an unsigned [w]-bit register,
    [sint w] the value a signed one shows. *)

Definition uint (w x : Z) : Z := x mod 2 ^ w.
Definition sint (w x : Z) : Z :=
  let y := x mod 2 ^ w in if y <? 2 ^ (w - 1) then y else y - 2 ^ w.

Declare Scope sylar_scope.
Delimit Scope sylar_scope with sylar.
Abbreviation u8 := (uint 8).
Abbreviation u16 := (uint 16).
Abbreviation u32 := (uint 32).
Abbreviation u64 := (uint 64).
Abbreviation i32 := (sint 32).
Abbreviation i64 := (sint 64).
Notation "'len' l" := (Z.of_nat (length l)) (at level 10, l at next level) : sylar_scope.
#[global] Open Scope sylar_scope.

(** ** Outcomes

    A C++ call returns, throws an exception that a handler can catch, or
    runs into behaviour nothing in the program recovers from: a null
    dereference, an access outside an object, [abort], or a loop that never
    ends. *)

Inductive exn :=
| OutOfRange | LogicError | RuntimeError | InvalidArgument.

Inductive fault :=
| NullDeref | BadAccess | Abort | Diverges.

Inductive outcome (A : Type) :=
| Ret (a : A)
| Throw (e : exn)
| Fault (f : fault).
Arguments Ret {A} a.
Arguments Throw {A} e.
Arguments Fault {A} f.

#[global] Instance exn_eq_dec : EqDecision exn.
Proof. solve_decision. Defined.
#[global] Instance fault_eq_dec : EqDecision fault.
Proof. solve_decision. Defined.

(** A computation over an object of type [S]: what it did to the object stays,
    also when it throws. *)

Definition M (S A : Type) : Type := S -> outcome A * S.

#[global] Instance M_ret S : MRet (M S) := λ A a s, (Ret a, s).
#[global] Instance M_bind S : MBind (M S) := λ A B k m s,
  match m s with
  | (Ret a, s') => k a s'
  | (Throw e, s') => (Throw e, s')
  | (Fault f, s') => (Fault f, s')
  end.
Definition throw {S A} (e : exn) : M S A := λ s, (Throw e, s).
Definition crash {S A} (f : fault) : M S A := λ s, (Fault f, s).
Definition gets {S A} (f : S -> A) : M S A := λ s, (Ret (f s), s).
Definition modify {S} (f : S -> S) : M S unit := λ s, (Ret tt, f s).

(** Running a step whose result is known. *)
Lemma bind_Ret {S A B} (m : M S A) (k : A -> M S B) s s' a :
  m s = (Ret a, s') -> (m ≫= k) s = k a s'.
Proof. unfold mbind, M_bind. by intros ->. Qed.

(** A computation that returned: its parts did. *)
Lemma bind_Ret_inv {S A B} (m : M S A) (k : A -> M S B) s s' b :
  (m ≫= k) s = (Ret b, s') -> exists a s1, m s = (Ret a, s1) /\ k a s1 = (Ret b, s').
Proof. unfold mbind, M_bind. destruct (m s) as [[a|e|f] s1]; [eauto|done|done]. Qed.

Lemma bind_Throw {S A B} (m : M S A) (k : A -> M S B) s s' e :
  m s = (Throw e, s') -> (m ≫= k) s = (Throw e, s').
Proof. unfold mbind, M_bind. by intros ->. Qed.

Lemma bind_Fault {S A B} (m : M S A) (k : A -> M S B) s s' f :
  m s = (Fault f, s') -> (m ≫= k) s = (Fault f, s').
Proof. unfold mbind, M_bind. by intros ->. Qed.

Lemma bind_assoc {S A B C} (m : M S A) (k : A -> M S B) (h : B -> M S C) s :
  ((m ≫= k) ≫= h) s = (m ≫= λ a, k a ≫= h) s.
Proof. unfold mbind, M_bind. by destruct (m s) as [[] ?]. Qed.

(** ** Facts on machine integers *)

Create HintDb sylar discriminated.

Lemma uint_range w x : 0 <= w -> 0 <= uint w x < 2 ^ w.
Proof. intros. apply Z.mod_pos_bound, Z.pow_pos_nonneg; lia. Qed.

Lemma uint_small w x : 0 <= x < 2 ^ w -> uint w x = x.
Proof. apply Z.mod_small. Qed.

Lemma uint_idem w x : 0 <= w -> uint w (uint w x) = uint w x.
Proof. intros. unfold uint. by rewrite Z.mod_mod by (apply Z.pow_nonzero; lia). Qed.

(** A value that fits a signed register is read back from its unsigned image. *)
Lemma sint_uint_small w x :
  0 < w -> - 2 ^ (w - 1) <= x < 2 ^ (w - 1) -> sint w (uint w x) = x.
Proof.
  intros Hw Hx. unfold sint, uint.
  assert (0 < 2 ^ (w - 1)) by (apply Z.pow_pos_nonneg; lia).
  assert (2 ^ w = 2 * 2 ^ (w - 1)) as E.
  { rewrite <- Z.pow_succ_r by lia. f_equal; lia. }
  rewrite Z.mod_mod by lia.
  destruct (decide (0 <= x)) as [Hp|Hn].
  - rewrite Z.mod_small by lia. destruct (Z.ltb_spec x (2 ^ (w - 1))); lia.
  - assert (x mod 2 ^ w = x + 2 ^ w) as ->.
    { symmetry. apply Z.mod_unique_pos with (q := -1); lia. }
    destruct (Z.ltb_spec (x + 2 ^ w) (2 ^ (w - 1))); lia.
Qed.

#[export] Hint Resolve uint_range uint_idem : sylar.

Lemma uint_sint w x : 0 <= w -> uint w (sint w x) = uint w x.
Proof.
  intros Hw. unfold uint, sint. assert (2 ^ w <> 0) by (apply Z.pow_nonzero; lia).
  destruct (Z.ltb_spec (x mod 2 ^ w) (2 ^ (w - 1))).
  - by rewrite Z.mod_mod.
  - replace (x mod 2 ^ w - 2 ^ w) with (x mod 2 ^ w + (-1) * 2 ^ w) by lia.
    by rewrite Z.mod_add, Z.mod_mod.
Qed.

Lemma sint_uint w x : 0 <= w -> sint w (uint w x) = sint w x.
Proof.
  intros. unfold sint, uint. rewrite Z.mod_mod by (apply Z.pow_nonzero; lia). done.
Qed.

(** Complementing the [w] low bits of a [w]-bit number. *)
Lemma lxor_ones w x : 0 <= w -> 0 <= x < 2 ^ w -> Z.lxor x (2 ^ w - 1) = 2 ^ w - 1 - x.
Proof.
  intros Hw Hx. rewrite Z.sub_1_r, <- Z.ones_equiv.
  enough (x + Z.lxor x (Z.ones w) = Z.ones w) by lia.
  rewrite Z.add_nocarry_lxor.
  - by rewrite <- Z.lxor_assoc, Z.lxor_nilpotent, Z.lxor_0_l.
  - apply Z.bits_inj'. intros i Hi. rewrite Z.land_spec, Z.lxor_spec, Z.bits_0.
    destruct (decide (i < w)).
    + rewrite Z.ones_spec_low by lia. by destruct (Z.testbit x i).
    + rewrite <- (Z.mod_small x (2 ^ w)) by lia. by rewrite Z.mod_pow2_bits_high by lia.
Qed.

(** ** Facts on lists *)

Section lists.
Context {A : Type} (P : A -> Prop) `{!forall x, Decision (P x)}.

Lemma filter_keeps_all (l : list A) : Forall P l -> filter P l = l.
Proof. induction 1; [done|]. rewrite filter_cons_True by done. by f_equal. Qed.

Lemma filter_keeps_none (l : list A) : Forall (λ x, ~ P x) l -> filter P l = [].
Proof. induction 1; [done|]. by rewrite filter_cons_False. Qed.
End lists.

(** Lexicographic order of byte strings, as [strcmp] and [memcmp] have it. *)
Fixpoint lex_lt (a b : list Z) : bool :=
  match a, b with
  | _, [] => false
  | [], _ :: _ => true
  | x :: a, y :: b => (x <? y) || ((x =? y) && lex_lt a b)
  end.

Lemma lex_lt_irrefl a : lex_lt a a = false.
Proof. induction a as [|x a IH]; [done|]. simpl. rewrite Z.ltb_irrefl, Z.eqb_refl. done. Qed.

Lemma lex_lt_trans a b c : lex_lt a b = true -> lex_lt b c = true -> lex_lt a c = true.
Proof.
  revert b c. induction a as [|x a IH]; intros [|y b] [|z c]; simpl; try done.
  rewrite !orb_true_iff, !andb_true_iff, !Z.ltb_lt, !Z.eqb_eq.
  intros [?|[? ?]] [?|[? ?]]; try (left; lia). right. split; [lia|by eapply IH].
Qed.

Lemma lex_lt_total a b : a <> b -> lex_lt a b = false -> lex_lt b a = true.
Proof.
  revert b. induction a as [|x a IH]; intros [|y b]; simpl; try done.
  rewrite orb_false_iff, andb_false_iff, orb_true_iff, andb_true_iff, Z.ltb_ge, Z.ltb_lt, Z.eqb_neq, Z.eqb_eq.
  intros Hne [Hle [?|Hf]]; [left; lia|]. destruct (decide (x = y)) as [->|]; [|left; lia].
  right. split; [done|]. apply IH; [congruence|done].
Qed.

Lemma forallb_elem {B} (f : B -> bool) (k : list B) x : forallb f k = true -> x ∈ k -> f x = true.
Proof. rewrite forallb_forall. intros H Hx. apply H. by apply list_elem_of_In. Qed.
