(* ===== verification/Locks.v ===== *)
(** * Locks: src/sylar/mutex.h

    [Mutex], [RWMutex] and [SpinLock] over the pthread locks, and the guards [LockGuard],
    [ReadLockGuard] and [WriteLockGuard].  The pthread functions are the class [Pthread],
    what POSIX says of them the class [PthreadLaws].  The guards are used by threads that
    run sections, step by step and interleaved in any way; every such run is a run in
    which each section happens at once.  At the end, [ConfigVar::set_value] as the two
    sections that it is. *)

From stdpp Require Import relations.
From S2P Require Import Prelude.

(** A lock is held by any number of readers or by one writer. *)
Inductive mode := Shared | Exclusive.
#[global] Instance mode_eq_dec : EqDecision mode.
Proof. solve_decision. Defined.

(** ** pthread

    A call of thread [t] gives [None] while it does not return, else its result and the
    lock after it. *)
Class Pthread := {
  pthread_mutex_t : Type;
  pthread_mutex_init : pthread_mutex_t;
  pthread_mutex_destroy : pthread_mutex_t -> Z * pthread_mutex_t;
  pthread_mutex_lock : Z -> pthread_mutex_t -> option (Z * pthread_mutex_t);
  pthread_mutex_unlock : Z -> pthread_mutex_t -> Z * pthread_mutex_t;
  pthread_rwlock_t : Type;
  pthread_rwlock_init : pthread_rwlock_t;
  pthread_rwlock_destroy : pthread_rwlock_t -> Z * pthread_rwlock_t;
  pthread_rwlock_rdlock : Z -> pthread_rwlock_t -> option (Z * pthread_rwlock_t);
  pthread_rwlock_wrlock : Z -> pthread_rwlock_t -> option (Z * pthread_rwlock_t);
  pthread_rwlock_unlock : Z -> pthread_rwlock_t -> Z * pthread_rwlock_t;
  pthread_spinlock_t : Type;
  pthread_spin_init : pthread_spinlock_t;
  pthread_spin_destroy : pthread_spinlock_t -> Z * pthread_spinlock_t;
  pthread_spin_lock : Z -> pthread_spinlock_t -> option (Z * pthread_spinlock_t);
  pthread_spin_unlock : Z -> pthread_spinlock_t -> Z * pthread_spinlock_t;
}.

(** A lock with one owner, which the thread that asks does not own already. *)
Record owned_lock {T} (init : T) (acquire : Z -> T -> option (Z * T)) (release : Z -> T -> Z * T) (owner : T -> option Z) : Prop := {
  owned_init : owner init = None;
  owned_acquire t l e l' : owner l <> Some t -> acquire t l = Some (e, l') -> owner l = None /\ owner l' = Some t;
  owned_free t l : owner l = None -> is_Some (acquire t l);
  owned_release t l : owner l = Some t -> owner (release t l).2 = None;
}.

(** A reader waits for the writer, a writer for everybody; a lock that nobody holds is
    granted; [max_read_locks] is the number of read locks above which a call may fail. *)
Class PthreadLaws `{!Pthread} (mutex_owner : pthread_mutex_t -> option Z) (rw_holders : pthread_rwlock_t -> list (Z * mode))
    (spin_owner : pthread_spinlock_t -> option Z) (max_read_locks : nat) : Prop := {
  mutex_owned : owned_lock pthread_mutex_init pthread_mutex_lock pthread_mutex_unlock mutex_owner;
  spin_owned : owned_lock pthread_spin_init pthread_spin_lock pthread_spin_unlock spin_owner;
  rwlock_fresh : rw_holders pthread_rwlock_init = [];
  rdlock_granted t l e l' : t ∉ (rw_holders l).*1 -> (length (rw_holders l) < max_read_locks)%nat ->
    pthread_rwlock_rdlock t l = Some (e, l') ->
    Forall (λ h, h.2 = Shared) (rw_holders l) /\ rw_holders l' ≡ₚ (t, Shared) :: rw_holders l;
  wrlock_granted t l e l' : t ∉ (rw_holders l).*1 -> pthread_rwlock_wrlock t l = Some (e, l') ->
    rw_holders l = [] /\ rw_holders l' = [(t, Exclusive)];
  rdlock_free t l : rw_holders l = [] -> is_Some (pthread_rwlock_rdlock t l);
  wrlock_free t l : rw_holders l = [] -> is_Some (pthread_rwlock_wrlock t l);
  rwlock_release t m l : (t, m) ∈ rw_holders l -> NoDup (rw_holders l).*1 ->
    rw_holders l ≡ₚ (t, m) :: rw_holders (pthread_rwlock_unlock t l).2;
}.

(** ** The classes *)

Section classes.
Context `{!Pthread}.

Record Mutex := mkMutex { mutex_ : pthread_mutex_t }.
Definition Mutex_new : Mutex := mkMutex pthread_mutex_init.
Definition Mutex_delete (m : Mutex) : Mutex := mkMutex (pthread_mutex_destroy (mutex_ m)).2.
Definition mutex_lock (t : Z) (m : Mutex) : option (Z * Mutex) :=
  '(rt, l) ← pthread_mutex_lock t (mutex_ m); Some (rt, mkMutex l).
Definition mutex_unlock (t : Z) (m : Mutex) : Z * Mutex :=
  let '(rt, l) := pthread_mutex_unlock t (mutex_ m) in (rt, mkMutex l).

Record RWMutex := mkRWMutex { rw_mutex_ : pthread_rwlock_t }.
Definition RWMutex_new : RWMutex := mkRWMutex pthread_rwlock_init.
Definition RWMutex_delete (m : RWMutex) : RWMutex := mkRWMutex (pthread_rwlock_destroy (rw_mutex_ m)).2.
Definition rw_rlock (t : Z) (m : RWMutex) : option (Z * RWMutex) :=
  '(rt, l) ← pthread_rwlock_rdlock t (rw_mutex_ m); Some (rt, mkRWMutex l).
Definition rw_wlock (t : Z) (m : RWMutex) : option (Z * RWMutex) :=
  '(rt, l) ← pthread_rwlock_wrlock t (rw_mutex_ m); Some (rt, mkRWMutex l).
Definition rw_unlock (t : Z) (m : RWMutex) : Z * RWMutex :=
  let '(rt, l) := pthread_rwlock_unlock t (rw_mutex_ m) in (rt, mkRWMutex l).

Record SpinLock := mkSpinLock { spin_mutex_ : pthread_spinlock_t }.
Definition SpinLock_new : SpinLock := mkSpinLock pthread_spin_init.
Definition SpinLock_delete (m : SpinLock) : SpinLock := mkSpinLock (pthread_spin_destroy (spin_mutex_ m)).2.
Definition spin_lock (t : Z) (m : SpinLock) : option (Z * SpinLock) :=
  '(rt, l) ← pthread_spin_lock t (spin_mutex_ m); Some (rt, mkSpinLock l).
Definition spin_unlock (t : Z) (m : SpinLock) : Z * SpinLock :=
  let '(rt, l) := pthread_spin_unlock t (spin_mutex_ m) in (rt, mkSpinLock l).
End classes.

(** ** The guards

    What a guard template asks of its argument; the constructor locks, the destructor
    unlocks, and neither looks at the result. *)
Class Unlockable (T : Type) := unlock : Z -> T -> Z * T.
Class Lockable (T : Type) := lock : Z -> T -> option (Z * T).
Class RLockable (T : Type) := rlock : Z -> T -> option (Z * T).
Class WLockable (T : Type) := wlock : Z -> T -> option (Z * T).

Definition LockGuard {T} `{!Lockable T} (t : Z) (m : T) : option T := snd <$> lock t m.
Definition LockGuard_delete {T} `{!Unlockable T} (t : Z) (m : T) : T := (unlock t m).2.
Definition ReadLockGuard {T} `{!RLockable T} (t : Z) (m : T) : option T := snd <$> rlock t m.
Definition ReadLockGuard_delete {T} `{!Unlockable T} (t : Z) (m : T) : T := (unlock t m).2.
Definition WriteLockGuard {T} `{!WLockable T} (t : Z) (m : T) : option T := snd <$> wlock t m.
Definition WriteLockGuard_delete {T} `{!Unlockable T} (t : Z) (m : T) : T := (unlock t m).2.

#[export] Instance mutex_lockable `{!Pthread} : Lockable Mutex := mutex_lock.
#[export] Instance mutex_unlockable `{!Pthread} : Unlockable Mutex := mutex_unlock.
#[export] Instance spin_lockable `{!Pthread} : Lockable SpinLock := spin_lock.
#[export] Instance spin_unlockable `{!Pthread} : Unlockable SpinLock := spin_unlock.
#[export] Instance rw_rlockable `{!Pthread} : RLockable RWMutex := rw_rlock.
#[export] Instance rw_wlockable `{!Pthread} : WLockable RWMutex := rw_wlock.
#[export] Instance rw_unlockable `{!Pthread} : Unlockable RWMutex := rw_unlock.

(** The guards of one lock: [Lock] of [Mutex] and [SpinLock], [RLock] and [WLock] of [RWMutex]. *)
Class Guards (T K : Type) := {
  guard_new : K -> Z -> T -> option T;
  guard_delete : K -> Z -> T -> T;
  guard_mode : K -> mode;
}.
Inductive lock_guard := Lock.
Inductive rw_guard := RLock | WLock.

#[export] Instance lock_guards {T} `{!Lockable T, !Unlockable T} : Guards T lock_guard := {|
  guard_new _ := LockGuard;
  guard_delete _ := LockGuard_delete;
  guard_mode _ := Exclusive;
|}.
#[export] Instance rw_guards {T} `{!RLockable T, !WLockable T, !Unlockable T} : Guards T rw_guard := {|
  guard_new k := match k with RLock => ReadLockGuard | WLock => WriteLockGuard end;
  guard_delete k := match k with RLock => ReadLockGuard_delete | WLock => WriteLockGuard_delete end;
  guard_mode k := match k with RLock => Shared | WLock => Exclusive end;
|}.

(** ** Threads that use the guards of one lock

    A section is a guard and the accesses to the shared state in its scope; an access
    ends the scope early when it returns or throws, and the destructor runs all the same.
    Which section comes next is up to the local state of the thread. *)
Section threads.
Context {T K S L : Type} `{!Guards T K}.

Definition access : Type := S -> L -> S * L * bool.
Record section := mkSection { guard : K; body : list access }.
Record process := mkProcess { lock_ : T; shared : S; threads : gmap Z (L * option (K * list access)) }.

Fixpoint run_body (fs : list access) (s : S) (l : L) : S * L :=
  match fs with
  | [] => (s, l)
  | f :: fs => let '(s, l, stop) := f s l in if (stop : bool) then (s, l) else run_body fs s l
  end.

Context (program : Z -> L -> option section).

Inductive guarded_step : process -> process -> Prop :=
| step_guard t l sec m m' s ts :
    ts !! t = Some (l, None) -> program t l = Some sec -> guard_new (guard sec) t m = Some m' ->
    guarded_step (mkProcess m s ts) (mkProcess m' s (<[t := (l, Some (guard sec, body sec))]> ts))
| step_access t l k f fs m s s' l' stop ts :
    ts !! t = Some (l, Some (k, f :: fs)) -> f s l = (s', l', stop) ->
    guarded_step (mkProcess m s ts) (mkProcess m s' (<[t := (l', Some (k, if (stop : bool) then [] else fs))]> ts))
| step_leave t l k m s ts :
    ts !! t = Some (l, Some (k, [])) ->
    guarded_step (mkProcess m s ts) (mkProcess (guard_delete k t m) s (<[t := (l, None)]> ts)).

(** The reference: no lock, and every section at once. *)
Inductive serial_step : S * gmap Z L -> S * gmap Z L -> Prop :=
| serial t l sec s ls :
    ls !! t = Some l -> program t l = Some sec ->
    serial_step (s, ls) ((run_body (body sec) s l).1, <[t := (run_body (body sec) s l).2]> ls).

(** Under a read lock the shared state is only read. *)
Definition reads (f : access) : Prop := forall s l, (f s l).1.1 = s.
Definition readers_read : Prop := forall t l sec, program t l = Some sec -> guard_mode (guard sec) = Shared ->
  Forall reads (body sec).

Definition inside (x : L * option (K * list access)) : option mode := guard_mode ∘ fst <$> x.2.
End threads.
Arguments section : clear implicits.
Arguments process : clear implicits.

(** ** What the guards promise *)

Class GuardLaws (T K : Type) `{!Guards T K} (init : T) (holders : T -> list (Z * mode)) (limit : nat) : Prop := {
  guard_init : holders init = [];
  guard_granted k t l l' : t ∉ (holders l).*1 -> (length (holders l) < limit)%nat -> guard_new k t l = Some l' ->
    Forall (λ h, h.2 = Shared /\ guard_mode k = Shared) (holders l) /\ holders l' ≡ₚ (t, guard_mode k) :: holders l;
  guard_free k t l : holders l = [] -> is_Some (guard_new k t l);
  guard_released k t l : (t, guard_mode k) ∈ holders l -> NoDup (holders l).*1 ->
    holders l ≡ₚ (t, guard_mode k) :: holders (guard_delete k t l);
}.

(** The promise of a lock to the code that uses it.  Every run of threads on a fresh lock:
    what they have done is what they would have done one section at a time; a writer is
    alone; and a thread that has something to do never waits for nothing. *)
Definition sections_atomic (T K : Type) `{!Guards T K} (init : T) (limit : nat) : Prop :=
  forall (S L : Type) (program : Z -> L -> option (section K S L)) (s : S) (ls : gmap Z L) (c : process T K S L),
  readers_read program -> (size ls <= limit)%nat ->
  rtc (guarded_step program) (mkProcess init s ((λ l, (l, None)) <$> ls)) c ->
  (exists s' ls', rtc (serial_step program) (s, ls) (s', ls') /\
    (forall t l, threads c !! t = Some (l, None) -> ls' !! t = Some l) /\
    ((forall t x, threads c !! t = Some x -> inside x <> Some Exclusive) -> s' = shared c)) /\
  (forall t1 t2 x1 x2, threads c !! t1 = Some x1 -> threads c !! t2 = Some x2 -> t1 <> t2 ->
    inside x1 = Some Exclusive -> inside x2 = None) /\
  (forall t l b, threads c !! t = Some (l, b) -> b <> None \/ program t l <> None -> exists c', guarded_step program c c').

Section atomic.
Context {T K S L : Type} `{!Guards T K} {init : T} {holders : T -> list (Z * mode)} {limit : nat} `{!GuardLaws T K init holders limit}.
Context (program : Z -> L -> option (section K S L)) (Hreaders : readers_read program).

(** What is left of the section a thread is in. *)
Definition finish (s : S) (x : L * option (K * list (access (S := S) (L := L)))) : S * L :=
  match x.2 with None => (s, x.1) | Some (_, fs) => run_body fs s x.1 end.
Definition only_reads (x : L * option (K * list (access (S := S) (L := L)))) : Prop :=
  match x.2 with Some (k, fs) => guard_mode k = Shared -> Forall reads fs | None => True end.

(** [c] is behind the serial run at [a] by what its threads have left. *)
Record behind (c : process T K S L) (a : S * gmap Z L) : Prop := {
  b_holders : holders (lock_ c) ≡ₚ map_to_list (omap inside (threads c));
  b_size : (size (threads c) <= limit)%nat;
  b_alone t1 t2 x1 x2 : threads c !! t1 = Some x1 -> threads c !! t2 = Some x2 -> t1 <> t2 -> inside x1 = Some Exclusive -> inside x2 = None;
  b_reads t x : threads c !! t = Some x -> only_reads x;
  b_local t x : threads c !! t = Some x -> a.2 !! t = Some (finish (shared c) x).2;
  b_known t l : a.2 !! t = Some l -> is_Some (threads c !! t);
  b_shared : (exists t x, threads c !! t = Some x /\ inside x = Some Exclusive /\ a.1 = (finish (shared c) x).1) \/
    ((forall t x, threads c !! t = Some x -> inside x <> Some Exclusive) /\ a.1 = shared c);
}.

Lemma run_body_reads (fs : list (access (S := S) (L := L))) s l : Forall reads fs -> (run_body fs s l).1 = s.
Proof.
  induction 1 as [|f fs Hf _ IH] in s, l |- *; [done|]. cbn [run_body]. specialize (Hf s l). destruct (f s l) as [[s' l'] stop]. cbn in Hf. subst s'.
  by destruct stop.
Qed.
Lemma inside_free c a t l : behind c a -> threads c !! t = Some (l, None) ->
  (t ∉ (holders (lock_ c)).*1) /\ (length (holders (lock_ c)) < limit)%nat.
Proof.
  intros B Ht. assert (omap inside (threads c) !! t = None) as Hno by (rewrite lookup_omap, Ht; done). split.
  - rewrite (b_holders c a B). intros ([t' m] & -> & Hin%elem_of_map_to_list)%list_elem_of_fmap. cbn in Hno. congruence.
  - rewrite (b_holders c a B). eapply Nat.lt_le_trans, (b_size c a B). rewrite length_map_to_list, <- !size_dom. apply subset_size.
    split; [apply dom_omap_subseteq|]. intros Hsub. assert (t ∈ dom (omap inside (threads c))) as Hin by (apply Hsub, elem_of_dom; by eexists).
    by apply elem_of_dom in Hin as [? ?]; congruence.
Qed.
Lemma inside_holds c a t x m : behind c a -> threads c !! t = Some x -> inside x = Some m -> (t, m) ∈ holders (lock_ c).
Proof. intros B Ht Hx. rewrite (b_holders c a B). apply elem_of_map_to_list. by rewrite lookup_omap, Ht. Qed.
Lemma holders_NoDup c a : behind c a -> NoDup (holders (lock_ c)).*1.
Proof. intros B. rewrite (b_holders c a B). apply NoDup_fst_map_to_list. Qed.
Lemma inside_none c a : behind c a -> (forall t x, threads c !! t = Some x -> inside x = None) -> holders (lock_ c) = [].
Proof.
  intros B H. apply Permutation_nil_r. rewrite (b_holders c a B).
  assert (omap inside (threads c) = ∅) as ->; [|by rewrite map_to_list_empty].
  apply map_eq. intros t. rewrite lookup_omap, lookup_empty. destruct (threads c !! t) as [x|] eqn:E; [apply (H t x E)|done].
Qed.
(** Others than a writer see the state of the serial run. *)
Lemma shared_without_writer c a :
  behind c a -> (forall t x, threads c !! t = Some x -> inside x <> Some Exclusive) -> a.1 = shared c.
Proof. intros B H. destruct (b_shared c a B) as [(t & x & Ht & Hx & _)|[_ E]]; [by destruct (H t x Ht)|done]. Qed.

Lemma behind_init s (ls : gmap Z L) : (size ls <= limit)%nat -> behind (mkProcess init s ((λ l, (l, None)) <$> ls)) (s, ls).
Proof.
  intros Hlim. assert (forall t x, ((λ l, (l, None)) <$> ls : gmap Z (L * option (K * list (access (S := S) (L := L))))) !! t = Some x -> ls !! t = Some x.1 /\ x.2 = None) as Hin.
  { intros t x. rewrite lookup_fmap. destruct (ls !! t); [by intros [= <-]|done]. }
  split; cbn [lock_ shared threads fst snd].
  - rewrite guard_init. assert (omap inside ((λ l, (l, None)) <$> ls : gmap Z (L * option (K * list (access (S := S) (L := L))))) = ∅) as ->; [|by rewrite map_to_list_empty].
    apply map_eq. intros t. rewrite lookup_omap, lookup_fmap, lookup_empty. by destruct (ls !! t).
  - by rewrite map_size_fmap.
  - intros t1 t2 x1 x2 [_ H1]%Hin. unfold inside. by rewrite H1.
  - intros t x [_ H]%Hin. unfold only_reads. by rewrite H.
  - intros t x [Hl H]%Hin. unfold finish. by rewrite H.
  - intros t l Hl. rewrite lookup_fmap, Hl. by eexists.
  - right. split; [|done]. intros t x [_ H]%Hin. unfold inside. by rewrite H.
Qed.

Lemma behind_guard t l sec m m' s ts a :
  behind (mkProcess m s ts) a -> ts !! t = Some (l, None) -> program t l = Some sec -> guard_new (guard sec) t m = Some m' ->
  exists a', serial_step program a a' /\ behind (mkProcess m' s (<[t := (l, Some (guard sec, body sec))]> ts)) a'.
Proof.
  intros B Ht Hp Hg. destruct (inside_free _ _ t l B Ht) as [Hfree Hlim]. cbn [lock_] in Hfree, Hlim.
  destruct (guard_granted _ _ _ _ Hfree Hlim Hg) as [Hsh Hh]. rewrite Forall_forall in Hsh.
  assert (forall t2 x2 m2, ts !! t2 = Some x2 -> inside x2 = Some m2 -> m2 = Shared /\ guard_mode (guard sec) = Shared) as Hothers
    by (intros t2 x2 m2 H2 Hx2; apply (Hsh (t2, m2)), (inside_holds _ _ _ _ _ B H2 Hx2)).
  assert (a.1 = s) as Es by (apply (shared_without_writer _ _ B); intros t2 x2 H2 Hx2; destruct (Hothers _ _ _ H2 Hx2); discriminate).
  assert (a.2 !! t = Some l) as El by apply (b_local _ _ B _ _ Ht). destruct a as [s0 ls]. cbn [fst snd] in Es, El. subst s0.
  exists ((run_body (body sec) s l).1, <[t := (run_body (body sec) s l).2]> ls). split; [by constructor|].
  split; cbn [lock_ shared threads fst snd].
  - rewrite Hh, (b_holders _ _ B), omap_insert. cbn. rewrite map_to_list_insert; [done|]. by rewrite lookup_omap, Ht.
  - rewrite map_size_insert_Some by (by eexists). apply (b_size _ _ B).
  - intros t1 t2 x1 x2 [[<- <-]|[Hn1 H1]]%lookup_insert_Some [[<- <-]|[Hn2 H2]]%lookup_insert_Some Hne Hx1; [done| | |exact (b_alone _ _ B _ _ _ _ H1 H2 Hne Hx1)].
    + destruct (inside x2) as [m2|] eqn:Hx2; [|done]. destruct (Hothers _ _ _ H2 Hx2) as [_ E]. cbn in Hx1. congruence.
    + destruct (Hothers _ _ _ H1 Hx1). discriminate.
  - intros t2 x2 [[<- <-]|[_ H2]]%lookup_insert_Some; [exact (Hreaders _ _ _ Hp)|exact (b_reads _ _ B _ _ H2)].
  - intros t2 x2 [[<- <-]|[Hn H2]]%lookup_insert_Some; [by rewrite lookup_insert_eq|]. rewrite lookup_insert_ne by done. apply (b_local _ _ B _ _ H2).
  - intros t2 l2 [[<- _]|[Hn H2]]%lookup_insert_Some; [rewrite lookup_insert_eq; by eexists|]. rewrite lookup_insert_ne by done. apply (b_known _ _ B _ _ H2).
  - destruct (guard_mode (guard sec)) eqn:Em.
    + right. split; [|apply run_body_reads, (Hreaders _ _ _ Hp Em)].
      intros t2 x2 [[<- <-]|[_ H2]]%lookup_insert_Some; [cbn; congruence|]. intros Hx2. destruct (Hothers _ _ _ H2 Hx2). discriminate.
    + left. eexists t, _. rewrite lookup_insert_eq. split_and!; [done|cbn; congruence|done].
Qed.

Lemma behind_access t l k (f : access) (fs : list (access (S := S) (L := L))) m s s' l' stop (ts : gmap Z (L * option (K * list access))) a :
  behind (mkProcess m s ts) a -> ts !! t = Some (l, Some (k, f :: fs)) -> f s l = (s', l', stop) ->
  behind (mkProcess m s' (<[t := (l', Some (k, if (stop : bool) then [] else fs))]> ts)) a.
Proof.
  intros B Ht Hf. set (x' := (l', Some (k, if stop then [] else fs)) : L * option (K * list access)).
  assert (finish s' x' = finish s (l, Some (k, f :: fs))) as Efin by (unfold finish; cbn; rewrite Hf; by destruct stop).
  assert (guard_mode k = Exclusive \/ s' = s) as Hs.
  { destruct (guard_mode k) eqn:Em; [right|by left]. pose proof (b_reads _ _ B _ _ Ht Em) as [Hr _]%Forall_cons. specialize (Hr s l). by rewrite Hf in Hr. }
  assert (forall t2 x2, t <> t2 -> ts !! t2 = Some x2 -> finish s' x2 = (match inside x2 with Some _ => finish s x2 | None => (s', x2.1) end)) as Hothers.
  { intros t2 x2 Hne H2. destruct (inside x2) eqn:Hx2; [|unfold finish; unfold inside in Hx2; by destruct x2 as [? [[]|]]].
    destruct Hs as [Hk| ->]; [|done]. by rewrite (b_alone _ _ B _ _ _ _ Ht H2 Hne) in Hx2 by (cbn; congruence). }
  split; cbn [lock_ shared threads].
  - rewrite (b_holders _ _ B). cbn [threads]. rewrite omap_insert. change (inside x') with (Some (guard_mode k)). cbn iota beta. rewrite insert_id; [done|].
    apply lookup_omap_Some. eexists. split; [|exact Ht]. done.
  - rewrite map_size_insert_Some by (by eexists). apply (b_size _ _ B).
  - intros t1 t2 x1 x2 [[<- <-]|[Hn1 H1]]%lookup_insert_Some [[<- <-]|[Hn2 H2]]%lookup_insert_Some Hne Hx1; [done| | |exact (b_alone _ _ B _ _ _ _ H1 H2 Hne Hx1)].
    + by apply (b_alone _ _ B _ _ _ _ Ht H2 Hne).
    + by pose proof (b_alone _ _ B _ _ _ _ H1 Ht Hne Hx1).
  - intros t2 x2 [[<- <-]|[_ H2]]%lookup_insert_Some; [|exact (b_reads _ _ B _ _ H2)].
    intros Em. pose proof (b_reads _ _ B _ _ Ht Em) as [_ Hr]%Forall_cons. by destruct stop; [constructor|].
  - intros t2 x2 [[<- <-]|[Hn H2]]%lookup_insert_Some; [rewrite Efin; apply (b_local _ _ B _ _ Ht)|].
    rewrite (b_local _ _ B _ _ H2), (Hothers t2 x2 Hn H2). cbn [shared]. by destruct x2 as [? [[]|]].
  - intros t2 l2 H2. destruct (decide (t = t2)) as [<-|Hn]; [rewrite lookup_insert_eq; by eexists|]. rewrite lookup_insert_ne by done. apply (b_known _ _ B _ _ H2).
  - destruct (b_shared _ _ B) as [(t2 & x2 & H2 & Hx2 & E)|[Hno E]]; cbn [threads shared] in *.
    + left. destruct (decide (t = t2)) as [<-|Hn].
      * eexists t, _. rewrite lookup_insert_eq. rewrite Ht in H2. injection H2 as <-. split_and!; [done|exact Hx2|]. by rewrite Efin.
      * exists t2, x2. rewrite lookup_insert_ne by done. split_and!; [done|done|]. rewrite (Hothers t2 x2 Hn H2), Hx2. done.
    + right. destruct Hs as [Hk| ->]; [by destruct (Hno _ _ Ht); cbn; rewrite Hk|]. split; [|done].
      intros t2 x2 [[<- <-]|[_ H2]]%lookup_insert_Some; [exact (Hno _ _ Ht)|exact (Hno _ _ H2)].
Qed.

Lemma behind_leave t l k m s (ts : gmap Z (L * option (K * list (access (S := S) (L := L))))) a :
  behind (mkProcess m s ts) a -> ts !! t = Some (l, Some (k, [])) ->
  behind (mkProcess (guard_delete k t m) s (<[t := (l, None)]> ts)) a.
Proof.
  intros B Ht. pose proof (inside_holds _ _ _ _ _ B Ht eq_refl) as Hin. cbn [lock_ fst] in Hin.
  split; cbn [lock_ shared threads].
  - apply (Permutation_cons_inv (a := (t, guard_mode k))).
    rewrite <- (guard_released k t m Hin (holders_NoDup _ _ B)), (b_holders _ _ B). cbn [threads]. rewrite omap_insert. cbn [inside snd fmap option_fmap option_map].
    symmetry. apply map_to_list_delete, lookup_omap_Some. eexists. split; [|exact Ht]. done.
  - rewrite map_size_insert_Some by (by eexists). apply (b_size _ _ B).
  - intros t1 t2 x1 x2 [[<- <-]|[Hn1 H1]]%lookup_insert_Some [[<- <-]|[Hn2 H2]]%lookup_insert_Some Hne Hx1; [done|done|done|].
    exact (b_alone _ _ B _ _ _ _ H1 H2 Hne Hx1).
  - intros t2 x2 [[<- <-]|[_ H2]]%lookup_insert_Some; [done|exact (b_reads _ _ B _ _ H2)].
  - intros t2 x2 [[<- <-]|[Hn H2]]%lookup_insert_Some; [exact (b_local _ _ B _ _ Ht)|exact (b_local _ _ B _ _ H2)].
  - intros t2 l2 H2. destruct (decide (t = t2)) as [<-|Hn]; [rewrite lookup_insert_eq; by eexists|]. rewrite lookup_insert_ne by done. apply (b_known _ _ B _ _ H2).
  - destruct (b_shared _ _ B) as [(t2 & x2 & H2 & Hx2 & E)|[Hno E]]; cbn [threads shared] in *.
    + destruct (decide (t = t2)) as [<-|Hn]; [right|left; exists t2, x2; by rewrite lookup_insert_ne by done].
      rewrite Ht in H2. injection H2 as <-. split; [|exact E].
      intros t3 x3 [[<- <-]|[Hn3 H3]]%lookup_insert_Some; [done|]. by rewrite (b_alone _ _ B _ _ _ _ Ht H3 Hn3 Hx2).
    + right. split; [|done]. intros t2 x2 [[<- <-]|[_ H2]]%lookup_insert_Some; [done|exact (Hno _ _ H2)].
Qed.

Lemma behind_step c c' a : behind c a -> guarded_step program c c' -> exists a', rtc (serial_step program) a a' /\ behind c' a'.
Proof.
  intros B Hstep. destruct Hstep as [t l sec m m' s ts Ht Hp Hg|t l k f fs m s s' l' stop ts Ht Hf|t l k m s ts Ht].
  - destruct (behind_guard _ _ _ _ _ _ _ _ B Ht Hp Hg) as (a' & Hs & B'). exists a'. split; [by apply rtc_once|done].
  - exists a. split; [done|]. by eapply behind_access.
  - exists a. split; [done|]. by eapply behind_leave.
Qed.
Lemma behind_run c c' a : behind c a -> rtc (guarded_step program) c c' -> exists a', rtc (serial_step program) a a' /\ behind c' a'.
Proof.
  intros B H. induction H as [c|c c1 c' Hs _ IH] in a, B |- *; [by exists a|].
  destruct (behind_step _ _ _ B Hs) as (a1 & Ha1 & B1). destruct (IH _ B1) as (a' & Ha' & B'). exists a'. split; [by etrans|done].
Qed.

(** Who is inside can go on; when nobody is, the lock is free for whoever comes. *)
Lemma behind_progress c a t l b :
  behind c a -> threads c !! t = Some (l, b) -> b <> None \/ program t l <> None -> exists c', guarded_step program c c'.
Proof.
  intros B Ht Hb. destruct c as [m s ts]. cbn [threads] in Ht.
  assert (forall t l k fs, ts !! t = Some (l, Some (k, fs)) -> exists c', guarded_step program (mkProcess m s ts) c') as Hin.
  { intros t1 l1 k [|f fs] H1; [eexists; by eapply step_leave|]. destruct (f s l1) as [[s' l'] stop] eqn:E. eexists. by eapply step_access. }
  destruct b as [[k fs]|]; [by eapply Hin|]. destruct (program t l) as [sec|] eqn:Ep; [|by destruct Hb].
  destruct (decide (map_Forall (λ _ x, inside x = None) ts)) as [Hno|Hno].
  - destruct (guard_free (guard sec) t m) as [m' Hm']; [|eexists; by eapply step_guard]. exact (inside_none _ _ B Hno).
  - apply map_not_Forall in Hno as (t1 & [l1 [[k fs]|]] & H1 & Hx); [by eapply Hin|by destruct Hx|apply _].
Qed.
End atomic.

Lemma guards_atomic {T K} `{!Guards T K} {init holders limit} : GuardLaws T K init holders limit -> sections_atomic T K init limit.
Proof.
  intros Hlaws S L program s ls c Hr Hlim Hrun. destruct (behind_run program Hr _ _ _ (behind_init s ls Hlim) Hrun) as ([s' ls'] & Hser & B).
  split_and!.
  - exists s', ls'. split_and!; [done|intros t l Ht; exact (b_local _ _ B _ _ Ht)|]. intros Hno. exact (shared_without_writer _ _ B Hno).
  - intros t1 t2 x1 x2 H1 H2. exact (b_alone _ _ B _ _ _ _ H1 H2).
  - intros t l b Ht. by eapply behind_progress.
Qed.

(** ** The guards of the three classes keep the promise *)

Definition one_owner (o : option Z) : list (Z * mode) := match o with Some t => [(t, Exclusive)] | None => [] end.

(** [LockGuard] over any class whose [lock] and [unlock] treat it as a lock with one owner. *)
Lemma lock_guard_laws {T} `{!Lockable T, !Unlockable T} (init : T) (owner : T -> option Z) limit :
  owned_lock init lock unlock owner -> GuardLaws T lock_guard init (one_owner ∘ owner) limit.
Proof.
  intros [Hi Ha Hf Hr]. split; cbn [guard_new guard_delete guard_mode lock_guards compose].
  - by rewrite Hi.
  - intros _ t l l' Hn _ ([e l1] & E & ->)%fmap_Some. cbn [snd]. destruct (Ha t l e l1) as [H1 H2]; [|exact E|by rewrite H1, H2].
    intros Ho. apply Hn. rewrite Ho. by left.
  - intros _ t l Hl. apply fmap_is_Some, Hf. by destruct (owner l).
  - intros _ t l Hin _. destruct (owner l) as [t'|] eqn:Eo; [|by apply elem_of_nil in Hin]. apply list_elem_of_singleton in Hin as [= <-].
    unfold LockGuard_delete. by rewrite Hr.
Qed.

Section pthread_facts.
Context `{!Pthread} {mutex_owner rw_holders spin_owner max_read_locks} `{!PthreadLaws mutex_owner rw_holders spin_owner max_read_locks}.

Lemma mutex_is_owned : owned_lock Mutex_new lock unlock (mutex_owner ∘ mutex_).
Proof.
  destruct mutex_owned as [Hi Ha Hf Hr]. split; unfold lock, mutex_lockable, mutex_lock, unlock, mutex_unlockable, mutex_unlock; cbn [compose].
  - exact Hi.
  - intros t [l] e l' Hn E. cbn in *. destruct (pthread_mutex_lock t l) as [[e1 l1]|] eqn:El; [|done]. injection E as _ <-. by apply (Ha t l e1 l1).
  - intros t [l] Hl. cbn in *. destruct (Hf t l Hl) as [[e l'] ->]. by eexists.
  - intros t [l] Hl. cbn in *. specialize (Hr t l Hl). by destruct (pthread_mutex_unlock t l).
Qed.
Lemma spin_is_owned : owned_lock SpinLock_new lock unlock (spin_owner ∘ spin_mutex_).
Proof.
  destruct spin_owned as [Hi Ha Hf Hr]. split; unfold lock, spin_lockable, spin_lock, unlock, spin_unlockable, spin_unlock; cbn [compose].
  - exact Hi.
  - intros t [l] e l' Hn E. cbn in *. destruct (pthread_spin_lock t l) as [[e1 l1]|] eqn:El; [|done]. injection E as _ <-. by apply (Ha t l e1 l1).
  - intros t [l] Hl. cbn in *. destruct (Hf t l Hl) as [[e l'] ->]. by eexists.
  - intros t [l] Hl. cbn in *. specialize (Hr t l Hl). by destruct (pthread_spin_unlock t l).
Qed.

Lemma read_guard_granted t l l' :
  ReadLockGuard t (mkRWMutex l) = Some l' -> exists e, pthread_rwlock_rdlock t l = Some (e, rw_mutex_ l').
Proof.
  unfold ReadLockGuard, rlock, rw_rlockable, rw_rlock. cbn. destruct (pthread_rwlock_rdlock t l) as [[e l1]|]; [|done]. intros [= <-]. by exists e.
Qed.
Lemma write_guard_granted t l l' :
  WriteLockGuard t (mkRWMutex l) = Some l' -> exists e, pthread_rwlock_wrlock t l = Some (e, rw_mutex_ l').
Proof.
  unfold WriteLockGuard, wlock, rw_wlockable, rw_wlock. cbn. destruct (pthread_rwlock_wrlock t l) as [[e l1]|]; [|done]. intros [= <-]. by exists e.
Qed.
Lemma rw_guard_laws : GuardLaws RWMutex rw_guard RWMutex_new (rw_holders ∘ rw_mutex_) max_read_locks.
Proof.
  split; cbn [compose].
  - exact rwlock_fresh.
  - intros [|] t [l] l' Hn Hlim E; cbn [guard_new guard_mode rw_guards rw_mutex_] in *.
    + apply read_guard_granted in E as [e E]. destruct (rdlock_granted t l e _ Hn Hlim E) as [H1 H2]. split; [|done].
      eapply Forall_impl; [exact H1|done].
    + apply write_guard_granted in E as [e E]. destruct (wrlock_granted t l e _ Hn E) as [-> ->]. done.
  - intros [|] t [l] Hl; cbn in *; unfold ReadLockGuard, WriteLockGuard, rlock, wlock, rw_rlockable, rw_wlockable, rw_rlock, rw_wlock; cbn.
    + destruct (rdlock_free t l Hl) as [[e l'] ->]. by eexists.
    + destruct (wrlock_free t l Hl) as [[e l'] ->]. by eexists.
  - intros k t [l] Hin Hnd. cbn [rw_mutex_] in *. pose proof (rwlock_release t _ l Hin Hnd) as Hrel.
    destruct k; cbn [guard_delete rw_guards]; unfold ReadLockGuard_delete, WriteLockGuard_delete, unlock, rw_unlockable, rw_unlock; cbn [rw_mutex_].
    all: by destruct (pthread_rwlock_unlock t l).
Qed.
End pthread_facts.

(** ** The locks of Linux *)

Definition EAGAIN : Z := 11.
Definition EDEADLK : Z := 35.
Definition MAX_READERS : nat := 1000.

Definition own_lock (t : Z) (l : option Z) : option (Z * option Z) := match l with None => Some (0, Some t) | Some _ => None end.
Definition own_unlock (t : Z) (l : option Z) : Z * option Z := (0, None).
Definition linux_rdlock (t : Z) (l : list (Z * mode)) : option (Z * list (Z * mode)) :=
  if bool_decide ((t, Exclusive) ∈ l) then Some (EDEADLK, l)
  else if existsb (λ h, bool_decide (h.2 = Exclusive)) l then None
  else if (MAX_READERS <=? length l)%nat then Some (EAGAIN, l)
  else Some (0, (t, Shared) :: l).
Definition linux_wrlock (t : Z) (l : list (Z * mode)) : option (Z * list (Z * mode)) :=
  if bool_decide ((t, Exclusive) ∈ l) then Some (EDEADLK, l)
  else match l with [] => Some (0, [(t, Exclusive)]) | _ => None end.
Fixpoint linux_rwunlock (t : Z) (l : list (Z * mode)) : list (Z * mode) :=
  match l with [] => [] | h :: l => if h.1 =? t then l else h :: linux_rwunlock t l end.

#[export] Instance linux : Pthread := {|
  pthread_mutex_t := option Z; pthread_mutex_init := None; pthread_mutex_destroy l := (0, l);
  pthread_mutex_lock := own_lock; pthread_mutex_unlock := own_unlock;
  pthread_rwlock_t := list (Z * mode); pthread_rwlock_init := []; pthread_rwlock_destroy l := (0, l);
  pthread_rwlock_rdlock := linux_rdlock; pthread_rwlock_wrlock := linux_wrlock; pthread_rwlock_unlock t l := (0, linux_rwunlock t l);
  pthread_spinlock_t := option Z; pthread_spin_init := None; pthread_spin_destroy l := (0, l);
  pthread_spin_lock := own_lock; pthread_spin_unlock := own_unlock;
|}.

Lemma own_lock_owned : owned_lock None own_lock own_unlock id.
Proof. split; try done. - by intros t [] e l' Hn [=]; subst. - intros t l Hl. cbn in Hl. subst l. by eexists. Qed.
Lemma not_holding (t : Z) (m : mode) l : t ∉ l.*1 -> bool_decide ((t, m) ∈ l) = false.
Proof. intros Hn. apply bool_decide_false. intros Hin. apply Hn, list_elem_of_fmap. by exists (t, m). Qed.
Lemma rwunlock_one t m l : (t, m) ∈ l -> NoDup l.*1 -> l ≡ₚ (t, m) :: linux_rwunlock t l.
Proof.
  induction l as [|[t' m'] l IH]; [by intros ?%elem_of_nil|]. cbn [linux_rwunlock fmap list_fmap fst]. intros Hin [Hni Hnd]%NoDup_cons.
  destruct (Z.eqb_spec t' t) as [->|Hne].
  - apply elem_of_cons in Hin as [[= ->]|Hin]; [done|]. destruct Hni. apply list_elem_of_fmap. by exists (t, m).
  - apply elem_of_cons in Hin as [[= -> ->]|Hin]; [done|]. rewrite (IH Hin Hnd) at 1. apply perm_swap.
Qed.
#[export] Instance linux_laws : PthreadLaws (id : option Z -> option Z) (id : list (Z * mode) -> list (Z * mode)) id MAX_READERS.
Proof.
  split; try exact own_lock_owned; cbn [pthread_rwlock_t pthread_rwlock_init pthread_rwlock_rdlock pthread_rwlock_wrlock pthread_rwlock_unlock linux id].
  - done.
  - intros t l e l' Hn Hlim. unfold linux_rdlock. rewrite not_holding by done. destruct (existsb _ l) eqn:Ex; [done|].
    destruct (Nat.leb_spec MAX_READERS (length l)); [lia|]. intros [= _ <-]. split; [|done]. apply Forall_forall. intros [t' []] Hin; [done|].
    exfalso. apply list_elem_of_In in Hin. enough (existsb (λ h : Z * mode, bool_decide (h.2 = Exclusive)) l = true) by congruence.
    apply existsb_exists. by exists (t', Exclusive).
  - intros t l e l' Hn. unfold linux_wrlock. rewrite not_holding by done. destruct l; [|done]. by intros [= _ <-].
  - intros t l ->. by eexists.
  - intros t l ->. by eexists.
  - intros t m l. apply rwunlock_one.
Qed.

(** ** [ConfigVar::set_value] under its lock (config.h)

    The listeners are called in the scope of a read lock, the value is assigned in the
    scope of a write lock.  The shared state is [value_] and what the listeners were told. *)
Record call := mkCall { new_value : Z; pc : nat }.
Definition set_value_sections (_ : Z) (l : call) : option (section rw_guard (Z * list (Z * Z)) call) :=
  match pc l with
  | 0%nat => Some (mkSection RLock
      [ (λ s l, if new_value l =? s.1 then (s, mkCall (new_value l) 2, true) else (s, l, false));
        (λ s l, ((s.1, s.2 ++ [(s.1, new_value l)]), mkCall (new_value l) 1, false)) ])
  | 1%nat => Some (mkSection WLock [ (λ s l, ((new_value l, s.2), mkCall (new_value l) 2, false)) ])
  | _ => None
  end.
(** What the listeners know: the new value they were told last. *)
Definition known (old : Z) (told : list (Z * Z)) : Z := match last told with Some (_, v) => v | None => old end.

(** One step of thread [t] of a concrete run. *)
Ltac run_guard t := eapply rtc_l; [eapply (step_guard _ t); reflexivity|].
Ltac run_access t := eapply rtc_l; [eapply (step_access _ t); reflexivity|].
Ltac run_leave t := eapply rtc_l; [eapply (step_leave _ t); reflexivity|].

(** ** Claims *)

(** (C11) What the guards of [Mutex], [SpinLock] and [RWMutex] are for.  Any number of threads run
    sections under the guards of one lock, interleaved access by access, leaving early or not; those under a
    read guard only read, and there are not more threads than read locks.  At every moment: there is a serial run, in which each section happens at once, that gives every
    thread outside a section its local state, and the shared state unless a writer is at work; a
    thread under a write guard is alone; and some thread can go on unless all are done. *)
Theorem guarded_sections_atomic `{!Pthread} mutex_owner rw_holders spin_owner max_read_locks :
  PthreadLaws mutex_owner rw_holders spin_owner max_read_locks ->
  (forall n, sections_atomic Mutex lock_guard Mutex_new n) /\
  (forall n, sections_atomic SpinLock lock_guard SpinLock_new n) /\
  sections_atomic RWMutex rw_guard RWMutex_new max_read_locks.
Proof.
  intros Hlaws. split_and!.
  - intros n. exact (guards_atomic (lock_guard_laws _ _ n mutex_is_owned)).
  - intros n. exact (guards_atomic (lock_guard_laws _ _ n spin_is_owned)).
  - exact (guards_atomic rw_guard_laws).
Qed.

(** Readers that count, and a writer that takes two steps. *)
Definition sample_sections (t : Z) (l : Z) : option (section rw_guard Z Z) :=
  if l =? 0 then Some (if t =? 1 then mkSection WLock [ (λ s l, (s + 1, l, false)); (λ s l, (s + 1, 1, false)) ]
                       else mkSection RLock [ (λ s l, (s, s + 1, true)); (λ s l, (s, 0, false)) ])
  else None.
Lemma guarded_sections_atomic_witness :
  exists s' ls', rtc (serial_step sample_sections) (5, {[ 1 := 0; 2 := 0 ]}) (s', ls') /\ ls' !! 2 = Some 6 /\ s' = 5.
Proof.
  pose proof (guarded_sections_atomic _ _ _ _ linux_laws) as (_ & _ & H).
  edestruct (H Z Z sample_sections 5 {[ 1 := 0; 2 := 0 ]}) as [(s' & ls' & Hser & Hl & Hs) _].
  - intros t l sec. unfold sample_sections. destruct (l =? 0); [|done]. destruct (t =? 1); intros [= <-]; [done|]. by repeat constructor.
  - vm_compute. lia.
  - run_guard 2. run_access 2. run_leave 2. reflexivity.
  - exists s', ls'. split_and!; [exact Hser|apply Hl; reflexivity|apply Hs].
    cbn [threads]. intros t x [[_ <-]|[Hn Hx]]%lookup_insert_Some; [done|]. rewrite !lookup_insert_ne, lookup_fmap in Hx by done.
    by destruct ({[1 := 0; 2 := 0]} !! t); [injection Hx as <-|].
Defined.

(** The guards do not look at the result of the lock.  A write guard inside another one of
    the same thread gets EDEADLK, and its destructor gives the lock of the outer one away. *)
Lemma nested_write_guard (t : Z) (m m1 : RWMutex) :
  WriteLockGuard t m = Some m1 -> rw_mutex_ m = [] ->
  rw_wlock t m1 = Some (EDEADLK, m1) /\
  exists m2, WriteLockGuard t m1 = Some m2 /\ rw_mutex_ (WriteLockGuard_delete t m2) = [].
Proof.
  destruct m as [l]. cbn [rw_mutex_]. intros E ->. vm_compute in E. injection E as <-.
  assert (rw_wlock t (mkRWMutex [(t, Exclusive)]) = Some (EDEADLK, mkRWMutex [(t, Exclusive)])) as E.
  { unfold rw_wlock. cbn [pthread_rwlock_wrlock linux rw_mutex_]. unfold linux_wrlock. by rewrite bool_decide_true by (by left). }
  split; [exact E|]. exists (@mkRWMutex linux [(t, Exclusive)]). split.
  - unfold WriteLockGuard, wlock, rw_wlockable. exact (f_equal (fmap snd) E).
  - unfold WriteLockGuard_delete, unlock, rw_unlockable, rw_unlock. cbn. by rewrite Z.eqb_refl.
Qed.
(** A thread that holds a read guard never gets a write guard of the same lock: a listener
    that asks its own variable for [get_value], which takes the write lock, is called by
    [set_value] under the read lock. *)
Lemma upgrade_blocks (t : Z) (m : RWMutex) :
  (t, Shared) ∈ rw_mutex_ m -> (t, Exclusive) ∉ rw_mutex_ m -> WriteLockGuard t m = None.
Proof.
  intros Hin Hn. unfold WriteLockGuard, wlock, rw_wlockable, rw_wlock. cbn [pthread_rwlock_wrlock linux]. unfold linux_wrlock.
  rewrite bool_decide_false by done. destruct m as [[|h l]]; [by apply not_elem_of_nil in Hin|reflexivity].
Qed.

(** A call of [set_value] that is not disturbed leaves the listeners with the value of the
    variable ... *)
Lemma set_value_alone v w told (t : Z) :
  known v told = v -> exists told', rtc (serial_step set_value_sections) ((v, told), {[ t := mkCall w 0 ]}) ((w, told'), {[ t := mkCall w 2 ]}) /\
    known w told' = w.
Proof.
  intros Hk. destruct (Z.eqb_spec w v) as [->|Hne].
  - exists told. split; [|done]. eapply rtc_l; [eapply (serial _ t); [apply lookup_insert_eq|reflexivity]|].
    cbn [run_body body new_value fst]. rewrite Z.eqb_refl. cbn [fst snd]. by rewrite insert_singleton_eq.
  - exists (told ++ [(v, w)]). split; [|unfold known; by rewrite last_snoc].
    eapply rtc_l; [eapply (serial _ t); [apply lookup_insert_eq|reflexivity]|].
    cbn [run_body body new_value fst]. rewrite (proj2 (Z.eqb_neq w v)) by done. cbn [fst snd new_value]. rewrite insert_singleton_eq.
    eapply rtc_l; [eapply (serial _ t); [apply lookup_insert_eq|reflexivity]|]. cbn. by rewrite insert_singleton_eq.
Qed.
(** ... but two calls can leave them with the value of the other one: the listeners hear of
    1 and then of 2, and the variable is 1. *)
Lemma set_value_race :
  exists c, rtc (guarded_step set_value_sections) (mkProcess RWMutex_new (0, []) ((λ l, (l, None)) <$> {[ 1 := mkCall 1 0; 2 := mkCall 2 0 ]})) c /\
    threads c = (λ l, (l, None)) <$> {[ 1 := mkCall 1 2; 2 := mkCall 2 2 ]} /\
    (shared c).1 = 1 /\ known 0 (shared c).2 = 2.
Proof.
  eexists. split.
  - run_guard 1. run_access 1. run_access 1. run_leave 1.
    run_guard 2. run_access 2. run_access 2. run_leave 2.
    run_guard 2. run_access 2. run_leave 2. run_guard 1. run_access 1. run_leave 1. reflexivity.
  - split_and!; [|reflexivity|reflexivity]. apply map_eq. intros t. cbn [threads].
    destruct (decide (t = 1)) as [->|H1]; [reflexivity|]. destruct (decide (t = 2)) as [->|H2]; [reflexivity|].
    rewrite !lookup_insert_ne by done. rewrite !lookup_fmap, !lookup_insert_ne by done. by rewrite !lookup_singleton_ne.
Qed.
