(* ===== verification/Endian.v ===== *)
(** * Byte order: [namespace Endian] of src/sylar/util.cpp

    Integers in memory are lists of bytes, least significant byte first: the
    context switch of the library (swap_context.S) is x86-64 code, so the host
    is little-endian.  [htons] and [htonl] of libc reverse the bytes there;
    the 64-bit conversion is the program's own and is translated as written.
    The theorems show that an integer converted by [host_to_network] lies in
    memory most significant byte first, and that [network_to_host] undoes it. *)

From S2P Require Import Prelude.

(** ** Integers in memory *)

Fixpoint to_le (n : nat) (v : Z) : list Z :=
  match n with
  | O => []
  | S n => v mod 256 :: to_le n (v / 256)
  end.

Fixpoint of_le (bs : list Z) : Z :=
  match bs with
  | [] => 0
  | b :: bs => b + 256 * of_le bs
  end.

Definition is_byte (b : Z) : Prop := 0 <= b < 256.
#[export] Instance is_byte_dec b : Decision (is_byte b).
Proof. unfold is_byte. apply _. Defined.

(** ** The conversions of the program *)

Definition htons (v : Z) : Z := of_le (rev (to_le 2 v)).
Definition htonl (v : Z) : Z := of_le (rev (to_le 4 v)).
Definition ntohs (v : Z) : Z := of_le (rev (to_le 2 v)).
Definition ntohl (v : Z) : Z := of_le (rev (to_le 4 v)).

Definition host_to_network_u8 (value : Z) : Z := value.
Definition host_to_network_u16 (value : Z) : Z := htons value.
Definition host_to_network_u32 (value : Z) : Z := htonl value.
Definition host_to_network_u64 (value : Z) : Z :=
  Z.lor (u64 (Z.shiftl (htonl (Z.land value 0xFFFFFFFF)) 32))
        (htonl (u32 (Z.shiftr value 32))).

Definition network_to_host_u8 (value : Z) : Z := value.
Definition network_to_host_u16 (value : Z) : Z := ntohs value.
Definition network_to_host_u32 (value : Z) : Z := ntohl value.
Definition network_to_host_u64 (value : Z) : Z :=
  Z.lor (u64 (Z.shiftl (ntohl (Z.land value 0xFFFFFFFF)) 32))
        (ntohl (u32 (Z.shiftr value 32))).

Definition network_to_host_i8 (value : Z) : Z := value.
Definition network_to_host_i16 (value : Z) : Z :=
  sint 16 (network_to_host_u16 (u16 value)).
Definition network_to_host_i32 (value : Z) : Z :=
  i32 (network_to_host_u32 (u32 value)).
Definition network_to_host_i64 (value : Z) : Z :=
  i64 (network_to_host_u64 (u64 value)).

(** ** Facts on byte lists *)

Lemma length_to_le n v : length (to_le n v) = n.
Proof. revert v. induction n; simpl; intros; by f_equal. Qed.

Lemma to_le_bytes n v : Forall is_byte (to_le n v).
Proof.
  revert v. induction n; simpl; intros; constructor; [|done].
  apply Z.mod_pos_bound. lia.
Qed.

Lemma of_le_range bs :
  Forall is_byte bs -> 0 <= of_le bs < 256 ^ len bs.
Proof.
  induction 1 as [|b bs Hb _ IH]; simpl length; simpl of_le.
  - by simpl.
  - rewrite Nat2Z.inj_succ, Z.pow_succ_r by lia. unfold is_byte in Hb. lia.
Qed.

Lemma of_le_to_le n v : of_le (to_le n v) = v mod 256 ^ Z.of_nat n.
Proof.
  revert v. induction n as [|n IH]; intros v.
  - simpl. by rewrite Z.mod_1_r.
  - simpl to_le. simpl of_le. rewrite IH, Nat2Z.inj_succ, Z.pow_succ_r by lia.
    rewrite Z.rem_mul_r by (try apply Z.pow_nonzero; lia). lia.
Qed.

Lemma to_le_of_le bs :
  Forall is_byte bs -> to_le (length bs) (of_le bs) = bs.
Proof.
  induction 1 as [|b bs Hb _ IH]; [done|].
  simpl. unfold is_byte in Hb. f_equal.
  - rewrite Z.mul_comm, Z.mod_add, Z.mod_small by lia. done.
  - by rewrite (Z.mul_comm 256), Z.div_add, (Z.div_small b), Z.add_0_l, IH by lia.
Qed.

Lemma of_le_app a b : of_le (a ++ b) = of_le a + 256 ^ len a * of_le b.
Proof.
  induction a as [|x a IH].
  - cbn [app of_le length]. change (256 ^ Z.of_nat 0) with 1. lia.
  - simpl app. simpl length. simpl of_le. rewrite IH, Nat2Z.inj_succ, Z.pow_succ_r by lia. lia.
Qed.

Lemma to_le_app m n v : to_le (m + n) v = to_le m v ++ to_le n (v / 256 ^ Z.of_nat m).
Proof.
  revert v. induction m as [|m IH]; intros v.
  - cbn [to_le app Nat.add]. change (256 ^ Z.of_nat 0) with 1. by rewrite Z.div_1_r.
  - cbn [to_le app Nat.add]. rewrite IH, Nat2Z.inj_succ, Z.pow_succ_r by lia.
    rewrite Z.div_div by (try apply Z.pow_pos_nonneg; lia). done.
Qed.

Lemma to_le_mod n v m :
  Z.of_nat n <= m -> to_le n (v mod 256 ^ m) = to_le n v.
Proof.
  revert v m. induction n as [|n IH]; intros v m Hm; [done|].
  simpl. replace m with (Z.succ (m - 1)) by lia. rewrite Z.pow_succ_r by lia.
  assert (0 < 256 ^ (m - 1)) by (apply Z.pow_pos_nonneg; lia).
  rewrite Z.rem_mul_r by lia. f_equal.
  - rewrite (Z.mul_comm 256), Z.mod_add, Z.mod_mod by lia. done.
  - rewrite (Z.mul_comm 256), Z.div_add by lia.
    rewrite (Z.div_small (v mod 256)) by (apply Z.mod_pos_bound; lia).
    rewrite Z.add_0_l, IH by lia. done.
Qed.

(** Reversal commutes with reading and is its own inverse. *)
Lemma rev_of_le_rev n v :
  to_le n (of_le (rev (to_le n v))) = rev (to_le n v).
Proof.
  assert (length (rev (to_le n v)) = n) as E by (rewrite length_rev; apply length_to_le).
  rewrite <- E at 1. apply to_le_of_le, Forall_rev, to_le_bytes.
Qed.

Lemma lor_shiftl_add a b k :
  0 <= k -> 0 <= b < 2 ^ k -> Z.lor (Z.shiftl a k) b = a * 2 ^ k + b.
Proof.
  intros Hk Hb. rewrite Z.shiftl_mul_pow2 by lia.
  rewrite <- Z.add_lor_land.
  assert (Z.land (a * 2 ^ k) b = 0) as ->; [|lia].
  apply Z.bits_inj'. intros i Hi. rewrite Z.land_spec, Z.bits_0.
  destruct (decide (i < k)).
  - rewrite Z.mul_pow2_bits_low by lia. done.
  - rewrite <- (Z.mod_small b (2 ^ k)) by lia.
    rewrite Z.mod_pow2_bits_high by lia. apply andb_false_r.
Qed.

Lemma htonl_range v : 0 <= htonl v < 2 ^ 32.
Proof.
  unfold htonl.
  pose proof (of_le_range (rev (to_le 4 v)) (Forall_rev (to_le_bytes 4 v))) as H.
  rewrite length_rev, length_to_le in H. exact H.
Qed.

(** The program's 64-bit conversion is the reversal of the eight bytes. *)
Lemma host_to_network_u64_rev v :
  0 <= v < 2 ^ 64 -> host_to_network_u64 v = of_le (rev (to_le 8 v)).
Proof.
  intros Hv. unfold host_to_network_u64.
  pose proof (htonl_range (Z.land v 0xFFFFFFFF)) as Ha.
  pose proof (htonl_range (u32 (Z.shiftr v 32))) as Hb.
  rewrite uint_small.
  2:{ rewrite Z.shiftl_mul_pow2 by lia. lia. }
  rewrite lor_shiftl_add by lia.
  change 8%nat with (4 + 4)%nat. rewrite to_le_app, rev_app_distr, of_le_app.
  rewrite length_rev, length_to_le. unfold htonl.
  change 0xFFFFFFFF with (Z.ones 32). rewrite Z.land_ones by lia.
  rewrite Z.shiftr_div_pow2 by lia.
  change (2 ^ 32) with (256 ^ 4). change (Z.of_nat 4) with 4.
  rewrite (to_le_mod 4 v 4) by lia. unfold uint.
  change (2 ^ 32) with (256 ^ 4). rewrite to_le_mod by lia. lia.
Qed.

Lemma network_to_host_u64_eq v : network_to_host_u64 v = host_to_network_u64 v.
Proof. done. Qed.

Lemma of_le_rev_twice n v :
  of_le (rev (to_le n (of_le (rev (to_le n v))))) = v mod 256 ^ Z.of_nat n.
Proof. by rewrite rev_of_le_rev, rev_involutive, of_le_to_le. Qed.

(** ** Theorem *)

(** [host_to_network] leaves an integer in memory most significant byte first,
    for every width, and [network_to_host] gives it back.  *)
Theorem network_byte_order v :
  (0 <= v < 2 ^ 16 -> to_le 2 (host_to_network_u16 v) = rev (to_le 2 v) /\
                      network_to_host_u16 (host_to_network_u16 v) = v) /\
  (0 <= v < 2 ^ 32 -> to_le 4 (host_to_network_u32 v) = rev (to_le 4 v) /\
                      network_to_host_u32 (host_to_network_u32 v) = v) /\
  (0 <= v < 2 ^ 64 -> to_le 8 (host_to_network_u64 v) = rev (to_le 8 v) /\
                      network_to_host_u64 (host_to_network_u64 v) = v).
Proof.
  split_and!; intros Hv; (split; [|]).
  - apply rev_of_le_rev.
  - unfold network_to_host_u16, host_to_network_u16, ntohs, htons. rewrite of_le_rev_twice.
    by apply Z.mod_small.
  - apply rev_of_le_rev.
  - unfold network_to_host_u32, host_to_network_u32, ntohl, htonl. rewrite of_le_rev_twice.
    by apply Z.mod_small.
  - rewrite host_to_network_u64_rev by done. apply rev_of_le_rev.
  - rewrite network_to_host_u64_eq, (host_to_network_u64_rev v), host_to_network_u64_rev; auto.
    + rewrite of_le_rev_twice. by apply Z.mod_small.
    + pose proof (of_le_range (rev (to_le 8 v)) (Forall_rev (to_le_bytes 8 v))) as Hr.
      by rewrite length_rev, length_to_le in Hr.
Qed.

Lemma network_byte_order_witness :
  (0 <= 258 < 2 ^ 16 -> to_le 2 (host_to_network_u16 258) = rev (to_le 2 258) /\
                      network_to_host_u16 (host_to_network_u16 258) = 258) /\
  (0 <= 258 < 2 ^ 32 -> to_le 4 (host_to_network_u32 258) = rev (to_le 4 258) /\
                      network_to_host_u32 (host_to_network_u32 258) = 258) /\
  (0 <= 258 < 2 ^ 64 -> to_le 8 (host_to_network_u64 258) = rev (to_le 8 258) /\
                      network_to_host_u64 (host_to_network_u64 258) = 258).
Proof. apply (network_byte_order 258). Defined.
