(* ===== verification/ByteArray.v ===== *)
(** * The block-chained byte buffer: class [ByteArray] of src/sylar/bytearry.{h,cpp}

    A [ByteArray] owns a singly linked chain of [MemoryBlock]s, each
    [block_size_] bytes long.  The chain is the list [blocks]; a
    [MemoryBlock*] is a position in it and [nullptr] is [None], so [root_] is
    the first position and [cur->next] the following one.  The two cursors
    alias blocks of the chain exactly as in the code.  Sizes and positions are
    [size_t]: every sum and difference is taken modulo 2^64.

    The file holds the operations, the invariant [wf] they keep, and the
    refinement to a plain byte queue: the bytes written so far ([content]) and
    the read position. *)

From S2P Require Import Prelude.

Record ByteArray := mkByteArray {
  block_size_ : Z;
  capacity_ : Z;
  blocks : list (list Z);
  read_pos_ : Z;
  write_pos_ : Z;
  read_cur_ : option nat;
  write_cur_ : option nat;
}.

Record iovec := mkIovec { iov_block : nat; iov_off : Z; iov_len : Z }.

(** [memcpy] of [src] at offset [pos] of a block. *)
Definition memcpy_at (pos : nat) (src blk : list Z) : list Z :=
  take pos blk ++ src ++ drop (pos + length src) blk.

Section operations.

(** What a freshly allocated block holds: [new uint8_t[n]] leaves the memory
    uninitialised, so byte [j] of block [k] is arbitrary. *)
Context (junk : nat -> nat -> Z).

Definition MemoryBlock (block_size : Z) (k : nat) : list Z :=
  junk k <$> seq 0 (Z.to_nat block_size).

Definition ByteArray_new (block_size : Z) : ByteArray :=
  mkByteArray block_size 0 [] 0 0 None None.

Definition root_ (ba : ByteArray) : option nat :=
  match blocks ba with [] => None | _ => Some O end.
Definition next_block (ba : ByteArray) (i : nat) : option nat :=
  if (S i <? length (blocks ba))%nat then Some (S i) else None.

Definition get_size (ba : ByteArray) : Z := write_pos_ ba.
Definition get_unread_size (ba : ByteArray) : Z := u64 (write_pos_ ba - read_pos_ ba).
Definition get_spare_capacity (ba : ByteArray) : Z := u64 (capacity_ ba - write_pos_ ba).

(** ** [expand_capacity] *)

(** [while(cur_block->next) cur_block = cur_block->next;] *)
Fixpoint last_block (ba : ByteArray) (fuel cur_block : nat) : nat :=
  match fuel with
  | O => cur_block
  | S fuel =>
      match next_block ba cur_block with
      | Some j => last_block ba fuel j
      | None => cur_block
      end
  end.

(** [cur_block->next = new MemoryBlock(block_size_); capacity_ += block_size_;]
    Whatever followed [cur_block] is no longer reachable. *)
Definition link_block (cur_block : nat) (ba : ByteArray) : ByteArray :=
  mkByteArray (block_size_ ba) (u64 (capacity_ ba + block_size_ ba))
    (take (S cur_block) (blocks ba) ++ [MemoryBlock (block_size_ ba) (S cur_block)])
    (read_pos_ ba) (write_pos_ ba) (read_cur_ ba) (write_cur_ ba).

Fixpoint grow (fuel : nat) (size : Z) (cur_block : nat) : M ByteArray unit := λ ba,
  if get_spare_capacity ba <=? size then
    match fuel with
    | O => (Fault Diverges, ba)
    | S fuel => grow fuel size (S cur_block) (link_block cur_block ba)
    end
  else (Ret tt, ba).

Definition ensure_root (ba : ByteArray) : ByteArray :=
  match blocks ba with
  | [] => mkByteArray (block_size_ ba) (block_size_ ba) [MemoryBlock (block_size_ ba) 0]
            (read_pos_ ba) (write_pos_ ba) (Some O) (Some O)
  | _ => ba
  end.

Definition expand_capacity (size : Z) : M ByteArray unit := λ ba,
  let ba := ensure_root ba in
  match write_cur_ ba with
  | None => (Fault NullDeref, ba)
  | Some c =>
      grow (S (Z.to_nat (size / block_size_ ba))) size
        (last_block ba (length (blocks ba)) c) ba
  end.

(** ** [write] and [read] *)

Fixpoint write_loop (fuel : nat) (src : list Z) : M ByteArray unit := λ ba,
  match src, fuel with
  | [], _ => (Ret tt, ba)
  | _, O => (Fault Diverges, ba)
  | _, S fuel =>
      let block_pos := write_pos_ ba mod block_size_ ba in
      let block_space := block_size_ ba - block_pos in
      let write_size := Z.min block_space (len src) in
      match write_cur_ ba with
      | None => (Fault NullDeref, ba)
      | Some i =>
          let write_pos := u64 (write_pos_ ba + write_size) in
          write_loop fuel (drop (Z.to_nat write_size) src)
            (mkByteArray (block_size_ ba) (capacity_ ba)
               (alter (memcpy_at (Z.to_nat block_pos) (take (Z.to_nat write_size) src)) i (blocks ba))
               (read_pos_ ba) write_pos (read_cur_ ba)
               (if write_pos mod block_size_ ba =? 0 then next_block ba i else Some i))
      end
  end.

Definition write (data : list Z) : M ByteArray unit := λ ba,
  if len data =? 0 then (Ret tt, ba)
  else (expand_capacity (len data) ≫= λ _, write_loop (length data) data) ba.

Fixpoint read_loop (fuel : nat) (size : Z) (buf : list Z) : M ByteArray (list Z) := λ ba,
  if size <=? 0 then (Ret buf, ba)
  else match fuel with
  | O => (Fault Diverges, ba)
  | S fuel =>
      let block_pos := read_pos_ ba mod block_size_ ba in
      let block_space := block_size_ ba - block_pos in
      let read_size := Z.min block_space size in
      match read_cur_ ba with
      | None => (Fault NullDeref, ba)
      | Some i =>
          let read_pos := u64 (read_pos_ ba + read_size) in
          read_loop fuel (size - read_size)
            (buf ++ take (Z.to_nat read_size)
                      (drop (Z.to_nat block_pos) (blocks ba !!! i)))
            (mkByteArray (block_size_ ba) (capacity_ ba) (blocks ba) read_pos (write_pos_ ba)
               (if read_pos mod block_size_ ba =? 0 then next_block ba i else Some i)
               (write_cur_ ba))
      end
  end.

(** Returns the bytes copied to the caller's buffer; their number is the
    value the C++ function returns. *)
Definition read (size : Z) : M ByteArray (list Z) := λ ba,
  let size := Z.min size (get_unread_size ba) in
  if size =? 0 then (Ret [], ba) else read_loop (Z.to_nat size) size [] ba.

(** ** Positions *)

(** [while(block_idx--) cur = cur->next;] *)
Fixpoint walk (ba : ByteArray) (block_idx : nat) (cur : option nat) : outcome (option nat) :=
  match block_idx with
  | O => Ret cur
  | S n => match cur with
           | None => Fault NullDeref
           | Some i => walk ba n (next_block ba i)
           end
  end.

Definition set_read_position (pos : Z) : M ByteArray unit := λ ba,
  if write_pos_ ba <? pos then (Throw OutOfRange, ba)
  else
    let at_cur c := mkByteArray (block_size_ ba) (capacity_ ba) (blocks ba) pos
                      (write_pos_ ba) c (write_cur_ ba) in
    match walk ba (Z.to_nat (pos / block_size_ ba)) (root_ ba) with
    | Ret c => (Ret tt, at_cur c)
    | Throw e => (Throw e, at_cur None)
    | Fault f => (Fault f, at_cur None)
    end.

(** [write_pos_ = pos] and the walk from [root_] to the block of [pos]. *)
Definition place_write_cursor (pos : Z) : M ByteArray unit := λ ba,
  let at_cur c := mkByteArray (block_size_ ba) (capacity_ ba) (blocks ba) (read_pos_ ba)
                    pos (read_cur_ ba) c in
  match walk ba (Z.to_nat (pos / block_size_ ba)) (root_ ba) with
  | Ret c => (Ret tt, at_cur c)
  | Throw e => (Throw e, at_cur None)
  | Fault f => (Fault f, at_cur None)
  end.

Definition set_write_position (pos : Z) : M ByteArray unit := λ ba,
  if capacity_ ba <? pos
  then (expand_capacity (u64 (pos - capacity_ ba)) ≫= λ _, place_write_cursor pos) ba
  else place_write_cursor pos ba.

(** ** Scatter/gather views *)

Fixpoint buffers_loop (fuel : nat) (ba : ByteArray) (pos : Z) (cur : option nat) (length : Z)
    : outcome (list iovec) :=
  if length <=? 0 then Ret []
  else match fuel, cur with
  | O, _ => Fault Diverges
  | _, None => Fault NullDeref
  | S fuel, Some i =>
      let block_pos := pos mod block_size_ ba in
      let block_space := block_size_ ba - block_pos in
      let size := Z.min block_space length in
      let pos := u64 (pos + size) in
      match buffers_loop fuel ba pos
              (if pos mod block_size_ ba =? 0 then next_block ba i else Some i) (length - size) with
      | Ret l => Ret (mkIovec i block_pos size :: l)
      | r => r
      end
  end.

Definition get_read_buffers (length : Z) (ba : ByteArray) : outcome (list iovec) :=
  let length := Z.min length (get_unread_size ba) in
  if length =? 0 then Ret []
  else buffers_loop (Z.to_nat length) ba (read_pos_ ba) (read_cur_ ba) length.

Definition spare_buffers (length : Z) : M ByteArray (list iovec) := λ ba,
  (buffers_loop (Z.to_nat length) ba (write_pos_ ba) (write_cur_ ba) length, ba).

Definition get_write_buffers (length : Z) : M ByteArray (list iovec) := λ ba,
  if length =? 0 then (Ret [], ba)
  else (expand_capacity length ≫= λ _, spare_buffers length) ba.

(** ** Release *)

Definition clear (ba : ByteArray) : ByteArray :=
  mkByteArray (block_size_ ba) 0 [] 0 0 None None.

End operations.

(** ** A small run *)

Definition no_junk (k j : nat) : Z := 0.

Example small_write_read :
  (write no_junk [1;2;3;4;5] ≫= λ _, read 4) (ByteArray_new 2)
  = (Ret [1;2;3;4],
     mkByteArray 2 6 [[1;2];[3;4];[5;0]] 4 5 (Some 2%nat) (Some 2%nat)).
Proof. vm_compute. reflexivity. Qed.

(** ** Facts on uniform chains of blocks *)

Section chains.
Context (n : nat).

Lemma length_concat_uniform (bl : list (list Z)) :
  Forall (λ b, length b = n) bl -> length (concat bl) = (length bl * n)%nat.
Proof. induction 1; simpl; [done|]. rewrite length_app. lia. Qed.

Lemma chain_split (bl : list (list Z)) i :
  Forall (λ b, length b = n) bl -> (i < length bl)%nat ->
  exists l1 b l2, bl = l1 ++ b :: l2 /\ length l1 = i /\ length b = n /\
    bl !! i = Some b /\ length (concat l1) = (i * n)%nat.
Proof.
  intros Hu Hi. destruct (lookup_lt_is_Some_2 bl i Hi) as [b Hb].
  exists (take i bl), b, (drop (S i) bl).
  rewrite take_drop_middle by done. rewrite length_take_le by lia. repeat split; auto.
  - eapply Forall_lookup_1 in Hu; eauto.
  - rewrite length_concat_uniform by (by apply Forall_take). rewrite length_take_le by lia. lia.
Qed.

Lemma memcpy_at_length pos src blk :
  (pos + length src <= length blk)%nat -> length (memcpy_at pos src blk) = length blk.
Proof. intros. unfold memcpy_at. rewrite !length_app, length_take, length_drop. lia. Qed.

Lemma memcpy_at_app pos a b blk :
  (pos <= length blk)%nat ->
  memcpy_at (pos + length a) b (memcpy_at pos a blk) = memcpy_at pos (a ++ b) blk.
Proof.
  intros. unfold memcpy_at.
  assert (length (take pos blk) = pos) as E by (rewrite length_take; lia).
  rewrite (take_app_add' (take pos blk)) by done.
  rewrite take_app_length.
  rewrite <- Nat.add_assoc, (drop_app_add' (take pos blk)) by done.
  rewrite drop_app_add, drop_drop, length_app, <- !app_assoc.
  by rewrite Nat.add_assoc.
Qed.

(** Copying into one block is copying into the flat memory. *)
Lemma concat_alter_memcpy (bl : list (list Z)) i p src :
  Forall (λ b, length b = n) bl -> (i < length bl)%nat -> (p + length src <= n)%nat ->
  concat (alter (memcpy_at p src) i bl) = memcpy_at (i * n + p) src (concat bl).
Proof.
  intros Hu Hi Hp. destruct (chain_split bl i Hu Hi) as (l1 & b & l2 & -> & E & Eb & _ & El).
  subst i. rewrite <- (Nat.add_0_r (length l1)) at 1.
  rewrite alter_app_r. change (alter _ 0%nat (b :: l2)) with (memcpy_at p src b :: l2).
  rewrite !concat_app. simpl. rewrite <- El. unfold memcpy_at.
  rewrite take_app_add. rewrite (take_app_le b) by lia.
  rewrite <- Nat.add_assoc, drop_app_add.
  rewrite (drop_app_le b) by lia. by rewrite <- !app_assoc.
Qed.

(** Reading within one block is reading from the flat memory. *)
Lemma slice_concat (bl : list (list Z)) i p k :
  Forall (λ b, length b = n) bl -> (i < length bl)%nat -> (p + k <= n)%nat ->
  take k (drop p (bl !!! i)) = take k (drop (i * n + p) (concat bl)).
Proof.
  intros Hu Hi Hp. destruct (chain_split bl i Hu Hi) as (l1 & b & l2 & -> & E & Eb & Hl & El).
  rewrite (list_lookup_total_correct _ _ _ Hl).
  rewrite concat_app, <- El, drop_app_add. simpl.
  rewrite (drop_app_le b) by lia. rewrite take_app_le by (rewrite length_drop; lia). done.
Qed.

Lemma alter_memcpy_uniform (bl : list (list Z)) i p src :
  Forall (λ b, length b = n) bl -> (p + length src <= n)%nat ->
  Forall (λ b, length b = n) (alter (memcpy_at p src) i bl).
Proof.
  intros Hu Hp. apply Forall_alter; [done|]. intros b Hl Hb. rewrite memcpy_at_length; lia.
Qed.

End chains.

(** ** The invariant and the abstract view *)

Definition flat (ba : ByteArray) : list Z := concat (blocks ba).

(** The bytes written so far, and those not read yet. *)
Definition content (ba : ByteArray) : list Z := take (Z.to_nat (write_pos_ ba)) (flat ba).
Definition unread (ba : ByteArray) : list Z := drop (Z.to_nat (read_pos_ ba)) (content ba).

(** The block a position falls in. *)
Definition block_of (ba : ByteArray) (pos : Z) : nat := Z.to_nat (pos / block_size_ ba).

Record wf (ba : ByteArray) : Prop := {
  wf_size : 0 < block_size_ ba;
  wf_blocks : Forall (λ b, length b = Z.to_nat (block_size_ ba)) (blocks ba);
  wf_cap : capacity_ ba = block_size_ ba * len (blocks ba);
  wf_cap64 : capacity_ ba < 2 ^ 64;
  wf_pos : 0 <= read_pos_ ba <= write_pos_ ba;
  wf_cur : match blocks ba with
           | [] => write_pos_ ba = 0 /\ read_cur_ ba = None /\ write_cur_ ba = None
           | _ => write_pos_ ba < capacity_ ba /\
                  write_cur_ ba = Some (block_of ba (write_pos_ ba)) /\
                  read_cur_ ba = Some (block_of ba (read_pos_ ba))
           end
}.

(** Writing [size] more bytes stays within the address space. *)
Definition fits (ba : ByteArray) (size : Z) : Prop :=
  write_pos_ ba + size + block_size_ ba < 2 ^ 64.

Lemma wf_live ba : wf ba -> blocks ba <> [] ->
  write_pos_ ba < capacity_ ba /\
  write_cur_ ba = Some (block_of ba (write_pos_ ba)) /\
  read_cur_ ba = Some (block_of ba (read_pos_ ba)).
Proof. intros H Hne. destruct H as [_ _ _ _ _ Hc]. by destruct (blocks ba). Qed.

Lemma wf_room ba : wf ba -> write_pos_ ba <= capacity_ ba.
Proof.
  intros [? _ Hc _ ? Hcur]. destruct (blocks ba); [|lia]. simpl in Hc. lia.
Qed.

Lemma length_flat ba : wf ba -> len (flat ba) = capacity_ ba.
Proof.
  intros [Hs Hb Hc _ _ _]. unfold flat.
  rewrite (length_concat_uniform _ _ Hb), Nat2Z.inj_mul, Z2Nat.id, Hc by lia. lia.
Qed.

Lemma length_content ba : wf ba -> len (content ba) = write_pos_ ba.
Proof.
  intros H. pose proof (length_flat ba H). pose proof (wf_room ba H). destruct (wf_pos ba H).
  unfold content. rewrite length_take. lia.
Qed.

Lemma length_unread ba : wf ba -> len (unread ba) = write_pos_ ba - read_pos_ ba.
Proof.
  intros H. pose proof (length_content ba H). destruct (wf_pos ba H).
  unfold unread. rewrite length_drop. lia.
Qed.

Lemma get_unread_size_ok ba : wf ba -> get_unread_size ba = len (unread ba).
Proof.
  intros H. rewrite length_unread by done. unfold get_unread_size.
  pose proof (wf_room ba H). destruct H. apply uint_small. lia.
Qed.

Lemma get_spare_capacity_ok ba :
  wf ba -> get_spare_capacity ba = capacity_ ba - write_pos_ ba.
Proof.
  intros H. pose proof (wf_room ba H). destruct H. apply uint_small. lia.
Qed.

Lemma wf_new block_size : 0 < block_size -> wf (ByteArray_new block_size).
Proof. intros. split; simpl; auto; lia. Qed.

(** ** Growth *)

(** [ba'] is [ba] with blocks appended to the chain. *)
Record extends (ba ba' : ByteArray) : Prop := {
  ext_size : block_size_ ba' = block_size_ ba;
  ext_read : read_pos_ ba' = read_pos_ ba;
  ext_write : write_pos_ ba' = write_pos_ ba;
  ext_blocks : exists extra, blocks ba' = blocks ba ++ extra
}.

#[export] Instance extends_preorder : PreOrder extends.
Proof.
  split.
  - intros ba. split; auto. exists []. by rewrite app_nil_r.
  - intros a b c [? ? ? [x Hx]] [? ? ? [y Hy]]. split; try congruence.
    exists (x ++ y). by rewrite Hy, Hx, app_assoc.
Qed.

Lemma extends_content ba ba' : wf ba -> extends ba ba' -> content ba' = content ba.
Proof.
  intros H [_ _ Hw [x Hx]]. unfold content, flat. rewrite Hw, Hx, concat_app.
  apply take_app_le. pose proof (length_flat ba H). pose proof (wf_room ba H).
  destruct H. unfold flat in *. lia.
Qed.

Section growth.
Context (junk : nat -> nat -> Z).

Lemma length_MemoryBlock bs k : length (MemoryBlock junk bs k) = Z.to_nat bs.
Proof. unfold MemoryBlock. by rewrite length_fmap, length_seq. Qed.

Lemma link_block_wf ba cur :
  wf ba -> blocks ba <> [] -> S cur = length (blocks ba) ->
  capacity_ ba + block_size_ ba < 2 ^ 64 ->
  wf (link_block junk cur ba) /\ extends ba (link_block junk cur ba) /\
  S (S cur) = length (blocks (link_block junk cur ba)) /\
  capacity_ (link_block junk cur ba) = capacity_ ba + block_size_ ba.
Proof.
  intros H Hne Hlast Hroom. destruct (wf_live ba H Hne) as (? & ? & ?).
  destruct H as [Hs Hb Hc Hc64 Hp Hcur].
  unfold link_block. rewrite firstn_all2 by lia. rewrite uint_small by lia.
  split; [|split; [split; simpl; eauto|simpl; rewrite length_app; simpl; lia]].
  split; simpl; auto.
  - apply Forall_app. split; [done|]. constructor; [|done]. apply length_MemoryBlock.
  - rewrite length_app. simpl. lia.
  - destruct (blocks ba); [done|]. simpl. repeat split; auto. lia.
Qed.

Lemma grow_spec fuel size cur ba :
  wf ba -> blocks ba <> [] -> S cur = length (blocks ba) -> 0 <= size -> fits ba size ->
  size < capacity_ ba - write_pos_ ba + Z.of_nat fuel * block_size_ ba ->
  exists ba', grow junk fuel size cur ba = (Ret tt, ba') /\ wf ba' /\ extends ba ba' /\
    blocks ba' <> [] /\ write_pos_ ba' + size < capacity_ ba'.
Proof.
  unfold fits. revert cur ba. induction fuel as [|fuel IH]; intros cur ba H Hne Hl Hs Hf Hfu;
    unfold grow; fold (grow junk); rewrite get_spare_capacity_ok by done;
    destruct (Z.leb_spec (capacity_ ba - write_pos_ ba) size).
  - lia.
  - exists ba. split_and!; auto; [reflexivity|lia].
  - pose proof (wf_size ba H).
    destruct (link_block_wf ba cur H Hne Hl ltac:(lia)) as (H' & He & Hl' & Hcap).
    pose proof He as [E1 E2 E3 E4].
    destruct (IH (S cur) (link_block junk cur ba)) as (ba' & Hg & Hw & Hx & Hn & Hr); auto.
    + intros E. rewrite E in Hl'. done.
    + rewrite Hcap, E1, E3. lia.
    + exists ba'. split_and!; auto. by transitivity (link_block junk cur ba).
  - exists ba. split_and!; auto; [reflexivity|lia].
Qed.

Lemma last_block_ok ba fuel c :
  (c < length (blocks ba))%nat -> (length (blocks ba) <= c + fuel)%nat ->
  S (last_block ba fuel c) = length (blocks ba).
Proof.
  revert c. induction fuel as [|fuel IH]; intros c Hc Hf; simpl; [lia|].
  unfold next_block. destruct (Nat.ltb_spec (S c) (length (blocks ba))); [|lia].
  apply IH; lia.
Qed.

Lemma block_of_lt ba pos :
  wf ba -> 0 <= pos < capacity_ ba -> (block_of ba pos < length (blocks ba))%nat.
Proof.
  intros [Hs _ Hc _ _ _] Hp. unfold block_of.
  assert (pos / block_size_ ba < len (blocks ba)) by (apply Z.div_lt_upper_bound; lia).
  assert (0 <= pos / block_size_ ba) by (apply Z.div_pos; lia). lia.
Qed.

Lemma ensure_root_wf ba :
  wf ba -> block_size_ ba < 2 ^ 64 ->
  wf (ensure_root junk ba) /\ extends ba (ensure_root junk ba) /\
  blocks (ensure_root junk ba) <> [].
Proof.
  intros H Hb. unfold ensure_root. destruct (blocks ba) eqn:E.
  - destruct H as [? ? ? ? ? Hc]. rewrite E in Hc. destruct Hc as (Hw & _ & _).
    split_and!; [|split; simpl; rewrite ?E; eauto|done].
    split; simpl; auto; try lia.
    + constructor; [apply length_MemoryBlock|done].
    + split_and!; [lia| |]; unfold block_of; simpl; rewrite Z.div_small by lia; done.
  - split_and!; [done|done|by rewrite E].
Qed.

(** [expand_capacity] leaves what was written alone and makes room for
    [size + 1] bytes: after it [size] bytes can be written and the write cursor
    still points into a block. *)
Lemma expand_capacity_spec size ba :
  wf ba -> 0 <= size -> fits ba size ->
  exists ba', expand_capacity junk size ba = (Ret tt, ba') /\ wf ba' /\ extends ba ba' /\
    blocks ba' <> [] /\ write_pos_ ba' + size < capacity_ ba'.
Proof.
  intros H Hs Hf. unfold fits in Hf. pose proof (wf_size ba H). destruct (wf_pos ba H).
  destruct (ensure_root_wf ba H) as (H' & He & Hne); [lia|].
  unfold expand_capacity. set (ba1 := ensure_root junk ba) in *.
  destruct (wf_live ba1 H' Hne) as (Hr & Hw & _). rewrite Hw.
  destruct (wf_pos ba1 H'). pose proof (wf_size ba1 H').
  assert (block_size_ ba1 = block_size_ ba) as Ebs by apply He.
  assert (write_pos_ ba1 = write_pos_ ba) as Ewp by apply He.
  destruct (grow_spec (S (Z.to_nat (size / block_size_ ba1))) size
             (last_block ba1 (length (blocks ba1)) (block_of ba1 (write_pos_ ba1))) ba1)
    as (ba' & Hg & Hwf & Hx & Hne' & Hroom); auto.
  - apply last_block_ok; [apply block_of_lt; [done|lia]|lia].
  - unfold fits. lia.
  - pose proof (Z.div_pos size (block_size_ ba1)).
    pose proof (Z.mod_pos_bound size (block_size_ ba1)).
    pose proof (Z.div_mod size (block_size_ ba1)). nia.
  - exists ba'. split_and!; auto. by transitivity ba1.
Qed.
End growth.

(** ** Writing *)

(** Advancing a cursor by at most the rest of its block lands in the block of
    the new position. *)
Lemma advance_cursor ba pos k :
  wf ba -> 0 <= pos -> 0 < k <= block_size_ ba - pos mod block_size_ ba ->
  pos + k < capacity_ ba ->
  (if (pos + k) mod block_size_ ba =? 0 then next_block ba (block_of ba pos)
   else Some (block_of ba pos)) = Some (block_of ba (pos + k)).
Proof.
  intros H Hp Hk Hc. pose proof (wf_size ba H) as Hs. pose proof (wf_cap ba H) as Ec.
  unfold block_of.
  pose proof (Z.mod_pos_bound pos (block_size_ ba) Hs).
  pose proof (Z.div_pos pos (block_size_ ba) Hp Hs).
  pose proof (Z.div_mod pos (block_size_ ba) ltac:(lia)) as Ed.
  set (q := pos / block_size_ ba) in *. set (r := pos mod block_size_ ba) in *.
  destruct (decide (r + k = block_size_ ba)) as [E|E].
  - replace (pos + k) with ((q + 1) * block_size_ ba) by lia.
    rewrite Z.mod_mul, Z.div_mul by lia. change (0 =? 0) with true. cbv iota.
    unfold next_block. destruct (Nat.ltb_spec (S (Z.to_nat q)) (length (blocks ba))).
    + f_equal. lia.
    + exfalso. assert (len (blocks ba) <= q + 1) by lia. nia.
  - replace (pos + k) with (r + k + q * block_size_ ba) by lia.
    rewrite Z.mod_add, Z.div_add by lia.
    rewrite Z.mod_small, Z.div_small by lia.
    by destruct (Z.eqb_spec (r + k) 0); [lia|].
Qed.

Lemma block_offset ba pos :
  wf ba -> 0 <= pos ->
  (block_of ba pos * Z.to_nat (block_size_ ba) + Z.to_nat (pos mod block_size_ ba))%nat
  = Z.to_nat pos.
Proof.
  intros H Hp. pose proof (wf_size ba H) as Hs. unfold block_of.
  pose proof (Z.mod_pos_bound pos (block_size_ ba) Hs).
  pose proof (Z.div_pos pos (block_size_ ba) Hp Hs).
  pose proof (Z.div_mod pos (block_size_ ba) ltac:(lia)). lia.
Qed.

(** What a run of the copy loop does to the array. *)
Record written (src : list Z) (ba ba' : ByteArray) : Prop := {
  wr_size : block_size_ ba' = block_size_ ba;
  wr_cap : capacity_ ba' = capacity_ ba;
  wr_read : read_pos_ ba' = read_pos_ ba;
  wr_write : write_pos_ ba' = write_pos_ ba + len src;
  wr_flat : flat ba' = memcpy_at (Z.to_nat (write_pos_ ba)) src (flat ba)
}.

(** One turn of the loop: [k] bytes go to the current block. *)
Definition write_turn (ba : ByteArray) (k : Z) (src : list Z) : ByteArray :=
  mkByteArray (block_size_ ba) (capacity_ ba)
    (alter (memcpy_at (Z.to_nat (write_pos_ ba mod block_size_ ba)) (take (Z.to_nat k) src))
       (block_of ba (write_pos_ ba)) (blocks ba))
    (read_pos_ ba) (write_pos_ ba + k) (read_cur_ ba) (Some (block_of ba (write_pos_ ba + k))).

Lemma write_turn_ok ba k src :
  wf ba -> blocks ba <> [] -> 0 < k <= block_size_ ba - write_pos_ ba mod block_size_ ba ->
  k <= len src -> write_pos_ ba + k < capacity_ ba ->
  wf (write_turn ba k src) /\ blocks (write_turn ba k src) <> [] /\
  written (take (Z.to_nat k) src) ba (write_turn ba k src).
Proof.
  intros H Hne Hk Hks Hroom.
  destruct (wf_live ba H Hne) as (_ & _ & Hrc). destruct (wf_pos ba H) as [Hp1 Hp2].
  pose proof (Z.mod_pos_bound (write_pos_ ba) (block_size_ ba) (wf_size ba H)).
  assert (length (take (Z.to_nat k) src) = Z.to_nat k) as El by (rewrite length_take; lia).
  assert (blocks (write_turn ba k src) <> []) as Hne'.
  { simpl. intros E. apply Hne. apply length_zero_iff_nil. apply length_zero_iff_nil in E.
    by rewrite length_alter in E. }
  split_and!; auto.
  - destruct H as [Hs Hb Hc Hc64 Hp _]. split; simpl; auto; try lia.
    + apply alter_memcpy_uniform; [done|]. rewrite El. lia.
    + by rewrite length_alter.
    + simpl in Hne'. destruct (alter _ _ _); [done|]. split_and!; auto.
  - split; simpl; auto; [rewrite El; lia|].
    unfold flat. simpl. erewrite concat_alter_memcpy; [|apply H|..].
    + by rewrite block_offset by (done || lia).
    + apply block_of_lt; [done|lia].
    + rewrite El. lia.
Qed.

Lemma written_nil ba : written [] ba ba.
Proof.
  split; auto; [simpl; lia|]. unfold memcpy_at. simpl. by rewrite Nat.add_0_r, take_drop.
Qed.

Lemma written_trans a b ba ba1 ba2 :
  wf ba -> written a ba ba1 -> written b ba1 ba2 -> written (a ++ b) ba ba2.
Proof.
  intros H [? ? ? Hw Hf] [? ? ? Hw2 Hf2]. split; try congruence.
  - rewrite Hw2, Hw, length_app. lia.
  - rewrite Hf2, Hw, Hf. destruct (wf_pos ba H).
    rewrite Z2Nat.inj_add, Nat2Z.id by lia. apply memcpy_at_app.
    pose proof (length_flat ba H). pose proof (wf_room ba H). lia.
Qed.

Lemma write_loop_spec fuel src ba :
  wf ba -> blocks ba <> [] -> (length src <= fuel)%nat ->
  write_pos_ ba + len src < capacity_ ba ->
  exists ba', write_loop fuel src ba = (Ret tt, ba') /\ wf ba' /\ blocks ba' <> [] /\
    written src ba ba'.
Proof.
  revert src ba. induction fuel as [|fuel IH]; intros src ba H Hne Hf Hroom.
  - destruct src; [|simpl in Hf; lia]. exists ba. auto using written_nil.
  - destruct src as [|x src]; [exists ba; auto using written_nil|].
    destruct (wf_live ba H Hne) as (_ & Hwc & _). destruct (wf_pos ba H).
    pose proof (Z.mod_pos_bound (write_pos_ ba) (block_size_ ba) (wf_size ba H)).
    cbn [write_loop]. rewrite Hwc. set (xs := x :: src) in *.
    assert (0 < len xs) by (simpl; lia).
    set (k := Z.min (block_size_ ba - write_pos_ ba mod block_size_ ba) (len xs)).
    assert (0 < k <= block_size_ ba - write_pos_ ba mod block_size_ ba /\ k <= len xs) as [? ?] by lia.
    pose proof (wf_cap64 ba H). rewrite uint_small by lia.
    rewrite advance_cursor by (done || lia). fold (write_turn ba k xs).
    destruct (write_turn_ok ba k xs) as (Hwf1 & Hne1 & W1); auto; [lia|].
    assert (length (take (Z.to_nat k) xs) = Z.to_nat k) as El by (rewrite length_take; lia).
    destruct (IH (drop (Z.to_nat k) xs) (write_turn ba k xs)) as (ba' & Hl & Hwf2 & Hne2 & W2); auto.
    + rewrite length_drop. lia.
    + rewrite length_drop. unfold write_turn. cbn [write_pos_ capacity_]. lia.
    + exists ba'. split_and!; auto. rewrite <- (take_drop (Z.to_nat k) xs).
      eapply written_trans; eauto.
Qed.

Lemma written_content src ba ba' :
  wf ba -> written src ba ba' -> content ba' = content ba ++ src.
Proof.
  intros H [_ _ _ Hw Hf]. unfold content. rewrite Hw, Hf. destruct (wf_pos ba H).
  rewrite Z2Nat.inj_add, Nat2Z.id by lia. unfold memcpy_at.
  pose proof (length_flat ba H). pose proof (wf_room ba H).
  rewrite take_app_add' by (rewrite length_take; lia). by rewrite take_app_length.
Qed.

(** [write] appends its data to the bytes held and keeps the invariant. *)
Lemma write_spec junk data ba :
  wf ba -> fits ba (len data) ->
  exists ba', write junk data ba = (Ret tt, ba') /\ wf ba' /\
    content ba' = content ba ++ data /\ read_pos_ ba' = read_pos_ ba /\
    block_size_ ba' = block_size_ ba.
Proof.
  intros H Hf. unfold write. destruct (Z.eqb_spec (len data) 0) as [E|E].
  - exists ba. destruct data; [|simpl in E; lia]. rewrite app_nil_r. auto.
  - destruct (expand_capacity_spec junk (len data) ba H ltac:(lia) Hf)
      as (ba1 & E1 & H1 & X1 & Hne1 & Hroom1).
    erewrite bind_Ret by exact E1.
    destruct (write_loop_spec (length data) data ba1) as (ba2 & E2 & H2 & Hne2 & W2); auto.
    exists ba2. pose proof W2 as [? ? ? ? ?]. destruct X1 as [? ? ? ?] eqn:EX.
    split_and!; auto; try congruence.
    rewrite (written_content data ba1 ba2) by done. f_equal. by apply extends_content.
Qed.

(** ** Reading *)

(** [ba] with its read position moved to [pos]. *)
Definition seek_read (ba : ByteArray) (pos : Z) : ByteArray :=
  mkByteArray (block_size_ ba) (capacity_ ba) (blocks ba) pos (write_pos_ ba)
    (match blocks ba with [] => None | _ => Some (block_of ba pos) end) (write_cur_ ba).

Lemma seek_read_wf ba pos : wf ba -> 0 <= pos <= write_pos_ ba -> wf (seek_read ba pos).
Proof.
  intros [? ? ? ? ? Hc] Hp. split; simpl; auto. by destruct (blocks ba); destruct_and?.
Qed.

Lemma seek_read_content ba pos : content (seek_read ba pos) = content ba.
Proof. done. Qed.

Lemma seek_read_here ba : wf ba -> seek_read ba (read_pos_ ba) = ba.
Proof.
  intros [_ _ _ _ _ Hc]. destruct ba as [bs c bl rp wp rc wc]. unfold seek_read. simpl in *.
  f_equal. by destruct bl; destruct_and?.
Qed.

Lemma seek_read_twice ba p q : seek_read (seek_read ba p) q = seek_read ba q.
Proof. done. Qed.

Lemma read_loop_spec fuel size buf ba :
  wf ba -> blocks ba <> [] -> 0 <= size <= write_pos_ ba - read_pos_ ba ->
  size <= Z.of_nat fuel ->
  read_loop fuel size buf ba =
    (Ret (buf ++ take (Z.to_nat size) (drop (Z.to_nat (read_pos_ ba)) (flat ba))),
     seek_read ba (read_pos_ ba + size)).
Proof.
  revert size buf ba. induction fuel as [|fuel IH]; intros size buf ba H Hne Hs Hf.
  - replace size with 0 by lia. simpl. by rewrite app_nil_r, Z.add_0_r, seek_read_here.
  - cbn [read_loop]. destruct (Z.leb_spec size 0).
    { replace size with 0 by lia. simpl. by rewrite app_nil_r, Z.add_0_r, seek_read_here. }
    destruct (wf_live ba H Hne) as (Hlt & _ & Hrc). destruct (wf_pos ba H).
    pose proof (Z.mod_pos_bound (read_pos_ ba) (block_size_ ba) (wf_size ba H)).
    rewrite Hrc. set (k := Z.min (block_size_ ba - read_pos_ ba mod block_size_ ba) size).
    assert (0 < k <= block_size_ ba - read_pos_ ba mod block_size_ ba /\ k <= size) as [? ?] by lia.
    pose proof (wf_cap64 ba H). rewrite uint_small by lia.
    rewrite advance_cursor by (done || lia).
    replace (mkByteArray _ _ _ _ _ _ _) with (seek_read ba (read_pos_ ba + k))
      by (unfold seek_read; f_equal; by destruct (blocks ba)).
    rewrite IH; [|apply seek_read_wf; auto; lia|done|simpl; lia|lia].
    rewrite seek_read_twice. cbn [seek_read read_pos_]. f_equal; [|f_equal; lia].
    f_equal. rewrite <- app_assoc. f_equal.
    erewrite slice_concat;
      [|apply H|apply block_of_lt; auto; lia|lia].
    rewrite block_offset by (done || lia). change (flat (seek_read ba _)) with (flat ba).
    change (concat (blocks ba)) with (flat ba).
    replace (Z.to_nat (read_pos_ ba + k)) with (Z.to_nat (read_pos_ ba) + Z.to_nat k)%nat by lia.
    rewrite <- drop_drop.
    replace (Z.to_nat size) with (Z.to_nat k + Z.to_nat (size - k))%nat by lia.
    by rewrite take_take_drop.
Qed.

(** [read] hands out the next unread bytes, at most [size] of them, and moves
    the read position past them; nothing else changes. *)
Lemma read_spec size ba :
  wf ba -> 0 <= size ->
  read size ba =
    (Ret (take (Z.to_nat size) (unread ba)),
     seek_read ba (read_pos_ ba + Z.min size (len (unread ba)))).
Proof.
  intros H Hs. unfold read. rewrite get_unread_size_ok by done.
  pose proof (length_unread ba H) as El. destruct (wf_pos ba H).
  destruct (Z.eqb_spec (Z.min size (len (unread ba))) 0) as [E|E].
  - rewrite E, Z.add_0_r, seek_read_here by done. f_equal. f_equal.
    destruct (unread ba); [by rewrite take_nil|]. simpl in *.
    by replace (Z.to_nat size) with O by lia.
  - rewrite read_loop_spec; auto; [| |lia..].
    + rewrite El. simpl. f_equal. f_equal. unfold unread, content.
      rewrite skipn_firstn_comm, take_take. f_equal. lia.
    + intros Hb. destruct H as [_ _ _ _ _ Hc]. rewrite Hb in Hc. lia.
Qed.

Lemma walk_spec ba n i :
  (i + n < length (blocks ba))%nat -> walk ba n (Some i) = Ret (Some (i + n)%nat).
Proof.
  revert i. induction n as [|n IH]; intros i Hi; simpl; [by rewrite Nat.add_0_r|].
  unfold next_block. destruct (Nat.ltb_spec (S i) (length (blocks ba))); [|lia].
  rewrite IH by lia. do 2 f_equal. lia.
Qed.

Lemma walk_to ba pos :
  wf ba -> 0 <= pos < capacity_ ba ->
  walk ba (Z.to_nat (pos / block_size_ ba)) (root_ ba) = Ret (Some (block_of ba pos)).
Proof.
  intros H Hp. pose proof (block_of_lt ba pos H Hp) as Hlt. unfold root_.
  destruct (blocks ba) eqn:E; [simpl in Hlt; lia|]. rewrite <- E in *.
  by rewrite walk_spec.
Qed.

(** [set_read_position] moves the read position anywhere up to the write
    position and throws beyond it, leaving the array as it was. *)
Lemma set_read_position_spec pos ba :
  wf ba -> 0 <= pos ->
  set_read_position pos ba =
    if write_pos_ ba <? pos then (Throw OutOfRange, ba) else (Ret tt, seek_read ba pos).
Proof.
  intros H Hp. unfold set_read_position. destruct (Z.ltb_spec (write_pos_ ba) pos); [done|].
  unfold seek_read. destruct (blocks ba) eqn:E.
  - destruct H as [? _ _ _ _ Hc]. rewrite E in Hc. destruct Hc as (Hw & _).
    replace pos with 0 by lia. rewrite Z.div_0_l by lia. unfold root_. rewrite E. done.
  - rewrite <- E. destruct (wf_live ba H) as (? & _); [by rewrite E|].
    by rewrite walk_to by (done || lia).
Qed.

(** [set_write_position] within the allocated blocks. *)
Lemma set_write_position_spec junk pos ba :
  wf ba -> read_pos_ ba <= pos < capacity_ ba ->
  exists ba', set_write_position junk pos ba = (Ret tt, ba') /\ wf ba' /\
    content ba' = take (Z.to_nat pos) (flat ba) /\ read_pos_ ba' = read_pos_ ba /\
    block_size_ ba' = block_size_ ba.
Proof.
  intros H Hp. destruct (wf_pos ba H). unfold set_write_position, place_write_cursor.
  destruct (Z.ltb_spec (capacity_ ba) pos); [lia|].
  rewrite walk_to by (done || lia).
  eexists. split_and!; [reflexivity| |done..].
  destruct H as [? ? Hcap ? ? Hc]. split; simpl; auto; [lia|].
  destruct (blocks ba); [simpl in Hcap; lia|]. destruct_and?. split_and!; auto; lia.
Qed.

(** ** Scatter/gather *)

(** What [sendmsg] sends from a list of buffers, and what [recvmsg] leaves in
    the blocks when [data] arrives. *)
Definition iov_bytes (bl : list (list Z)) (v : iovec) : list Z :=
  take (Z.to_nat (iov_len v)) (drop (Z.to_nat (iov_off v)) (bl !!! iov_block v)).
Definition gather (bl : list (list Z)) (iovs : list iovec) : list Z :=
  concat (iov_bytes bl <$> iovs).

Fixpoint scatter (iovs : list iovec) (data : list Z) (bl : list (list Z)) : list (list Z) :=
  match iovs with
  | [] => bl
  | v :: iovs =>
      let k := Z.to_nat (iov_len v) in
      scatter iovs (drop k data)
        (alter (memcpy_at (Z.to_nat (iov_off v)) (take k data)) (iov_block v) bl)
  end.

Definition total_len (iovs : list iovec) : Z := foldr (λ v n, iov_len v + n) 0 iovs.

Section buffers.
Context (ba : ByteArray) (H : wf ba).

Lemma buffers_loop_spec fuel pos n :
  0 <= pos -> 0 <= n <= Z.of_nat fuel -> pos + n < capacity_ ba ->
  exists iovs, buffers_loop fuel ba pos (Some (block_of ba pos)) n = Ret iovs /\
    total_len iovs = n /\
    gather (blocks ba) iovs = take (Z.to_nat n) (drop (Z.to_nat pos) (flat ba)) /\
    (forall data bl,
       len data <= n -> length bl = length (blocks ba) ->
       Forall (λ b, length b = Z.to_nat (block_size_ ba)) bl ->
       length (scatter iovs data bl) = length bl /\
       Forall (λ b, length b = Z.to_nat (block_size_ ba)) (scatter iovs data bl) /\
       concat (scatter iovs data bl) = memcpy_at (Z.to_nat pos) data (concat bl)).
Proof.
  revert pos n. induction fuel as [|fuel IH]; intros pos n Hp Hn Hc; cbn [buffers_loop];
    destruct (Z.leb_spec n 0); try lia.
  1,2: exists []; replace n with 0 by lia; split_and!; auto;
    intros [|] bl Hd _ Hu; [|simpl in Hd; lia]; split_and!; auto;
    unfold memcpy_at; simpl; by rewrite Nat.add_0_r, take_drop.
  pose proof (Z.mod_pos_bound pos (block_size_ ba) (wf_size ba H)).
  pose proof (block_of_lt ba pos H ltac:(lia)) as Hlt.
  set (k := Z.min (block_size_ ba - pos mod block_size_ ba) n).
  assert (0 < k <= block_size_ ba - pos mod block_size_ ba /\ k <= n) as [? ?] by lia.
  pose proof (wf_cap64 ba H). rewrite uint_small by lia. rewrite advance_cursor by (done || lia).
  destruct (IH (pos + k) (n - k)) as (iovs & Hb & Ht & Hg & Hsc); [lia..|].
  rewrite Hb. eexists. split_and!; [reflexivity|simpl; lia| |].
  - unfold gather. rewrite fmap_cons. cbn [concat]. fold (gather (blocks ba) iovs).
    rewrite Hg. unfold iov_bytes. cbn [iov_len iov_off iov_block].
    erewrite slice_concat; [|apply H|done|lia]. rewrite block_offset by (done || lia).
    fold (flat ba). replace (Z.to_nat (pos + k)) with (Z.to_nat pos + Z.to_nat k)%nat by lia.
    rewrite <- drop_drop.
    replace (Z.to_nat n) with (Z.to_nat k + Z.to_nat (n - k))%nat by lia. apply take_take_drop.
  - intros data bl Hd Hbl Hu. cbn [scatter iov_len iov_off iov_block].
    set (bl1 := alter _ _ _).
    assert (length (take (Z.to_nat k) data) <= Z.to_nat k)%nat by (rewrite length_take; lia).
    destruct (Hsc (drop (Z.to_nat k) data) bl1) as (L & U & C).
    + rewrite length_drop. lia.
    + unfold bl1. by rewrite length_alter.
    + apply alter_memcpy_uniform; [done|lia].
    + split_and!; auto; [rewrite L; apply length_alter|]. rewrite C. unfold bl1.
      erewrite concat_alter_memcpy; [|exact Hu|lia|lia].
      rewrite block_offset by (done || lia).
      assert (length (concat bl) = Z.to_nat (capacity_ ba)) as El.
      { rewrite (length_concat_uniform _ _ Hu), Hbl, (wf_cap ba H).
        pose proof (wf_size ba H). rewrite Z2Nat.inj_mul by lia. lia. }
      destruct (decide (len data <= k)).
      * rewrite drop_ge, take_ge by lia. unfold memcpy_at at 1. simpl.
        by rewrite Nat.add_0_r, take_drop.
      * rewrite <- (take_drop (Z.to_nat k) data) at 3.
        rewrite <- memcpy_at_app by lia. f_equal. rewrite length_take. lia.
Qed.
End buffers.

(** The buffers handed to [sendmsg] hold exactly the next unread bytes. *)
Lemma get_read_buffers_spec n ba :
  wf ba -> 0 <= n ->
  exists iovs, get_read_buffers n ba = Ret iovs /\
    total_len iovs = Z.min n (len (unread ba)) /\
    gather (blocks ba) iovs = take (Z.to_nat n) (unread ba).
Proof.
  intros H Hn. unfold get_read_buffers. rewrite get_unread_size_ok by done.
  pose proof (length_unread ba H) as El. destruct (wf_pos ba H).
  destruct (Z.eqb_spec (Z.min n (len (unread ba))) 0) as [E|E].
  - exists []. split_and!; auto. destruct (unread ba); [by rewrite take_nil|]. simpl in E.
    by replace (Z.to_nat n) with O by lia.
  - destruct (wf_live ba H) as (Hlt & _ & Hrc).
    { intros Hb. destruct H as [_ _ _ _ _ Hc]. rewrite Hb in Hc. lia. }
    rewrite Hrc.
    destruct (buffers_loop_spec ba H (Z.to_nat (Z.min n (len (unread ba)))) (read_pos_ ba)
                (Z.min n (len (unread ba)))) as (iovs & -> & Ht & Hg & _); [lia..|].
    exists iovs. split_and!; auto. rewrite Hg, El. unfold unread, content.
    rewrite skipn_firstn_comm, take_take. f_equal. lia.
Qed.

(** Filling the buffers of [get_write_buffers] with [data] and then moving the
    write position past it is the same as writing [data]. *)
Definition fill (iovs : list iovec) (data : list Z) (ba : ByteArray) : ByteArray :=
  mkByteArray (block_size_ ba) (capacity_ ba) (scatter iovs data (blocks ba))
    (read_pos_ ba) (write_pos_ ba) (read_cur_ ba) (write_cur_ ba).

Lemma get_write_buffers_spec junk n data ba :
  wf ba -> 0 < n -> len data <= n -> fits ba n ->
  exists iovs ba1 ba2,
    get_write_buffers junk n ba = (Ret iovs, ba1) /\ total_len iovs = n /\
    wf ba1 /\ extends ba ba1 /\
    set_write_position junk (u64 (write_pos_ ba1 + len data)) (fill iovs data ba1) = (Ret tt, ba2) /\
    wf ba2 /\ content ba2 = content ba ++ data /\ read_pos_ ba2 = read_pos_ ba /\
    block_size_ ba2 = block_size_ ba.
Proof.
  intros H Hn Hd Hf. unfold get_write_buffers. destruct (Z.eqb_spec n 0); [lia|].
  destruct (expand_capacity_spec junk n ba H ltac:(lia) Hf) as (ba1 & E1 & H1 & X1 & Hne1 & Hr1).
  erewrite bind_Ret by exact E1. unfold spare_buffers.
  destruct (wf_live ba1 H1 Hne1) as (Hlt & Hwc & Hrc). destruct (wf_pos ba1 H1). rewrite Hwc.
  destruct (buffers_loop_spec ba1 H1 (Z.to_nat n) (write_pos_ ba1) n) as (iovs & Eb & Ht & _ & Hsc);
    [lia..|]. rewrite Eb.
  destruct (Hsc data (blocks ba1)) as (L & U & C); [lia|done|apply H1|].
  pose proof (wf_cap64 ba1 H1).
  assert (u64 (write_pos_ ba1 + len data) = write_pos_ ba1 + len data) as Eu
    by (apply uint_small; lia).
  assert (wf (fill iovs data ba1)) as Hfill.
  { destruct H1 as [? ? ? ? ? ?]. split; simpl; auto; [congruence|].
    destruct (scatter iovs data (blocks ba1)) eqn:E; [|done].
    simpl in L. symmetry in L. by apply length_zero_iff_nil in L. }
  destruct (set_write_position_spec junk (write_pos_ ba1 + len data) (fill iovs data ba1) Hfill)
    as (ba2 & E2 & Hwf2 & C2 & R2 & B2); [simpl; lia|].
  exists iovs, ba1, ba2. rewrite Eu. split_and!; auto.
  - rewrite C2. unfold flat. simpl. rewrite C.
    rewrite <- (extends_content ba ba1 H X1).
    rewrite Z2Nat.inj_add, Nat2Z.id by lia. unfold memcpy_at.
    pose proof (length_flat ba1 H1). unfold flat in *. 
    rewrite take_app_add' by (rewrite length_take; lia). by rewrite take_app_length.
  - rewrite R2. apply X1.
  - rewrite B2. apply X1.
Qed.
