(* ===== verification/Codec.v ===== *)
(** * Typed reads and writes of [ByteArray] (src/sylar/bytearry.cpp)

    Fixed-width integers, zigzag and variable-length integers, floats and
    strings.  The code only uses four members of the array: [write], [read],
    [set_read_position] and [read_pos_].  They are the class [ByteBuffer]; its
    laws [ByteBufferLaws] are what the array promises, so the theorems of this
    file hold for every buffer that keeps them.  ByteArrayQueue.v shows that the block-chained
    array does. *)

From S2P Require Import Prelude Endian.

Class ByteBuffer (B : Type) := {
  buf_write : list Z -> M B unit;
  buf_read : Z -> M B (list Z);
  buf_seek : Z -> M B unit;
  buf_pos : B -> Z;
}.

(** [bytes b] is everything written, [buf_pos b] the read position in it,
    [room b n] that [n] more bytes can be written. *)
Class ByteBufferLaws (B : Type) `{!ByteBuffer B} (valid : B -> Prop)
    (room : B -> Z -> Prop) (bytes : B -> list Z) : Prop := {
  buf_pos_range b : valid b -> 0 <= buf_pos b <= len (bytes b);
  buf_bounded b : valid b -> len (bytes b) < 2 ^ 64;
  buf_room_mono b m n : valid b -> room b m -> n <= m -> room b n;
  buf_write_law data b : valid b -> room b (len data) ->
    exists b', buf_write data b = (Ret tt, b') /\ valid b' /\
      bytes b' = bytes b ++ data /\ buf_pos b' = buf_pos b /\
      (forall k, room b (len data + k) -> room b' k);
  buf_read_law n b : valid b -> 0 <= n ->
    exists b', buf_read n b
        = (Ret (take (Z.to_nat n) (drop (Z.to_nat (buf_pos b)) (bytes b))), b') /\
      valid b' /\ bytes b' = bytes b /\
      buf_pos b' = buf_pos b + Z.min n (len (bytes b) - buf_pos b);
  buf_seek_law p b : valid b -> 0 <= p <= len (bytes b) ->
    exists b', buf_seek p b = (Ret tt, b') /\ valid b' /\ bytes b' = bytes b /\ buf_pos b' = p;
}.

(** ** Encodings *)

Section encodings.
(** [encode_zigzag<T>] on a signed [w]-bit [v]; [>>] of a signed value is the
    arithmetic shift. *)
Definition encode_zigzag (w v : Z) : Z :=
  sint w (Z.lxor (sint w (Z.shiftl v 1)) (Z.shiftr v (w - 1))).
(** [decode_zigzag<T>] on an unsigned [w]-bit [v]. *)
Definition decode_zigzag (w v : Z) : Z :=
  uint w (Z.lxor (Z.shiftr v 1) (uint w (- Z.land v 1))).

(** The bytes the loop of [write_var_ul]/[write_var_ull] stores; [room] is what
    is left of the array [value_bytes], [None] a store past its end. *)
Fixpoint var_bytes (room : nat) (value : Z) : option (list Z) :=
  match room with
  | O => None
  | S room =>
      if value <? 0x80 then Some [u8 value]
      else bs ← var_bytes room (Z.shiftr value 7);
           Some (Z.lor (Z.land value 0x7F) 0x80 :: bs)
  end.
End encodings.

Section codec.
Context {B : Type} {BB : ByteBuffer B}.

(** ** Writers *)

Definition write_fix_b (value : Z) : M B unit := buf_write (to_le 1 value).
Definition write_fix_s (value : Z) : M B unit :=
  buf_write (to_le 2 (host_to_network_u16 value)).
Definition write_fix_l (value : Z) : M B unit :=
  buf_write (to_le 4 (host_to_network_u32 value)).
Definition write_fix_ll (value : Z) : M B unit :=
  buf_write (to_le 8 (host_to_network_u64 value)).

Definition write_var (room : nat) (value : Z) : M B unit :=
  match var_bytes room value with
  | Some bs => buf_write bs
  | None => crash BadAccess
  end.
Definition write_var_ul (value : Z) : M B unit := write_var 5 value.
Definition write_var_ull (value : Z) : M B unit := write_var 10 value.
Definition write_var_l (value : Z) : M B unit := write_var_ul (u32 (encode_zigzag 32 value)).
Definition write_var_ll (value : Z) : M B unit := write_var_ull (u64 (encode_zigzag 64 value)).

(** A [float] or [double] is its bit pattern: the code copies the object. *)
Definition write_float (value : Z) : M B unit := buf_write (to_le 4 value).
Definition write_double (value : Z) : M B unit := buf_write (to_le 8 value).

Definition write_string (value : list Z) : M B unit := buf_write value.
Definition write_string_with_length (value : list Z) : M B unit :=
  write_var_ul (u32 (len value)) ≫= λ _, write_string value.

(** ** Readers *)

(** The common error path: put the read position back and throw. *)
Definition rewind {A} (n : Z) : M B A :=
  gets buf_pos ≫= λ pos, buf_seek (u64 (pos - n)) ≫= λ _, throw OutOfRange.

(** [READ_FIX_IMPL]. *)
Definition read_object (size : nat) (of_memory : Z -> Z) : M B Z :=
  buf_read (Z.of_nat size) ≫= λ bs,
  if (length bs =? size)%nat then mret (of_memory (of_le bs)) else rewind (len bs).

Definition read_fix_b : M B Z := read_object 1 (λ v, network_to_host_i8 (sint 8 v)).
Definition read_fix_ub : M B Z := read_object 1 network_to_host_u8.
Definition read_fix_s : M B Z := read_object 2 (λ v, network_to_host_i16 (sint 16 v)).
Definition read_fix_us : M B Z := read_object 2 network_to_host_u16.
Definition read_fix_l : M B Z := read_object 4 (λ v, network_to_host_i32 (sint 32 v)).
Definition read_fix_ul : M B Z := read_object 4 network_to_host_u32.
Definition read_fix_ll : M B Z := read_object 8 (λ v, network_to_host_i64 (sint 64 v)).
Definition read_fix_ull : M B Z := read_object 8 network_to_host_u64.

(** The loop of [read_var_ul]/[read_var_ull]: [n] turns left, [i] the index. *)
Fixpoint read_var_loop (w : Z) (n : nat) (i result : Z) : M B Z :=
  match n with
  | O => mret result
  | S n =>
      buf_read 1 ≫= λ bs,
      match bs with
      | [byte] =>
          if byte <? 0x80 then mret (Z.lor result (uint w (Z.shiftl byte (7 * i))))
          else read_var_loop w n (i + 1)
                 (Z.lor result (uint w (Z.shiftl (Z.land byte 0x7F) (7 * i))))
      | _ => rewind (len bs + i)
      end
  end.
Definition read_var_ul : M B Z := read_var_loop 32 5 0 0.
Definition read_var_ull : M B Z := read_var_loop 64 10 0 0.
Definition read_var_l : M B Z := read_var_ul ≫= λ v, mret (i32 (decode_zigzag 32 v)).
Definition read_var_ll : M B Z := read_var_ull ≫= λ v, mret (i64 (decode_zigzag 64 v)).

Definition read_float : M B Z := read_object 4 (λ v, v).
Definition read_double : M B Z := read_object 8 (λ v, v).

Definition read_string : M B (list Z) :=
  read_fix_ul ≫= λ length,
  buf_read length ≫= λ str,
  if len str =? length then mret str else rewind (len str + 4).
Definition read_string_with_length (length : Z) : M B (list Z) :=
  buf_read length ≫= λ str,
  if len str =? length then mret str else rewind (len str).

End codec.

(** ** Zigzag *)

Lemma land_1 x : Z.land x 1 = x mod 2.
Proof. apply (Z.land_ones x 1). lia. Qed.

Lemma zigzag_roundtrip w v :
  1 < w -> - 2 ^ (w - 1) <= v < 2 ^ (w - 1) ->
  sint w (decode_zigzag w (uint w (encode_zigzag w v))) = v.
Proof.
  intros Hw Hv. unfold encode_zigzag, decode_zigzag.
  assert (0 < 2 ^ (w - 1)) as Hpos by (apply Z.pow_pos_nonneg; lia).
  assert (2 ^ w = 2 * 2 ^ (w - 1)) as E2.
  { rewrite <- Z.pow_succ_r by lia. f_equal; lia. }
  rewrite uint_sint, (Z.shiftl_mul_pow2 v 1), (Z.shiftr_div_pow2 v) by lia.
  change (2 ^ 1) with 2.
  rewrite land_1, Z.shiftr_div_pow2 by lia. change (2 ^ 1) with 2.
  destruct (decide (0 <= v)) as [Hp|Hn].
  - rewrite (Z.div_small v) by lia. rewrite Z.lxor_0_r, uint_sint by lia.
    rewrite (uint_small w (v * 2)) by lia. rewrite Z.div_mul, Z.mod_mul by lia.
    rewrite Z.lxor_0_r, sint_uint by lia.
    unfold sint. rewrite Z.mod_small by lia. destruct (Z.ltb_spec v (2 ^ (w - 1))); lia.
  - assert (v / 2 ^ (w - 1) = -1) as -> by (symmetry; apply Z.div_unique with (v + 2 ^ (w - 1)); lia).
    rewrite Z.lxor_m1_r. unfold Z.lnot.
    assert (uint w (- sint w (v * 2) - 1) = - 2 * v - 1) as E.
    { transitivity (uint w (- 2 * v - 1)); [|apply uint_small; lia].
      assert (uint w (sint w (v * 2)) = uint w (v * 2)) as Es by (apply uint_sint; lia).
      unfold uint in Es |- *.
      replace (- sint w (v * 2) - 1) with ((-1) - sint w (v * 2)) by lia.
      rewrite Zminus_mod, Es, <- Zminus_mod. f_equal. lia. }
    replace (Z.pred (- sint w (v * 2))) with (- sint w (v * 2) - 1) by lia. rewrite E.
    replace (- 2 * v - 1) with (1 + (- v - 1) * 2) by lia.
    rewrite Z.div_add, Z.mod_add by lia. change (1 / 2) with 0. change (- (1 mod 2)) with (-1).
    assert (uint w (-1) = 2 ^ w - 1) as ->.
    { symmetry. apply Z.mod_unique_pos with (q := -1); lia. }
    rewrite lxor_ones by lia. rewrite sint_uint by lia.
    unfold sint. rewrite (Z.mod_small (2 ^ w - 1 - (0 + (- v - 1)))) by lia.
    destruct (Z.ltb_spec (2 ^ w - 1 - (0 + (- v - 1))) (2 ^ (w - 1))); lia.
Qed.

(** ** Variable-length integers *)

Lemma land_7F x : Z.land x 0x7F = x mod 128.
Proof. apply (Z.land_ones x 7). lia. Qed.

(** The continuation byte of the encoder: seven bits and the flag. *)
Lemma continuation_byte v : Z.lor (Z.land v 0x7F) 0x80 = 128 + v mod 128.
Proof.
  rewrite land_7F, Z.lor_comm. change (Z.lor 128) with (Z.lor (Z.shiftl 1 7)).
  rewrite lor_shiftl_add; [lia|lia|]. apply Z.mod_pos_bound. lia.
Qed.

Lemma var_bytes_cons n v bs :
  0x80 <= v -> var_bytes (S n) v = Some bs ->
  exists bs', bs = 128 + v mod 128 :: bs' /\ var_bytes n (v / 128) = Some bs'.
Proof.
  intros Hv. cbn [var_bytes]. destruct (Z.ltb_spec v 0x80); [lia|].
  rewrite Z.shiftr_div_pow2 by lia. change (2 ^ 7) with 128.
  destruct (var_bytes n (v / 128)) as [bs'|]; simpl; intros [= <-].
  exists bs'. by rewrite continuation_byte.
Qed.

(** The array [value_bytes] is never overrun. *)
Lemma var_bytes_fit n v :
  (0 < n)%nat -> 0 <= v < 2 ^ (7 * Z.of_nat n) ->
  exists bs, var_bytes n v = Some bs /\ (1 <= length bs <= n)%nat /\ Forall is_byte bs.
Proof.
  revert v. induction n as [|n IH]; intros v Hn Hv; [lia|].
  cbn [var_bytes]. destruct (Z.ltb_spec v 0x80).
  - exists [u8 v]. split_and!; simpl; auto; try lia. constructor; [|done].
    apply (uint_range 8). lia.
  - rewrite Z.shiftr_div_pow2 by lia. change (2 ^ 7) with 128.
    assert (2 ^ (7 * Z.of_nat (S n)) = 128 * 2 ^ (7 * Z.of_nat n)) as E.
    { rewrite Nat2Z.inj_succ, Z.mul_succ_r, Z.pow_add_r by lia. lia. }
    assert (0 < n)%nat. { destruct n; [simpl in *; lia|lia]. }
    destruct (IH (v / 128)) as (bs & -> & Hl & Hb); [done| |].
    { split; [apply Z.div_pos; lia|]. apply Z.div_lt_upper_bound; lia. }
    simpl. eexists. split_and!; [reflexivity|simpl; lia..|]. constructor; [|done].
    rewrite continuation_byte. pose proof (Z.mod_pos_bound v 128). unfold is_byte. lia.
Qed.

Section reading.
Context {B : Type} {BB : ByteBuffer B} {valid : B -> Prop} {room : B -> Z -> Prop}
  {bytes : B -> list Z} `{!ByteBufferLaws B valid room bytes}.

(** The bytes not read yet. *)
Definition ahead (b : B) : list Z := drop (Z.to_nat (buf_pos b)) (bytes b).

(** [m] returns [a] and moves the read position by [k]. *)
Definition consumes {A} (m : M B A) (b : B) (a : A) (k : Z) : Prop :=
  exists b', m b = (Ret a, b') /\ valid b' /\ bytes b' = bytes b /\ buf_pos b' = buf_pos b + k.

(** [m] throws [std::out_of_range] and leaves the read position where it was. *)
Definition throws_clean {A} (m : M B A) (b : B) : Prop :=
  exists b', m b = (Throw OutOfRange, b') /\ valid b' /\ bytes b' = bytes b /\
    buf_pos b' = buf_pos b.

Lemma length_ahead b : valid b -> len (ahead b) = len (bytes b) - buf_pos b.
Proof. intros H. pose proof (buf_pos_range b H). unfold ahead. rewrite length_drop. lia. Qed.

Lemma ahead_after b b' data rest :
  valid b -> bytes b' = bytes b -> buf_pos b' = buf_pos b + len data ->
  ahead b = data ++ rest -> ahead b' = rest.
Proof.
  intros H Hb Hp Ha. pose proof (buf_pos_range b H). unfold ahead in *. rewrite Hb, Hp.
  replace (Z.to_nat (buf_pos b + len data)) with (Z.to_nat (buf_pos b) + length data)%nat by lia.
  by rewrite <- drop_drop, Ha, drop_app_length.
Qed.

Lemma read_ahead b data rest :
  valid b -> ahead b = data ++ rest -> consumes (buf_read (len data)) b data (len data).
Proof.
  intros H Ha. pose proof (length_ahead b H) as Hl. rewrite Ha, length_app in Hl.
  destruct (buf_read_law (len data) b H ltac:(lia)) as (b' & E & Hv & Hb & Hp).
  exists b'. split_and!; auto; [|lia]. rewrite E. do 2 f_equal.
  fold (ahead b). rewrite Nat2Z.id, Ha. apply take_app_length.
Qed.

Lemma read_short b n :
  valid b -> len (ahead b) < n -> consumes (buf_read n) b (ahead b) (len (ahead b)).
Proof.
  intros H Hn. pose proof (length_ahead b H) as Hl.
  destruct (buf_read_law n b H ltac:(lia)) as (b' & E & Hv & Hb & Hp).
  exists b'. split_and!; auto; [|lia]. rewrite E. do 2 f_equal. apply take_ge.
  change (len (ahead b) < n) in Hn. fold (ahead b). lia.
Qed.

Lemma rewind_ok {A} n b :
  valid b -> 0 <= n <= buf_pos b ->
  exists b', rewind (A:=A) n b = (Throw OutOfRange, b') /\ valid b' /\ bytes b' = bytes b /\
    buf_pos b' = buf_pos b - n.
Proof.
  intros H Hn. pose proof (buf_pos_range b H). pose proof (buf_bounded b H).
  destruct (buf_seek_law (buf_pos b - n) b) as (b' & E & Hv & Hb & Hp); [done|lia|].
  exists b'. split_and!; auto. unfold rewind.
  erewrite bind_Ret by reflexivity. erewrite bind_Ret; [reflexivity|].
  rewrite uint_small by lia. done.
Qed.

(** The error path of every reader: [k] bytes were taken before the failure. *)
Lemma consume_then_rewind {A C} (m : M B C) (h : C -> M B A) b c k :
  valid b -> 0 <= k -> consumes m b c k -> h c = rewind k -> throws_clean (m ≫= h) b.
Proof.
  intros H Hk (b1 & E & Hv & Hb & Hp) Hh. pose proof (buf_pos_range b H).
  destruct (rewind_ok (A:=A) k b1 Hv ltac:(lia)) as (b2 & E2 & Hv2 & Hb2 & Hp2).
  exists b2. split_and!; auto; [|congruence|lia]. erewrite bind_Ret by exact E. by rewrite Hh.
Qed.

Lemma read_object_ok size f b data rest :
  valid b -> ahead b = data ++ rest -> length data = size ->
  consumes (read_object size f) b (f (of_le data)) (Z.of_nat size).
Proof.
  intros H Ha <-. destruct (read_ahead b data rest H Ha) as (b' & E & ?).
  exists b'. split; [|done]. unfold read_object. erewrite bind_Ret by exact E.
  by rewrite Nat.eqb_refl.
Qed.

Lemma read_object_short size f b :
  valid b -> len (ahead b) < Z.of_nat size -> throws_clean (read_object size f) b.
Proof.
  intros H Hs. apply (consume_then_rewind _ _ b (ahead b) (len (ahead b))); auto.
  - lia.
  - by apply read_short.
  - destruct (Nat.eqb_spec (length (ahead b)) size); [lia|done].
Qed.

Lemma read_byte b x rest :
  valid b -> ahead b = x :: rest -> consumes (buf_read 1) b [x] 1.
Proof. intros H Ha. by apply (read_ahead b [x] rest). Qed.

Lemma read_var_loop_ok w n i r v b data rest :
  0 <= i -> 0 <= v -> v * 2 ^ (7 * i) < 2 ^ w -> 0 <= r < 2 ^ (7 * i) ->
  var_bytes n v = Some data -> valid b -> ahead b = data ++ rest ->
  consumes (read_var_loop w n i r) b (r + v * 2 ^ (7 * i)) (len data).
Proof.
  revert i r v b data. induction n as [|n IH]; intros i r v b data Hi Hv Hw Hr Hd H Ha; [done|].
  assert (0 < 2 ^ (7 * i)) by (apply Z.pow_pos_nonneg; lia).
  destruct (decide (v < 0x80)) as [Hlt|Hge].
  - cbn [var_bytes] in Hd. destruct (Z.ltb_spec v 0x80); [|lia]. injection Hd as <-.
    rewrite (uint_small 8 v) in Ha by lia.
    destruct (read_byte b v rest H Ha) as (b' & E & ?).
    exists b'. split; [|simpl; done]. cbn [read_var_loop]. erewrite bind_Ret by exact E.
    cbv beta iota.
    destruct (Z.ltb_spec v 0x80); [|lia]. rewrite uint_small by (rewrite Z.shiftl_mul_pow2; lia).
    rewrite Z.lor_comm, lor_shiftl_add by lia. unfold mret, M_ret. do 2 f_equal. lia.
  - destruct (var_bytes_cons n v data ltac:(lia) Hd) as (data' & -> & Hd').
    pose proof (Z.mod_pos_bound v 128 ltac:(lia)). pose proof (Z.div_mod v 128 ltac:(lia)) as Ev.
    pose proof (Z.div_pos v 128 ltac:(lia) ltac:(lia)).
    assert (2 ^ (7 * (i + 1)) = 128 * 2 ^ (7 * i)) as E7.
    { replace (7 * (i + 1)) with (7 + 7 * i) by lia. by rewrite Z.pow_add_r by lia. }
    destruct (read_byte b (128 + v mod 128) (data' ++ rest) H Ha) as (b1 & E & Hv1 & Hb1 & Hp1).
    assert (ahead b1 = data' ++ rest) as Ha1.
    { by apply (ahead_after b b1 [128 + v mod 128]). }
    assert (Z.lor r (uint w (Z.shiftl (Z.land (128 + v mod 128) 0x7F) (7 * i)))
            = r + (v mod 128) * 2 ^ (7 * i)) as El.
    { rewrite land_7F. replace (128 + v mod 128) with (v mod 128 + 1 * 128) by lia.
      rewrite Z.mod_add, Z.mod_mod by lia.
      rewrite uint_small by (rewrite Z.shiftl_mul_pow2 by lia; nia).
      rewrite Z.lor_comm, lor_shiftl_add by lia. lia. }
    destruct (IH (i + 1) (r + (v mod 128) * 2 ^ (7 * i)) (v / 128) b1 data') as (b2 & E2 & Hv2 & Hb2 & Hp2);
      auto; [lia|rewrite E7; nia|rewrite E7; nia|].
    exists b2. split_and!; auto; [|congruence|simpl length; lia].
    cbn [read_var_loop]. erewrite bind_Ret by exact E. cbv beta iota.
    destruct (Z.ltb_spec (128 + v mod 128) 0x80); [lia|]. rewrite El, E2. do 2 f_equal.
    rewrite E7. nia.
Qed.

(** ** Typed values *)

(** Which typed read or write is meant; [Sstr n] is a string of [n] bytes. *)
Inductive shape :=
| Sb | Sub | Ss | Sus | Sl | Sul | Sll | Sull
| Svl | Svul | Svll | Svull | Sfloat | Sdouble | Sstr (n : nat).

Inductive value := VInt (z : Z) | VStr (s : list Z).

(** The values an argument of that type can have. *)
Definition value_ok (s : shape) (v : value) : Prop :=
  match s, v with
  | Sb, VInt z => - 2 ^ 7 <= z < 2 ^ 7
  | Sub, VInt z => 0 <= z < 2 ^ 8
  | Ss, VInt z => - 2 ^ 15 <= z < 2 ^ 15
  | Sus, VInt z => 0 <= z < 2 ^ 16
  | (Sl | Svl), VInt z => - 2 ^ 31 <= z < 2 ^ 31
  | (Sul | Svul | Sfloat), VInt z => 0 <= z < 2 ^ 32
  | (Sll | Svll), VInt z => - 2 ^ 63 <= z < 2 ^ 63
  | (Sull | Svull | Sdouble), VInt z => 0 <= z < 2 ^ 64
  | Sstr n, VStr l => length l = n
  | _, _ => False
  end.

(** The call the C++ program makes; a signed argument is converted to the
    unsigned parameter type. *)
Definition write_as (s : shape) (v : value) : M B unit :=
  match s, v with
  | Sb, VInt z => write_fix_b (u8 z)
  | Sub, VInt z => write_fix_b z
  | Ss, VInt z => write_fix_s (u16 z)
  | Sus, VInt z => write_fix_s z
  | Sl, VInt z => write_fix_l (u32 z)
  | Sul, VInt z => write_fix_l z
  | Sll, VInt z => write_fix_ll (u64 z)
  | Sull, VInt z => write_fix_ll z
  | Svl, VInt z => write_var_l z
  | Svul, VInt z => write_var_ul z
  | Svll, VInt z => write_var_ll z
  | Svull, VInt z => write_var_ull z
  | Sfloat, VInt z => write_float z
  | Sdouble, VInt z => write_double z
  | Sstr _, VStr l => write_string l
  | _, _ => mret tt
  end.

Definition as_int (m : M B Z) : M B value := m ≫= λ z, mret (VInt z).
Definition as_str (m : M B (list Z)) : M B value := m ≫= λ z, mret (VStr z).

Definition read_as (s : shape) : M B value :=
  match s with
  | Sb => as_int read_fix_b
  | Sub => as_int read_fix_ub
  | Ss => as_int read_fix_s
  | Sus => as_int read_fix_us
  | Sl => as_int read_fix_l
  | Sul => as_int read_fix_ul
  | Sll => as_int read_fix_ll
  | Sull => as_int read_fix_ull
  | Svl => as_int read_var_l
  | Svul => as_int read_var_ul
  | Svll => as_int read_var_ll
  | Svull => as_int read_var_ull
  | Sfloat => as_int read_float
  | Sdouble => as_int read_double
  | Sstr n => as_str (read_string_with_length (Z.of_nat n))
  end.

Fixpoint write_all (l : list (shape * value)) : M B unit :=
  match l with
  | [] => mret tt
  | (s, v) :: l => write_as s v ≫= λ _, write_all l
  end.

Fixpoint read_all (l : list shape) : M B (list value) :=
  match l with
  | [] => mret []
  | s :: l => read_as s ≫= λ v, read_all l ≫= λ vs, mret (v :: vs)
  end.

(** ** What the writers put in memory *)

(** [m] writes exactly the bytes [data]. *)
Definition emits (m : M B unit) (data : list Z) : Prop := forall b, m b = buf_write data b.

(** [m] reads [a] back from [data]. *)
Definition decodes {A} (m : M B A) (data : list Z) (a : A) : Prop :=
  forall b rest, valid b -> ahead b = data ++ rest -> consumes m b a (len data).

Lemma decodes_map {A C} (m : M B A) (f : A -> C) data a :
  decodes m data a -> decodes (m ≫= λ x, mret (f x)) data (f a).
Proof.
  intros H b rest Hv Ha. destruct (H b rest Hv Ha) as (b' & E & ?). exists b'.
  split; [|done]. by erewrite bind_Ret by exact E.
Qed.

Lemma decodes_object size f data a :
  length data = size -> f (of_le data) = a -> decodes (read_object size f) data a.
Proof. intros <- <- b rest Hv Ha. by eapply read_object_ok. Qed.

Lemma decodes_var w n v data :
  0 <= v < 2 ^ w -> var_bytes n v = Some data -> decodes (read_var_loop w n 0 0) data v.
Proof.
  intros Hv Hd b rest H Ha. rewrite <- (Z.add_0_l v), <- (Z.mul_1_r v).
  change 1 with (2 ^ (7 * 0)).
  eapply read_var_loop_ok; eauto; change (2 ^ (7 * 0)) with 1; lia.
Qed.

Lemma ntoh_hton n v :
  0 <= v < 256 ^ Z.of_nat n ->
  of_le (rev (to_le n (of_le (to_le n (of_le (rev (to_le n v))))))) = v.
Proof.
  intros Hv. rewrite rev_of_le_rev, of_le_rev_twice. by apply Z.mod_small.
Qed.

Lemma ntoh_hton_64 v :
  0 <= v < 2 ^ 64 -> network_to_host_u64 (of_le (to_le 8 (host_to_network_u64 v))) = v.
Proof.
  intros Hv. rewrite (host_to_network_u64_rev v) by done.
  rewrite rev_of_le_rev, network_to_host_u64_eq, host_to_network_u64_rev.
  - rewrite of_le_rev_twice. by apply Z.mod_small.
  - pose proof (of_le_range (rev (to_le 8 v)) (Forall_rev (to_le_bytes 8 v))) as Hr.
    rewrite length_rev, length_to_le in Hr. exact Hr.
Qed.

Lemma of_le_to_le_range n v : 0 <= of_le (to_le n v) < 256 ^ Z.of_nat n.
Proof.
  pose proof (of_le_range (to_le n v) (to_le_bytes n v)) as H. by rewrite length_to_le in H.
Qed.

(** Reading a signed object: the bits pass through the signed variable. *)
Lemma through_signed w n v (f : Z -> Z) :
  0 <= w -> 256 ^ Z.of_nat n = 2 ^ w ->
  f (uint w (sint w (of_le (to_le n v)))) = f (of_le (to_le n v)).
Proof.
  intros Hw E. pose proof (of_le_to_le_range n v).
  rewrite uint_sint, uint_small by lia. done.
Qed.

Lemma emits_var n v data : var_bytes n v = Some data -> emits (write_var n v) data.
Proof. intros E b. unfold write_var. by rewrite E. Qed.

Lemma var_pair w n v :
  (0 < n)%nat -> w <= 7 * Z.of_nat n -> 0 <= v < 2 ^ w ->
  exists data, len data <= Z.of_nat n /\ emits (write_var n v) data /\
    decodes (read_var_loop w n 0 0) data v.
Proof.
  intros Hn Hw Hv.
  assert (2 ^ w <= 2 ^ (7 * Z.of_nat n)) by (apply Z.pow_le_mono_r; lia).
  destruct (var_bytes_fit n v Hn) as (data & E & Hl & _); [lia|].
  exists data. split_and!; [lia|by apply emits_var|by apply decodes_var].
Qed.

(** An upper bound on the bytes a value takes. *)
Definition max_size (s : shape) : Z :=
  match s with
  | Sb | Sub => 1
  | Ss | Sus => 2
  | Sl | Sul | Sfloat => 4
  | Sll | Sull | Sdouble => 8
  | Svl | Svul => 5
  | Svll | Svull => 10
  | Sstr n => Z.of_nat n
  end.

Definition pair_ok (s : shape) (v : value) (data : list Z) : Prop :=
  len data <= max_size s /\ emits (write_as s v) data /\ decodes (read_as s) data v.

(** The shapes written by one copy of an object of [n] bytes. *)
Lemma object_pair s z n x f :
  Z.of_nat n = max_size s -> emits (write_as s (VInt z)) (to_le n x) ->
  read_as s = as_int (read_object n f) -> f (of_le (to_le n x)) = z ->
  pair_ok s (VInt z) (to_le n x).
Proof.
  intros Hn He Hr Hf. split_and!; [rewrite length_to_le; lia|done|].
  rewrite Hr. apply decodes_map, decodes_object; [apply length_to_le|done].
Qed.

Lemma signed_pair s v :
  match s with Sb | Ss | Sl | Sll => True | _ => False end -> value_ok s v ->
  exists data, pair_ok s v data.
Proof.
  intros Hs Hok. destruct s, v as [z|]; try done; cbn [value_ok] in Hok;
    eexists; (eapply object_pair; [| |reflexivity|]; [reflexivity|intros b; reflexivity|cbv beta]).
  - unfold network_to_host_i8. rewrite of_le_to_le. change (256 ^ Z.of_nat 1) with (2 ^ 8).
    change (uint 8 z mod 2 ^ 8) with (uint 8 (uint 8 z)). rewrite uint_idem by lia.
    apply sint_uint_small; lia.
  - unfold network_to_host_i16. rewrite (through_signed 16 2) by done.
    unfold network_to_host_u16, host_to_network_u16, ntohs, htons.
    rewrite ntoh_hton by (apply (uint_range 16); lia). apply sint_uint_small; lia.
  - unfold network_to_host_i32. rewrite (through_signed 32 4) by done.
    unfold network_to_host_u32, host_to_network_u32, ntohl, htonl.
    rewrite ntoh_hton by (apply (uint_range 32); lia). apply sint_uint_small; lia.
  - unfold network_to_host_i64. rewrite (through_signed 64 8) by done.
    rewrite ntoh_hton_64 by (apply uint_range; lia). apply sint_uint_small; lia.
Qed.

Lemma unsigned_pair s v :
  match s with Sub | Sus | Sul | Sull | Sfloat | Sdouble => True | _ => False end ->
  value_ok s v -> exists data, pair_ok s v data.
Proof.
  intros Hs Hok. destruct s, v as [z|]; try done; cbn [value_ok] in Hok;
    eexists; (eapply object_pair; [| |reflexivity|]; [reflexivity|intros b; reflexivity|cbv beta]).
  all: try (by apply ntoh_hton); try (by apply ntoh_hton_64).
  all: unfold network_to_host_u8; rewrite of_le_to_le; by apply Z.mod_small.
Qed.

Lemma variable_pair s v :
  match s with Svl | Svul | Svll | Svull => True | _ => False end ->
  value_ok s v -> exists data, pair_ok s v data.
Proof.
  intros Hs Hok. destruct s, v as [z|]; try done; cbn [value_ok] in Hok.
  - destruct (var_pair 32 5 (u32 (encode_zigzag 32 z))) as (data & Hl & He & Hd);
      [lia..|apply uint_range; lia|].
    exists data. split_and!; [done..|]. rewrite <- (zigzag_roundtrip 32 z) at 1 by lia.
    apply decodes_map. by apply (decodes_map _ (λ v, i32 (decode_zigzag 32 v))).
  - destruct (var_pair 32 5 z) as (data & Hl & He & Hd); [lia..|].
    exists data. split_and!; [done..|]. by apply decodes_map.
  - destruct (var_pair 64 10 (u64 (encode_zigzag 64 z))) as (data & Hl & He & Hd);
      [lia..|apply uint_range; lia|].
    exists data. split_and!; [done..|]. rewrite <- (zigzag_roundtrip 64 z) at 1 by lia.
    apply decodes_map. by apply (decodes_map _ (λ v, i64 (decode_zigzag 64 v))).
  - destruct (var_pair 64 10 z) as (data & Hl & He & Hd); [lia..|].
    exists data. split_and!; [done..|]. by apply decodes_map.
Qed.

Lemma string_pair n l : length l = n -> pair_ok (Sstr n) (VStr l) l.
Proof.
  intros <-. split_and!; [done..|]. apply (decodes_map _ VStr). intros b rest Hv Ha.
  destruct (read_ahead b l rest Hv Ha) as (b' & E & ?). exists b'. split; [|done].
  unfold read_string_with_length. erewrite bind_Ret by exact E. by rewrite Z.eqb_refl.
Qed.

(** Every typed value is written as bytes from which its reader returns it. *)
Lemma typed_pair s v : value_ok s v -> exists data, pair_ok s v data.
Proof.
  intros Hok. destruct s; try (by apply signed_pair); try (by apply unsigned_pair);
    try (by apply variable_pair).
  destruct v; [done|]. eexists. by apply string_pair.
Qed.

(** ** Sequences of typed values *)

Definition total_size (l : list (shape * value)) : Z :=
  foldr (λ p n, max_size p.1 + n) 0 l.

Lemma sequence_pair l :
  Forall (λ p, value_ok p.1 p.2) l ->
  exists data, len data <= total_size l /\
    decodes (read_all (l.*1)) data (l.*2) /\
    (forall b, valid b -> room b (len data) ->
       exists b', write_all l b = (Ret tt, b') /\ valid b' /\
         bytes b' = bytes b ++ data /\ buf_pos b' = buf_pos b).
Proof.
  induction 1 as [|[s v] l Hok _ (data2 & Hs2 & Hd2 & Hw2)].
  - exists []. split_and!; [done|intros b rest Hv _; exists b; simpl; split_and!; auto; lia|].
    intros b Hv _. exists b. by rewrite app_nil_r.
  - destruct (typed_pair s v Hok) as (data1 & Hs1 & He1 & Hd1).
    exists (data1 ++ data2). rewrite length_app, Nat2Z.inj_add. split_and!.
    + cbn [total_size foldr fst]. fold (total_size l). lia.
    + intros b rest Hv Ha. rewrite <- app_assoc in Ha.
      destruct (Hd1 b _ Hv Ha) as (b1 & E1 & Hv1 & Hb1 & Hp1).
      destruct (Hd2 b1 rest Hv1) as (b2 & E2 & Hv2 & Hb2 & Hp2);
        [by apply (ahead_after b b1 data1)|].
      exists b2. rewrite length_app. split_and!; auto; [|congruence|lia].
      cbn [read_all fmap list_fmap]. erewrite bind_Ret by exact E1.
      by erewrite bind_Ret by exact E2.
    + intros b Hv Hr.
      destruct (buf_write_law data1 b Hv) as (b1 & E1 & Hv1 & Hb1 & Hp1 & Hr1).
      { eapply buf_room_mono; [done|exact Hr|lia]. }
      destruct (Hw2 b1 Hv1 (Hr1 _ Hr)) as (b2 & E2 & Hv2 & Hb2 & Hp2).
      exists b2. split_and!; auto; [|by rewrite Hb2, Hb1, app_assoc|congruence].
      cbn [write_all]. erewrite bind_Ret; [exact E2|]. by rewrite He1.
Qed.

(** Values written one after the other to a drained buffer are read back in
    order, and the buffer is drained again. *)
Lemma write_all_read_all l b :
  Forall (λ p, value_ok p.1 p.2) l -> valid b -> ahead b = [] -> room b (total_size l) ->
  exists b', (write_all l ≫= λ _, read_all (l.*1)) b = (Ret (l.*2), b') /\ valid b' /\
    ahead b' = [].
Proof.
  intros Hl Hv Ha Hr. destruct (sequence_pair l Hl) as (data & Hs & Hd & Hw).
  destruct (Hw b Hv) as (b1 & E1 & Hv1 & Hb1 & Hp1).
  { eapply buf_room_mono; [done|exact Hr|done]. }
  assert (ahead b1 = data ++ []) as Ha1.
  { unfold ahead in *. rewrite Hb1, Hp1, app_nil_r.
    pose proof (length_ahead b Hv) as El. unfold ahead in El. rewrite Ha in El. simpl in El.
    apply drop_app_length'. lia. }
  destruct (Hd b1 [] Hv1 Ha1) as (b2 & E2 & Hv2 & Hb2 & Hp2).
  exists b2. split_and!; auto.
  - by erewrite bind_Ret by exact E1.
  - by apply (ahead_after b1 b2 data).
Qed.

(** ** Cut-short contents *)

Lemma read_enough b n :
  valid b -> 0 <= n <= len (ahead b) ->
  len (take (Z.to_nat n) (ahead b)) = n /\
  consumes (buf_read n) b (take (Z.to_nat n) (ahead b)) n.
Proof.
  intros Hv Hn.
  assert (len (take (Z.to_nat n) (ahead b)) = n) as El by (rewrite length_take; lia).
  split; [done|]. rewrite <- El at 1 3.
  eapply read_ahead; [done|]. symmetry. apply take_drop.
Qed.

(** [read_string] puts back the length prefix too when the text is cut short. *)
Lemma read_string_short b hd rest :
  valid b -> ahead b = hd ++ rest -> length hd = 4%nat ->
  len rest < network_to_host_u32 (of_le hd) -> throws_clean read_string b.
Proof.
  intros Hv Ha Hl Hn. pose proof (buf_pos_range b Hv).
  destruct (read_object_ok 4 network_to_host_u32 b hd rest Hv Ha Hl)
    as (b1 & E1 & Hv1 & Hb1 & Hp1).
  assert (ahead b1 = rest) as Ha1 by (apply (ahead_after b b1 hd); auto; lia).
  rewrite <- Ha1 in Hn.
  destruct (read_short b1 _ Hv1 Hn) as (b2 & E2 & Hv2 & Hb2 & Hp2).
  destruct (rewind_ok (A:=list Z) (len (ahead b1) + 4) b2) as (b3 & E3 & Hv3 & Hb3 & Hp3);
    [done|lia|].
  exists b3. split_and!; auto; [|congruence|lia]. unfold read_string, read_fix_ul.
  erewrite bind_Ret by exact E1. erewrite bind_Ret by exact E2.
  destruct (Z.eqb_spec (len (ahead b1)) (network_to_host_u32 (of_le hd))); [lia|done].
Qed.

Lemma read_string_cut b : valid b -> len (ahead b) < 4 -> throws_clean read_string b.
Proof.
  intros Hv Hs. destruct (read_object_short 4 network_to_host_u32 b Hv Hs) as (b' & E & ?).
  exists b'. split; [|done]. by apply bind_Throw.
Qed.

(** ** Length-prefixed strings *)

Lemma ntohl_of_four w x y z :
  is_byte w -> is_byte x -> is_byte y -> is_byte z ->
  network_to_host_u32 (of_le [w; x; y; z]) = z + 256 * (y + 256 * (x + 256 * w)).
Proof.
  intros. unfold network_to_host_u32, ntohl. change 4%nat with (length [w; x; y; z]).
  rewrite to_le_of_le by (do 4 (constructor; [done|]); constructor). simpl rev. simpl of_le. lia.
Qed.

(** [write_string_with_length] writes a variable-length prefix while
    [read_string] expects a four-byte one: a string of fewer than 128 bytes
    written by the first is never returned by the second. *)
Lemma length_prefix_mismatch l b :
  len l < 128 -> Forall is_byte l -> valid b -> ahead b = [] -> room b (1 + len l) ->
  exists b', (write_string_with_length l ≫= λ _, read_string) b = (Throw OutOfRange, b').
Proof.
  intros Hl Hbytes Hv Ha Hr.
  assert (emits (write_var_ul (u32 (len l))) [len l]) as He.
  { apply emits_var. rewrite uint_small by lia. cbn [var_bytes].
    destruct (Z.ltb_spec (len l) 128); [|lia]. by rewrite uint_small by lia. }
  destruct (buf_write_law [len l] b Hv) as (b1 & E1 & Hv1 & Hb1 & Hp1 & Hr1).
  { eapply buf_room_mono; [done|exact Hr|simpl; lia]. }
  destruct (buf_write_law l b1 Hv1) as (b2 & E2 & Hv2 & Hb2 & Hp2 & _); [by apply Hr1|].
  assert (ahead b2 = len l :: l) as Ha2.
  { unfold ahead in *. rewrite Hb2, Hb1, Hp2, Hp1, <- app_assoc.
    pose proof (length_ahead b Hv) as El. unfold ahead in El. rewrite Ha in El. simpl in El.
    apply drop_app_length'. lia. }
  assert (throws_clean read_string b2) as (b3 & E3 & _).
  { destruct l as [|x [|y [|z l]]]; try (apply read_string_cut; [done|rewrite Ha2; simpl; lia]).
    apply (read_string_short b2 [len (x :: y :: z :: l); x; y; z] l); auto.
    apply Forall_cons in Hbytes as [? [? [? _]%Forall_cons]%Forall_cons].
    rewrite ntohl_of_four by (unfold is_byte in *; simpl length in *; lia).
    unfold is_byte in *. simpl length. lia. }
  exists b3. unfold write_string_with_length, write_string. rewrite bind_assoc.
  erewrite bind_Ret; [|by rewrite He]. by erewrite bind_Ret by exact E2.
Qed.
End reading.
