(* ===== verification/CodecSpec.v ===== *)
(** * What the typed reads of [ByteArray] decode

    The encodings stated on lists of bytes, apart from the readers: fixed-size integers
    most significant byte first, variable-length integers in groups of seven bits, zigzag
    signs, floating-point numbers as they lie in memory, texts.  Every reader of Codec.v
    is shown to return exactly this from the bytes ahead, or to throw when they do not
    hold a whole value. *)

From S2P Require Import Prelude Endian Codec.

(** ** The encodings *)

Fixpoint big_endian (bs : list Z) : Z :=
  match bs with [] => 0 | b :: bs => b * 256 ^ len bs + big_endian bs end.
Definition little_endian (bs : list Z) : Z := big_endian (rev bs).
Definition twos (w v : Z) : Z := if v <? 2 ^ (w - 1) then v else v - 2 ^ w.

(** The value of the first [n] bytes. *)
Definition fixed (n : nat) (f : list Z -> Z) (bs : list Z) : option (Z * nat) :=
  if (n <=? length bs)%nat then Some (f (take n bs), n) else None.

(** Up to [n] bytes, the last of which is below 128 when there are fewer; the groups of seven bits come
    least significant first, and a [w]-bit integer holds their value. *)
Fixpoint group_count (n : nat) (bs : list Z) : option nat :=
  match n, bs with
  | O, _ => Some O
  | S n, [] => None
  | S n, b :: bs => if b <? 128 then Some 1%nat else S <$> group_count n bs
  end.
Fixpoint groups_value (bs : list Z) : Z :=
  match bs with [] => 0 | b :: bs => b mod 128 + 128 * groups_value bs end.
Definition varint (w : Z) (n : nat) (bs : list Z) : option (Z * nat) :=
  (λ k, (groups_value (take k bs) mod 2 ^ w, k)) <$> group_count n bs.
(** 0, -1, 1, -2, ... *)
Definition unzigzag (v : Z) : Z := if Z.even v then v / 2 else - (v / 2) - 1.

(** The value of a shape at the front of some bytes, and how many it takes. *)
Definition decode (s : shape) (bs : list Z) : option (value * nat) :=
  let int := fmap (M := option) (λ '(v, k), (VInt v, k)) in
  let zigzag := fmap (M := option) (λ '(v, k), (VInt (unzigzag v), k)) in
  match s with
  | Sb => int (fixed 1 (twos 8 ∘ big_endian) bs)
  | Sub => int (fixed 1 big_endian bs)
  | Ss => int (fixed 2 (twos 16 ∘ big_endian) bs)
  | Sus => int (fixed 2 big_endian bs)
  | Sl => int (fixed 4 (twos 32 ∘ big_endian) bs)
  | Sul => int (fixed 4 big_endian bs)
  | Sll => int (fixed 8 (twos 64 ∘ big_endian) bs)
  | Sull => int (fixed 8 big_endian bs)
  | Svl => zigzag (varint 32 5 bs)
  | Svul => int (varint 32 5 bs)
  | Svll => zigzag (varint 64 10 bs)
  | Svull => int (varint 64 10 bs)
  | Sfloat => int (fixed 4 little_endian bs)
  | Sdouble => int (fixed 8 little_endian bs)
  | Sstr n => if (n <=? length bs)%nat then Some (VStr (take n bs), n) else None
  end.
(** A text behind its length in four bytes. *)
Definition decode_text (bs : list Z) : option (list Z * nat) :=
  '(n, k) ← fixed 4 big_endian bs;
  if n <=? len (drop k bs) then Some (take (Z.to_nat n) (drop k bs), (k + Z.to_nat n)%nat) else None.

(** ** Arithmetic *)

Lemma big_endian_rev bs : big_endian bs = of_le (rev bs).
Proof.
  induction bs as [|b bs IH]; [done|]. cbn [big_endian rev]. rewrite of_le_app, length_rev, IH. cbn [of_le]. lia.
Qed.
Lemma little_endian_of_le bs : little_endian bs = of_le bs.
Proof. unfold little_endian. by rewrite big_endian_rev, rev_involutive. Qed.
Lemma sint_twos w v : 0 <= v < 2 ^ w -> sint w v = twos w v.
Proof. intros Hv. unfold sint, twos. by rewrite Z.mod_small. Qed.

(** The conversions on bytes in memory. *)
Lemma ntoh_bytes n bs : length bs = n -> Forall is_byte bs -> of_le (rev (to_le n (of_le bs))) = big_endian bs.
Proof. intros <- Hb. by rewrite to_le_of_le, big_endian_rev. Qed.
Lemma ntoh_bytes_64 bs : length bs = 8%nat -> Forall is_byte bs -> network_to_host_u64 (of_le bs) = big_endian bs.
Proof.
  intros Hl Hb. pose proof (of_le_range bs Hb) as Hr. rewrite Hl in Hr. change (256 ^ Z.of_nat 8) with (2 ^ 64) in Hr.
  rewrite network_to_host_u64_eq, host_to_network_u64_rev by done. by apply ntoh_bytes.
Qed.
Lemma big_endian_range bs : Forall is_byte bs -> 0 <= big_endian bs < 256 ^ len bs.
Proof. intros Hb. rewrite big_endian_rev, <- length_rev. by apply of_le_range, Forall_rev. Qed.

(** Through a signed variable. *)
Lemma signed_bytes w n (f : Z -> Z) bs :
  0 <= w -> 256 ^ Z.of_nat n = 2 ^ w -> length bs = n -> Forall is_byte bs -> f (of_le bs) = big_endian bs ->
  sint w (f (uint w (sint w (of_le bs)))) = twos w (big_endian bs).
Proof.
  intros Hw E Hl Hb Hf. pose proof (of_le_range bs Hb) as Hr. pose proof (big_endian_range bs Hb) as Hr'. rewrite Hl, E in Hr, Hr'.
  rewrite uint_sint, (uint_small w) by lia. rewrite Hf. by apply sint_twos.
Qed.

Lemma unzigzag_decode w v : 1 < w -> 0 <= v < 2 ^ w -> sint w (decode_zigzag w v) = unzigzag v.
Proof.
  intros Hw Hv. unfold decode_zigzag, unzigzag. rewrite land_1, Z.shiftr_div_pow2 by lia. change (2 ^ 1) with 2.
  assert (2 ^ w = 2 * 2 ^ (w - 1)) as E2 by (rewrite <- Z.pow_succ_r by lia; f_equal; lia).
  assert (0 <= v / 2 < 2 ^ (w - 1)) as Hq by (split; [apply Z.div_pos; lia|apply Z.div_lt_upper_bound; lia]).
  rewrite Zmod_even. destruct (Z.even v).
  - change (- 0) with 0. rewrite (uint_small w 0), Z.lxor_0_r, sint_uint by lia. rewrite sint_twos by lia. unfold twos.
    destruct (Z.ltb_spec (v / 2) (2 ^ (w - 1))); lia.
  - assert (uint w (- (1)) = 2 ^ w - 1) as -> by (symmetry; apply Z.mod_unique_pos with (q := -1); lia).
    rewrite lxor_ones, sint_uint by lia. rewrite sint_twos by lia. unfold twos.
    destruct (Z.ltb_spec (2 ^ w - 1 - v / 2) (2 ^ (w - 1))); lia.
Qed.

(** One more group. *)
Lemma lor_group w i r c :
  0 <= i -> 7 * i < w -> 0 <= r < 2 ^ (7 * i) -> 0 <= c ->
  Z.lor r (uint w (Z.shiftl c (7 * i))) = (r + 2 ^ (7 * i) * c) mod 2 ^ w.
Proof.
  intros Hi Hw Hr Hc. assert (0 < 2 ^ (7 * i)) as Hp by (apply Z.pow_pos_nonneg; lia).
  assert (0 < 2 ^ (w - 7 * i)) as Hp' by (apply Z.pow_pos_nonneg; lia).
  assert (2 ^ w = 2 ^ (7 * i) * 2 ^ (w - 7 * i)) as E by (rewrite <- Z.pow_add_r by lia; f_equal; lia).
  unfold uint. rewrite Z.shiftl_mul_pow2, E, (Z.mul_comm c), Z.mul_mod_distr_l by lia.
  rewrite (Z.mul_comm _ (c mod _)), <- Z.shiftl_mul_pow2, Z.lor_comm, lor_shiftl_add by lia.
  pose proof (Z.mod_pos_bound c (2 ^ (w - 7 * i)) Hp') as Hm.
  pose proof (Z.div_mod c (2 ^ (w - 7 * i)) ltac:(lia)) as Ec. apply Z.mod_unique_pos with (q := c / 2 ^ (w - 7 * i)); nia.
Qed.

Lemma groups_value_nonneg bs : Forall is_byte bs -> 0 <= groups_value bs.
Proof. induction 1 as [|b bs Hb _ IH]; cbn; [lia|]. pose proof (Z.mod_pos_bound b 128). lia. Qed.

(** ** The readers *)

Section readers.
Context {B : Type} {BB : ByteBuffer B} {valid : B -> Prop} {room : B -> Z -> Prop}
  {bytes : B -> list Z} `{!ByteBufferLaws B valid room bytes}.
Abbreviation ahead := (ahead (bytes := bytes)).
Abbreviation consumes := (consumes (valid := valid) (bytes := bytes)).
Abbreviation throws_clean := (throws_clean (valid := valid) (bytes := bytes)).

(** [m] does at [b] what [r] says. *)
Definition answers {A} (m : M B A) (b : B) (r : option (A * nat)) : Prop :=
  match r with Some (a, k) => consumes m b a (Z.of_nat k) | None => throws_clean m b end.

Lemma answers_map {A C} (m : M B A) (f : A -> C) b r :
  answers m b r -> answers (m ≫= λ x, mret (f x)) b ((λ '(a, k), (f a, k)) <$> r).
Proof.
  destruct r as [[a k]|]; intros (b' & E & H); exists b'; (split; [|done]); [by erewrite bind_Ret by exact E|by apply bind_Throw].
Qed.

Lemma answers_object n f g b :
  valid b -> (forall bs, length bs = n -> Forall is_byte bs -> f (of_le bs) = g bs) -> Forall is_byte (ahead b) ->
  answers (read_object n f) b (fixed n g (ahead b)).
Proof.
  intros Hv Hf Hb. unfold fixed. destruct (Nat.leb_spec n (length (ahead b))) as [Hn|Hn]; [|apply (read_object_short (room := room)); [done|lia]].
  assert (length (take n (ahead b)) = n) as Hl by (rewrite length_take; lia).
  cbn [answers]. rewrite <- (Hf (take n (ahead b)) Hl) by (by apply Forall_take).
  eapply (read_object_ok (room := room)); [done|symmetry; apply take_drop|done].
Qed.

Lemma answers_var_loop w n : forall i r b,
  valid b -> Forall is_byte (ahead b) -> 0 <= i <= buf_pos b -> (n = O \/ 7 * (i + Z.of_nat n - 1) < w) -> 0 <= w ->
  0 <= r < 2 ^ w -> (n <> O -> r < 2 ^ (7 * i)) ->
  match group_count n (ahead b) with
  | Some k => consumes (read_var_loop w n i r) b ((r + 2 ^ (7 * i) * groups_value (take k (ahead b))) mod 2 ^ w) (Z.of_nat k)
  | None => exists b', read_var_loop w n i r b = (Throw OutOfRange, b') /\ valid b' /\ bytes b' = bytes b /\ buf_pos b' = buf_pos b - i
  end.
Proof.
  induction n as [|n IH]; intros i r b Hv Hb Hi Hn Hw Hr Hr'.
  { cbn [group_count take groups_value read_var_loop]. exists b. rewrite Z.mul_0_r, Z.add_0_r, Z.mod_small by lia. split_and!; [done..|]. cbn. lia. }
  destruct Hn as [[=]|Hn]. specialize (Hr' ltac:(done)). cbn [read_var_loop].
  destruct (ahead b) as [|x rest] eqn:Ha; cbn [group_count].
  - destruct (read_short (room := room) b 1 Hv) as (b1 & E & Hv1 & Hb1 & Hp1); [by rewrite Ha|].
    rewrite Ha in E, Hp1. cbn in Hp1. erewrite bind_Ret by exact E. cbv beta iota.
    destruct (rewind_ok (A := Z) (room := room) (len (@nil Z) + i) b1) as (b2 & E2 & Hv2 & Hb2 & Hp2); [done|cbn; lia|].
    exists b2. cbn [length] in *. split_and!; [done|done|congruence|lia].
  - apply Forall_cons in Hb as [Hx Hb]. unfold is_byte in Hx.
    destruct (read_byte (room := room) b x rest Hv Ha) as (b1 & E & Hv1 & Hb1 & Hp1).
    destruct (Z.ltb_spec x 128) as [Hlt|Hge].
    + exists b1. split_and!; [|done|done|done]. erewrite bind_Ret by exact E. cbv beta iota.
      destruct (Z.ltb_spec x 0x80); [|lia]. rewrite lor_group by lia. cbn [take groups_value]. rewrite (Z.mod_small x 128) by lia.
      unfold mret, M_ret. do 3 f_equal. rewrite take_0. cbn [groups_value]. lia.
    + assert (ahead b1 = rest) as Ha1 by (by apply (ahead_after (room := room) (valid := valid) b b1 [x])).
      set (r1 := Z.lor r (uint w (Z.shiftl (Z.land x 0x7F) (7 * i)))).
      assert (r1 = (r + 2 ^ (7 * i) * (x mod 128)) mod 2 ^ w) as Er1.
      { unfold r1. rewrite land_7F, lor_group; [done|lia|lia|lia|]. apply Z.mod_pos_bound. lia. }
      assert (2 ^ (7 * (i + 1)) = 128 * 2 ^ (7 * i)) as E7.
      { replace (7 * (i + 1)) with (7 + 7 * i) by lia. by rewrite Z.pow_add_r by lia. }
      pose proof (Z.mod_pos_bound x 128 ltac:(lia)) as Hm. pose proof (Z.pow_pos_nonneg 2 (7 * i) ltac:(lia) ltac:(lia)).
      pose proof (Z.pow_pos_nonneg 2 w ltac:(lia) ltac:(lia)).
      assert (0 <= r1 < 2 ^ w) as Hr1 by (rewrite Er1; apply Z.mod_pos_bound; lia).
      assert (n <> O -> r1 < 2 ^ (7 * (i + 1))) as Hr1'.
      { intros Hn0. rewrite Er1. eapply Z.le_lt_trans; [apply Z.mod_le; nia|]. rewrite E7. nia. }
      specialize (IH (i + 1) r1 b1 Hv1 ltac:(by rewrite Ha1) ltac:(lia) ltac:(right; lia) Hw Hr1 Hr1'). rewrite Ha1 in IH.
      assert ((buf_read 1 ≫= λ bs, match bs with
        | [byte] => if byte <? 0x80 then mret (Z.lor r (uint w (Z.shiftl byte (7 * i))))
                    else read_var_loop w n (i + 1) (Z.lor r (uint w (Z.shiftl (Z.land byte 0x7F) (7 * i))))
        | _ => rewind (len bs + i) end) b = read_var_loop w n (i + 1) r1 b1) as Estep.
      { erewrite bind_Ret by exact E. cbv beta iota. by destruct (Z.ltb_spec x 0x80); [lia|]. }
      destruct (group_count n rest) as [k|]; cbn [fmap option_fmap option_map].
      * destruct IH as (b2 & E2 & Hv2 & Hb2 & Hp2). exists b2. split_and!; [|done|congruence|lia].
        rewrite Estep, E2. do 2 f_equal. cbn [take groups_value]. rewrite Er1, Zplus_mod_idemp_l, E7. f_equal. ring.
      * destruct IH as (b2 & E2 & Hv2 & Hb2 & Hp2). exists b2. rewrite Estep. split_and!; [done|done|congruence|lia].
Qed.

Lemma answers_var w n b :
  valid b -> Forall is_byte (ahead b) -> 7 * (Z.of_nat n - 1) < w -> 0 <= w ->
  answers (read_var_loop w n 0 0) b (varint w n (ahead b)).
Proof.
  intros Hv Hb Hn Hw. pose proof (buf_pos_range b Hv) as Hp. pose proof (Z.pow_pos_nonneg 2 w ltac:(lia) ltac:(lia)).
  pose proof (answers_var_loop w n 0 0 b Hv Hb ltac:(lia) ltac:(right; lia) Hw ltac:(lia) ltac:(intros _; done)) as H1.
  unfold varint. destruct (group_count n (ahead b)) as [k|]; cbn [fmap option_fmap option_map answers].
  - change (2 ^ (7 * 0)) with 1 in H1. by rewrite Z.add_0_l, Z.mul_1_l in H1.
  - destruct H1 as (b' & E & Hv' & Hb' & Hp'). exists b'. split_and!; [done..|lia].
Qed.
Lemma varint_range w n bs v k : 0 <= w -> varint w n bs = Some (v, k) -> 0 <= v < 2 ^ w.
Proof.
  intros Hw. unfold varint. destruct (group_count n bs) as [j|]; [|done]. intros [= <- <-]. apply Z.mod_pos_bound, Z.pow_pos_nonneg; lia.
Qed.

Lemma answers_zigzag w n b :
  valid b -> Forall is_byte (ahead b) -> 7 * (Z.of_nat n - 1) < w -> 1 < w ->
  answers (read_var_loop w n 0 0 ≫= λ v, mret (sint w (decode_zigzag w v))) b ((λ '(v, k), (unzigzag v, k)) <$> varint w n (ahead b)).
Proof.
  intros Hv Hb Hn Hw. pose proof (answers_map _ (λ v, sint w (decode_zigzag w v)) b _ (answers_var w n b Hv Hb Hn ltac:(lia))) as H.
  destruct (varint w n (ahead b)) as [[v k]|] eqn:E; [|exact H]. cbn in H |- *.
  by rewrite unzigzag_decode in H by (try eapply varint_range; try exact E; lia).
Qed.

(** Every typed read returns what its encoding says, and takes exactly those bytes; when the bytes
    ahead do not hold a whole value it throws and takes none. *)
Lemma read_as_answers s b : valid b -> Forall is_byte (ahead b) -> answers (read_as s) b (decode s (ahead b)).
Proof.
  intros Hv Hb.
  assert (forall m r, answers m b r -> answers (as_int m) b ((λ '(v, k), (VInt v, k)) <$> r)) as Hint by (intros m r; apply (answers_map m VInt)).
  assert (forall w n, 7 * (Z.of_nat n - 1) < w -> 1 < w ->
    answers (as_int (read_var_loop w n 0 0 ≫= λ v, mret (sint w (decode_zigzag w v)))) b
      ((λ '(v, k), (VInt (unzigzag v), k)) <$> varint w n (ahead b))) as Hzig.
  { intros w n H1 H2. pose proof (Hint _ _ (answers_zigzag w n b Hv Hb H1 H2)) as H. by destruct (varint w n (ahead b)) as [[v k]|]. }
  destruct s; cbn [read_as decode];
    try (apply Hint, answers_object; [done| |done]; intros bs Hl Hbs; unfold compose).
  - unfold network_to_host_i8. rewrite sint_twos; [|pose proof (of_le_range bs Hbs) as Hr; by rewrite Hl in Hr].
    destruct bs as [|x [|]]; try done. cbn. f_equal. lia.
  - destruct bs as [|x [|]]; try done. cbn. unfold network_to_host_u8. lia.
  - unfold network_to_host_i16. apply (signed_bytes 16 2); [lia|done|done|done|by apply ntoh_bytes].
  - by apply ntoh_bytes.
  - unfold network_to_host_i32. apply (signed_bytes 32 4); [lia|done|done|done|by apply ntoh_bytes].
  - by apply ntoh_bytes.
  - unfold network_to_host_i64. apply (signed_bytes 64 8); [lia|done|done|done|by apply ntoh_bytes_64].
  - by apply ntoh_bytes_64.
  - by apply (Hzig 32 5%nat).
  - apply Hint, answers_var; [done|done|lia|lia].
  - by apply (Hzig 64 10%nat).
  - apply Hint, answers_var; [done|done|lia|lia].
  - by rewrite little_endian_of_le.
  - by rewrite little_endian_of_le.
  - pose proof (answers_map (read_string_with_length (Z.of_nat n)) VStr b
      (if (n <=? length (ahead b))%nat then Some (take n (ahead b), n) else None)) as H.
    destruct (Nat.leb_spec n (length (ahead b))) as [Hn|Hn]; apply H.
    + destruct (read_enough (room := room) b (Z.of_nat n) Hv) as (El & b' & E & Hrest); [lia|]. rewrite Nat2Z.id in El, E.
      exists b'. split; [|exact Hrest]. unfold read_string_with_length. erewrite bind_Ret by exact E. by rewrite El, Z.eqb_refl.
    + apply (consume_then_rewind (room := room) _ _ b (ahead b) (len (ahead b))); [done|lia|apply (read_short (room := room)); [done|lia]|].
      destruct (Z.eqb_spec (len (ahead b)) (Z.of_nat n)); [lia|done].
Qed.

Lemma read_string_answers b : valid b -> Forall is_byte (ahead b) -> answers read_string b (decode_text (ahead b)).
Proof.
  intros Hv Hb. unfold decode_text, fixed. destruct (Nat.leb_spec 4 (length (ahead b))) as [H4|H4]; cbn [mbind option_bind]; cycle 1.
  { apply (read_string_cut (room := room)); [done|lia]. }
  set (hd := take 4 (ahead b)). assert (ahead b = hd ++ drop 4 (ahead b)) as Ha by (symmetry; apply take_drop).
  assert (length hd = 4%nat) as Hl by (unfold hd; rewrite length_take; lia).
  assert (Forall is_byte hd) as Hhd by (by apply Forall_take).
  assert (network_to_host_u32 (of_le hd) = big_endian hd) as Ebe by (by apply ntoh_bytes).
  pose proof (big_endian_range hd Hhd) as Hr.
  destruct (Z.leb_spec (big_endian hd) (len (drop 4 (ahead b)))) as [Hn|Hn]; cycle 1.
  { eapply (read_string_short (room := room)); [done|exact Ha|done|]. by rewrite Ebe. }
  destruct (read_object_ok (room := room) 4 network_to_host_u32 b hd _ Hv Ha Hl) as (b1 & E1 & Hv1 & Hb1 & Hp1).
  rewrite Ebe in E1. assert (ahead b1 = drop 4 (ahead b)) as Ha1 by (apply (ahead_after (room := room) (valid := valid) b b1 hd); auto; lia).
  destruct (read_enough (room := room) b1 (big_endian hd) Hv1) as (El & b2 & E2 & Hv2 & Hb2 & Hp2); [rewrite Ha1; lia|].
  exists b2. rewrite Ha1 in E2, El. split_and!; [|done|congruence|lia]. unfold read_string, read_fix_ul.
  erewrite bind_Ret by exact E1. erewrite bind_Ret by exact E2. by rewrite El, Z.eqb_refl.
Qed.
End readers.
