(* ===== verification/ByteArrayQueue.v ===== *)
(** * What [ByteArray] promises

    The block-chained array of ByteArray.v refines a plain byte queue: a list
    of bytes and a read position.  The refinement is stated for whole command
    sequences, and the array is an instance of the [ByteBuffer] interface the
    typed reads and writes of Codec.v are proved against.  The theorems about
    the C++ class are at the end of the file. *)

From S2P Require Import Prelude Endian ByteArray Codec CodecSpec.

(** ** The abstract queue *)

Record queue := mkQueue { q_bytes : list Z; q_pos : Z }.

Definition abs (ba : ByteArray) : queue := mkQueue (content ba) (read_pos_ ba).

Inductive command :=
| Write (data : list Z)
| Read (n : Z)
| SetReadPosition (p : Z)
| GetUnreadSize
| GetReadBuffers (n : Z)
| Clear.

Inductive reply := Done | Bytes (l : list Z) | Size (n : Z) | Failed.

(** The reference behaviour. *)
Definition queue_step (c : command) (q : queue) : reply * queue :=
  let rest := drop (Z.to_nat (q_pos q)) (q_bytes q) in
  match c with
  | Write data => (Done, mkQueue (q_bytes q ++ data) (q_pos q))
  | Read n =>
      (Bytes (take (Z.to_nat n) rest), mkQueue (q_bytes q) (q_pos q + Z.min n (len rest)))
  | SetReadPosition p =>
      if len (q_bytes q) <? p then (Failed, q) else (Done, mkQueue (q_bytes q) p)
  | GetUnreadSize => (Size (len rest), q)
  | GetReadBuffers n => (Bytes (take (Z.to_nat n) rest), q)
  | Clear => (Done, mkQueue [] 0)
  end.

Fixpoint queue_run (cs : list command) (q : queue) : list reply * queue :=
  match cs with
  | [] => ([], q)
  | c :: cs => let '(r, q) := queue_step c q in
               let '(rs, q) := queue_run cs q in (r :: rs, q)
  end.

(** ** Running the C++ operations *)

Definition command_ok (c : command) : Prop :=
  match c with
  | Read n | SetReadPosition n | GetReadBuffers n => 0 <= n < 2 ^ 64
  | _ => True
  end.

Definition command_size (c : command) : Z :=
  match c with Write data => len data | _ => 0 end.
Definition commands_size (cs : list command) : Z := foldr (λ c n, command_size c + n) 0 cs.

Section running.
Context (junk : nat -> nat -> Z).

(** [None] when the call runs into a fault. *)
Definition array_step (c : command) (ba : ByteArray) : option (reply * ByteArray) :=
  match c with
  | Write data =>
      match write junk data ba with (Ret _, ba') => Some (Done, ba') | _ => None end
  | Read n =>
      match read n ba with (Ret l, ba') => Some (Bytes l, ba') | _ => None end
  | SetReadPosition p =>
      match set_read_position p ba with
      | (Ret _, ba') => Some (Done, ba')
      | (Throw _, ba') => Some (Failed, ba')
      | _ => None
      end
  | GetUnreadSize => Some (Size (get_unread_size ba), ba)
  | GetReadBuffers n =>
      match get_read_buffers n ba with
      | Ret iovs => Some (Bytes (gather (blocks ba) iovs), ba)
      | _ => None
      end
  | Clear => Some (Done, clear ba)
  end.

Fixpoint array_run (cs : list command) (ba : ByteArray) : option (list reply * ByteArray) :=
  match cs with
  | [] => Some ([], ba)
  | c :: cs =>
      '(r, ba) ← array_step c ba;
      '(rs, ba) ← array_run cs ba;
      Some (r :: rs, ba)
  end.

Lemma clear_wf ba : wf ba -> wf (clear ba).
Proof. intros [? _ _ _ _ _]. split; simpl; auto; lia. Qed.

(** One command: same reply, related states. *)
Lemma array_step_refines c ba :
  wf ba -> command_ok c -> fits ba (command_size c) ->
  exists r ba', array_step c ba = Some (r, ba') /\ wf ba' /\
    queue_step c (abs ba) = (r, abs ba') /\ block_size_ ba' = block_size_ ba /\
    write_pos_ ba' <= write_pos_ ba + command_size c.
Proof.
  intros H Hok Hf. destruct c; cbn [command_ok command_size array_step queue_step abs q_bytes q_pos] in *.
  - destruct (write_spec junk data ba H Hf) as (ba' & -> & H' & Hc & Hr & Hb).
    exists Done, ba'. split_and!; auto; [unfold abs; by rewrite Hc, Hr|].
    pose proof (length_content ba H). pose proof (length_content ba' H') as E.
    rewrite Hc, length_app in E. lia.
  - rewrite read_spec by (done || lia). pose proof (length_unread ba H).
    destruct (wf_pos ba H). eexists _, _. split_and!; [reflexivity|..]; auto; simpl; try lia.
    apply seek_read_wf; [done|lia].
  - rewrite set_read_position_spec by (done || lia). rewrite length_content by done.
    destruct (Z.ltb_spec (write_pos_ ba) p); eexists _, _; split_and!; try reflexivity; auto;
      simpl; try lia. apply seek_read_wf; [done|lia].
  - rewrite get_unread_size_ok by done. eexists _, _. split_and!; [reflexivity|..]; auto. lia.
  - destruct (get_read_buffers_spec n ba H ltac:(lia)) as (iovs & -> & _ & ->).
    eexists _, _. split_and!; [reflexivity|..]; auto. lia.
  - destruct (wf_pos ba H). eexists _, _. split_and!; [reflexivity|..]; auto; simpl; try lia.
    by apply clear_wf.
Qed.

Lemma array_run_refines cs ba :
  wf ba -> Forall command_ok cs -> fits ba (commands_size cs) ->
  exists rs ba', array_run cs ba = Some (rs, ba') /\ wf ba' /\
    queue_run cs (abs ba) = (rs, abs ba').
Proof.
  intros H Hok. revert ba H. induction Hok as [|c cs Hc Hcs IH]; intros ba H Hf.
  - exists [], ba. auto.
  - cbn [commands_size foldr] in Hf. fold (commands_size cs) in Hf. unfold fits in Hf.
    assert (0 <= commands_size cs /\ 0 <= command_size c) as [? ?].
    { split; [|destruct c; simpl; lia]. clear. induction cs as [|c cs IH]; simpl; [lia|].
      unfold commands_size in *. destruct c; simpl; lia. }
    destruct (array_step_refines c ba H Hc) as (r & ba1 & E & Hwf1 & Q & Hb & Hw);
      [unfold fits; lia|].
    destruct (IH ba1 Hwf1) as (rs & ba2 & E2 & Hwf2 & Q2); [unfold fits; lia|].
    exists (r :: rs), ba2. cbn [array_run queue_run]. rewrite E. simpl. rewrite E2, Q. simpl.
    by rewrite Q2.
Qed.
End running.

(** ** The array as a [ByteBuffer] *)

Section instance.
Context (junk : nat -> nat -> Z).

#[export] Instance array_buffer : ByteBuffer ByteArray := {|
  buf_write := write junk;
  buf_read := read;
  buf_seek := set_read_position;
  buf_pos := read_pos_;
|}.

#[export] Instance array_buffer_laws : ByteBufferLaws ByteArray wf fits content.
Proof.
  split; cbn [buf_write buf_read buf_seek buf_pos array_buffer].
  - intros ba H. rewrite length_content by done. apply H.
  - intros ba H. rewrite length_content by done. pose proof (wf_room ba H).
    pose proof (wf_cap64 ba H). lia.
  - unfold fits. intros. lia.
  - intros data ba H Hf. destruct (write_spec junk data ba H Hf) as (ba' & E & H' & Hc & Hr & Hb).
    exists ba'. split_and!; auto. unfold fits. intros k Hk. rewrite Hb.
    rewrite <- (length_content ba' H'), Hc, length_app, Nat2Z.inj_add, (length_content ba H). lia.
  - intros n ba H Hn. rewrite read_spec by done. destruct (wf_pos ba H).
    pose proof (length_unread ba H) as E. rewrite length_content by done.
    eexists. split_and!; [reflexivity|apply seek_read_wf; [done|lia]|done|simpl; lia].
  - intros p ba H Hp. rewrite length_content in Hp by done.
    rewrite set_read_position_spec by (done || lia).
    destruct (Z.ltb_spec (write_pos_ ba) p); [lia|].
    eexists. split_and!; [reflexivity|by apply seek_read_wf|done|done].
Qed.
End instance.

(** ** Positions past the allocated blocks *)

Lemma walk_end ba n i :
  (i + n = length (blocks ba))%nat -> (0 < n)%nat -> walk ba n (Some i) = Ret None.
Proof.
  revert i. induction n as [|n IH]; intros i Hi Hn; [lia|]. simpl.
  unfold next_block. destruct (Nat.ltb_spec (S i) (length (blocks ba))).
  - apply IH; lia.
  - by replace n with O by lia.
Qed.

Lemma walk_past ba n i :
  (length (blocks ba) < i + n)%nat -> (i < length (blocks ba))%nat ->
  walk ba n (Some i) = Fault NullDeref.
Proof.
  revert i. induction n as [|n IH]; intros i Hi Hl; [lia|]. simpl.
  unfold next_block. destruct (Nat.ltb_spec (S i) (length (blocks ba))).
  - apply IH; lia.
  - destruct n; [lia|done].
Qed.

Lemma live_root ba : blocks ba <> [] -> root_ ba = Some O.
Proof. unfold root_. by destruct (blocks ba). Qed.

Lemma ensure_root_live junk ba : blocks ba <> [] -> ensure_root junk ba = ba.
Proof. unfold ensure_root. by destruct (blocks ba). Qed.

Lemma capacity_blocks ba :
  wf ba -> Z.to_nat (capacity_ ba / block_size_ ba) = length (blocks ba).
Proof.
  intros [Hs _ Hc _ _ _]. rewrite Hc, Z.mul_comm, Z.div_mul by lia. lia.
Qed.

Lemma place_at_capacity ba :
  wf ba -> blocks ba <> [] ->
  exists ba', place_write_cursor (capacity_ ba) ba = (Ret tt, ba') /\
    write_cur_ ba' = None /\ blocks ba' = blocks ba.
Proof.
  intros H Hne. unfold place_write_cursor. rewrite capacity_blocks, live_root by done.
  rewrite walk_end; [|lia|destruct (blocks ba); simpl; [done|lia]].
  eexists. by split_and!.
Qed.

(** ** Theorems *)

(** A fresh array driven by any sequence of writes, reads, seeks, views and
    clears gives the replies of a plain byte queue.  (C1) *)
Theorem bytearray_refines_queue junk block_size cs
    (Hsize : 0 < block_size)
    (Hok : Forall command_ok cs)
    (Hroom : commands_size cs + block_size < 2 ^ 64) :
  exists ba', array_run junk cs (ByteArray_new block_size)
                = Some (fst (queue_run cs (mkQueue [] 0)), ba') /\
    wf ba' /\ abs ba' = snd (queue_run cs (mkQueue [] 0)).
Proof.
  destruct (array_run_refines junk cs (ByteArray_new block_size)) as (rs & ba' & E & H & Q);
    [by apply wf_new|done|unfold fits; simpl; lia|].
  exists ba'. change (abs (ByteArray_new block_size)) with (mkQueue [] 0) in Q.
  by rewrite E, Q.
Qed.

Lemma bytearray_refines_queue_witness :
  exists ba', array_run no_junk
      [Write [1;2;3;4;5]; Read 2; SetReadPosition 1; Read 9; SetReadPosition 6; GetUnreadSize]
      (ByteArray_new 2)
    = Some ([Done; Bytes [1;2]; Done; Bytes [2;3;4;5]; Failed; Size 0], ba') /\
    wf ba' /\ abs ba' = mkQueue [1;2;3;4;5] 5.
Proof.
  apply (bytearray_refines_queue no_junk 2
    [Write [1;2;3;4;5]; Read 2; SetReadPosition 1; Read 9; SetReadPosition 6; GetUnreadSize]).
  - lia.
  - repeat constructor; simpl; lia.
  - vm_compute. reflexivity.
Defined.

(** Integers of every width, variable-length integers, floating-point bit
    patterns and strings written to a drained array one after the other are
    read back in order, and the array is drained again.  (C2) *)
Theorem typed_values_roundtrip junk ba l
    (Hwf : wf ba) (Hdrained : unread ba = [])
    (Hvalues : Forall (λ p, value_ok p.1 p.2) l)
    (Hroom : fits ba (total_size l)) :
  exists ba', (write_all (BB:=array_buffer junk) l ≫= λ _, read_all (BB:=array_buffer junk) (l.*1)) ba
                = (Ret (l.*2), ba') /\ wf ba' /\ unread ba' = [].
Proof. by apply (write_all_read_all (BB:=array_buffer junk) (room:=fits) (bytes:=content)). Qed.

Lemma typed_values_roundtrip_witness :
  exists ba', (write_all (BB:=array_buffer no_junk)
                 [(Svl, VInt (-3)); (Sull, VInt 18446744073709551615); (Sstr 2, VStr [104; 105])]
               ≫= λ _, read_all (BB:=array_buffer no_junk) [Svl; Sull; Sstr 2]) (ByteArray_new 3)
    = (Ret [VInt (-3); VInt 18446744073709551615; VStr [104; 105]], ba') /\ wf ba' /\
    unread ba' = [].
Proof.
  apply (typed_values_roundtrip no_junk (ByteArray_new 3)
    [(Svl, VInt (-3)); (Sull, VInt 18446744073709551615); (Sstr 2, VStr [104; 105])]).
  - apply wf_new. lia.
  - reflexivity.
  - repeat constructor; simpl; lia.
  - vm_compute. reflexivity.
Defined.

(** (C40) Whatever bytes are ahead in a well-formed array, each typed read returns exactly what its encoding
    says the first of them stand for and moves the read position behind exactly those; when the bytes do not
    hold a whole value it throws [std::out_of_range], and the bytes and the read position are what they
    were before the call.  The same for [read_string], whose length prefix is put back too. *)
Theorem typed_read_total junk s ba (Hwf : wf ba) (Hbytes : Forall is_byte (unread ba)) :
  match decode s (unread ba) with
  | Some (v, k) => exists ba', read_as (BB:=array_buffer junk) s ba = (Ret v, ba') /\ wf ba' /\
      content ba' = content ba /\ read_pos_ ba' = read_pos_ ba + Z.of_nat k
  | None => exists ba', read_as (BB:=array_buffer junk) s ba = (Throw OutOfRange, ba') /\ wf ba' /\
      content ba' = content ba /\ read_pos_ ba' = read_pos_ ba
  end /\
  match decode_text (unread ba) with
  | Some (l, k) => exists ba', read_string (BB:=array_buffer junk) ba = (Ret l, ba') /\ wf ba' /\
      content ba' = content ba /\ read_pos_ ba' = read_pos_ ba + Z.of_nat k
  | None => exists ba', read_string (BB:=array_buffer junk) ba = (Throw OutOfRange, ba') /\ wf ba' /\
      content ba' = content ba /\ read_pos_ ba' = read_pos_ ba
  end.
Proof.
  pose proof (read_as_answers (BB:=array_buffer junk) (room:=fits) (bytes:=content) s ba Hwf Hbytes) as H1.
  pose proof (read_string_answers (BB:=array_buffer junk) (room:=fits) (bytes:=content) ba Hwf Hbytes) as H2.
  change (ahead ba) with (unread ba) in H1, H2. split.
  - by destruct (decode s (unread ba)) as [[v k]|].
  - by destruct (decode_text (unread ba)) as [[l k]|].
Qed.

(** Two bytes of a 16-bit integer, of which the variable-length reader takes one and the 32-bit reader none. *)
Definition two_bytes : ByteArray := (write no_junk [1; 44] (ByteArray_new 3)).2.
Lemma typed_read_total_witness :
  (exists ba', read_as (BB:=array_buffer no_junk) Sus two_bytes = (Ret (VInt 300), ba') /\ read_pos_ ba' = 2) /\
  (exists ba', read_as (BB:=array_buffer no_junk) Svl two_bytes = (Ret (VInt (-1)), ba') /\ read_pos_ ba' = 1) /\
  (exists ba', read_as (BB:=array_buffer no_junk) Sul two_bytes = (Throw OutOfRange, ba') /\ read_pos_ ba' = 0).
Proof.
  assert (wf two_bytes /\ Forall is_byte (unread two_bytes)) as [Hwf Hb].
  { destruct (write_spec no_junk [1; 44] (ByteArray_new 3)) as (ba & E & Hwf & _); [apply wf_new; lia|vm_compute; reflexivity|].
    split; [unfold two_bytes; rewrite E; exact Hwf|]. vm_compute. repeat constructor; discriminate. }
  split_and!.
  - destruct (typed_read_total no_junk Sus two_bytes Hwf Hb) as [(ba' & E & _ & _ & Hp) _]. exists ba'. split; [exact E|exact Hp].
  - destruct (typed_read_total no_junk Svl two_bytes Hwf Hb) as [(ba' & E & _ & _ & Hp) _]. exists ba'. split; [exact E|exact Hp].
  - destruct (typed_read_total no_junk Sul two_bytes Hwf Hb) as [(ba' & E & _ & _ & Hp) _]. exists ba'. split; [exact E|exact Hp].
Defined.

(** The local arrays [value_bytes[5]] and [value_bytes[10]] of the
    variable-length writers are never overrun, and what they hold are bytes.
    *)
Theorem varint_arrays_bounded v :
  (0 <= v < 2 ^ 32 -> exists bs, var_bytes 5 v = Some bs /\ (1 <= length bs <= 5)%nat /\ Forall is_byte bs) /\
  (0 <= v < 2 ^ 64 -> exists bs, var_bytes 10 v = Some bs /\ (1 <= length bs <= 10)%nat /\ Forall is_byte bs).
Proof. split; intros; apply var_bytes_fit; simpl; lia. Qed.

Lemma varint_arrays_bounded_witness :
  (0 <= 300 < 2 ^ 32 -> exists bs, var_bytes 5 300 = Some bs /\ (1 <= length bs <= 5)%nat /\ Forall is_byte bs) /\
  (0 <= 300 < 2 ^ 64 -> exists bs, var_bytes 10 300 = Some bs /\ (1 <= length bs <= 10)%nat /\ Forall is_byte bs).
Proof. apply (varint_arrays_bounded 300). Defined.

(** A string of fewer than 128 bytes written by [write_string_with_length] is
    not what [read_string] reads: it throws, because the writer emits a
    variable-length prefix and the reader expects a four-byte one.  *)
Theorem string_prefixes_disagree junk ba l
    (Hlen : len l < 128) (Hbytes : Forall is_byte l) (Hwf : wf ba)
    (Hdrained : unread ba = []) (Hroom : fits ba (1 + len l)) :
  exists ba', (write_string_with_length (BB:=array_buffer junk) l
               ≫= λ _, read_string (BB:=array_buffer junk)) ba = (Throw OutOfRange, ba').
Proof. by eapply (length_prefix_mismatch (BB:=array_buffer junk) (room:=fits) (bytes:=content)). Qed.

Lemma string_prefixes_disagree_witness :
  exists ba', (write_string_with_length (BB:=array_buffer no_junk) [104; 101; 108; 108; 111]
               ≫= λ _, read_string (BB:=array_buffer no_junk)) (ByteArray_new 4)
    = (Throw OutOfRange, ba').
Proof.
  apply (string_prefixes_disagree no_junk).
  - vm_compute. reflexivity.
  - repeat constructor; unfold is_byte; lia.
  - apply wf_new. lia.
  - reflexivity.
  - vm_compute. reflexivity.
Defined.

(** Moving the write position to the end of the allocated blocks leaves the
    write cursor null: the next non-empty write dereferences it.  *)
Theorem write_after_seek_to_capacity junk ba data
    (Hwf : wf ba) (Hlive : blocks ba <> []) (Hdata : data <> []) :
  exists ba', (set_write_position junk (capacity_ ba) ≫= λ _, write junk data) ba
              = (Fault NullDeref, ba').
Proof.
  destruct (place_at_capacity ba Hwf Hlive) as (ba1 & E1 & Hc & Hb).
  exists ba1. erewrite bind_Ret.
  2:{ unfold set_write_position. rewrite Z.ltb_irrefl. exact E1. }
  unfold write. destruct (Z.eqb_spec (len data) 0); [destruct data; simpl in *; [done|lia]|].
  apply bind_Fault. unfold expand_capacity. rewrite ensure_root_live by (by rewrite Hb).
  by rewrite Hc.
Qed.

Lemma write_after_seek_to_capacity_witness :
  exists ba', (set_write_position no_junk 4 ≫= λ _, write no_junk [7])
      (mkByteArray 2 4 [[1;2];[3;0]] 0 3 (Some 0%nat) (Some 1%nat)) = (Fault NullDeref, ba').
Proof.
  apply (write_after_seek_to_capacity no_junk
    (mkByteArray 2 4 [[1;2];[3;0]] 0 3 (Some 0%nat) (Some 1%nat))).
  - split; simpl; repeat constructor; try reflexivity; lia.
  - discriminate.
  - discriminate.
Defined.

(** Moving the write position past the allocated blocks makes too few new
    ones: the growth is computed from the free space, not from the target.
    From an array rewound to position 0 the walk runs off the chain.  *)
Theorem seek_past_capacity_faults junk ba pos
    (Hwf : wf ba) (Hlive : blocks ba <> []) (Hrewound : write_pos_ ba = 0)
    (Hfar : capacity_ ba + block_size_ ba <= pos < 2 * capacity_ ba) :
  exists ba', set_write_position junk pos ba = (Fault NullDeref, ba').
Proof.
  pose proof (wf_size ba Hwf). pose proof (wf_cap64 ba Hwf). pose proof (wf_cap ba Hwf) as Ec.
  unfold set_write_position. destruct (Z.ltb_spec (capacity_ ba) pos); [|lia].
  rewrite uint_small by lia. destruct (wf_live ba Hwf Hlive) as (_ & Hwc & _).
  erewrite bind_Ret.
  2:{ unfold expand_capacity. rewrite ensure_root_live, Hwc by done. cbn [grow].
      rewrite get_spare_capacity_ok by done.
      destruct (Z.leb_spec (capacity_ ba - write_pos_ ba) (pos - capacity_ ba)); [lia|reflexivity]. }
  unfold place_write_cursor. rewrite live_root by done.
  rewrite walk_past; [by eexists| |destruct (blocks ba); simpl; [done|lia]].
  assert (len (blocks ba) + 1 <= pos / block_size_ ba) by (apply Z.div_le_lower_bound; lia). lia.
Qed.

(** Filling the buffers of [get_write_buffers] and moving the write position
    past the data, as [SocketStream::read] does, appends the data.  *)
Theorem scatter_appends junk n data ba
    (Hwf : wf ba) (Hn : 0 < n) (Hdata : len data <= n) (Hroom : fits ba n) :
  exists iovs ba1 ba2,
    get_write_buffers junk n ba = (Ret iovs, ba1) /\ total_len iovs = n /\
    set_write_position junk (u64 (write_pos_ ba1 + len data)) (fill iovs data ba1) = (Ret tt, ba2) /\
    wf ba2 /\ content ba2 = content ba ++ data /\ read_pos_ ba2 = read_pos_ ba.
Proof.
  destruct (get_write_buffers_spec junk n data ba) as (iovs & ba1 & ba2 & ? & ? & ? & ? & ? & ? & ? & ? & ?); auto.
  by exists iovs, ba1, ba2.
Qed.

Lemma scatter_appends_witness :
  exists iovs ba1 ba2,
    get_write_buffers no_junk 5 (ByteArray_new 2) = (Ret iovs, ba1) /\ total_len iovs = 5 /\
    set_write_position no_junk (u64 (write_pos_ ba1 + 3)) (fill iovs [7;8;9] ba1) = (Ret tt, ba2) /\
    wf ba2 /\ content ba2 = [7;8;9] /\ read_pos_ ba2 = 0.
Proof.
  apply (scatter_appends no_junk 5 [7;8;9] (ByteArray_new 2)).
  - apply wf_new. lia.
  - lia.
  - simpl. lia.
  - vm_compute. reflexivity.
Defined.
