(* ===== verification/ByteArrayIO.v ===== *)
(** * [ByteArray] to text and to files (src/sylar/bytearry.cpp)

    [to_hex_string], [write_to_file] and [read_from_file].  [fopen], [fwrite]
    and [fread] are libc: opening may fail, [fwrite] may accept fewer bytes
    than asked (the parameter [fwrite] says how many), and [fread] on a regular
    file returns the next bytes, fewer than asked only at the end of the file. *)

From S2P Require Import Prelude ByteArray.

(** ** [to_hex_string] *)

(** Characters are their codes. *)
Definition hex_digit (d : Z) : Z := if d <? 10 then 48 + d else 87 + d.
Definition hex_byte (b : Z) : list Z := [hex_digit (b / 16); hex_digit (b mod 16); 32].

Definition to_hex_string : M ByteArray (list Z) :=
  gets read_pos_ ≫= λ old_read_pos,
  gets get_unread_size ≫= λ size,
  read size ≫= λ str,
  set_read_position old_read_pos ≫= λ _,
  mret (concat (hex_byte <$> str)).

Lemma to_hex_string_spec ba :
  wf ba -> to_hex_string ba = (Ret (concat (hex_byte <$> unread ba)), ba).
Proof.
  intros H. unfold to_hex_string. do 2 erewrite bind_Ret by reflexivity.
  rewrite get_unread_size_ok by done.
  erewrite bind_Ret by (by apply read_spec; [|lia]). rewrite Nat2Z.id, firstn_all.
  destruct (wf_pos ba H). pose proof (length_unread ba H).
  erewrite bind_Ret; [reflexivity|].
  rewrite set_read_position_spec; [|apply seek_read_wf; [done|lia]|done].
  simpl. destruct (Z.ltb_spec (write_pos_ ba) (read_pos_ ba)); [lia|].
  by rewrite seek_read_twice, seek_read_here.
Qed.

(** ** Saving *)

Section saving.
(** How many bytes [fwrite] accepts, given the file so far and the data. *)
Context (fwrite : list Z -> list Z -> nat).

Fixpoint save_loop (fuel : nat) (old_read_pos to_write : Z) (fp : list Z)
    : M ByteArray (list Z) := λ ba,
  if to_write <=? 0 then (Ret fp, ba)
  else match fuel with
  | O => (Fault Diverges, ba)
  | S fuel =>
      let block_pos := read_pos_ ba mod block_size_ ba in
      let block_space := block_size_ ba - block_pos in
      let write_size := Z.min block_space to_write in
      match read_cur_ ba with
      | None => (Fault NullDeref, ba)
      | Some i =>
          let data := take (Z.to_nat write_size) (drop (Z.to_nat block_pos) (blocks ba !!! i)) in
          if (fwrite fp data =? Z.to_nat write_size)%nat then
            let read_pos := u64 (read_pos_ ba + write_size) in
            save_loop fuel old_read_pos (to_write - write_size) (fp ++ data)
              (mkByteArray (block_size_ ba) (capacity_ ba) (blocks ba) read_pos (write_pos_ ba)
                 (if read_pos mod block_size_ ba =? 0 then next_block ba i else Some i)
                 (write_cur_ ba))
          else (set_read_position old_read_pos ≫= λ _, throw LogicError) ba
      end
  end.

(** Returns the contents of the file. *)
Definition write_to_file (fopen_ok : bool) : M ByteArray (list Z) :=
  if fopen_ok then
    gets get_size ≫= λ _,
    gets read_pos_ ≫= λ old_read_pos,
    set_read_position 0 ≫= λ _,
    gets write_pos_ ≫= λ to_write,
    save_loop (Z.to_nat to_write) old_read_pos to_write [] ≫= λ fp,
    set_read_position old_read_pos ≫= λ _,
    mret fp
  else throw LogicError.

Lemma seek_back ba p q :
  wf ba -> 0 <= p <= write_pos_ ba -> 0 <= q <= write_pos_ ba ->
  set_read_position q (seek_read ba p) = (Ret tt, seek_read ba q).
Proof.
  intros H Hp Hq. rewrite set_read_position_spec; [|by apply seek_read_wf|lia].
  simpl. by destruct (Z.ltb_spec (write_pos_ ba) q); [lia|].
Qed.

(** Some call of [fwrite] accepts fewer bytes than it was given. *)
Definition short_write : Prop := exists fp data, fwrite fp data <> length data.

Lemma save_loop_spec fuel old ba p n fp :
  wf ba -> blocks ba <> [] -> 0 <= p -> 0 <= n <= Z.of_nat fuel -> p + n = write_pos_ ba ->
  0 <= old <= write_pos_ ba ->
  save_loop fuel old n fp (seek_read ba p) =
      (Ret (fp ++ drop (Z.to_nat p) (content ba)), seek_read ba (write_pos_ ba)) \/
  short_write /\ save_loop fuel old n fp (seek_read ba p) = (Throw LogicError, seek_read ba old).
Proof.
  intros H Hne. revert p n fp.
  assert (forall p fp, p = write_pos_ ba ->
            (Ret fp, seek_read ba p) = (Ret (fp ++ drop (Z.to_nat p) (content ba)),
                                        seek_read ba (write_pos_ ba))) as Hend.
  { intros p fp ->. rewrite drop_ge; [by rewrite app_nil_r|].
    pose proof (length_content ba H). lia. }
  induction fuel as [|fuel IH]; intros p n fp Hp Hn Hpn Hold; cbn [save_loop];
    destruct (Z.leb_spec n 0); try lia; try (left; apply Hend; lia).
  destruct (wf_live ba H Hne) as (Hlt & _).
  pose proof (Z.mod_pos_bound p (block_size_ ba) (wf_size ba H)).
  pose proof (wf_cap64 ba H).
  cbn [seek_read read_pos_ block_size_ read_cur_ blocks capacity_ write_pos_ write_cur_].
  destruct (blocks ba) as [|b0 bl] eqn:Eb; [done|]. rewrite <- Eb in *.
  set (k := Z.min (block_size_ ba - p mod block_size_ ba) n).
  assert (0 < k <= block_size_ ba - p mod block_size_ ba /\ k <= n) as [? ?] by lia.
  destruct (Nat.eqb_spec (fwrite fp (take (Z.to_nat k)
    (drop (Z.to_nat (p mod block_size_ ba)) (blocks ba !!! block_of ba p)))) (Z.to_nat k));
    [|right].
  - rewrite uint_small by lia.
    change (next_block (seek_read ba p)) with (next_block ba).
    rewrite advance_cursor by (done || lia).
    replace (mkByteArray _ _ _ _ _ _ _) with (seek_read ba (p + k))
      by (unfold seek_read; by rewrite Eb).
    destruct (IH (p + k) (n - k) (fp ++ take (Z.to_nat k)
               (drop (Z.to_nat (p mod block_size_ ba)) (blocks ba !!! block_of ba p))))
      as [-> | [? ->]]; [lia..| |by right].
    left. f_equal. f_equal. rewrite <- app_assoc. f_equal.
    erewrite slice_concat; [|apply H|apply block_of_lt; [done|lia]|lia].
    rewrite block_offset by (done || lia). fold (flat ba).
    unfold content. rewrite !skipn_firstn_comm.
    replace (Z.to_nat (p + k)) with (Z.to_nat p + Z.to_nat k)%nat by lia.
    rewrite <- drop_drop.
    replace (Z.to_nat (write_pos_ ba) - Z.to_nat p)%nat
      with (Z.to_nat k + (Z.to_nat (write_pos_ ba) - (Z.to_nat p + Z.to_nat k)))%nat by lia.
    apply take_take_drop.
  - split; [|by erewrite bind_Ret by (apply seek_back; (done || lia))].
    eexists _, _. intros E. rewrite E in n0. apply n0.
    erewrite slice_concat; [|apply H|apply block_of_lt; [done|lia]|lia].
    rewrite block_offset, length_take, length_drop by (done || lia).
    pose proof (length_flat ba H). unfold flat in *. lia.
Qed.

(** Saving writes the bytes held, or throws because the file could not be
    opened or a write fell short; the array is as before either way. *)
Lemma write_to_file_spec fopen_ok ba :
  wf ba ->
  write_to_file fopen_ok ba = (Ret (content ba), ba) \/
  (fopen_ok = false \/ short_write) /\ write_to_file fopen_ok ba = (Throw LogicError, ba).
Proof.
  intros H. destruct fopen_ok; [|right; by auto]. unfold write_to_file. destruct (wf_pos ba H).
  do 2 erewrite bind_Ret by reflexivity.
  erewrite bind_Ret.
  2:{ rewrite set_read_position_spec by (done || lia).
      destruct (Z.ltb_spec (write_pos_ ba) 0); [lia|reflexivity]. }
  erewrite bind_Ret by reflexivity. cbn [seek_read write_pos_].
  destruct (blocks ba) as [|b0 bl] eqn:Eb.
  { left. pose proof H as [? ? ? ? ? Hc]. rewrite Eb in Hc. destruct Hc as (Hw & Hr & _).
    rewrite Hw. simpl. erewrite bind_Ret by reflexivity.
    erewrite bind_Ret by (apply seek_back; (done || lia)).
    rewrite seek_read_here by done. unfold content. by rewrite Hw. }
  assert (blocks ba <> []) as Hne by (by rewrite Eb).
  destruct (save_loop_spec (Z.to_nat (write_pos_ ba)) (read_pos_ ba) ba 0 (write_pos_ ba) [])
    as [E|[Hsh E]]; try done; try lia.
  - left. erewrite bind_Ret by exact E.
    erewrite bind_Ret by (apply seek_back; (done || lia)). by rewrite seek_read_here.
  - right. split; [by right|]. erewrite bind_Throw by exact E. by rewrite seek_read_here.
Qed.

End saving.

(** ** Loading *)

Section loading.
Context (junk : nat -> nat -> Z).

(** The state after [clear] and the allocation of the first block. *)
Definition fresh_root (ba : ByteArray) : ByteArray :=
  mkByteArray (block_size_ ba) (block_size_ ba) [MemoryBlock junk (block_size_ ba) 0] 0 0
    (Some O) (Some O).

(** The [do ... while(n == block_size_)] loop; [fp] is what is left of the file. *)
Fixpoint load_loop (fuel : nat) (fp : list Z) : M ByteArray unit :=
  match fuel with
  | O => crash Diverges
  | S fuel =>
      gets block_size_ ≫= λ block_size,
      expand_capacity junk block_size ≫= λ _, (λ ba,
      match write_cur_ ba with
      | None => (Fault NullDeref, ba)
      | Some i =>
          let data := take (Z.to_nat block_size) fp in
          let n := len data in
          let ba := mkByteArray (block_size_ ba) (capacity_ ba)
                      (alter (memcpy_at 0 data) i (blocks ba)) (read_pos_ ba)
                      (u64 (write_pos_ ba + n)) (read_cur_ ba)
                      (if n =? block_size then next_block ba i else Some i) in
          if n =? block_size then load_loop fuel (drop (Z.to_nat block_size) fp) ba
          else (Ret tt, ba)
      end) : M ByteArray unit
  end.

Definition read_from_file (fopen_ok : bool) (file : list Z) : M ByteArray unit :=
  if fopen_ok then
    modify (λ ba, fresh_root (clear ba)) ≫= λ _,
    gets block_size_ ≫= λ block_size,
    load_loop (S (Z.to_nat (len file / block_size))) file ≫= λ _,
    modify (λ ba, mkByteArray (block_size_ ba) (capacity_ ba) (blocks ba) 0 (write_pos_ ba)
                    (root_ ba) (write_cur_ ba))
  else throw LogicError.

Lemma fresh_root_wf ba : wf ba -> block_size_ ba < 2 ^ 64 -> wf (fresh_root ba).
Proof.
  intros H Hb. pose proof (wf_size ba H). split; simpl; auto; try lia.
  constructor; [apply length_MemoryBlock|done].
Qed.

(** One turn of the loop stores a block or the tail of the file. *)
Lemma load_turn_ok ba data :
  wf ba -> blocks ba <> [] -> write_pos_ ba mod block_size_ ba = 0 ->
  len data <= block_size_ ba -> write_pos_ ba + len data < capacity_ ba ->
  let ba' := mkByteArray (block_size_ ba) (capacity_ ba)
               (alter (memcpy_at 0 data) (block_of ba (write_pos_ ba)) (blocks ba)) (read_pos_ ba)
               (u64 (write_pos_ ba + len data)) (read_cur_ ba)
               (if len data =? block_size_ ba then next_block ba (block_of ba (write_pos_ ba))
                else Some (block_of ba (write_pos_ ba))) in
  wf ba' /\ blocks ba' <> [] /\ content ba' = content ba ++ data /\
  write_pos_ ba' = write_pos_ ba + len data.
Proof.
  intros H Hne Hm Hd Hr. destruct (wf_live ba H Hne) as (Hlt & Hwc & Hrc).
  destruct (wf_pos ba H). pose proof (wf_cap64 ba H). pose proof (wf_size ba H).
  rewrite uint_small by lia.
  destruct (decide (data = [])) as [->|Hdata].
  - change (len (@nil Z)) with 0. rewrite (proj2 (Z.eqb_neq 0 (block_size_ ba))) by lia.
    cbv zeta iota. assert (alter (memcpy_at 0 []) (block_of ba (write_pos_ ba)) (blocks ba) = blocks ba) as ->.
    { apply list_alter_id. intros x. unfold memcpy_at. by rewrite take_0, drop_0. }
    rewrite Z.add_0_r, <- Hwc, app_nil_r.
    replace (mkByteArray _ _ _ _ _ _ _) with ba by (by destruct ba). auto.
  - assert (0 < len data) by (destruct data; simpl; [done|lia]).
    destruct (write_turn_ok ba (len data) data) as (Hw & Hn & W); auto; [lia..|].
    unfold write_turn in Hw, Hn, W. rewrite Hm, Nat2Z.id, firstn_all in Hw, Hn, W.
    assert ((if len data =? block_size_ ba then next_block ba (block_of ba (write_pos_ ba))
             else Some (block_of ba (write_pos_ ba)))
            = Some (block_of ba (write_pos_ ba + len data))) as ->.
    { rewrite <- advance_cursor by (done || lia).
      assert (((write_pos_ ba + len data) mod block_size_ ba =? 0) = (len data =? block_size_ ba)) as ->;
        [|done].
      rewrite <- Z.add_mod_idemp_l, Hm, Z.add_0_l by lia.
      destruct (Z.eqb_spec (len data) (block_size_ ba)) as [->|].
      - by rewrite Z.mod_same by lia.
      - rewrite Z.mod_small by lia. apply Z.eqb_neq. lia. }
    split_and!; auto. by apply (written_content data ba).
Qed.

Lemma load_loop_spec fuel fp ba :
  wf ba -> blocks ba <> [] -> write_pos_ ba mod block_size_ ba = 0 ->
  fits ba (len fp + block_size_ ba) -> len fp < Z.of_nat fuel * block_size_ ba ->
  exists ba', load_loop fuel fp ba = (Ret tt, ba') /\ wf ba' /\ blocks ba' <> [] /\
    content ba' = content ba ++ fp /\ block_size_ ba' = block_size_ ba.
Proof.
  revert fp ba. induction fuel as [|fuel IH]; intros fp ba H Hne Hm Hf Hfu; [lia|].
  pose proof (wf_size ba H). unfold fits in Hf. cbn [load_loop].
  erewrite bind_Ret by reflexivity.
  destruct (expand_capacity_spec junk (block_size_ ba) ba H) as (ba1 & E1 & H1 & X1 & Hne1 & Hr1);
    [lia|unfold fits; lia|].
  erewrite bind_Ret by exact E1.
  pose proof (extends_content ba ba1 H X1) as Ec. destruct X1 as [Eb Er Ew _].
  destruct (wf_live ba1 H1 Hne1) as (_ & Hwc & _). rewrite Hwc.
  set (data := take (Z.to_nat (block_size_ ba)) fp).
  assert (len data <= block_size_ ba) by (unfold data; rewrite length_take; lia).
  destruct (load_turn_ok ba1 data) as (Hwf2 & Hne2 & C2 & W2); auto; [congruence|lia|lia|].
  rewrite Eb in *. destruct (Z.eqb_spec (len data) (block_size_ ba)) as [E|E].
  - assert (block_size_ ba <= len fp) by (unfold data in E; rewrite length_take in E; lia).
    edestruct (IH (drop (Z.to_nat (block_size_ ba)) fp)) as (ba' & E' & H' & Hne' & C' & B');
      [exact Hwf2|exact Hne2|..].
    + cbn [block_size_ write_pos_] in *. rewrite W2, Ew, <- Z.add_mod_idemp_l, Hm, E by lia.
      simpl. rewrite Z.mod_same by lia. done.
    + unfold fits. cbn [block_size_ write_pos_] in *. rewrite W2, length_drop, Ew. lia.
    + cbn [block_size_]. rewrite length_drop. lia.
    + exists ba'. split_and!; auto. rewrite C', C2, Ec, <- app_assoc. f_equal.
      unfold data. apply take_drop.
  - eexists. split_and!; [reflexivity|done|done| |done]. rewrite C2, Ec. f_equal. unfold data.
    apply take_ge. unfold data in E. rewrite length_take in E. lia.
Qed.

(** Loading replaces the array by the contents of the file, unread. *)
Lemma read_from_file_spec file ba :
  wf ba -> len file + 2 * block_size_ ba < 2 ^ 64 ->
  exists ba', read_from_file true file ba = (Ret tt, ba') /\ wf ba' /\
    content ba' = file /\ read_pos_ ba' = 0.
Proof.
  intros H Hf. pose proof (wf_size ba H). unfold read_from_file, modify.
  assert (wf (fresh_root ba)) as Hfr by (apply fresh_root_wf; [done|lia]).
  erewrite bind_Ret by reflexivity. change (fresh_root (clear ba)) with (fresh_root ba).
  erewrite bind_Ret by reflexivity.
  destruct (load_loop_spec (S (Z.to_nat (len file / block_size_ ba))) file (fresh_root ba))
    as (ba1 & E1 & Hwf1 & Hne1 & C1 & B1); auto.
  - unfold fits. simpl. lia.
  - simpl. pose proof (Z.div_mod (len file) (block_size_ ba)).
    pose proof (Z.mod_pos_bound (len file) (block_size_ ba)).
    pose proof (Z.div_pos (len file) (block_size_ ba)). nia.
  - erewrite bind_Ret by exact E1.
    destruct (wf_live ba1 Hwf1 Hne1) as (? & ? & ?). destruct (wf_pos ba1 Hwf1).
    assert (mkByteArray (block_size_ ba1) (capacity_ ba1) (blocks ba1) 0 (write_pos_ ba1)
              (root_ ba1) (write_cur_ ba1) = seek_read ba1 0) as ->.
    { unfold seek_read, root_, block_of. pose proof (wf_size ba1 Hwf1).
      rewrite Z.div_0_l by lia. done. }
    eexists. split_and!; [reflexivity|apply seek_read_wf; [done|lia]|by rewrite seek_read_content|done].
Qed.
End loading.

(** ** Theorems *)

(** A saved array is restored by loading the file into any other array, and
    saving does not change the array it saves.  *)
Theorem file_roundtrip junk fwrite ba other
    (Hfull : forall fp data, fwrite fp data = length data)
    (Hwf : wf ba) (Hother : wf other)
    (Hroom : len (content ba) + 2 * block_size_ other < 2 ^ 64) :
  exists other', write_to_file fwrite true ba = (Ret (content ba), ba) /\
    read_from_file junk true (content ba) other = (Ret tt, other') /\ wf other' /\
    unread other' = content ba.
Proof.
  destruct (write_to_file_spec fwrite true ba Hwf) as [E|[[?|(fp & data & Hs)] _]];
    [|done|by destruct Hs].
  destruct (read_from_file_spec junk (content ba) other) as (o & Eo & Ho & Hc & Hr); auto.
  exists o. split_and!; auto. unfold unread. by rewrite Hr, Hc.
Qed.

Lemma file_roundtrip_witness :
  exists other', write_to_file (λ _ d, length d) true
        (mkByteArray 2 4 [[1;2];[3;0]] 1 3 (Some 0%nat) (Some 1%nat))
      = (Ret [1;2;3], mkByteArray 2 4 [[1;2];[3;0]] 1 3 (Some 0%nat) (Some 1%nat)) /\
    read_from_file no_junk true [1;2;3] (ByteArray_new 3) = (Ret tt, other') /\ wf other' /\
    unread other' = [1;2;3].
Proof.
  apply (file_roundtrip no_junk (λ _ d, length d)
    (mkByteArray 2 4 [[1;2];[3;0]] 1 3 (Some 0%nat) (Some 1%nat)) (ByteArray_new 3)).
  - reflexivity.
  - split; simpl; repeat constructor; try reflexivity; lia.
  - apply wf_new. lia.
  - vm_compute. reflexivity.
Defined.
