(* ===== verification/Timer.v ===== *)
(** * Timers: [Timer] and [TimerManager] of src/sylar/timer.{h,cpp}

    Timers are shared objects: the heap maps an address to a [Timer], handles
    held by users and the elements of the manager's [std::set] are addresses.
    The set is ordered by [Timer::Comparator], which reads [next_expiration_]
    through the pointer; it is the list of its elements in order, and its
    operations look at the keys the heap holds when they run.  The clock
    ([TimeUtil::get_time_ms]) is the argument [now] of each operation. *)

From Stdlib Require Import Sorted.
From stdpp Require Import sorting.
From S2P Require Import Prelude.

(** ** [std::set] with a key *)

Section keyed_set.
Context (key : nat -> Z).

(** [find] of an element with key [v]: the first element not less than it, if
    it is not greater either. *)
Fixpoint set_find (v : Z) (l : list nat) : option nat :=
  match l with
  | [] => None
  | y :: l => if key y <? v then set_find v l
              else if v <? key y then None else Some y
  end.

(** [insert]: the element the returned iterator points to, whether the
    insertion took place, and the set. *)
Fixpoint set_insert (x : nat) (l : list nat) : nat * bool * list nat :=
  match l with
  | [] => (x, true, [x])
  | y :: l' => if key y <? key x then
                 let '(it, ok, r) := set_insert x l' in (it, ok, y :: r)
               else if key x <? key y then (x, true, x :: l)
               else (y, false, l)
  end.

(** [erase] of the element an iterator points to. *)
Fixpoint set_erase (x : nat) (l : list nat) : list nat :=
  match l with
  | [] => []
  | y :: l => if (y =? x)%nat then l else y :: set_erase x l
  end.

(** The elements before [upper_bound] of key [v], and the others. *)
Fixpoint upper_split (v : Z) (l : list nat) : list nat * list nat :=
  match l with
  | [] => ([], [])
  | y :: l' => if v <? key y then ([], l)
               else let '(a, b) := upper_split v l' in (y :: a, b)
  end.

Definition ordered : list nat -> Prop := StronglySorted (λ a b, key a < key b).
End keyed_set.

(** ** Timers *)

(** A callback is a function of the program, or the function bound by
    [cond_timer_cb] to the [weak_ptr] of its condition. *)
Inductive callback := Plain (f : nat) | Cond (f cond : nat).

(** [TimerManager::cond_timer_cb] and the call of a callback: what runs, given
    which conditions still exist. *)
Definition call (alive : nat -> bool) (cb : callback) : option nat :=
  match cb with
  | Plain f => Some f
  | Cond f cond => if alive cond then Some f else None
  end.

Record Timer := mkTimer {
  is_recurring_ : bool;
  period_time_ : Z;
  next_expiration_ : Z;
  cb_ : callback;
  args_ : Z;
  manager_ : bool;      (** [manager_ != nullptr] *)
}.

Record TimerManager := mkTimerManager {
  heap : gmap nat Timer;
  fresh : nat;          (** the next address [new] returns *)
  timers_ : list nat;
  need_tickle_ : bool;
  tickles : nat;        (** calls of [on_timer_insert_at_front] so far *)
}.

Definition TimerManager_new : TimerManager := mkTimerManager ∅ 0 [] false 0.

Definition expiration (m : TimerManager) (t : nat) : Z :=
  match heap m !! t with Some tm => next_expiration_ tm | None => 0 end.

Definition set_timers (ts : list nat) (m : TimerManager) : TimerManager :=
  mkTimerManager (heap m) (fresh m) ts (need_tickle_ m) (tickles m).
Definition set_tickle (b : bool) (m : TimerManager) : TimerManager :=
  mkTimerManager (heap m) (fresh m) (timers_ m) b (tickles m).
Definition store (t : nat) (tm : Timer) (m : TimerManager) : TimerManager :=
  mkTimerManager (<[t := tm]> (heap m)) (fresh m) (timers_ m) (need_tickle_ m) (tickles m).
Definition with_expiration (e : Z) (tm : Timer) : Timer :=
  mkTimer (is_recurring_ tm) (period_time_ tm) e (cb_ tm) (args_ tm) (manager_ tm).
Definition with_period (p : Z) (tm : Timer) : Timer :=
  mkTimer (is_recurring_ tm) p (next_expiration_ tm) (cb_ tm) (args_ tm) (manager_ tm).
Definition without_manager (tm : Timer) : Timer :=
  mkTimer (is_recurring_ tm) (period_time_ tm) (next_expiration_ tm) (cb_ tm) (args_ tm) false.

(** ** [TimerManager] *)

(** [bool add_timer(Timer::ptr timer)] *)
Definition insert_timer (t : nat) (m : TimerManager) : bool * TimerManager :=
  let '(it, ret, ts) := set_insert (expiration m) t (timers_ m) in
  let is_front := match ts with y :: _ => (y =? it)%nat | [] => false end && need_tickle_ m in
  (ret, mkTimerManager (heap m) (fresh m) ts
          (if is_front then false else need_tickle_ m)
          (if is_front then S (tickles m) else tickles m)).

(** [add_timer(recurring, ms, cb, args)] and its variant with a condition; the
    address of the timer, or [None] for [nullptr]. *)
Definition add_timer (now : Z) (recurring : bool) (ms : Z) (cb : callback) (args : Z)
    (m : TimerManager) : option nat * TimerManager :=
  let t := fresh m in
  let tm := mkTimer recurring ms (u64 (now + ms)) cb args true in
  let m := mkTimerManager (<[t := tm]> (heap m)) (S t) (timers_ m) (need_tickle_ m) (tickles m) in
  let '(ok, m) := insert_timer t m in
  (if ok then Some t else None, m).

Definition add_cond_timer (now : Z) (recurring : bool) (ms : Z) (f cond : nat) (args : Z)
    (m : TimerManager) : option nat * TimerManager :=
  add_timer now recurring ms (Cond f cond) args m.

Definition del_timer (t : nat) (m : TimerManager) : bool * TimerManager :=
  match set_find (expiration m) (expiration m t) (timers_ m) with
  | Some y => (true, set_timers (set_erase y (timers_ m)) m)
  | None => (false, m)
  end.

Definition get_next_timer (now : Z) (m : TimerManager) : Z * TimerManager :=
  match timers_ m with
  | [] => (2 ^ 64 - 1, m)
  | t :: _ =>
      let e := expiration m t in
      (if e <=? now then 0 else u64 (e - now), set_tickle true m)
  end.

(** The loop that rearms the recurring timers: one turn, and the loop. *)
Definition rearm_one (now : Z) (t : nat) (m : TimerManager) : TimerManager :=
  match heap m !! t with
  | Some tm =>
      if is_recurring_ tm then
        let m := store t (with_expiration (u64 (now + period_time_ tm)) tm) m in
        let '(_, _, ts) := set_insert (expiration m) t (timers_ m) in set_timers ts m
      else m
  | None => m
  end.

Fixpoint rearm (now : Z) (expired : list nat) (m : TimerManager) : TimerManager :=
  match expired with
  | [] => m
  | t :: expired => rearm now expired (rearm_one now t m)
  end.

Definition get_expired_timers (now : Z) (m : TimerManager) : list nat * TimerManager :=
  let '(expired, rest) := upper_split (expiration m) now (timers_ m) in
  match expired with
  | [] => ([], m)
  | _ => (expired, rearm now expired (set_timers rest (set_tickle true m)))
  end.

Definition empty (m : TimerManager) : bool :=
  match timers_ m with [] => true | _ => false end.

(** ** [Timer] *)

Definition cancel (t : nat) (m : TimerManager) : bool * TimerManager :=
  match heap m !! t with
  | Some tm =>
      if manager_ tm then
        let '(ret, m) := del_timer t m in (ret, store t (without_manager tm) m)
      else (false, m)
  | None => (false, m)
  end.

Definition refresh (now : Z) (t : nat) (m : TimerManager) : bool * TimerManager :=
  match heap m !! t with
  | Some tm =>
      if manager_ tm then
        let '(ret, m) := del_timer t m in
        if ret then
          insert_timer t (store t (with_expiration (u64 (now + period_time_ tm)) tm) m)
        else (false, m)
      else (false, m)
  | None => (false, m)
  end.

Definition reset (now ms : Z) (from_now : bool) (t : nat) (m : TimerManager)
    : bool * TimerManager :=
  match heap m !! t with
  | Some tm =>
      if manager_ tm then
        let start := if from_now then now else u64 (next_expiration_ tm - period_time_ tm) in
        let tm := with_period ms tm in
        let m := store t tm m in
        let new_expiration := u64 (start + ms) in
        if new_expiration =? next_expiration_ tm then (false, m)
        else
          let '(ret, m) := del_timer t m in
          if ret then insert_timer t (store t (with_expiration new_expiration tm) m)
          else (false, m)
      else (false, m)
  | None => (false, m)
  end.

(** ** Facts on the keyed set *)

Lemma set_erase_elem (x : nat) (l : list nat) (z : nat) : NoDup l -> z ∈ set_erase x l <-> z ∈ l /\ z <> x.
Proof.
  induction 1 as [|y l Hy _ IH]; simpl; [by rewrite !elem_of_nil; naive_solver|].
  destruct (Nat.eqb_spec y x) as [->|]; [|rewrite !elem_of_cons, IH; naive_solver].
  split; [intros Hz; split; [by right|by intros ->]|].
  intros [[->|Hz]%elem_of_cons ?]; done.
Qed.

Section keyed_facts.
Context (key : nat -> Z).
Implicit Types (l : list nat) (x y : nat).

Lemma ordered_cons y l :
  ordered key (y :: l) <-> ordered key l /\ Forall (λ z, key y < key z) l.
Proof.
  split; [intros H; by apply StronglySorted_inv in H|intros []; by constructor].
Qed.

Lemma ordered_nodup l : ordered key l -> NoDup l.
Proof.
  induction l as [|y l IH]; intros H; [constructor|].
  apply ordered_cons in H as [Hl Hy]. constructor; [|auto].
  intros Hin. rewrite Forall_forall in Hy. specialize (Hy y Hin). lia.
Qed.

Lemma ordered_inj l x y : ordered key l -> x ∈ l -> y ∈ l -> key x = key y -> x = y.
Proof.
  induction l as [|z l IH]; intros H Hx Hy E; [by apply elem_of_nil in Hx|].
  apply ordered_cons in H as [Hl Hz]. rewrite Forall_forall in Hz.
  apply elem_of_cons in Hx as [->|Hx]; apply elem_of_cons in Hy as [->|Hy]; auto.
  - specialize (Hz y Hy). lia.
  - specialize (Hz x Hx). lia.
Qed.

Lemma ordered_ext (key' : nat -> Z) l :
  (forall y, y ∈ l -> key y = key' y) -> ordered key l -> ordered key' l.
Proof.
  induction l as [|y l IH]; intros He H; [constructor|].
  apply ordered_cons in H as [Hl Hy]. constructor.
  - apply IH; [|done]. intros z Hz. apply He. by right.
  - rewrite Forall_forall in Hy |- *. intros z Hz.
    rewrite <- (He y), <- (He z) by (by left || by right). auto.
Qed.

Lemma set_find_Some v l y : set_find key v l = Some y -> y ∈ l /\ key y = v.
Proof.
  induction l as [|z l IH]; [done|]. simpl.
  destruct (Z.ltb_spec (key z) v); [intros E; destruct (IH E); split; [by right|done]|].
  destruct (Z.ltb_spec v (key z)); [done|]. intros [= ->]. split; [by left|lia].
Qed.

Lemma set_find_None v l : ordered key l -> set_find key v l = None -> forall y, y ∈ l -> key y <> v.
Proof.
  induction l as [|z l IH]; intros H E y Hy; [by apply elem_of_nil in Hy|].
  apply ordered_cons in H as [Hl Hz]. rewrite Forall_forall in Hz. simpl in E.
  destruct (Z.ltb_spec (key z) v) as [H1|H1].
  - apply elem_of_cons in Hy as [->|Hy]; [lia|]. by apply IH.
  - destruct (Z.ltb_spec v (key z)) as [H2|H2]; [|done].
    apply elem_of_cons in Hy as [->|Hy]; [lia|]. specialize (Hz y Hy). lia.
Qed.

Inductive insert_result x l : nat * bool * list nat -> Prop :=
| Inserted r : (forall y, y ∈ l -> key y <> key x) -> r ≡ₚ x :: l -> ordered key r ->
    insert_result x l (x, true, r)
| Refused it : it ∈ l -> key it = key x -> insert_result x l (it, false, l).

Lemma set_insert_spec x l : ordered key l -> insert_result x l (set_insert key x l).
Proof.
  induction l as [|y l IH]; intros H; simpl.
  { apply Inserted; [intros y Hy; by apply elem_of_nil in Hy|done|]. repeat constructor. }
  pose proof H as [Hl Hy]%ordered_cons. rewrite Forall_forall in Hy.
  destruct (Z.ltb_spec (key y) (key x)); [destruct (IH Hl) as [r Hne Hp Ho|it Hin Hk]|
    destruct (Z.ltb_spec (key x) (key y))].
  - apply Inserted.
    + intros z [->|Hz]%elem_of_cons; [lia|auto].
    + rewrite Hp. apply Permutation_swap.
    + apply ordered_cons. split; [done|]. rewrite Hp. constructor; [done|].
      by rewrite Forall_forall.
  - apply Refused; [by right|done].
  - apply Inserted; [|done|].
    + intros z [->|Hz]%elem_of_cons; [lia|]. specialize (Hy z Hz). lia.
    + apply ordered_cons. split; [done|]. constructor; [done|].
      rewrite Forall_forall. intros z Hz. specialize (Hy z Hz). lia.
  - apply Refused; [by left|lia].
Qed.

Lemma set_erase_ordered x l : ordered key l -> ordered key (set_erase x l).
Proof.
  induction l as [|y l IH]; intros H; simpl; [done|].
  pose proof (ordered_nodup _ H) as Hnd. apply ordered_cons in H as [Hl Hy].
  destruct (Nat.eqb_spec y x); [done|]. apply ordered_cons. split; [auto|].
  rewrite Forall_forall in Hy |- *. intros z Hz. apply Hy.
  apply NoDup_cons in Hnd as [_ Hnd]. by apply set_erase_elem in Hz as [? _].
Qed.

Lemma upper_split_spec (v : Z) l :
  ordered key l ->
  upper_split key v l = (filter (λ y, key y <= v) l, filter (λ y, v < key y) l) /\
  filter (λ y, key y <= v) l ++ filter (λ y, v < key y) l = l.
Proof.
  induction l as [|y l IH]; intros H; simpl; [done|].
  apply ordered_cons in H as [Hl Hy]. destruct (IH Hl) as [E1 E2].
  destruct (Z.ltb_spec v (key y)).
  - rewrite (filter_cons_True (λ y, v < key y)), (filter_cons_False (λ y, key y <= v)) by lia.
    assert (filter (λ y, key y <= v) l = []) as ->.
    { apply filter_keeps_none. rewrite Forall_forall in Hy |- *. intros z Hz. specialize (Hy z Hz). lia. }
    assert (filter (λ y, v < key y) l = l) as ->; [|done].
    { apply filter_keeps_all. rewrite Forall_forall in Hy |- *. intros z Hz. specialize (Hy z Hz). lia. }
  - rewrite E1, (filter_cons_True (λ y, key y <= v)), (filter_cons_False (λ y, v < key y)) by lia.
    simpl. by rewrite E2.
Qed.
End keyed_facts.

(** ** The invariant of the manager *)

Record tm_wf (m : TimerManager) : Prop := {
  wf_ordered : ordered (expiration m) (timers_ m);
  wf_queued : forall t, t ∈ timers_ m -> is_Some (heap m !! t);
  wf_fresh : forall t, is_Some (heap m !! t) -> (t < fresh m)%nat;
  wf_range : forall t, 0 <= expiration m t < 2 ^ 64;
}.

Lemma tm_wf_new : tm_wf TimerManager_new.
Proof.
  split; simpl; [constructor|intros t Ht; by apply elem_of_nil in Ht| |].
  - intros t. by rewrite lookup_empty; intros [].
  - intros t. unfold expiration. simpl. rewrite lookup_empty. lia.
Qed.

Lemma expiration_store t tm m t' :
  expiration (store t tm m) t' = if decide (t = t') then next_expiration_ tm else expiration m t'.
Proof.
  unfold expiration, store. simpl. destruct (decide (t = t')) as [->|].
  - by rewrite lookup_insert_eq.
  - by rewrite lookup_insert_ne.
Qed.

Lemma expiration_lookup m t tm : heap m !! t = Some tm -> expiration m t = next_expiration_ tm.
Proof. unfold expiration. by intros ->. Qed.

(** Writing to a timer keeps the invariant when the timer is not queued, or
    when its expiration stays the same. *)
Lemma tm_wf_store t tm m :
  tm_wf m -> is_Some (heap m !! t) -> 0 <= next_expiration_ tm < 2 ^ 64 ->
  t ∉ timers_ m \/ next_expiration_ tm = expiration m t ->
  tm_wf (store t tm m).
Proof.
  intros [Ho Hq Hf Hr] Hin Hrange Hcase. split; simpl.
  - eapply ordered_ext; [|exact Ho]. intros y Hy. rewrite expiration_store.
    destruct (decide (t = y)) as [->|]; [destruct Hcase; [done|congruence]|done].
  - intros y Hy. destruct (decide (t = y)) as [->|]; [rewrite lookup_insert_eq; eauto|].
    rewrite lookup_insert_ne by done. auto.
  - intros y [z Hz]. destruct (decide (t = y)) as [->|]; [auto|].
    rewrite lookup_insert_ne in Hz by done. eauto.
  - intros y. rewrite expiration_store. destruct (decide _); [done|apply Hr].
Qed.

(** Replacing the queue by an ordered part of the known timers. *)
Lemma tm_wf_timers m ts b n :
  tm_wf m -> ordered (expiration m) ts -> (forall t, t ∈ ts -> is_Some (heap m !! t)) ->
  tm_wf (mkTimerManager (heap m) (fresh m) ts b n).
Proof. intros [Ho Hq Hf Hr] Ht Hin. by split. Qed.

(** [insert_timer]: either the timer joins the queue, or a queued timer has
    the same expiration and the queue stays. *)
Lemma insert_timer_spec t m ok m' :
  tm_wf m -> is_Some (heap m !! t) -> insert_timer t m = (ok, m') ->
  tm_wf m' /\ heap m' = heap m /\ fresh m' = fresh m /\
  if ok then (forall y, y ∈ timers_ m -> expiration m y <> expiration m t) /\
             timers_ m' ≡ₚ t :: timers_ m
  else timers_ m' = timers_ m /\ exists y, y ∈ timers_ m /\ expiration m y = expiration m t.
Proof.
  intros Hwf Ht. pose proof (wf_ordered _ Hwf) as Ho. unfold insert_timer.
  destruct (set_insert_spec (expiration m) t (timers_ m) Ho) as [r Hne Hp Hr|it Hit Hk];
    intros [= <- <-]; simpl; split_and!; eauto.
  - apply tm_wf_timers; [done..|]. intros y. rewrite Hp, elem_of_cons.
    intros [->|Hy]; [done|by apply (wf_queued _ Hwf)].
  - apply tm_wf_timers; [done..|]. apply (wf_queued _ Hwf).
Qed.

Lemma del_timer_spec t m ok m' :
  tm_wf m -> del_timer t m = (ok, m') ->
  tm_wf m' /\ heap m' = heap m /\ fresh m' = fresh m /\
  if ok then exists y, y ∈ timers_ m /\ expiration m y = expiration m t /\
               (t ∈ timers_ m -> y = t) /\
               forall z, z ∈ timers_ m' <-> z ∈ timers_ m /\ z <> y
  else m' = m /\ forall y, y ∈ timers_ m -> expiration m y <> expiration m t.
Proof.
  intros Hwf. pose proof (wf_ordered _ Hwf) as Ho. unfold del_timer.
  destruct (set_find _ _ _) as [y|] eqn:E; intros [= <- <-]; simpl; split_and!; auto.
  - apply (tm_wf_timers m _ _ _ Hwf); [by apply set_erase_ordered|].
    intros z Hz. apply set_erase_elem in Hz as [Hz _]; [|by eapply ordered_nodup].
    by apply (wf_queued _ Hwf).
  - apply set_find_Some in E as [Hy Ek]. exists y. split_and!; auto.
    + intros Ht. by eapply ordered_inj.
    + intros z. apply set_erase_elem. by eapply ordered_nodup.
  - by apply set_find_None.
Qed.

(** ** Every operation keeps the invariant *)

Definition is_recurring (m : TimerManager) (t : nat) : bool :=
  match heap m !! t with Some tm => is_recurring_ tm | None => false end.
Definition period (m : TimerManager) (t : nat) : Z :=
  match heap m !! t with Some tm => period_time_ tm | None => 0 end.

Lemma add_timer_spec now recurring ms cb args m r m' :
  tm_wf m -> add_timer now recurring ms cb args m = (r, m') ->
  tm_wf m' /\
  (forall t, t <> fresh m -> heap m' !! t = heap m !! t) /\
  heap m' !! fresh m = Some (mkTimer recurring ms (u64 (now + ms)) cb args true) /\
  match r with
  | Some t => t = fresh m /\ (forall y, y ∈ timers_ m -> expiration m y <> u64 (now + ms)) /\
              timers_ m' ≡ₚ t :: timers_ m
  | None => timers_ m' = timers_ m /\ exists y, y ∈ timers_ m /\ expiration m y = u64 (now + ms)
  end.
Proof.
  intros Hwf. unfold add_timer.
  set (tm := mkTimer recurring ms (u64 (now + ms)) cb args true).
  set (m1 := mkTimerManager _ _ _ _ _).
  assert (forall y, y ∈ timers_ m -> expiration m1 y = expiration m y) as Hsame.
  { intros y Hy. unfold expiration. simpl. rewrite lookup_insert_ne; [done|].
    intros <-. apply (wf_queued _ Hwf), (wf_fresh _ Hwf) in Hy. lia. }
  assert (expiration m1 (fresh m) = u64 (now + ms)) as Hnew.
  { unfold expiration. simpl. by rewrite lookup_insert_eq. }
  assert (tm_wf m1) as Hwf1.
  { destruct Hwf as [Ho Hq Hf Hr]. split; simpl.
    - eapply ordered_ext; [|exact Ho]. intros y Hy. by rewrite Hsame.
    - intros t Ht. apply lookup_insert_is_Some'. auto.
    - intros t Ht. apply lookup_insert_is_Some' in Ht as [<-|Ht]; [lia|]. specialize (Hf t Ht). lia.
    - intros t. unfold expiration. simpl. destruct (decide (fresh m = t)) as [<-|].
      + rewrite lookup_insert_eq. apply uint_range; lia.
      + rewrite lookup_insert_ne by done. apply Hr. }
  destruct (insert_timer (fresh m) m1) as [ok m2] eqn:E. intros [= <- <-].
  apply insert_timer_spec in E as (Hwf2 & Eh & _ & Hok);
    [|done|simpl; rewrite lookup_insert_eq; eauto].
  rewrite Eh. simpl. rewrite lookup_insert_eq. rewrite Hnew in Hok.
  split_and!; [done|intros t Ht; by rewrite lookup_insert_ne|done|].
  destruct ok; destruct Hok as [Hok1 Hok2]; split_and!; auto.
  - intros y Hy. rewrite <- Hsame by done. auto.
  - destruct Hok2 as (y & Hy & Ey). exists y. rewrite <- Hsame by done. auto.
Qed.

Lemma cancel_spec t m r m' :
  tm_wf m -> cancel t m = (r, m') ->
  tm_wf m' /\ (forall y, expiration m' y = expiration m y) /\
  (forall y, y ∈ timers_ m' -> y ∈ timers_ m) /\
  (t ∈ timers_ m -> r = true -> forall y, y ∈ timers_ m' <-> y ∈ timers_ m /\ y <> t) /\
  (forall tm, heap m !! t = Some tm -> manager_ tm = true -> t ∈ timers_ m -> r = true).
Proof.
  intros Hwf. unfold cancel. destruct (heap m !! t) as [tm|] eqn:Et;
    [|intros [= <- <-]; split_and!; done].
  destruct (manager_ tm) eqn:Em; [|intros [= <- <-]; split_and!; naive_solver congruence].
  destruct (del_timer t m) as [ok m1] eqn:E. intros [= <- <-].
  apply del_timer_spec in E as (Hwf1 & Eh & _ & Hok); [|done].
  assert (forall y, expiration m1 y = expiration m y) as Hsame
    by (intros y; unfold expiration; by rewrite Eh).
  split_and!.
  - apply tm_wf_store; [done|rewrite Eh, Et; eauto| |right; by rewrite Hsame, (expiration_lookup _ _ _ Et)].
    simpl. rewrite <- (expiration_lookup _ _ _ Et). apply (wf_range _ Hwf).
  - intros y. rewrite expiration_store, Hsame. destruct (decide (t = y)) as [->|]; [|done].
    symmetry. by rewrite (expiration_lookup _ _ _ Et).
  - simpl. intros y Hy. destruct ok; [destruct Hok as (z & _ & _ & _ & Hz); by apply Hz|].
    destruct Hok as [-> _]. done.
  - intros Ht ->. simpl. destruct Hok as (z & _ & _ & Hz & Hm). by rewrite <- (Hz Ht).
  - intros _ _ _ Ht. destruct ok; [done|]. destruct Hok as [_ Hne]. by specialize (Hne t Ht).
Qed.

(** Taking a timer out, giving it a new expiration and queueing it again: the
    common part of [refresh] and [reset]. *)
Definition requeue (t : nat) (tm : Timer) (e : Z) (m : TimerManager) : bool * TimerManager :=
  let '(ret, m) := del_timer t m in
  if ret then insert_timer t (store t (with_expiration e tm) m) else (false, m).

Lemma requeue_spec t tm e m r m' :
  tm_wf m -> heap m !! t = Some tm -> 0 <= e < 2 ^ 64 -> requeue t tm e m = (r, m') ->
  tm_wf m' /\
  (t ∈ timers_ m -> expiration m' t = e) /\
  (forall y, y <> t -> expiration m' y = expiration m y) /\
  (t ∈ timers_ m -> r = true -> forall y, y ∈ timers_ m' <-> y ∈ timers_ m) /\
  (t ∈ timers_ m -> r = false -> exists y, y ∈ timers_ m /\ y <> t /\ expiration m y = e).
Proof.
  intros Hwf Et He. unfold requeue. destruct (del_timer t m) as [ok m1] eqn:E.
  apply del_timer_spec in E as (Hwf1 & Eh & _ & Hok); [|done].
  assert (forall y, expiration m1 y = expiration m y) as Hsame
    by (intros y; unfold expiration; by rewrite Eh).
  destruct ok.
  - destruct Hok as (y & Hy & Ey & Hown & Hm1). intros E.
    assert (t ∉ timers_ m1) as Hout.
    { intros Ht. apply Hm1 in Ht as [Ht Hne]. apply Hne. by rewrite Hown. }
    assert (tm_wf (store t (with_expiration e tm) m1)) as Hwf2
      by (apply tm_wf_store; [done|rewrite Eh, Et; eauto|done|by left]).
    apply insert_timer_spec in E as (Hwf3 & Eh3 & _ & Hr);
      [|done|simpl; rewrite lookup_insert_eq; eauto].
    assert (forall z, expiration m' z = expiration (store t (with_expiration e tm) m1) z) as Hsame3
      by (intros z; unfold expiration; by rewrite Eh3).
    rewrite expiration_store, decide_True in Hr by done. simpl in Hr.
    split_and!; [done| | | |].
    + intros _. by rewrite Hsame3, expiration_store, decide_True.
    + intros z Hz. by rewrite Hsame3, expiration_store, decide_False by congruence.
    + intros Ht ->. destruct Hr as [_ Hp]. intros z. rewrite Hp, elem_of_cons, Hm1, (Hown Ht).
      destruct (decide (z = t)) as [->|]; naive_solver.
    + intros Ht ->. destruct Hr as (_ & z & Hz & Ez). exists z.
      assert (z <> t) by (intros ->; done).
      rewrite expiration_store, decide_False, Hsame in Ez by congruence.
      apply Hm1 in Hz as [Hz _]. done.
  - destruct Hok as [-> Hne]. intros [= <- <-]. split_and!; try done.
    + intros Ht. by specialize (Hne t Ht).
    + intros Ht. by specialize (Hne t Ht).
Qed.

Lemma refresh_requeue now t m tm :
  heap m !! t = Some tm -> manager_ tm = true ->
  refresh now t m = requeue t tm (u64 (now + period_time_ tm)) m.
Proof. unfold refresh, requeue. by intros -> ->. Qed.

Lemma tm_wf_refresh now t m : tm_wf m -> tm_wf (refresh now t m).2.
Proof.
  intros Hwf. destruct (heap m !! t) as [tm|] eqn:Et; [|unfold refresh; by rewrite Et].
  destruct (manager_ tm) eqn:Em; [|unfold refresh; by rewrite Et, Em].
  rewrite (refresh_requeue _ _ _ _ Et Em). destruct (requeue _ _ _ _) as [r m'] eqn:E.
  by apply requeue_spec in E as (? & _); [|done..|apply uint_range].
Qed.

Lemma tm_wf_reset now ms from_now t m : tm_wf m -> tm_wf (reset now ms from_now t m).2.
Proof.
  intros Hwf. unfold reset. destruct (heap m !! t) as [tm|] eqn:Et; [|done].
  destruct (manager_ tm); [|done].
  set (start := if from_now then _ else _). set (m1 := store t (with_period ms tm) m).
  assert (tm_wf m1) as Hwf1.
  { apply tm_wf_store; [done|eauto| |right; simpl; by rewrite (expiration_lookup _ _ _ Et)].
    simpl. rewrite <- (expiration_lookup _ _ _ Et). apply (wf_range _ Hwf). }
  destruct (_ =? _); [done|].
  change (tm_wf (requeue t (with_period ms tm) (u64 (start + ms)) m1).2).
  destruct (requeue _ _ _ _) as [r m'] eqn:E.
  apply requeue_spec in E as (? & _); [done..| |by apply uint_range].
  simpl. by rewrite lookup_insert_eq.
Qed.

(** Rearming, of timers that have been taken out of the queue. *)
Lemma rearm_one_spec now t m :
  tm_wf m -> is_Some (heap m !! t) -> t ∉ timers_ m ->
  let m' := rearm_one now t m in
  tm_wf m' /\ (forall y, y <> t -> heap m' !! y = heap m !! y) /\
  (forall y, y ∈ timers_ m -> y ∈ timers_ m') /\
  (forall y, y ∈ timers_ m' -> y ∈ timers_ m \/ y = t /\ is_recurring m t = true) /\
  (is_recurring m t = true ->
     expiration m' t = u64 (now + period m t) /\
     exists y, y ∈ timers_ m' /\ expiration m' y = expiration m' t).
Proof.
  intros Hwf [tm Et] Hout m'. subst m'. unfold rearm_one, is_recurring, period. rewrite Et.
  destruct (is_recurring_ tm); [|split_and!; auto; done].
  set (e := u64 (now + period_time_ tm)). set (m0 := store t (with_expiration e tm) m).
  assert (tm_wf m0) as Hwf0
    by (apply tm_wf_store; [done|eauto|by apply uint_range|by left]).
  assert (expiration m0 t = e) as Ee by (unfold m0; by rewrite expiration_store, decide_True).
  destruct (set_insert_spec (expiration m0) t (timers_ m0) (wf_ordered _ Hwf0))
    as [r Hne Hp Hr|it Hit Hk].
  - assert (forall y, y ∈ r <-> y = t \/ y ∈ timers_ m) as Hin by (intros y; by rewrite Hp, elem_of_cons).
    split_and!; simpl.
    + apply (tm_wf_timers m0); [done..|]. intros y [->|Hy]%Hin.
      * simpl. rewrite lookup_insert_eq. eauto.
      * by apply (wf_queued _ Hwf0).
    + intros y Hy. by rewrite lookup_insert_ne.
    + intros y Hy. apply Hin. by right.
    + intros y [->|Hy]%Hin; auto.
    + intros _. split; [exact Ee|]. exists t. split; [|done]. apply Hin. by left.
  - split_and!; simpl; auto.
    + intros y Hy. by rewrite lookup_insert_ne.
    + intros _. split; [exact Ee|]. eauto.
Qed.

Lemma lookup_views m m' t :
  heap m' !! t = heap m !! t ->
  expiration m' t = expiration m t /\ is_recurring m' t = is_recurring m t /\
  period m' t = period m t.
Proof. unfold expiration, is_recurring, period. by intros ->. Qed.

Lemma rearm_spec now ex m :
  tm_wf m -> NoDup ex -> (forall t, t ∈ ex -> is_Some (heap m !! t) /\ t ∉ timers_ m) ->
  let m' := rearm now ex m in
  tm_wf m' /\ (forall y, y ∉ ex -> heap m' !! y = heap m !! y) /\
  (forall y, y ∈ timers_ m -> y ∈ timers_ m') /\
  (forall y, y ∈ timers_ m' -> y ∈ timers_ m \/ y ∈ ex /\ is_recurring m y = true) /\
  (forall t, t ∈ ex -> is_recurring m t = true ->
     expiration m' t = u64 (now + period m t) /\
     exists y, y ∈ timers_ m' /\ expiration m' y = expiration m' t).
Proof.
  revert m. induction ex as [|t ex IH]; intros m Hwf Hnd Hex m'; subst m'; simpl.
  { split_and!; auto. intros t Ht. by apply elem_of_nil in Ht. }
  apply NoDup_cons in Hnd as [Hfresh Hnd]. destruct (Hex t) as [Hsome Hout]; [by left|].
  destruct (rearm_one_spec now t m Hwf Hsome Hout) as (Hwf1 & Hh1 & Hi1 & Ho1 & Hr1).
  set (m1 := rearm_one now t m) in *.
  assert (forall y, y ∈ ex -> y <> t) as Hne by (by intros y Hy ->).
  destruct (IH m1 Hwf1 Hnd) as (Hwf2 & Hh2 & Hi2 & Ho2 & Hr2).
  { intros y Hy. rewrite Hh1 by auto. destruct (Hex y) as [? Hy']; [by right|]. split; [done|].
    intros [?|[? _]]%Ho1; [done|by apply (Hne y)]. }
  split_and!.
  - done.
  - intros y [Hyt Hy]%not_elem_of_cons. by rewrite Hh2, Hh1.
  - auto.
  - intros y [[Hy|[-> Hy]]%Ho1|[Hy Er]]%Ho2; [by left|right; split; [by left|done]|].
    right. split; [by right|]. by rewrite <- (proj1 (proj2 (lookup_views m m1 y (Hh1 y (Hne y Hy))))).
  - intros y [->|Hy]%elem_of_cons Er.
    + destruct (Hr1 Er) as (E1 & z & Hz & Ez).
      assert (forall w, w ∈ timers_ m1 -> w ∉ ex) as Hkeep.
      { intros w [Hw|[-> _]]%Ho1 Hw'; [|done]. destruct (Hex w) as [_ Hw'']; [by right|done]. }
      pose proof (lookup_views _ _ _ (Hh2 t Hfresh)) as (-> & _ & _). split; [done|].
      exists z. split; [by apply Hi2|].
      by pose proof (lookup_views _ _ _ (Hh2 z (Hkeep z Hz))) as (-> & _ & _).
    + destruct (lookup_views m m1 y (Hh1 y (Hne y Hy))) as (_ & Er' & Ep). rewrite <- Ep.
      apply Hr2; [done|congruence].
Qed.

(** What [get_expired_timers] does, on a well-formed manager. *)
Lemma get_expired_timers_spec now m ex m' :
  tm_wf m -> get_expired_timers now m = (ex, m') ->
  ex = filter (λ t, expiration m t <= now) (timers_ m) /\ tm_wf m' /\
  (forall t, t ∉ ex -> heap m' !! t = heap m !! t) /\
  (forall t, t ∈ timers_ m -> now < expiration m t -> t ∈ timers_ m') /\
  (forall t, t ∈ timers_ m' -> t ∈ timers_ m /\ (now < expiration m t \/ is_recurring m t = true)) /\
  (forall t, t ∈ ex -> is_recurring m t = true ->
     expiration m' t = u64 (now + period m t) /\
     exists y, y ∈ timers_ m' /\ expiration m' y = expiration m' t).
Proof.
  intros Hwf. pose proof (wf_ordered _ Hwf) as Ho. unfold get_expired_timers.
  destruct (upper_split_spec (expiration m) now (timers_ m) Ho) as [E Eapp]. rewrite E. clear E.
  set (ex' := filter _ _) in *. set (rest := filter (λ y, now < expiration m y) (timers_ m)) in *.
  assert (forall t, t ∈ ex' <-> expiration m t <= now /\ t ∈ timers_ m) as Hex
    by (intros t; unfold ex'; by rewrite list_elem_of_filter).
  assert (forall t, t ∈ rest <-> now < expiration m t /\ t ∈ timers_ m) as Hrest
    by (intros t; unfold rest; by rewrite list_elem_of_filter).
  assert (forall r, (match ex' with [] => ([], m) | _ => (ex', r) end = (ex, m')) ->
    ex = ex' /\ (ex' = [] /\ m' = m \/ m' = r)) as Hcase.
  { intros r. destruct ex'; intros [= <- <-]; auto. }
  intros Hrun. apply Hcase in Hrun as [-> [[Enil ->]| ->]]; (split; [done|]).
  - split_and!; auto.
    + intros t Ht. split; [done|]. left. destruct (decide (now < expiration m t)); [done|].
      assert (t ∈ ex') as Hin by (apply Hex; split; [lia|done]). rewrite Enil in Hin.
      by apply elem_of_nil in Hin.
    + intros t Ht. rewrite Enil in Ht. by apply elem_of_nil in Ht.
  - set (m0 := set_timers rest (set_tickle true m)).
    assert (tm_wf m0) as Hwf0.
    { apply (tm_wf_timers m); [done| |intros t [_ Ht]%Hrest; by apply (wf_queued _ Hwf)].
      rewrite <- Eapp in Ho. by apply StronglySorted_app in Ho as (_ & _ & ?). }
    destruct (rearm_spec now ex' m0 Hwf0) as (Hwf1 & Hh1 & Hi1 & Ho1 & Hr1).
    { apply NoDup_filter. by eapply ordered_nodup. }
    { intros t [Hle Ht]%Hex. split; [by apply (wf_queued _ Hwf)|].
      simpl. rewrite Hrest. lia. }
    split_and!; auto.
    + intros t Ht Hlt. apply Hi1. simpl. by apply Hrest.
    + intros t [Ht%Hrest|[Ht%Hex Er]]%Ho1; tauto.
Qed.

Lemma get_next_timer_keeps now m :
  heap (get_next_timer now m).2 = heap m /\ timers_ (get_next_timer now m).2 = timers_ m /\
  fresh (get_next_timer now m).2 = fresh m.
Proof. unfold get_next_timer. by destruct (timers_ m) eqn:E. Qed.

Lemma tm_wf_next now m : tm_wf m -> tm_wf (get_next_timer now m).2.
Proof.
  intros Hwf. unfold get_next_timer. destruct (timers_ m) as [|t ts] eqn:E; [done|].
  by destruct Hwf; split.
Qed.

(** ** Runs of the manager

    Each public operation, called at a moment [now], takes the manager to a
    new state; handles passed to the operations of [Timer] are those the
    program got from [add_timer]. *)

Inductive timer_step : TimerManager -> TimerManager -> Prop :=
| StepAdd now recurring ms cb args m :
    timer_step m (add_timer now recurring ms cb args m).2
| StepDel t m : timer_step m (del_timer t m).2
| StepNext now m : timer_step m (get_next_timer now m).2
| StepExpired now m : timer_step m (get_expired_timers now m).2
| StepCancel t m : timer_step m (cancel t m).2
| StepRefresh now t m : timer_step m (refresh now t m).2
| StepReset now ms from_now t m : timer_step m (reset now ms from_now t m).2.

Definition timers_reachable : TimerManager -> Prop := rtc timer_step TimerManager_new.

Lemma timer_step_wf m m' : timer_step m m' -> tm_wf m -> tm_wf m'.
Proof.
  destruct 1; intros Hwf; auto using tm_wf_next, tm_wf_refresh, tm_wf_reset.
  - destruct (add_timer _ _ _ _ _ _) as [r m'] eqn:E. by apply add_timer_spec in E as [? _].
  - destruct (del_timer _ _) as [r m'] eqn:E. by apply del_timer_spec in E as [? _].
  - destruct (get_expired_timers _ _) as [r m'] eqn:E.
    by apply get_expired_timers_spec in E as (_ & ? & _).
  - destruct (cancel _ _) as [r m'] eqn:E. by apply cancel_spec in E as [? _].
Qed.

Lemma reachable_wf m : timers_reachable m -> tm_wf m.
Proof.
  intros Hr. cut (tm_wf TimerManager_new -> tm_wf m); [intros H; apply H, tm_wf_new|].
  induction Hr as [|? ? ? Hs _ IH]; [done|]. intros Hwf. eapply IH, timer_step_wf; eauto.
Qed.

(** A manager the examples use: a one-shot timer at 120 and two recurring ones
    at 105 and 110. *)
Definition example_manager : TimerManager :=
  (add_timer 100 false 20 (Plain 3) 0
    (add_timer 100 true 10 (Plain 2) 0
      (add_timer 95 true 10 (Plain 1) 0 TimerManager_new).2).2).2.

Lemma example_manager_reachable : timers_reachable example_manager.
Proof.
  eapply rtc_l; [apply (StepAdd 95 true 10 (Plain 1) 0)|].
  eapply rtc_l; [apply (StepAdd 100 true 10 (Plain 2) 0)|].
  eapply rtc_l; [apply (StepAdd 100 false 20 (Plain 3) 0)|]. apply rtc_refl.
Defined.

(** ** Claims *)

(** (C5) After any run of the public operations the queue is strictly ordered by
    expiration, so no timer is queued twice and no two queued timers expire at
    the same moment; every queued timer exists. *)
Theorem timer_queue_ordered (m : TimerManager) :
  timers_reachable m ->
  ordered (expiration m) (timers_ m) /\ NoDup (timers_ m) /\
  forall t, t ∈ timers_ m -> is_Some (heap m !! t) /\ 0 <= expiration m t < 2 ^ 64.
Proof.
  intros Hr. pose proof (reachable_wf _ Hr) as Hwf. pose proof (wf_ordered _ Hwf) as Ho.
  split_and!; [done|by eapply ordered_nodup|]. intros t Ht.
  split; [by apply (wf_queued _ Hwf)|apply (wf_range _ Hwf)].
Qed.

Lemma timer_queue_ordered_witness :
  timers_ example_manager = [0; 1; 2]%nat /\ NoDup (timers_ example_manager).
Proof.
  split; [vm_compute; reflexivity|].
  exact (proj1 (proj2 (timer_queue_ordered example_manager example_manager_reachable))).
Defined.

(** (C12) [get_expired_timers] returns exactly the timers whose time has come, in
    the order they expire; the others stay queued and untouched; a one-shot
    timer leaves the queue; and a recurring one is queued again for one period from
    now, when no other timer is queued for that millisecond; when there is one, which
    had been queued for it or is a recurring one of the same batch, the timer is not in the queue any more.
    When periods are positive nothing due is left queued. *)
Theorem expired_timers_exact (now : Z) (m m' : TimerManager) (ex : list nat) :
  timers_reachable m -> get_expired_timers now m = (ex, m') ->
  ex = filter (λ t, expiration m t <= now) (timers_ m) /\ ordered (expiration m) ex /\
  (forall t, t ∈ timers_ m -> now < expiration m t ->
     t ∈ timers_ m' /\ expiration m' t = expiration m t) /\
  (forall t, t ∈ ex -> is_recurring m t = false -> t ∉ timers_ m') /\
  (forall t, t ∈ ex -> is_recurring m t = true ->
     expiration m' t = u64 (now + period m t) /\
     (t ∈ timers_ m' <-> forall y, y ∈ timers_ m' -> y <> t -> expiration m' y <> u64 (now + period m t)) /\
     ((forall y, y ∈ timers_ m -> y <> t ->
         (now < expiration m y -> expiration m y <> u64 (now + period m t)) /\
         (expiration m y <= now -> is_recurring m y = true -> u64 (now + period m y) <> u64 (now + period m t))) ->
      t ∈ timers_ m')) /\
  (0 <= now -> (forall t, t ∈ ex -> 0 < period m t < 2 ^ 64 - now) ->
     forall t, t ∈ timers_ m' -> now < expiration m' t).
Proof.
  intros Hr E. pose proof (reachable_wf _ Hr) as Hwf.
  apply get_expired_timers_spec in E as (-> & Hwf' & Hh & Hkeep & Hin & Hrec); [|done].
  set (ex := filter _ _) in *.
  assert (forall t, t ∈ ex <-> expiration m t <= now /\ t ∈ timers_ m) as Hex
    by (intros t; unfold ex; by rewrite list_elem_of_filter).
  assert (forall t, now < expiration m t -> expiration m' t = expiration m t) as Hsame.
  { intros t Hlt. apply lookup_views, Hh. rewrite Hex. lia. }
  assert (forall t, t ∈ ex -> is_recurring m t = true ->
    (forall y, y ∈ timers_ m' -> y <> t -> expiration m' y <> u64 (now + period m t)) -> t ∈ timers_ m') as Halone.
  { intros t Ht Er Hy. destruct (Hrec t Ht Er) as (Ee & y & Hin' & Ey). destruct (decide (y = t)) as [->|Hne]; [done|].
    rewrite Ee in Ey. by apply Hy in Hin'. }
  split_and!; [done| |auto| | |].
  - destruct (upper_split_spec (expiration m) now (timers_ m) (wf_ordered _ Hwf)) as [_ Eapp].
    pose proof (wf_ordered _ Hwf) as Ho. rewrite <- Eapp in Ho.
    by apply StronglySorted_app in Ho as (_ & ? & _).
  - intros t [Hle _]%Hex Er Ht. apply Hin in Ht as [_ [?|?]]; [lia|congruence].
  - intros t Ht Er. destruct (Hrec t Ht Er) as (Ee & _). split_and!; [done| |].
    + split; [|by apply Halone]. intros Ht' y Hy Hne Ey. apply Hne. rewrite <- Ee in Ey.
      by apply (ordered_inj (expiration m') (timers_ m')); [apply (wf_ordered _ Hwf')|..].
    + intros Hfree. apply Halone; [done..|]. intros y Hy Hne Ey. apply Hin in Hy as [Hym Hyc].
      destruct (Hfree y Hym Hne) as [H1 H2]. destruct (decide (now < expiration m y)) as [Hlt|Hge].
      * rewrite Hsame in Ey by done. by apply H1.
      * destruct Hyc as [?|Ery]; [lia|]. assert (y ∈ ex) as Hye by (apply Hex; split; [lia|done]).
        destruct (Hrec y Hye Ery) as [Eye _]. rewrite Eye in Ey. apply H2; [lia|done|done].
  - intros H0 Hp t Ht. destruct (decide (now < expiration m t)) as [Hlt|Hge]; [by rewrite Hsame|].
    apply Hin in Ht as [Ht [?|Er]]; [lia|]. assert (t ∈ ex) as Hte by (apply Hex; split; [lia|done]).
    destruct (Hrec t Hte Er) as [-> _]. specialize (Hp t Hte). rewrite uint_small; lia.
Qed.

Lemma expired_timers_exact_witness :
  let r := get_expired_timers 107 example_manager in
  r.1 = [0]%nat /\ timers_ r.2 = [1; 0; 2]%nat /\
  r.1 = filter (λ t, expiration example_manager t <= 107) (timers_ example_manager).
Proof.
  split; [vm_compute; reflexivity|]. split; [vm_compute; reflexivity|].
  exact (proj1 (expired_timers_exact 107 example_manager _ _ example_manager_reachable eq_refl)).
Defined.

(** (C13) The waiting time of [get_next_timer] is exact: when it says [d]
    milliseconds, the timers that have expired at a later moment [now'] are
    none before [now + d] and at least one from then on; with an empty queue it
    says the largest value, and nothing ever expires. *)
Theorem next_timer_exact (now now' : Z) (m : TimerManager) :
  timers_reachable m -> 0 <= now <= now' ->
  let d := (get_next_timer now m).1 in
  let later := get_next_timer now m in
  (timers_ m = [] -> d = 2 ^ 64 - 1 /\ (get_expired_timers now' later.2).1 = []) /\
  (timers_ m <> [] -> 0 <= d < 2 ^ 64 /\
     ((get_expired_timers now' later.2).1 <> [] <-> now + d <= now')).
Proof.
  intros Hr Hnow d later. pose proof (reachable_wf _ Hr) as Hwf.
  destruct (get_next_timer_keeps now m) as (Eh & Et & _). fold later in Eh, Et.
  assert (tm_wf later.2) as Hwf' by by apply tm_wf_next.
  destruct (get_expired_timers now' later.2) as [ex m'] eqn:E.
  apply get_expired_timers_spec in E as (-> & _); [|done]. rewrite Et. simpl.
  assert (forall t, expiration later.2 t = expiration m t) as Hsame
    by (intros t; unfold expiration; by rewrite Eh).
  split; [intros En; unfold d, get_next_timer; by rewrite En|].
  intros Hne. unfold d, get_next_timer. pose proof (wf_ordered _ Hwf) as Ho.
  destruct (timers_ m) as [|t ts]; [done|]. simpl. apply ordered_cons in Ho as [_ Hts].
  pose proof (wf_range _ Hwf t) as Hrange.
  assert (filter (λ z, expiration later.2 z <= now') (t :: ts) <> [] <-> expiration m t <= now') as ->.
  { split.
    - intros Hf. destruct (decide (expiration m t <= now')) as [|Hgt]; [done|]. exfalso. apply Hf.
      apply filter_keeps_none. constructor; [by rewrite Hsame|].
      eapply Forall_impl; [exact Hts|]. intros z Hz. rewrite Hsame. cbv beta in Hz. lia.
    - intros Hle. rewrite filter_cons_True by (by rewrite Hsame). done. }
  destruct (Z.leb_spec (expiration m t) now); [lia|]. rewrite uint_small; lia.
Qed.

Lemma next_timer_exact_witness :
  (get_next_timer 100 example_manager).1 = 5 /\
  (get_expired_timers 105 (get_next_timer 100 example_manager).2).1 <> [].
Proof.
  split; [vm_compute; reflexivity|].
  apply (proj2 (next_timer_exact 100 105 example_manager example_manager_reachable ltac:(lia)));
    vm_compute; congruence.
Defined.

(** Adding a timer queues it, and nothing else changes, exactly when no
    queued timer expires at the same millisecond; otherwise the caller gets a
    null pointer and the queue stays as it was. *)
Theorem add_timer_needs_free_slot (now : Z) (recurring : bool) (ms : Z) (cb : callback) (args : Z)
    (m m' : TimerManager) (r : option nat) :
  timers_reachable m -> add_timer now recurring ms cb args m = (r, m') ->
  (is_Some r <-> forall y, y ∈ timers_ m -> expiration m y <> u64 (now + ms)) /\
  (forall t, r = Some t -> timers_ m' ≡ₚ t :: timers_ m /\ expiration m' t = u64 (now + ms) /\
     t ∉ timers_ m) /\
  (r = None -> timers_ m' = timers_ m).
Proof.
  intros Hr E. pose proof (reachable_wf _ Hr) as Hwf.
  apply add_timer_spec in E as (_ & _ & Hnew & Hcase); [|done].
  destruct r as [t|].
  - destruct Hcase as (-> & Hfree & Hp). split_and!; [naive_solver| |done].
    intros ? [= <-]. split_and!; [done|by rewrite (expiration_lookup _ _ _ Hnew)|].
    intros Hin%(wf_queued _ Hwf)%(wf_fresh _ Hwf). lia.
  - destruct Hcase as (Ets & y & Hy & Ey). split_and!; [|done..].
    split; [intros []; congruence|]. intros Hfree. by apply Hfree in Hy.
Qed.

Lemma add_timer_needs_free_slot_witness :
  (add_timer 90 false 15 (Plain 9) 0 example_manager).1 = None /\
  timers_ (add_timer 90 false 15 (Plain 9) 0 example_manager).2 = timers_ example_manager.
Proof.
  split; [vm_compute; reflexivity|].
  apply (add_timer_needs_free_slot 90 false 15 (Plain 9) 0 example_manager _ _
    example_manager_reachable (surjective_pairing _)). vm_compute. reflexivity.
Defined.

(** Cancelling a queued timer succeeds and removes that timer and no
    other.  A handle whose timer has fired is still attached to the manager:
    cancelling it removes whichever queued timer expires at the moment the
    fired one did. *)
Theorem cancel_by_expiration (t y : nat) (m : TimerManager) (tm : Timer) :
  timers_reachable m -> heap m !! t = Some tm -> manager_ tm = true ->
  y ∈ timers_ m -> expiration m y = expiration m t ->
  (cancel t m).1 = true /\ (t ∈ timers_ m -> y = t) /\
  forall z, z ∈ timers_ (cancel t m).2 <-> z ∈ timers_ m /\ z <> y.
Proof.
  intros Hr Et Em Hy Ey. pose proof (reachable_wf _ Hr) as Hwf.
  pose proof (wf_ordered _ Hwf) as Ho. unfold cancel. rewrite Et, Em.
  destruct (del_timer t m) as [ok m'] eqn:E.
  apply del_timer_spec in E as (_ & _ & _ & Hok); [|done]. destruct ok.
  - destruct Hok as (y' & Hy' & Ey' & Hown & Hin).
    assert (y' = y) as -> by (eapply ordered_inj; eauto; congruence). done.
  - destruct Hok as [_ Hne]. by specialize (Hne y Hy).
Qed.

(** Timer 0 expires at 100 and is handed out; timer 1 is then queued for the
    same millisecond; cancelling timer 0 takes timer 1 away. *)
Definition stale_manager : TimerManager :=
  (add_timer 100 false 0 (Plain 2) 0
    (get_expired_timers 100 (add_timer 90 false 10 (Plain 1) 0 TimerManager_new).2).2).2.

Lemma stale_manager_reachable : timers_reachable stale_manager.
Proof.
  eapply rtc_l; [apply (StepAdd 90 false 10 (Plain 1) 0)|].
  eapply rtc_l; [apply (StepExpired 100)|].
  eapply rtc_l; [apply (StepAdd 100 false 0 (Plain 2) 0)|]. apply rtc_refl.
Defined.

Lemma cancel_by_expiration_witness :
  (0 ∉ timers_ stale_manager /\ 1 ∈ timers_ stale_manager /\
  ~ 1 ∈ timers_ (cancel 0 stale_manager).2)%nat.
Proof.
  assert (timers_ stale_manager = [1%nat]) as E by (vm_compute; reflexivity).
  rewrite E. split_and!; [by rewrite list_elem_of_singleton|by left|].
  intros H. apply (cancel_by_expiration 0 1 stale_manager
    (mkTimer false 10 100 (Plain 1) 0 true)) in H as [_ H]; [done|exact stale_manager_reachable|..].
  - vm_compute. reflexivity.
  - reflexivity.
  - rewrite E. by left.
  - vm_compute. reflexivity.
Defined.

(** When two recurring timers of the same period are found expired
    together, only one of them is queued again. *)
Theorem batch_rearm_collides (now : Z) (t1 t2 : nat) (m : TimerManager) :
  timers_reachable m -> t1 <> t2 ->
  t1 ∈ (get_expired_timers now m).1 -> t2 ∈ (get_expired_timers now m).1 ->
  is_recurring m t1 = true -> is_recurring m t2 = true -> period m t1 = period m t2 ->
  ~ (t1 ∈ timers_ (get_expired_timers now m).2 /\ t2 ∈ timers_ (get_expired_timers now m).2).
Proof.
  intros Hr Hne H1 H2 R1 R2 Ep [Q1 Q2]. pose proof (reachable_wf _ Hr) as Hwf.
  destruct (get_expired_timers now m) as [ex m'] eqn:E.
  apply get_expired_timers_spec in E as (_ & Hwf' & _ & _ & _ & Hrec); [|done]. simpl in *.
  apply Hne. eapply ordered_inj; [apply (wf_ordered _ Hwf')|done..|].
  destruct (Hrec t1 H1 R1) as [-> _], (Hrec t2 H2 R2) as [-> _]. by rewrite Ep.
Qed.

Lemma batch_rearm_collides_witness :
  ((get_expired_timers 112 example_manager).1 = [0; 1] /\
  ~ (0 ∈ timers_ (get_expired_timers 112 example_manager).2 /\
     1 ∈ timers_ (get_expired_timers 112 example_manager).2))%nat.
Proof.
  split; [vm_compute; reflexivity|].
  apply (batch_rearm_collides 112 0 1 example_manager example_manager_reachable);
    [done|vm_compute; by left|vm_compute; right; by left|vm_compute; reflexivity..].
Defined.
