(* ===== verification/Stream.v ===== *)
(** * Streams: [Stream] and [SocketStream] of src/sylar/stream.{h,cpp}

    A connected socket is an interface, [Transport]: what [recv] and [send]
    answer is up to the peer and the kernel.  [TransportLaws] says what they
    promise: the bytes that arrive are a prefix of what the peer sends, and
    [send] accepts a prefix of what it is given.  The loops of [Stream] and the
    decoder of chunked bodies are proved against that interface; [Network], a
    socket that delivers a list of fragments, implements it. *)

From S2P Require Import Prelude Endian ByteArray.

(** ** The socket below a stream *)

(** [recv n] gives the bytes received ([Some []] at the end of the
    connection), or [None] on an error; [send] gives the value it returns. *)
Class Transport (σ : Type) := {
  connected : σ -> bool;
  recv : Z -> σ -> option (list Z) * σ;
  send : list Z -> σ -> Z * σ;
}.

Class TransportLaws (σ : Type) `{!Transport σ} (incoming outgoing : σ -> list Z) : Prop := {
  recv_law : forall n s d s', recv n s = (d, s') ->
    connected s' = connected s /\ outgoing s' = outgoing s /\
    match d with
    | Some d => incoming s = d ++ incoming s' /\ len d <= Z.max 0 n /\ len d < 2 ^ 31
    | None => incoming s' = incoming s
    end;
  send_law : forall data s k s', send data s = (k, s') ->
    connected s' = connected s /\ incoming s' = incoming s /\
    k <= len data /\ k < 2 ^ 31 /\ outgoing s' = outgoing s ++ take (Z.to_nat k) data;
}.

(** A peer that keeps the connection up while it has something to send, and
    accepts what it is sent. *)
Class Responsive (σ : Type) `{!Transport σ} (incoming : σ -> list Z) : Prop := {
  recv_progress : forall n s, 0 < n -> incoming s <> [] ->
    exists d s', recv n s = (Some d, s') /\ d <> [];
  send_progress : forall data s, data <> [] -> 0 < (send data s).1;
}.

(** ** [SocketStream] *)

Section socket_stream.
Context {σ : Type} `{!Transport σ} (junk : nat -> nat -> Z).

(** [read(void*, size_t)]: the bytes put into the buffer. *)
Definition stream_read (length : Z) : M σ (list Z) := λ s,
  if connected s then
    match recv length s with
    | (Some [], s) => (Throw RuntimeError, s)
    | (Some d, s) => (Ret d, s)
    | (None, s) => (Throw RuntimeError, s)
    end
  else (Throw LogicError, s).

Definition stream_read_ba (length : Z) : M (σ * ByteArray) Z := λ '(s, ba),
  if connected s then
    match get_write_buffers junk length ba with
    | (Ret iovs, ba) =>
        match recv (total_len iovs) s with
        | (Some ((_ :: _) as d), s) =>
            match set_write_position junk (u64 (write_pos_ ba + len d)) (fill iovs d ba) with
            | (Ret _, ba) => (Ret (len d), (s, ba))
            | (Throw e, ba) => (Throw e, (s, ba))
            | (Fault f, ba) => (Fault f, (s, ba))
            end
        | (_, s) => (Throw RuntimeError, (s, ba))
        end
    | (Throw e, ba) => (Throw e, (s, ba))
    | (Fault f, ba) => (Fault f, (s, ba))
    end
  else (Throw LogicError, (s, ba)).

Definition stream_write (data : list Z) : M σ Z := λ s,
  if connected s then
    let '(ret, s) := send data s in
    if ret <=? 0 then (Throw RuntimeError, s) else (Ret ret, s)
  else (Throw LogicError, s).

Definition stream_write_ba (length : Z) : M (σ * ByteArray) Z := λ '(s, ba),
  if connected s then
    match get_read_buffers length ba with
    | Ret iovs =>
        let '(ret, s) := send (gather (blocks ba) iovs) s in
        if ret <=? 0 then (Throw RuntimeError, (s, ba))
        else match set_read_position (u64 (read_pos_ ba + ret)) ba with
             | (Ret _, ba) => (Ret ret, (s, ba))
             | (Throw e, ba) => (Throw e, (s, ba))
             | (Fault f, ba) => (Fault f, (s, ba))
             end
    | Throw e => (Throw e, (s, ba))
    | Fault f => (Fault f, (s, ba))
    end
  else (Throw LogicError, (s, ba)).

(** ** The loops of [Stream]

    [io offset n] is the call of the loop's body, [n] being
    [length - offset].  Every turn moves [offset], so [length] turns are
    enough. *)

Fixpoint fix_length {S} (io : Z -> Z -> M S Z) (fuel : nat) (length offset : Z) : M S unit :=
  if offset <? length then
    match fuel with
    | O => crash Diverges
    | Datatypes.S fuel =>
        io offset (length - offset) ≫= λ n,
        if n <=? 0 then throw RuntimeError else fix_length io fuel length (offset + n)
    end
  else mret tt.

Definition read_into (offset n : Z) : M (σ * list Z) Z := λ '(s, buffer),
  match stream_read n s with
  | (Ret d, s) => (Ret (len d), (s, memcpy_at (Z.to_nat offset) d buffer))
  | (Throw e, s) => (Throw e, (s, buffer))
  | (Fault f, s) => (Fault f, (s, buffer))
  end.

Definition read_fix_length (length : Z) : M (σ * list Z) unit :=
  fix_length read_into (Z.to_nat length) length 0.

Definition read_fix_length_ba (length : Z) : M (σ * ByteArray) unit :=
  fix_length (λ _ n, stream_read_ba n) (Z.to_nat length) length 0.

Definition write_fix_length (buffer : list Z) (length : Z) : M σ unit :=
  fix_length (λ offset n, stream_write (take (Z.to_nat n) (drop (Z.to_nat offset) buffer)))
    (Z.to_nat length) length 0.

Definition write_fix_length_ba (length : Z) : M (σ * ByteArray) unit :=
  fix_length (λ _ n, stream_write_ba n) (Z.to_nat length) length 0.

(** ** [read_chunked_body] *)

(** The locals of the function: the socket, the buffer, [read_len], [parsed],
    [chunk_size], [tmp_size], [read_chunk_size] and [body]. *)
Record chunk_state := mkChunkState {
  c_sock : σ;
  c_buffer : list Z;
  c_read_len : Z;
  c_parsed : Z;
  c_chunk_size : Z;
  c_tmp_size : Z;
  c_read_chunk_size : bool;
  c_body : list Z;
}.

Definition toupper (c : Z) : Z := if (97 <=? c) && (c <=? 122) then c - 32 else c.

(** The value a character adds to the chunk size, if it is a digit. *)
Definition hex_value (c : Z) : option Z :=
  let c := toupper c in
  if (48 <=? c) && (c <=? 57) then Some (c - 48)
  else if (65 <=? c) && (c <=? 70) then Some (c - 65 + 10)
  else None.

(** The head of the loop: more bytes are read when the buffer is used up;
    [inl] is [return false]. *)
Definition refill (buff_size : Z) (st : chunk_state) : chunk_state + chunk_state :=
  if c_read_len st <=? c_parsed st then
    match stream_read buff_size (c_sock st) with
    | (Ret d, s) =>
        inr (mkChunkState s (memcpy_at 0 d (c_buffer st)) (len d) 0
               (c_chunk_size st) (c_tmp_size st) (c_read_chunk_size st) (c_body st))
    | (_, s) =>
        inl (mkChunkState s (c_buffer st) (c_read_len st) (c_parsed st)
               (c_chunk_size st) (c_tmp_size st) (c_read_chunk_size st) (c_body st))
    end
  else inr st.

(** The rest of the body of the loop; [inl] is [break]. *)
Definition turn (st : chunk_state) : chunk_state + chunk_state :=
  let '(mkChunkState s buffer read_len parsed chunk_size tmp_size read_chunk_size body) := st in
  if chunk_size =? 0 then
    match hex_value (buffer !!! Z.to_nat parsed) with
    | Some d =>
        inr (mkChunkState s buffer read_len (parsed + 1) chunk_size
               (u64 (Z.shiftl tmp_size 4 + d)) true body)
    | None =>
        if read_chunk_size then
          if tmp_size =? 0 then
            inl (mkChunkState s buffer read_len (parsed + 2) chunk_size tmp_size read_chunk_size body)
          else
            inr (mkChunkState s buffer read_len (parsed + 2) tmp_size 0 false body)
        else
          inr (mkChunkState s buffer read_len (parsed + 1) chunk_size tmp_size read_chunk_size body)
    end
  else
    let avail := u64 (read_len - parsed) in
    if chunk_size <=? avail then
      inr (mkChunkState s buffer read_len (parsed + chunk_size) 0 tmp_size read_chunk_size
             (body ++ take (Z.to_nat chunk_size) (drop (Z.to_nat parsed) buffer)))
    else
      inr (mkChunkState s buffer read_len read_len (chunk_size - avail) tmp_size read_chunk_size
             (body ++ take (Z.to_nat avail) (drop (Z.to_nat parsed) buffer))).

(** [Some true] is [break], [Some false] is [return false]; [None] when the
    peer kept sending for [fuel] turns. *)
Fixpoint chunk_loop (fuel : nat) (buff_size : Z) (st : chunk_state) : option (bool * chunk_state) :=
  match fuel with
  | O => None
  | S fuel =>
      match refill buff_size st with
      | inl st => Some (false, st)
      | inr st =>
          match turn st with
          | inl st => Some (true, st)
          | inr st => chunk_loop fuel buff_size st
          end
      end
  end.

(** The result, the body, [remained] and the final locals. *)
Definition read_chunked_body (fuel : nat) (buff_size : Z) (buffer : list Z) (remained : Z)
    (body : list Z) (s : σ) : option (bool * list Z * Z * chunk_state) :=
  '(ok, st) ← chunk_loop fuel buff_size (mkChunkState s buffer remained 0 0 0 false body);
  Some (ok, c_body st,
        (if ok : bool then u64 (c_read_len st - c_parsed st) else remained), st).
End socket_stream.

Arguments chunk_state σ : clear implicits.

(** ** The fixed-length loops *)

(** What a call of the loop's body does at [offset], when it keeps the
    invariant [I] and throws only with [E]. *)
Definition io_step {S} (io : Z -> Z -> M S Z) (I : Z -> S -> Prop) (E : exn -> Z -> S -> Prop)
    (length : Z) : Prop :=
  forall off s, 0 <= off < length -> I off s ->
    match io off (length - off) s with
    | (Ret k, s') => 0 < k <= length - off /\ I (off + k) s'
    | (Throw e, s') => E e off s'
    | (Fault _, _) => False
    end.

Lemma fix_length_spec {S} (io : Z -> Z -> M S Z) I E length s :
  0 <= length -> io_step io I E length -> I 0 s ->
  match fix_length io (Z.to_nat length) length 0 s with
  | (Ret _, s') => I length s'
  | (Throw e, s') => exists off, 0 <= off < length /\ E e off s'
  | (Fault _, _) => False
  end.
Proof.
  intros Hl Hio.
  enough (forall fuel off s, 0 <= off <= length -> length - off <= Z.of_nat fuel -> I off s ->
    match fix_length io fuel length off s with
    | (Ret _, s') => I length s'
    | (Throw e, s') => exists off, 0 <= off < length /\ E e off s'
    | (Fault _, _) => False
    end) as Hgen by (intros HI; apply Hgen; [lia|lia|done]).
  clear s. intros fuel. induction fuel as [|fuel IH]; intros off s Ho Hf HI; simpl;
    destruct (Z.ltb_spec off length) as [Hlt|]; try lia;
    try (assert (off = length) as -> by lia; exact HI).
  specialize (Hio off s ltac:(lia) HI). unfold mbind, M_bind.
  destruct (io off (length - off) s) as [[k|e|f] s']; [|exists off; split; [lia|done]|done].
  destruct Hio as [Hk HI']. destruct (Z.leb_spec k 0); [lia|]. apply IH; [lia..|done].
Qed.

Section fixed_length.
Context {σ : Type} `{!Transport σ} (junk : nat -> nat -> Z) {incoming outgoing : σ -> list Z}
  `{!TransportLaws σ incoming outgoing}.

Lemma stream_read_spec n s :
  connected s = true ->
  match stream_read n s with
  | (Ret d, s') => connected s' = true /\ incoming s = d ++ incoming s' /\
                   outgoing s' = outgoing s /\ 0 < len d <= Z.max 0 n /\ len d < 2 ^ 31
  | (Throw e, s') => e = RuntimeError /\ connected s' = true /\ incoming s' = incoming s /\
                     outgoing s' = outgoing s
  | (Fault _, _) => False
  end.
Proof.
  intros Hc. unfold stream_read. rewrite Hc. destruct (recv n s) as [[[|b d]|] s'] eqn:E.
  - apply recv_law in E as (E1 & E2 & E3 & _). simpl in E3. split_and!; congruence.
  - apply recv_law in E as (E1 & E2 & E3 & E4 & E5). cbn [length] in *.
    split_and!; [congruence|done|done|lia..].
  - apply recv_law in E as (E1 & E2 & E3). split_and!; congruence.
Qed.

(** With a responsive peer and something to come, reading succeeds. *)
Lemma stream_read_responsive `{!Responsive σ incoming} n s :
  connected s = true -> 0 < n -> incoming s <> [] -> exists d s', stream_read n s = (Ret d, s').
Proof.
  intros Hc Hn Hi. destruct (recv_progress n s Hn Hi) as (d & s' & E & Hd).
  unfold stream_read. rewrite Hc, E. destruct d; [done|]. eauto.
Qed.

Lemma take_more {A} (l d rest : list A) (off : Z) :
  0 <= off <= len l -> drop (Z.to_nat off) l = d ++ rest ->
  off + len d <= len l /\
  take (Z.to_nat (off + len d)) l = take (Z.to_nat off) l ++ d /\
  drop (Z.to_nat (off + len d)) l = rest.
Proof.
  intros Ho E. apply (f_equal (λ l, len l)) in E as El. rewrite length_drop, length_app in El.
  rewrite Z2Nat.inj_add, Nat2Z.id, <- drop_drop, E, drop_app_length by lia. split_and!; [lia| |done].
  rewrite <- (take_drop (Z.to_nat off) l) at 1. rewrite E.
  rewrite take_app_add' by (rewrite length_take; lia). by rewrite take_app_length.
Qed.

Lemma memcpy_chain off d data (buffer : list Z) :
  (length data = off)%nat -> (off + length d <= length buffer)%nat ->
  memcpy_at off d (memcpy_at 0 data buffer) = memcpy_at 0 (data ++ d) buffer.
Proof.
  intros <- Hb. unfold memcpy_at. rewrite !Nat.add_0_l, !take_0, !app_nil_l, take_app_length.
  rewrite drop_app_add, drop_drop, length_app, <- app_assoc. done.
Qed.

(** Reading into memory: the invariant of the loop at [off]. *)
Definition received (s0 : σ) (buf0 : list Z) (off : Z) (st : σ * list Z) : Prop :=
  connected st.1 = true /\ outgoing st.1 = outgoing s0 /\ off <= len (incoming s0) /\
  incoming st.1 = drop (Z.to_nat off) (incoming s0) /\
  st.2 = memcpy_at 0 (take (Z.to_nat off) (incoming s0)) buf0.

Lemma read_into_step s0 buf0 length :
  length <= len buf0 ->
  io_step read_into (received s0 buf0)
    (λ e off st, e = RuntimeError /\ received s0 buf0 off st) length.
Proof.
  intros Hb off [s buf] Ho (Hc & Hout & Hoff & Hin & Hbuf). simpl in *.
  pose proof (stream_read_spec (length - off) s Hc) as H. unfold read_into.
  destruct (stream_read (length - off) s) as [[d|e|f] s']; [| |done].
  2:{ destruct H as (-> & ? & ? & ?). split; [done|]. split_and!; simpl; congruence || done. }
  destruct H as (Hc' & Hin' & Hout' & Hd & _). split; [lia|].
  rewrite Hin in Hin'. destruct (take_more (incoming s0) d (incoming s') off ltac:(lia) Hin') as (Hle & Et & Ed).
  unfold received. rewrite Et, Ed. split_and!; simpl; [done|congruence|done|done|].
  subst buf. rewrite memcpy_chain; [done|rewrite length_take; lia|lia].
Qed.

(** Reading into a [ByteArray]. *)
Definition received_ba (s0 : σ) (ba0 : ByteArray) (length off : Z) (st : σ * ByteArray) : Prop :=
  connected st.1 = true /\ outgoing st.1 = outgoing s0 /\ off <= len (incoming s0) /\
  incoming st.1 = drop (Z.to_nat off) (incoming s0) /\
  wf st.2 /\ fits st.2 (length - off) /\ read_pos_ st.2 = read_pos_ ba0 /\
  content st.2 = content ba0 ++ take (Z.to_nat off) (incoming s0).

Lemma stream_read_ba_spec n s ba :
  connected s = true -> wf ba -> 0 < n -> fits ba n ->
  match stream_read_ba junk n (s, ba) with
  | (Ret k, (s', ba')) => 0 < k <= n /\ connected s' = true /\ outgoing s' = outgoing s /\
      exists d, len d = k /\ incoming s = d ++ incoming s' /\ wf ba' /\
        block_size_ ba' = block_size_ ba /\ write_pos_ ba' = write_pos_ ba + k /\
        content ba' = content ba ++ d /\ read_pos_ ba' = read_pos_ ba
  | (Throw e, (s', ba')) => e = RuntimeError /\ connected s' = true /\ outgoing s' = outgoing s /\
      incoming s' = incoming s /\ content ba' = content ba
  | (Fault _, _) => False
  end.
Proof.
  intros Hc Hwf Hn Hf. unfold stream_read_ba. rewrite Hc.
  pose proof (λ d H, get_write_buffers_spec junk n d ba Hwf Hn H Hf) as Hspec.
  destruct (Hspec []) as (iovs & ba1 & _ & E1 & Ht & _ & Hx & _); [simpl; lia|]. rewrite E1, Ht.
  pose proof (extends_content ba ba1 Hwf Hx).
  destruct (recv n s) as [[[|b d]|] s'] eqn:Er; apply recv_law in Er as (Hc' & Ho & Hrest).
  - destruct Hrest as (Ei & _). simpl in Ei. split_and!; congruence.
  - destruct Hrest as (Ei & Hlen & _).
    destruct (Hspec (b :: d)) as (iovs' & ba1' & ba2 & E1' & _ & _ & _ & E2 & Hwf2 & Ec & Er & Eb);
      [lia|]. rewrite E1 in E1'. injection E1' as <- <-. rewrite E2.
    split_and!; [cbn [length]; lia|lia|congruence|done|].
    exists (b :: d). split_and!; auto.
    rewrite <- (length_content ba2 Hwf2), Ec, length_app, <- (length_content ba Hwf). lia.
  - split_and!; congruence.
Qed.

Lemma read_ba_step s0 ba0 length :
  io_step (λ _ n, stream_read_ba junk n) (received_ba s0 ba0 length)
    (λ e off st, e = RuntimeError /\ connected st.1 = true /\
       incoming st.1 = drop (Z.to_nat off) (incoming s0) /\
       content st.2 = content ba0 ++ take (Z.to_nat off) (incoming s0)) length.
Proof.
  intros off [s ba] Ho (Hc & Hout & Hoff & Hin & Hwf & Hf & Hr & Hcon). cbn [fst snd] in *.
  pose proof (stream_read_ba_spec (length - off) s ba Hc Hwf ltac:(lia) Hf) as H.
  destruct (stream_read_ba junk (length - off) (s, ba)) as [[k|e|f] [s' ba']]; [| |done].
  2:{ destruct H as (-> & ? & ? & ? & ?). simpl. split_and!; congruence. }
  destruct H as (Hk & Hc' & Hout' & d & <- & Hin' & Hwf' & Hb & Hw & Hcon' & Hr').
  rewrite Hin in Hin'. destruct (take_more (incoming s0) d (incoming s') off ltac:(lia) Hin') as (Hle & Et & Ed).
  split; [done|]. unfold received_ba, fits in *. rewrite Et, Ed. simpl.
  split_and!; [done|congruence|done|done|done|lia|congruence|].
  by rewrite Hcon', Hcon, app_assoc.
Qed.

(** Sending. *)
Lemma stream_write_spec data s :
  connected s = true ->
  match stream_write data s with
  | (Ret k, s') => 0 < k <= len data /\ connected s' = true /\
                   outgoing s' = outgoing s ++ take (Z.to_nat k) data
  | (Throw e, s') => e = RuntimeError /\ connected s' = true /\ outgoing s' = outgoing s
  | (Fault _, _) => False
  end.
Proof.
  intros Hc. unfold stream_write. rewrite Hc. destruct (send data s) as [k s'] eqn:E.
  apply send_law in E as (E1 & E2 & E3 & E4 & E5). destruct (Z.leb_spec k 0).
  - rewrite E5. assert (Z.to_nat k = 0%nat) as -> by lia. rewrite take_0, app_nil_r.
    split_and!; congruence.
  - split_and!; [lia|lia|congruence|done].
Qed.

Definition sent (s0 : σ) (data : list Z) (off : Z) (s : σ) : Prop :=
  connected s = true /\ outgoing s = outgoing s0 ++ take (Z.to_nat off) data.

(** [take] in two steps. *)
Lemma take_then (data : list Z) (off k n : Z) :
  0 <= off -> 0 <= k <= n ->
  take (Z.to_nat (off + k)) data =
  take (Z.to_nat off) data ++ take (Z.to_nat k) (take (Z.to_nat n) (drop (Z.to_nat off) data)).
Proof.
  intros Ho Hk. rewrite take_take, Nat.min_l by lia. rewrite take_take_drop. f_equal. lia.
Qed.

Lemma write_step s0 data length :
  length <= len data ->
  io_step (λ offset n, stream_write (take (Z.to_nat n) (drop (Z.to_nat offset) data)))
    (sent s0 data) (λ e off s, e = RuntimeError /\ sent s0 data off s) length.
Proof.
  intros Hl off s Ho (Hc & Hout).
  pose proof (stream_write_spec (take (Z.to_nat (length - off)) (drop (Z.to_nat off) data)) s Hc) as H.
  destruct (stream_write _ s) as [[k|e|f] s']; [| |done].
  - destruct H as (Hk & Hc' & Hout'). rewrite length_take, length_drop in Hk. split; [lia|].
    split; [done|]. rewrite (take_then data off k (length - off)) by lia.
    by rewrite Hout', Hout, app_assoc.
  - destruct H as (-> & ? & ?). split; [done|]. split; [done|congruence].
Qed.

Definition sent_ba (s0 : σ) (ba0 : ByteArray) (off : Z) (st : σ * ByteArray) : Prop :=
  sent s0 (unread ba0) off st.1 /\ wf st.2 /\ content st.2 = content ba0 /\
  read_pos_ st.2 = read_pos_ ba0 + off.

Lemma stream_write_ba_spec n s ba :
  connected s = true -> wf ba -> 0 <= n ->
  match stream_write_ba n (s, ba) with
  | (Ret k, (s', ba')) => 0 < k <= Z.min n (len (unread ba)) /\ connected s' = true /\
      outgoing s' = outgoing s ++ take (Z.to_nat k) (unread ba) /\
      wf ba' /\ content ba' = content ba /\ read_pos_ ba' = read_pos_ ba + k
  | (Throw e, (s', ba')) => e = RuntimeError /\ connected s' = true /\ outgoing s' = outgoing s /\ ba' = ba
  | (Fault _, _) => False
  end.
Proof.
  intros Hc Hwf Hn. unfold stream_write_ba. rewrite Hc.
  destruct (get_read_buffers_spec n ba Hwf Hn) as (iovs & -> & _ & ->).
  pose proof (stream_write_spec (take (Z.to_nat n) (unread ba)) s Hc) as H.
  unfold stream_write in H. rewrite Hc in H. destruct (send _ s) as [k s'].
  destruct (Z.leb_spec k 0); [destruct H as (_ & ? & ?); done|].
  destruct H as (Hk & Hc' & Hout). rewrite length_take in Hk. pose proof (length_unread ba Hwf) as Hu.
  destruct (wf_pos ba Hwf). pose proof (wf_room ba Hwf). pose proof (wf_cap64 ba Hwf).
  rewrite (uint_small 64) by lia. rewrite set_read_position_spec by (done || lia).
  destruct (Z.ltb_spec (write_pos_ ba) (read_pos_ ba + k)); [lia|].
  split_and!; [lia|lia|done| |apply seek_read_wf; [done|lia]|done|done].
  rewrite Hout, take_take, Nat.min_l by lia. done.
Qed.

Lemma write_ba_step s0 ba0 length :
  wf ba0 -> length <= len (unread ba0) ->
  io_step (λ _ n, stream_write_ba n) (sent_ba s0 ba0)
    (λ e off st, e = RuntimeError /\ sent_ba s0 ba0 off st) length.
Proof.
  intros Hwf0 Hl off [s ba] Ho ((Hc & Hout) & Hwf & Hcon & Hr). cbn [fst snd] in *.
  assert (unread ba = drop (Z.to_nat off) (unread ba0)) as Hun.
  { unfold unread. rewrite Hcon, Hr, drop_drop. destruct (wf_pos ba0 Hwf0). f_equal. lia. }
  pose proof (stream_write_ba_spec (length - off) s ba Hc Hwf ltac:(lia)) as H.
  destruct (stream_write_ba (length - off) (s, ba)) as [[k|e|f] [s' ba']]; [| |done].
  2:{ destruct H as (-> & ? & ? & ->). split; [done|]. split_and!; try done. split; [done|].
      simpl. congruence. }
  destruct H as (Hk & Hc' & Hout' & Hwf' & Hcon' & Hr'). split; [lia|].
  split_and!; [|done|simpl; congruence|simpl; lia]. split; [done|]. simpl.
  rewrite Hout', Hout, Hun, <- app_assoc. f_equal.
  rewrite (take_then (unread ba0) off k (len (unread ba0))) by lia.
  rewrite (take_ge (drop _ _) (Z.to_nat (len _))); [done|]. rewrite length_drop. lia.
Qed.
End fixed_length.

Lemma io_step_live {S} (io : Z -> Z -> M S Z) I E length :
  io_step io I E length ->
  (forall off s, 0 <= off < length -> I off s -> exists k s', io off (length - off) s = (Ret k, s')) ->
  io_step io I (λ _ _ _, False) length.
Proof.
  intros Hio Hl off s Ho HI. specialize (Hio off s Ho HI).
  destruct (Hl off s Ho HI) as (k & s' & E'). by rewrite E' in Hio |- *.
Qed.

Lemma fix_length_live {S} (io : Z -> Z -> M S Z) I E length s :
  0 <= length -> io_step io I E length -> I 0 s ->
  (forall off s, 0 <= off < length -> I off s -> exists k s', io off (length - off) s = (Ret k, s')) ->
  exists s', fix_length io (Z.to_nat length) length 0 s = (Ret tt, s') /\ I length s'.
Proof.
  intros Hl Hio HI Hlive.
  pose proof (fix_length_spec io I _ length s Hl (io_step_live _ _ _ _ Hio Hlive) HI) as H.
  destruct (fix_length _ _ _ _ s) as [[[]|e|f] s']; [eauto| |done]. by destruct H as (? & _ & ?).
Qed.

(** ** A socket that delivers a list of fragments *)

Record Network := mkNetwork { n_frags : list (list Z); n_window : Z; n_sent : list Z }.

(** The largest transfer of one system call. *)
Definition max_transfer : Z := 2 ^ 31 - 4096.

Definition network_recv (n : Z) (s : Network) : option (list Z) * Network :=
  match filter (λ f, f <> []) (n_frags s) with
  | [] => (Some [], mkNetwork [] (n_window s) (n_sent s))
  | f :: fs => let k := Z.to_nat (Z.min n max_transfer) in
               (Some (take k f), mkNetwork (drop k f :: fs) (n_window s) (n_sent s))
  end.
Definition network_send (data : list Z) (s : Network) : Z * Network :=
  let k := Z.min (len data) (Z.min max_transfer (Z.max 1 (n_window s))) in
  (k, mkNetwork (n_frags s) (n_window s) (n_sent s ++ take (Z.to_nat k) data)).

#[export] Instance network_transport : Transport Network :=
  { connected _ := true; recv := network_recv; send := network_send }.

Definition network_incoming (s : Network) : list Z := concat (n_frags s).

Lemma concat_filter_nonempty (l : list (list Z)) : concat (filter (λ f, f <> []) l) = concat l.
Proof.
  induction l as [|f l IH]; [done|]. destruct f.
  - rewrite filter_cons_False by auto. done.
  - rewrite filter_cons_True by done. simpl. by rewrite IH.
Qed.

#[export] Instance network_laws : TransportLaws Network network_incoming n_sent.
Proof.
  split.
  - intros n s d s'. simpl. unfold network_recv, network_incoming.
    rewrite <- (concat_filter_nonempty (n_frags s)).
    destruct (filter _ (n_frags s)) as [|f fs]; intros [= <- <-]; simpl; split_and!; auto; try lia.
    + by rewrite app_assoc, take_drop.
    + rewrite length_take. lia.
    + rewrite length_take. unfold max_transfer. lia.
  - intros data s k s'. simpl. unfold network_send. intros [= <- <-]. simpl.
    unfold max_transfer. split_and!; auto; lia.
Qed.

#[export] Instance network_responsive : Responsive Network network_incoming.
Proof.
  split.
  - intros n s Hn Hi. simpl. unfold network_recv, network_incoming in *.
    rewrite <- concat_filter_nonempty in Hi.
    destruct (filter _ (n_frags s)) as [|f fs] eqn:E; [done|]. eexists _, _. split; [done|].
    assert (f ∈ filter (λ f, f <> []) (n_frags s)) as Hf by (rewrite E; by left).
    apply list_elem_of_filter in Hf as [Hf _]. destruct f; [done|].
    destruct (Z.to_nat (Z.min n max_transfer)) eqn:Ek; [unfold max_transfer in Ek; lia|done].
  - intros data s Hd. simpl. destruct data; [done|]. unfold max_transfer. cbn [length]. lia.
Qed.

(** ** Claims: fixed-length transfers *)

Section fixed_length_claims.
Context {σ : Type} `{!Transport σ} (junk : nat -> nat -> Z) (incoming outgoing : σ -> list Z)
  `{!TransportLaws σ incoming outgoing}.

(** (C24) [read_fix_length] into a [ByteArray]: however the peer splits its
    data, on return the array has gained exactly the next [length] bytes and the
    rest is still to come; an exception leaves the bytes that arrived in the
    array; and with a peer that sends that much it does return. *)
Theorem receive_fix_length (s : σ) (ba : ByteArray) (length : Z) :
  connected s = true -> wf ba -> 0 <= length -> fits ba length ->
  match read_fix_length_ba junk length (s, ba) with
  | (Ret _, (s', ba')) =>
      length <= len (incoming s) /\ incoming s' = drop (Z.to_nat length) (incoming s) /\
      wf ba' /\ content ba' = content ba ++ take (Z.to_nat length) (incoming s)
  | (Throw e, (s', ba')) => e = RuntimeError /\ exists got, 0 <= got < length /\
      incoming s' = drop (Z.to_nat got) (incoming s) /\
      content ba' = content ba ++ take (Z.to_nat got) (incoming s)
  | (Fault _, _) => False
  end /\
  (Responsive σ incoming -> length <= len (incoming s) ->
   exists st, read_fix_length_ba junk length (s, ba) = (Ret tt, st)).
Proof.
  intros Hc Hwf Hl Hf. unfold read_fix_length_ba.
  assert (received_ba (incoming := incoming) (outgoing := outgoing) s ba length 0 (s, ba)) as HI.
  { unfold received_ba. rewrite Z.sub_0_r, take_0, app_nil_r, drop_0. split_and!; auto; simpl; lia. }
  pose proof (read_ba_step (incoming := incoming) (outgoing := outgoing) junk s ba length) as Hio.
  split.
  - pose proof (fix_length_spec _ _ _ length (s, ba) Hl Hio HI) as H.
    destruct (fix_length _ _ _ _ _) as [[[]|e|f] [s' ba']]; [|destruct H as (off & ? & -> & H)|done].
    + destruct H as (_ & _ & ? & ? & ? & _ & _ & ?). split_and!; done.
    + split; [done|]. exists off. tauto.
  - intros Hresp Hlen.
    destruct (fix_length_live _ _ _ length (s, ba) Hl Hio HI) as (st & E & _); [|by exists st].
    intros off [s1 ba1] Ho (Hc1 & _ & _ & Hin1 & Hwf1 & Hf1 & _ & _). cbn [fst snd] in *.
    destruct (recv_progress (length - off) s1) as (d & s2 & Er & Hd); [lia| |].
    { rewrite Hin1. intros E%(f_equal (@Datatypes.length Z)). rewrite length_drop in E. simpl in E. lia. }
    pose proof (stream_read_ba_spec (incoming := incoming) junk (length - off) s1 ba1 Hc1 Hwf1 ltac:(lia) Hf1) as H.
    destruct (stream_read_ba junk (length - off) (s1, ba1)) as [[k|e|f] [s' ba']] eqn:E; [by eauto| |done].
    exfalso. revert E. unfold stream_read_ba. rewrite Hc1.
    destruct (get_write_buffers_spec junk (length - off) d ba1 Hwf1 ltac:(lia))
      as (iovs & ba1' & ba2 & E1 & Ht & _ & _ & E2 & _); [|done|].
    { apply recv_law in Er as (_ & _ & _ & ? & _). lia. }
    rewrite E1, Ht, Er. destruct d; [done|]. by rewrite E2.
Qed.

(** [write_fix_length] from a [ByteArray]: however little the socket
    accepts at a time, on return exactly the next [length] unread bytes have
    been sent and consumed; an exception leaves the bytes that were not sent
    unread; and with a peer that keeps accepting it does return. *)
Theorem send_fix_length (s : σ) (ba : ByteArray) (length : Z) :
  connected s = true -> wf ba -> 0 <= length <= len (unread ba) ->
  match write_fix_length_ba length (s, ba) with
  | (Ret _, (s', ba')) =>
      outgoing s' = outgoing s ++ take (Z.to_nat length) (unread ba) /\
      wf ba' /\ unread ba' = drop (Z.to_nat length) (unread ba)
  | (Throw e, (s', ba')) => e = RuntimeError /\ exists put, 0 <= put < length /\
      outgoing s' = outgoing s ++ take (Z.to_nat put) (unread ba) /\
      wf ba' /\ unread ba' = drop (Z.to_nat put) (unread ba)
  | (Fault _, _) => False
  end /\
  (Responsive σ incoming -> exists st, write_fix_length_ba length (s, ba) = (Ret tt, st)).
Proof.
  intros Hc Hwf Hl. unfold write_fix_length_ba. destruct (wf_pos ba Hwf) as [Hrp _].
  assert (sent_ba (outgoing := outgoing) s ba 0 (s, ba)) as HI.
  { split_and!; simpl; [split; [done|]|done|done|lia]. by rewrite take_0, app_nil_r. }
  assert (forall off st, 0 <= off -> sent_ba (outgoing := outgoing) s ba off st ->
    unread st.2 = drop (Z.to_nat off) (unread ba)) as Hun.
  { intros off st Ho (_ & _ & Hcon & Hr). unfold unread. rewrite Hcon, Hr, drop_drop. f_equal. lia. }
  pose proof (write_ba_step (incoming := incoming) (outgoing := outgoing) s ba length Hwf ltac:(lia)) as Hio.
  split.
  - pose proof (fix_length_spec _ _ _ length (s, ba) ltac:(lia) Hio HI) as H.
    destruct (fix_length _ _ _ _ _) as [[[]|e|f] [s' ba']]; [|destruct H as (off & ? & -> & H)|done].
    + pose proof (Hun length _ ltac:(lia) H). destruct H as ([_ ?] & ? & _). done.
    + pose proof (Hun off _ ltac:(lia) H). destruct H as ([_ ?] & ? & _).
      split; [done|]. exists off. split_and!; try done; lia.
  - intros Hresp.
    destruct (fix_length_live _ _ _ length (s, ba) ltac:(lia) Hio HI) as (st & E & _); [|by exists st].
    intros off [s1 ba1] Ho HI1. pose proof (Hun off _ ltac:(lia) HI1) as Hun1.
    destruct HI1 as ([Hc1 _] & Hwf1 & _). cbn [fst snd] in *.
    pose proof (stream_write_ba_spec (incoming := incoming) (outgoing := outgoing) (length - off) s1 ba1 Hc1 Hwf1 ltac:(lia)) as H.
    destruct (stream_write_ba (length - off) (s1, ba1)) as [[k|e|f] [s' ba']] eqn:E; [by eauto| |done].
    exfalso. revert E. unfold stream_write_ba. rewrite Hc1.
    destruct (get_read_buffers_spec (length - off) ba1 Hwf1 ltac:(lia)) as (iovs & -> & _ & ->).
    destruct (wf_pos ba1 Hwf1). pose proof (wf_room ba1 Hwf1). pose proof (wf_cap64 ba1 Hwf1).
    pose proof (length_unread ba1 Hwf1) as El1. rewrite Hun1 in *. rewrite length_drop in El1.
    set (data := take _ _).
    assert (0 < len data) as Hd by (unfold data; rewrite length_take, length_drop; lia).
    assert (data <> []) as Hne by (intros Ed; rewrite Ed in Hd; simpl in Hd; lia).
    pose proof (send_progress data s1 Hne) as Hk. destruct (send data s1) as [k s2] eqn:Es.
    apply send_law in Es as (_ & _ & Hle & _ & _). simpl in Hk. destruct (Z.leb_spec k 0); [lia|].
    assert (len data <= write_pos_ ba1 - read_pos_ ba1)
      by (unfold data; rewrite length_take, length_drop; lia).
    rewrite (uint_small 64), set_read_position_spec by (done || lia).
    destruct (Z.ltb_spec (write_pos_ ba1) (read_pos_ ba1 + k)); [lia|done].
Qed.

(** The same for plain memory. *)
Lemma read_fix_length_spec (s : σ) (buffer : list Z) (length : Z) :
  connected s = true -> 0 <= length <= len buffer ->
  match read_fix_length length (s, buffer) with
  | (Ret _, st) => received (incoming := incoming) (outgoing := outgoing) s buffer length st
  | (Throw e, st) => e = RuntimeError /\ exists got, 0 <= got < length /\
      received (incoming := incoming) (outgoing := outgoing) s buffer got st
  | (Fault _, _) => False
  end.
Proof.
  intros Hc Hl.
  assert (received (incoming := incoming) (outgoing := outgoing) s buffer 0 (s, buffer)) as HI.
  { unfold received. rewrite take_0, drop_0. split_and!; auto; simpl; lia. }
  pose proof (read_into_step (incoming := incoming) (outgoing := outgoing) s buffer length ltac:(lia)) as Hio.
  pose proof (fix_length_spec _ _ _ length (s, buffer) ltac:(lia) Hio HI) as H. unfold read_fix_length.
  destruct (fix_length _ _ _ _ _) as [[[]|e|f] st]; [done|destruct H as (off & ? & -> & H)|done]. eauto.
Qed.

(** With a peer that sends that much, reading into memory returns. *)
Lemma read_fix_length_live `{!Responsive σ incoming} (s : σ) (buffer : list Z) (length : Z) :
  connected s = true -> 0 <= length <= len buffer -> length <= len (incoming s) ->
  exists st, read_fix_length length (s, buffer) = (Ret tt, st) /\
    received (incoming := incoming) (outgoing := outgoing) s buffer length st.
Proof.
  intros Hc Hl Hlen.
  assert (received (incoming := incoming) (outgoing := outgoing) s buffer 0 (s, buffer)) as HI.
  { unfold received. rewrite take_0, drop_0. split_and!; auto; simpl; lia. }
  pose proof (read_into_step (incoming := incoming) (outgoing := outgoing) s buffer length ltac:(lia)) as Hio.
  apply (fix_length_live _ _ _ length (s, buffer) ltac:(lia) Hio HI).
  intros off [s1 buf1] Ho (Hc1 & _ & _ & Hin1 & _). cbn [fst snd] in *.
  destruct (stream_read_responsive (incoming := incoming) (length - off) s1) as (d & s2 & Er); [done|lia| |].
  { rewrite Hin1. intros E%(f_equal (@Datatypes.length Z)). rewrite length_drop in E. simpl in E. lia. }
  unfold read_into. rewrite Er. eauto.
Qed.

Lemma write_fix_length_spec (s : σ) (data : list Z) (length : Z) :
  connected s = true -> 0 <= length <= len data ->
  match write_fix_length data length s with
  | (Ret _, s') => sent (outgoing := outgoing) s data length s'
  | (Throw e, s') => e = RuntimeError /\ exists put, 0 <= put < length /\
      sent (outgoing := outgoing) s data put s'
  | (Fault _, _) => False
  end.
Proof.
  intros Hc Hl.
  assert (sent (outgoing := outgoing) s data 0 s) as HI
    by (split; [done|]; by rewrite take_0, app_nil_r).
  pose proof (write_step (incoming := incoming) (outgoing := outgoing) s data length ltac:(lia)) as Hio.
  pose proof (fix_length_spec _ _ _ length s ltac:(lia) Hio HI) as H. unfold write_fix_length.
  destruct (fix_length _ _ _ _ _) as [[[]|e|f] st]; [done|destruct H as (off & ? & -> & H)|done]. eauto.
Qed.
End fixed_length_claims.

Lemma receive_fix_length_witness :
  exists st, read_fix_length_ba no_junk 5 (mkNetwork [[1;2];[3;4;5;6]] 3 [], ByteArray_new 2) = (Ret tt, st).
Proof.
  apply (receive_fix_length no_junk network_incoming n_sent (mkNetwork [[1;2];[3;4;5;6]] 3 []) (ByteArray_new 2) 5).
  - reflexivity.
  - apply wf_new. lia.
  - lia.
  - vm_compute. reflexivity.
  - apply network_responsive.
  - vm_compute. discriminate.
Defined.

Definition loaded : ByteArray := (write no_junk [1;2;3] (ByteArray_new 2)).2.

Lemma loaded_wf : wf loaded.
Proof.
  destruct (write_spec no_junk [1;2;3] (ByteArray_new 2)) as (ba' & E & H & _);
    [apply wf_new; lia|vm_compute; reflexivity|]. unfold loaded. by rewrite E.
Qed.

Lemma send_fix_length_witness :
  exists st, write_fix_length_ba 3 (mkNetwork [] 2 [], loaded) = (Ret tt, st).
Proof.
  apply (send_fix_length network_incoming n_sent (mkNetwork [] 2 []) loaded 3).
  - reflexivity.
  - apply loaded_wf.
  - vm_compute. split; discriminate.
  - apply network_responsive.
Defined.

(** ** Chunked bodies

    A chunk is a line with the size in hexadecimal, the data, and CR LF; a line
    with size zero, the trailer and CR LF end the body (RFC 9112, 7.1). *)

Definition crlf : list Z := [13; 10].

(** The digits with their values, "0123456789abcdef" and "0123456789ABCDEF". *)
Definition lower_digits : list Z := [48; 49; 50; 51; 52; 53; 54; 55; 56; 57; 97; 98; 99; 100; 101; 102].
Definition upper_digits : list Z := [48; 49; 50; 51; 52; 53; 54; 55; 56; 57; 65; 66; 67; 68; 69; 70].
Definition hex_digit (c : Z) (v : nat) : Prop := lower_digits !! v = Some c \/ upper_digits !! v = Some c.
(** The number the digits of these values stand for. *)
Fixpoint hex_number (vs : list nat) : Z :=
  match vs with [] => 0 | v :: vs => Z.of_nat v * 16 ^ len vs + hex_number vs end.
(** A line of digits that stands for [n], a 64-bit number. *)
Definition size_line (ds : list Z) (n : Z) : Prop :=
  ds <> [] /\ n < 2 ^ 64 /\ exists vs, Forall2 hex_digit ds vs /\ n = hex_number vs.

(** The chunks and the last size line. *)
Inductive chunk_lines : list (list Z) -> list Z -> Prop :=
| chunked_end ds : size_line ds 0 -> chunk_lines [] (ds ++ crlf)
| chunked_cons ds data chunks rest :
    data <> [] -> size_line ds (len data) -> chunk_lines chunks rest ->
    chunk_lines (data :: chunks) (ds ++ crlf ++ data ++ crlf ++ rest).
Definition chunked (chunks : list (list Z)) (trailer enc : list Z) : Prop :=
  exists lines, chunk_lines chunks lines /\ enc = lines ++ trailer ++ crlf.

(** The value of a line of digits, as the loop computes it. *)
Fixpoint digits_value (acc : Z) (ds : list Z) : option Z :=
  match ds with
  | [] => Some acc
  | d :: ds => match hex_value d with
               | Some v => digits_value (u64 (Z.shiftl acc 4 + v)) ds
               | None => None
               end
  end.

Lemma hex_digit_value c v : hex_digit c v -> hex_value c = Some (Z.of_nat v) /\ (v < 16)%nat.
Proof.
  assert (forall l, forallb (λ '(i, c), bool_decide (hex_value c = Some (Z.of_nat i)) && (i <? 16)%nat) (imap pair l) = true ->
    l !! v = Some c -> hex_value c = Some (Z.of_nat v) /\ (v < 16)%nat) as Hall.
  { intros l Hl E. rewrite forallb_forall in Hl. specialize (Hl (v, c)). cbv beta iota in Hl. rewrite andb_true_iff, bool_decide_eq_true, Nat.ltb_lt in Hl.
    apply Hl, list_elem_of_In, list_elem_of_lookup. exists v. by rewrite list_lookup_imap, E. }
  intros [E|E]; (eapply Hall; [|exact E]); vm_compute; reflexivity.
Qed.

Lemma digits_value_number ds vs acc :
  Forall2 hex_digit ds vs -> 0 <= acc -> acc * 16 ^ len vs + hex_number vs < 2 ^ 64 ->
  digits_value acc ds = Some (acc * 16 ^ len vs + hex_number vs) /\ 0 <= hex_number vs.
Proof.
  intros H. revert acc. induction H as [|d v ds vs Hd H IH]; intros acc Hacc Hlt; cbn [digits_value hex_number] in *.
  { change (16 ^ len (@nil nat)) with 1. split; [f_equal; lia|lia]. }
  destruct (hex_digit_value d v Hd) as [-> Hv]. cbn [length] in *. rewrite Nat2Z.inj_succ, Z.pow_succ_r in * by lia.
  assert (1 <= 16 ^ len vs) as Hp by (apply (Z.pow_le_mono_r 16 0); lia).
  assert (0 <= hex_number vs) as Hn.
  { clear -H. induction H as [|d v ds vs Hd H IH]; cbn; [lia|].
    assert (0 <= 16 ^ len vs) by (apply Z.pow_nonneg; lia). nia. }
  rewrite Z.shiftl_mul_pow2 by lia. change (2 ^ 4) with 16. rewrite uint_small by nia.
  destruct (IH (acc * 16 + Z.of_nat v)) as [-> _]; [lia|lia|]. split; [f_equal; lia|nia].
Qed.

Lemma size_line_value ds n : size_line ds n -> ds <> [] /\ digits_value 0 ds = Some n.
Proof.
  intros (Hne & Hn & vs & H & ->). split; [done|]. destruct (digits_value_number ds vs 0 H) as [-> _]; [lia|lia|]. by rewrite Z.mul_0_l.
Qed.

Section chunked_facts.
Context {σ : Type} `{!Transport σ} {incoming outgoing : σ -> list Z}
  `{!TransportLaws σ incoming outgoing} (buff_size : Z).

(** The next reads of the socket give these fragments. *)
Inductive delivers : σ -> list (list Z) -> σ -> Prop :=
| delivers_nil s : delivers s [] s
| delivers_cons s d s1 ds s' :
    stream_read buff_size s = (Ret d, s1) -> delivers s1 ds s' -> delivers s (d :: ds) s'.

(** The part of the buffer that is still to be parsed. *)
Definition piece (st : chunk_state σ) : list Z :=
  drop (Z.to_nat (c_parsed st)) (take (Z.to_nat (c_read_len st)) (c_buffer st)).

(** No read ended in the middle of a line end. *)
Definition no_split (l : list Z) : Prop := last l <> Some 13.

(** [stream] is what is still to be parsed: the rest of the buffer, then the
    fragments [frags]; [s'] is the socket when they have been read. *)
Record at_stream (st : chunk_state σ) (frags : list (list Z)) (s' : σ) (stream : list Z) : Prop := {
  at_stream_eq : stream = piece st ++ concat frags;
  at_parsed : 0 <= c_parsed st <= c_read_len st;
  at_buffer : c_read_len st <= len (c_buffer st);
  at_small : c_read_len st < 2 ^ 64;
  at_room : 0 < buff_size <= len (c_buffer st);
  at_sock : connected (c_sock st) = true;
  at_delivers : delivers (c_sock st) frags s';
  at_no_split : no_split (piece st) /\ Forall no_split frags;
}.

Definition same_decoder (st st' : chunk_state σ) : Prop :=
  c_chunk_size st' = c_chunk_size st /\ c_tmp_size st' = c_tmp_size st /\
  c_read_chunk_size st' = c_read_chunk_size st /\ c_body st' = c_body st.

Lemma length_piece st :
  0 <= c_parsed st <= c_read_len st -> c_read_len st <= len (c_buffer st) ->
  len (piece st) = c_read_len st - c_parsed st.
Proof. intros. unfold piece. rewrite length_drop, length_take. lia. Qed.

Lemma no_split_drop n l : no_split l -> no_split (drop n l).
Proof.
  unfold no_split. intros H E. apply H. rewrite <- (take_drop n l), last_app, E. done.
Qed.

(** The head of the loop finds the next byte of the stream. *)
Lemma refill_spec st frags s' x stream :
  at_stream st frags s' (x :: stream) ->
  exists st1 frags1, refill buff_size st = inr st1 /\ same_decoder st st1 /\
    at_stream st1 frags1 s' (x :: stream) /\ exists p, piece st1 = x :: p.
Proof.
  intros [Eq Hp Hb Hs Hr Hc Hd [Hn Hns]]. pose proof (length_piece st Hp Hb) as El. unfold refill.
  destruct (Z.leb_spec (c_read_len st) (c_parsed st)) as [Hle|Hlt].
  - destruct (piece st) as [|? ?] eqn:Ep; [|simpl in El; lia]. simpl in Eq.
    inversion Hd as [|s0 d s1 ds s2 Er Hd1]; subst; [done|].
    pose proof (stream_read_spec (incoming := incoming) (outgoing := outgoing) buff_size (c_sock st) Hc) as Hrd.
    rewrite Er in Hrd. destruct Hrd as (Hc1 & _ & _ & Hlen & Hlen31). rewrite Er.
    apply Forall_cons in Hns as [Hnd Hns].
    set (st1 := mkChunkState _ _ _ _ _ _ _ _).
    assert (piece st1 = d) as Ep1.
    { unfold piece, st1, memcpy_at. simpl. rewrite drop_0, Nat2Z.id, take_app_length. done. }
    exists st1, ds. split_and!; [done|done| |].
    + split; try done; simpl.
      * by rewrite Ep1.
      * lia.
      * unfold memcpy_at. rewrite !length_app, length_drop. simpl. lia.
      * lia.
      * unfold memcpy_at. rewrite !length_app, length_drop. simpl. lia.
      * by rewrite Ep1.
    + rewrite Ep1. destruct d as [|y d]; [simpl in Hlen; lia|]. simpl in Eq. injection Eq as -> ->. eauto.
  - exists st, frags. split_and!; [done|done|by split|].
    destruct (piece st) as [|y p]; [simpl in El; lia|]. injection Eq as -> _. eauto.
Qed.

(** Moving [parsed] over bytes of the buffer. *)
Lemma at_advance st frags s' p q cs tmp flag body :
  at_stream st frags s' (p ++ q ++ concat frags) -> piece st = p ++ q ->
  at_stream (mkChunkState (c_sock st) (c_buffer st) (c_read_len st) (c_parsed st + len p)
               cs tmp flag body) frags s' (q ++ concat frags).
Proof.
  intros [Eq Hp Hb Hs Hr Hc Hd [Hn Hns]] Ep. pose proof (length_piece st Hp Hb) as El.
  rewrite Ep, length_app in El.
  set (st1 := mkChunkState _ _ _ _ _ _ _ _).
  assert (piece st1 = q) as Ep1.
  { unfold piece, st1 in *. simpl. rewrite Z2Nat.inj_add, Nat2Z.id, <- drop_drop, Ep by lia.
    by rewrite drop_app_length. }
  split; try done; simpl; try lia.
  - by rewrite Ep1.
  - rewrite Ep1. split; [|done]. apply (no_split_drop (length p)) in Hn.
    by rewrite Ep, drop_app_length in Hn.
Qed.

Definition ready (st : chunk_state σ) (s' : σ) (stream : list Z) : Prop :=
  exists frags, at_stream st frags s' stream.
Definition runs (k : nat) (st st' : chunk_state σ) : Prop :=
  forall f, chunk_loop (k + f) buff_size st = chunk_loop f buff_size st'.
Definition dec (st : chunk_state σ) : Z * Z * bool * list Z :=
  (c_chunk_size st, c_tmp_size st, c_read_chunk_size st, c_body st).

Lemma runs_trans k1 k2 st1 st2 st3 : runs k1 st1 st2 -> runs k2 st2 st3 -> runs (k1 + k2) st1 st3.
Proof. intros H1 H2 f. by rewrite <- Nat.add_assoc, H1, H2. Qed.

(** One turn on a state whose next byte is [x]: what [turn] sees. *)
Lemma turn_setup st s' x stream cs tmp flag body :
  ready st s' (x :: stream) -> dec st = (cs, tmp, flag, body) ->
  exists st1 frags p, refill buff_size st = inr st1 /\ at_stream st1 frags s' (x :: stream) /\
    piece st1 = x :: p /\ stream = p ++ concat frags /\
    c_buffer st1 !!! Z.to_nat (c_parsed st1) = x /\
    turn st1 = turn (mkChunkState (c_sock st1) (c_buffer st1) (c_read_len st1) (c_parsed st1) cs tmp flag body).
Proof.
  intros [frags H] Ed. destruct (refill_spec _ _ _ _ _ H) as (st1 & frags1 & Er & Hsame & Hat & p & Ep).
  exists st1, frags1, p. split_and!; auto.
  - destruct Hat as [Eq _ _ _ _ _ _ _]. rewrite Ep in Eq. by injection Eq.
  - unfold piece in Ep. apply (f_equal head) in Ep. simpl in Ep.
    rewrite <- (Nat.add_0_r (Z.to_nat _)).
    apply list_lookup_total_correct. rewrite <- lookup_drop.
    rewrite head_lookup, lookup_drop, lookup_take_Some in Ep. rewrite lookup_drop. tauto.
  - destruct Hsame as (E1 & E2 & E3 & E4). unfold dec in Ed. injection Ed as <- <- <- <-.
    rewrite <- E1, <- E2, <- E3, <- E4. f_equal. by destruct st1.
Qed.

Ltac use_turn Hst :=
  intros f; simpl; match goal with E : refill _ _ = _ |- _ => rewrite E end;
  rewrite Hst.

Lemma step_digit st s' x v stream tmp flag body :
  ready st s' (x :: stream) -> dec st = (0, tmp, flag, body) -> hex_value x = Some v ->
  exists st', runs 1 st st' /\ ready st' s' stream /\
    dec st' = (0, u64 (Z.shiftl tmp 4 + v), true, body).
Proof.
  intros H Ed Hv. destruct (turn_setup _ _ _ _ _ _ _ _ H Ed) as (st1 & frags & p & Er & Hat & Ep & -> & Ex & Est).
  eexists. split_and!; [use_turn Est; simpl; rewrite Ex, Hv; reflexivity| |reflexivity].
  exists frags. apply (at_advance st1 frags s' [x] p); done.
Qed.

Lemma step_skip st s' x stream tmp body :
  ready st s' (x :: stream) -> dec st = (0, tmp, false, body) -> hex_value x = None ->
  exists st', runs 1 st st' /\ ready st' s' stream /\ dec st' = (0, tmp, false, body).
Proof.
  intros H Ed Hv. destruct (turn_setup _ _ _ _ _ _ _ _ H Ed) as (st1 & frags & p & Er & Hat & Ep & -> & Ex & Est).
  eexists. split_and!; [use_turn Est; simpl; rewrite Ex, Hv; reflexivity| |reflexivity].
  exists frags. apply (at_advance st1 frags s' [x] p); done.
Qed.

(** The line end is in one piece. *)
Lemma line_end_whole st frags s' p stream :
  at_stream st frags s' (13 :: 10 :: stream) -> piece st = 13 :: p ->
  exists q, p = 10 :: q /\ stream = q ++ concat frags.
Proof.
  intros [Eq _ _ _ _ _ _ [Hn _]] Ep. rewrite Ep in Eq, Hn. simpl in Eq. injection Eq as Eq.
  destruct p as [|y q]; [by unfold no_split in Hn; simpl in Hn|]. injection Eq as <- ->. eauto.
Qed.

Lemma step_line_end st s' stream tmp body :
  ready st s' (crlf ++ stream) -> dec st = (0, tmp, true, body) -> tmp <> 0 ->
  exists st', runs 1 st st' /\ ready st' s' stream /\ dec st' = (tmp, 0, false, body).
Proof.
  intros H Ed Ht. destruct (turn_setup _ _ _ _ _ _ _ _ H Ed) as (st1 & frags & p & Er & Hat & Ep & Es & Ex & Est).
  destruct (line_end_whole _ _ _ _ _ Hat Ep) as (q & -> & ->).
  eexists. split_and!; [use_turn Est; simpl; rewrite Ex; simpl; rewrite (proj2 (Z.eqb_neq tmp 0) Ht); reflexivity| |reflexivity].
  exists frags. apply (at_advance st1 frags s' [13; 10] q); done.
Qed.

Lemma step_last st s' stream body f :
  ready st s' (crlf ++ stream) -> dec st = (0, 0, true, body) ->
  exists st', chunk_loop (S f) buff_size st = Some (true, st') /\ ready st' s' stream /\ c_body st' = body.
Proof.
  intros H Ed. destruct (turn_setup _ _ _ _ _ _ _ _ H Ed) as (st1 & frags & p & Er & Hat & Ep & Es & Ex & Est).
  destruct (line_end_whole _ _ _ _ _ Hat Ep) as (q & -> & ->).
  eexists. split_and!; [simpl; rewrite Er, Est; simpl; rewrite Ex; reflexivity| |reflexivity].
  exists frags. apply (at_advance st1 frags s' [13; 10] q); done.
Qed.

(** The data of a chunk, over as many reads as it takes. *)
Lemma step_data_turn st s' data stream tmp flag body :
  ready st s' (data ++ stream) -> dec st = (len data, tmp, flag, body) -> data <> [] ->
  exists st' d rest, data = d ++ rest /\ d <> [] /\ runs 1 st st' /\ ready st' s' (rest ++ stream) /\
    dec st' = (len rest, tmp, flag, body ++ d).
Proof.
  intros H Ed Hne. destruct data as [|x data]; [done|]. clear Hne.
  destruct (turn_setup _ _ _ _ _ _ _ _ H Ed) as (st1 & frags & p & Er & Hat & Ep & Es & _ & Est).
  pose proof Hat as [Eq Hp Hb Hs Hr Hc Hd Hns]. pose proof (length_piece st1 Hp Hb) as El.
  assert (u64 (c_read_len st1 - c_parsed st1) = len (piece st1)) as Ea by (rewrite uint_small; lia).
  set (l := x :: data) in *.
  assert (l ++ stream = piece st1 ++ concat frags) as Eq' by exact Eq. clear Eq. rename Eq' into Eq.
  assert (at_stream st1 frags s' (l ++ stream)) as Hat' by exact Hat. clear Hat.
  assert (l <> []) as Hlne by done.
  assert (forall m, (m <= length (piece st1))%nat ->
    take m (drop (Z.to_nat (c_parsed st1)) (c_buffer st1)) = take m (piece st1)) as Hpiece.
  { intros m Hm. unfold piece in *. rewrite skipn_firstn_comm, take_take. f_equal. lia. }
  assert (len l <> 0) as Hl0 by (unfold l; cbn [length]; lia). clearbody l.
  destruct (decide (len l <= len (piece st1))) as [Hfit|Hmore].
  - assert (piece st1 = l ++ drop (length l) (piece st1)) as Epl.
    { rewrite <- (take_drop (length l) (piece st1)) at 1. f_equal.
      apply (f_equal (take (length l))) in Eq. rewrite take_app_length, take_app_le in Eq by lia. done. }
    assert (stream = drop (length l) (piece st1) ++ concat frags) as Est'.
    { apply (f_equal (drop (length l))) in Eq. by rewrite drop_app_length, drop_app_le in Eq by lia. }
    eexists _, l, []. split_and!; [by rewrite app_nil_r|done| | |].
    + use_turn Est. simpl. destruct (Z.eqb_spec (len l) 0); [done|]. rewrite Ea.
      destruct (Z.leb_spec (len l) (len (piece st1))); [reflexivity|lia].
    + exists frags. rewrite Est'. simpl. apply (at_advance st1 frags s' l); [|done].
      by rewrite <- Est'.
    + unfold dec. simpl. rewrite Nat2Z.id, Hpiece by lia. do 3 f_equal.
      rewrite Epl at 1. by rewrite take_app_length.
  - set (d := piece st1) in *.
    assert (l = d ++ drop (length d) l) as Edl.
    { rewrite <- (take_drop (length d) l) at 1. f_equal.
      apply (f_equal (take (length d))) in Eq. rewrite take_app_length, take_app_le in Eq by lia. done. }
    eexists _, d, (drop (length d) l). split_and!; [done|by rewrite Ep| | |].
    + use_turn Est. simpl. destruct (Z.eqb_spec (len l) 0); [done|]. rewrite Ea. fold d.
      destruct (Z.leb_spec (len l) (len d)); [lia|reflexivity].
    + exists frags. pose proof (at_advance st1 frags s' d [] (len l - len d) tmp flag
        (body ++ take (Z.to_nat (len d)) (drop (Z.to_nat (c_parsed st1)) (c_buffer st1)))) as Hadv.
      simpl in Hadv. rewrite app_nil_r in Hadv. fold d in El.
      replace (c_parsed st1 + len d) with (c_read_len st1) in Hadv by lia.
      assert (drop (length d) l ++ stream = concat frags) as ->; [|apply Hadv; [|done]; by rewrite <- Eq].
      rewrite Edl, <- app_assoc in Eq. by apply app_inv_head in Eq.
    + unfold dec. simpl. rewrite Nat2Z.id, Hpiece by lia. fold d. rewrite take_ge by done.
      rewrite length_drop. do 3 f_equal. lia.
Qed.

Lemma step_data data stream tmp flag : forall st s' body,
  ready st s' (data ++ stream) -> dec st = (len data, tmp, flag, body) ->
  exists k st', (k <= length data)%nat /\ runs k st st' /\ ready st' s' stream /\
    dec st' = (0, tmp, flag, body ++ data).
Proof.
  remember (length data) as n eqn:En. revert data En.
  induction (lt_wf n) as [m _ IH]. intros data -> st s' body H Ed.
  destruct (decide (data = [])) as [->|Hne].
  { exists 0%nat, st. rewrite app_nil_r. split_and!; [simpl; lia|by intros f|done|done]. }
  destruct (step_data_turn _ _ _ _ _ _ _ H Ed Hne) as (st1 & d & rest & -> & Hd & Hr1 & H1 & Ed1).
  assert (0 < length d)%nat by (destruct d; [done|simpl; lia]). rewrite length_app in *.
  destruct (IH (length rest) ltac:(lia) rest eq_refl st1 s' (body ++ d) H1 Ed1) as (k & st2 & Hk & Hr2 & H2 & Ed2).
  exists (1 + k)%nat, st2. split_and!; [lia|by eapply runs_trans|done|by rewrite app_assoc].
Qed.

Lemma run_digits ds stream n body : forall st s' tmp flag,
  ready st s' (ds ++ stream) -> dec st = (0, tmp, flag, body) -> digits_value tmp ds = Some n ->
  exists st', runs (length ds) st st' /\ ready st' s' stream /\
    dec st' = (0, n, match ds with [] => flag | _ => true end, body).
Proof.
  induction ds as [|d ds IH]; intros st s' tmp flag H Ed Hv; simpl in *.
  { injection Hv as ->. exists st. split_and!; [by intros f|done|done]. }
  destruct (hex_value d) as [v|] eqn:Ev; [|done].
  destruct (step_digit _ _ _ _ _ _ _ _ H Ed Ev) as (st1 & Hr1 & H1 & Ed1).
  destruct (IH _ _ _ _ H1 Ed1 Hv) as (st2 & Hr2 & H2 & Ed2).
  exists st2. split_and!; [by apply (runs_trans 1 (length ds) st st1 st2)|done|]. by destruct ds.
Qed.

Lemma run_line ds n stream st s' body :
  ready st s' (ds ++ stream) -> dec st = (0, 0, false, body) -> size_line ds n ->
  exists st', runs (length ds) st st' /\ ready st' s' stream /\ dec st' = (0, n, true, body).
Proof.
  intros H Ed [Hne Hv]%size_line_value. destruct (run_digits _ _ _ _ _ _ _ _ H Ed Hv) as (st1 & ? & ? & Ed1).
  exists st1. split_and!; [done..|]. by destruct ds.
Qed.

Lemma run_chunks chunks enc tail : chunk_lines chunks enc -> forall st s' body f,
  ready st s' (enc ++ tail) -> dec st = (0, 0, false, body) -> (length enc <= f)%nat ->
  exists st', chunk_loop f buff_size st = Some (true, st') /\ ready st' s' tail /\
    c_body st' = body ++ concat chunks.
Proof.
  induction 1 as [ds Hds|ds data chunks rest Hne Hds _ IH]; intros st s' body f H Ed Hf;
    rewrite <- ?app_assoc in H; rewrite !length_app in Hf.
  - destruct (run_line _ _ _ _ _ _ H Ed Hds) as (st1 & Hr1 & H1 & Ed1). simpl in Hf.
    destruct (step_last _ _ _ _ (f - length ds - 1) H1 Ed1) as (st2 & E & H2 & Eb).
    exists st2. rewrite app_nil_r. split_and!; [|done|done]. rewrite <- E, <- Hr1. f_equal. lia.
  - destruct (run_line _ _ _ _ _ _ H Ed Hds) as (st1 & Hr1 & H1 & Ed1).
    destruct (step_line_end _ _ _ _ _ H1 Ed1) as (st2 & Hr2 & H2 & Ed2).
    { destruct data; [done|]. cbn [length]. lia. }
    destruct (step_data _ _ _ _ _ _ _ H2 Ed2) as (k & st3 & Hk & Hr3 & H3 & Ed3).
    destruct (step_skip _ _ _ _ _ _ H3 Ed3 eq_refl) as (st4 & Hr4 & H4 & Ed4).
    destruct (step_skip _ _ _ _ _ _ H4 Ed4 eq_refl) as (st5 & Hr5 & H5 & Ed5).
    cbn [crlf length] in Hf.
    destruct (IH st5 s' (body ++ data) (f - length ds - 1 - k - 1 - 1)%nat H5 Ed5 ltac:(lia))
      as (st6 & E & H6 & Eb).
    exists st6. split_and!; [|done|by rewrite Eb, <- app_assoc].
    rewrite <- E, <- Hr5, <- Hr4, <- Hr3, <- Hr2, <- Hr1. f_equal. lia.
Qed.
End chunked_facts.

Lemma read_chunked_body_spec {σ : Type} `{!Transport σ} (incoming outgoing : σ -> list Z)
    `{!TransportLaws σ incoming outgoing} (buff_size remained : Z) (buffer body enc tail : list Z)
    (chunks frags : list (list Z)) (s s' : σ) (fuel : nat) :
  chunk_lines chunks enc -> connected s = true -> (length enc <= fuel)%nat ->
  0 < buff_size <= len buffer -> 0 <= remained <= len buffer -> remained < 2 ^ 64 ->
  delivers buff_size s frags s' ->
  take (Z.to_nat remained) buffer ++ concat frags = enc ++ tail ->
  no_split (take (Z.to_nat remained) buffer) -> Forall no_split frags ->
  exists st' frags', read_chunked_body fuel buff_size buffer remained body s =
      Some (true, body ++ concat chunks, len (piece st'), st') /\
    tail = piece st' ++ concat frags' /\ delivers buff_size (c_sock st') frags' s'.
Proof.
  intros Hch Hc Hfuel Hbs Hrem Hrem64 Hdel Estream Hn Hns. unfold read_chunked_body.
  set (st := mkChunkState s buffer remained 0 0 0 false body).
  assert (ready buff_size st s' (enc ++ tail)) as Hready.
  { exists frags. rewrite <- Estream. split; simpl; try done; try lia. }
  destruct (run_chunks (incoming := incoming) (outgoing := outgoing) buff_size chunks enc tail Hch
    st s' body fuel Hready eq_refl Hfuel) as (st' & E & [frags' H] & Eb).
  exists st', frags'. rewrite E. simpl. destruct H as [Eq Hp Hb Hs _ _ Hd _].
  split_and!; [|done|done]. rewrite Eb, length_piece by done. rewrite uint_small by lia. done.
Qed.

(** (C17) Reading a chunked body: when the bytes left in the buffer and the
    fragments read from the socket start with a well-formed chunked body without chunk
    extensions, and no fragment ends in a carriage return, [read_chunked_body] succeeds and
    appends exactly the data of the chunks to [body].  It stops behind the
    last size line: the trailer and the final CR LF of the body are left in front of what follows, partly in
    the last [remained] bytes of the buffer that it has read and partly unread.  Fuel for the length of the
    encoded body is enough. *)
Theorem chunked_body_decoded {σ : Type} `{!Transport σ} (incoming outgoing : σ -> list Z)
    `{!TransportLaws σ incoming outgoing} (buff_size remained : Z) (buffer body trailer enc tail : list Z)
    (chunks frags : list (list Z)) (s s' : σ) (fuel : nat) :
  chunked chunks trailer enc -> connected s = true -> (length enc <= fuel)%nat ->
  0 < buff_size <= len buffer -> 0 <= remained <= len buffer -> remained < 2 ^ 64 ->
  delivers buff_size s frags s' ->
  take (Z.to_nat remained) buffer ++ concat frags = enc ++ tail ->
  no_split (take (Z.to_nat remained) buffer) -> Forall no_split frags ->
  exists st' frags', read_chunked_body fuel buff_size buffer remained body s =
      Some (true, body ++ concat chunks, len (piece st'), st') /\
    trailer ++ crlf ++ tail = piece st' ++ concat frags' /\ delivers buff_size (c_sock st') frags' s'.
Proof.
  intros (lines & Hch & ->) Hc Hf Hb Hr Hr64 Hd E Hn Hns. rewrite <- !app_assoc in E. rewrite length_app in Hf.
  by eapply (read_chunked_body_spec incoming outgoing); [exact Hch|exact Hc|lia|..].
Qed.

(** The body "3 abc 0" in two reads, the second of which ends with the final CR LF. *)
Definition abc_network : Network := mkNetwork [[51;13;10;97];[98;99;13;10;48;13;10;13;10]] 1 [].

Lemma abc_lines : chunk_lines [[97;98;99]] [51;13;10;97;98;99;13;10;48;13;10].
Proof.
  apply (chunked_cons [51] [97;98;99] [] [48;13;10]); [done| |apply (chunked_end [48])];
    (split; [done|]; split; [simpl; lia|]).
  - exists [3%nat]. split; [constructor; [left; reflexivity|constructor]|reflexivity].
  - exists [0%nat]. split; [constructor; [left; reflexivity|constructor]|reflexivity].
Qed.

Lemma chunked_body_decoded_witness :
  exists st' frags',
    read_chunked_body 13 9 [0;0;0;0;0;0;0;0;0] 0 [] abc_network =
      Some (true, [97;98;99], len (piece st'), st') /\
    [13;10] = piece st' ++ concat frags' /\ delivers 9 (c_sock st') frags' (mkNetwork [[]] 1 []).
Proof.
  apply (chunked_body_decoded network_incoming n_sent 9 0 [0;0;0;0;0;0;0;0;0] [] []
    [51;13;10;97;98;99;13;10;48;13;10;13;10] [] [[97;98;99]] [[51;13;10;97];[98;99;13;10;48;13;10;13;10]]
    abc_network (mkNetwork [[]] 1 []) 13).
  - exists [51;13;10;97;98;99;13;10;48;13;10]. split; [exact abc_lines|reflexivity].
  - reflexivity.
  - simpl. lia.
  - simpl. lia.
  - simpl. lia.
  - lia.
  - eapply delivers_cons; [vm_compute; reflexivity|].
    eapply delivers_cons; [vm_compute; reflexivity|]. apply delivers_nil.
  - reflexivity.
  - done.
  - repeat constructor; done.
Defined.

(** When a read ends between the carriage return and the line feed of a
    size line, the line feed is taken for the first byte of the chunk: the body
    "3 abz 0" split there gives a line feed and "ab"; and when the last size line
    is split there, [remained] wraps around to the largest value. *)
Theorem split_line_end_corrupts :
  exists st, read_chunked_body 12 8 [0;0;0;0;0;0;0;0] 0 []
    (mkNetwork [[51;13];[10;97;98;122;13;10;48;13];[10;13;10]] 1 []) = Some (true, [10;97;98], 2 ^ 64 - 1, st).
Proof. eexists. vm_compute. reflexivity. Qed.
