(* ===== verification/Text.v ===== *)
(** * Strings

    Strings are lists of bytes.  What the components use of the C and C++
    libraries: literals, [c_str], [tolower], decimal numbers, searching. *)

From S2P Require Import Prelude.

(** A string literal of the source. *)
Definition str (s : string) : list Z :=
  (λ a, Z.of_N (Ascii.N_of_ascii a)) <$> String.list_ascii_of_string s.
Arguments str s%_string_scope.

(** The characters before the first NUL, which is all [c_str()] shows. *)
Fixpoint c_str (s : list Z) : list Z :=
  match s with
  | [] => []
  | c :: s => if c =? 0 then [] else c :: c_str s
  end.
Definition tolower (c : Z) : Z := if (65 <=? c) && (c <=? 90) then c + 32 else c.

(** [std::to_string] and [<<] of an unsigned integer. *)
Fixpoint decimal_loop (fuel : nat) (n : Z) (acc : list Z) : list Z :=
  match fuel with
  | O => acc
  | S fuel => let acc := (48 + n mod 10) :: acc in
              if n <? 10 then acc else decimal_loop fuel (n / 10) acc
  end.
Definition decimal (n : Z) : list Z := decimal_loop 20 n [].

(** [atoi]: white space, a sign, digits up to the first other character; [strtol],
    which stops at the bounds of a [long], cast to [int]. *)
Fixpoint atoi_digits (n : Z) (s : list Z) : Z :=
  match s with
  | d :: s => if (48 <=? d) && (d <=? 57) then atoi_digits (10 * n + (d - 48)) s else n
  | [] => n
  end.
Fixpoint skip_space (s : list Z) : list Z :=
  match s with
  | c :: s' => if (c =? 32) || ((9 <=? c) && (c <=? 13)) then skip_space s' else s
  | [] => []
  end.
Definition atoi (s : list Z) : Z :=
  let v := match skip_space s with
           | c :: s' => if c =? 45 then - atoi_digits 0 s'
                        else if c =? 43 then atoi_digits 0 s' else atoi_digits 0 (c :: s')
           | [] => 0
           end in
  i32 (Z.max (- 2 ^ 63) (Z.min (2 ^ 63 - 1) v)).

(** ** Decimal numbers *)

(** The number a string of digits denotes. *)
Definition decimal_value (ds : list Z) : Z := foldl (λ n d, 10 * n + (d - 48)) 0 ds.

Lemma foldl_decimal ds n :
  foldl (λ n d, 10 * n + (d - 48)) n ds = n * 10 ^ len ds + decimal_value ds.
Proof.
  unfold decimal_value. revert n. induction ds as [|d ds IH]; intros n; [simpl; lia|].
  cbn [foldl length]. rewrite IH, (IH (10 * 0 + (d - 48))).
  rewrite Nat2Z.inj_succ, Z.pow_succ_r by lia. lia.
Qed.

Lemma decimal_loop_value fuel n acc :
  0 <= n < 10 ^ Z.of_nat fuel ->
  decimal_value (decimal_loop fuel n acc) = n * 10 ^ len acc + decimal_value acc /\
  (Forall (λ d, 48 <= d <= 57) acc -> Forall (λ d, 48 <= d <= 57) (decimal_loop fuel n acc)).
Proof.
  revert n acc. induction fuel as [|fuel IH]; intros n acc Hn.
  { cbn [decimal_loop]. change (10 ^ Z.of_nat 0) with 1 in Hn. replace n with 0 by lia. split; [lia|done]. }
  cbn [decimal_loop]. rewrite Nat2Z.inj_succ, Z.pow_succ_r in Hn by lia.
  pose proof (Z.mod_pos_bound n 10 ltac:(lia)) as Hm. pose proof (Z.div_mod n 10 ltac:(lia)) as Hd.
  assert (decimal_value ((48 + n mod 10) :: acc) = n mod 10 * 10 ^ len acc + decimal_value acc) as Ec.
  { unfold decimal_value at 1. cbn [foldl]. rewrite foldl_decimal. f_equal. f_equal. lia. }
  destruct (Z.ltb_spec n 10) as [Hlt|Hge].
  - rewrite Ec. rewrite Z.mod_small by lia. split; [done|]. intros. constructor; [lia|done].
  - destruct (IH (n / 10) ((48 + n mod 10) :: acc)) as [E1 E2].
    { split; [apply Z.div_pos; lia|]. apply Z.div_lt_upper_bound; lia. }
    split; [|intros; apply E2; constructor; [lia|done]].
    rewrite E1, Ec. cbn [length]. rewrite Nat2Z.inj_succ, Z.pow_succ_r by lia. nia.
Qed.

Lemma decimal_correct n :
  0 <= n < 2 ^ 64 -> decimal_value (decimal n) = n /\ Forall (λ d, 48 <= d <= 57) (decimal n).
Proof.
  intros Hn. assert (0 <= n < 10 ^ Z.of_nat 20) as Hn'.
  { change (10 ^ Z.of_nat 20) with 100000000000000000000. lia. }
  destruct (decimal_loop_value 20 n [] Hn') as [E1 E2]. fold (decimal n) in E1, E2.
  split; [|apply E2; constructor]. rewrite E1. change (decimal_value []) with 0.
  change (10 ^ len []) with 1. lia.
Qed.

(** ** [c_str] *)

Lemma c_str_id s : Forall (λ c, c <> 0) s -> c_str s = s.
Proof. induction 1 as [|c s Hc _ IH]; [done|]. simpl. destruct (Z.eqb_spec c 0); [done|]. by rewrite IH. Qed.

Lemma c_str_app s t : Forall (λ c, c <> 0) s -> c_str (s ++ 0 :: t) = s.
Proof. induction 1 as [|c s Hc _ IH]; [done|]. simpl. destruct (Z.eqb_spec c 0); [done|]. by rewrite IH. Qed.

(** ** [atoi] *)

Lemma atoi_digits_app ds n x :
  Forall (λ d, 48 <= d <= 57) ds -> (forall d x', x = d :: x' -> ~ 48 <= d <= 57) ->
  atoi_digits n (ds ++ x) = foldl (λ n d, 10 * n + (d - 48)) n ds.
Proof.
  intros Hds Hx. revert n. induction Hds as [|d ds Hd _ IH]; intros n.
  - destruct x as [|d x]; [done|]. pose proof (Hx d x eq_refl). cbn.
    destruct (Z.leb_spec 48 d), (Z.leb_spec d 57); try done. lia.
  - cbn. rewrite (proj2 (Z.leb_le _ _)), (proj2 (Z.leb_le _ _)) by lia. apply IH.
Qed.

(** A number is read back up to what is no digit. *)
Lemma decimal_loop_nonempty fuel n acc : acc <> [] -> decimal_loop fuel n acc <> [].
Proof. revert n acc. induction fuel as [|fuel IH]; intros n acc Ha; cbn; [done|]. destruct (n <? 10); [done|]. by apply IH. Qed.
Lemma decimal_nonempty n : decimal n <> [].
Proof. unfold decimal. cbn [decimal_loop]. destruct (n <? 10); [done|]. by apply (decimal_loop_nonempty 19). Qed.
Lemma c_str_number n x : 0 <= n < 2 ^ 64 -> c_str (decimal n ++ x) = decimal n ++ c_str x.
Proof.
  intros Hn. destruct (decimal_correct n Hn) as [_ Hds]. induction Hds as [|d ds Hd _ IH]; [done|]. cbn.
  rewrite (proj2 (Z.eqb_neq d 0)) by lia. by rewrite IH.
Qed.

Lemma atoi_decimal n x :
  0 <= n < 2 ^ 31 -> (forall d x', x = d :: x' -> ~ 48 <= d <= 57) -> atoi (decimal n ++ x) = n.
Proof.
  intros Hn Hx. destruct (decimal_correct n ltac:(lia)) as [Hv Hds]. pose proof (decimal_nonempty n) as Hne. destruct (decimal n) as [|d ds]; [done|].
  assert (48 <= d <= 57) as Hd by (by inversion Hds). unfold atoi. cbn [app skip_space].
  rewrite (proj2 (Z.eqb_neq d 32)), (proj2 (Z.leb_gt d 13)), andb_false_r by lia. cbn [orb].
  rewrite (proj2 (Z.eqb_neq d 45)), (proj2 (Z.eqb_neq d 43)) by lia.
  change (d :: ds ++ x) with ((d :: ds) ++ x). rewrite (atoi_digits_app (d :: ds)) by done. fold (decimal_value (d :: ds)). rewrite Hv.
  rewrite Z.min_r, Z.max_r by lia. unfold sint. rewrite Z.mod_small by lia. by rewrite (proj2 (Z.ltb_lt _ _)) by (change (32 - 1) with 31; lia).
Qed.

(** ** Searching *)

(** [s.find(c, pos)] and [s.find_last_of(c)]; [None] is [npos]. *)
Fixpoint find_first (c : Z) (s : list Z) : option nat :=
  match s with
  | [] => None
  | x :: s => if x =? c then Some O else S <$> find_first c s
  end.
Definition find_from (c : Z) (pos : nat) (s : list Z) : option nat := (Nat.add pos) <$> find_first c (drop pos s).
Fixpoint find_last_of (c : Z) (s : list Z) : option nat :=
  match s with
  | [] => None
  | x :: s => match find_last_of c s with
              | Some i => Some (S i)
              | None => if x =? c then Some O else None
              end
  end.

Lemma find_first_app c s t : c ∉ s -> find_first c (s ++ c :: t) = Some (length s).
Proof.
  induction s as [|x s IH]; cbn; intros Hn; [by rewrite Z.eqb_refl|].
  apply not_elem_of_cons in Hn as [Hx Hn]. rewrite (proj2 (Z.eqb_neq x c)) by congruence. by rewrite IH.
Qed.

Lemma find_first_none c s : c ∉ s -> find_first c s = None.
Proof.
  induction s as [|x s IH]; cbn; intros Hn; [done|].
  apply not_elem_of_cons in Hn as [Hx Hn]. rewrite (proj2 (Z.eqb_neq x c)) by congruence. by rewrite IH.
Qed.

Lemma find_last_of_none c s : c ∉ s -> find_last_of c s = None.
Proof.
  induction s as [|x s IH]; cbn; intros Hn; [done|].
  apply not_elem_of_cons in Hn as [Hx Hn]. rewrite IH by done. by rewrite (proj2 (Z.eqb_neq x c)) by congruence.
Qed.

Lemma find_last_of_app c s t : c ∉ t -> find_last_of c (s ++ c :: t) = Some (length s).
Proof.
  intros Hn. induction s as [|x s IH]; cbn; [by rewrite find_last_of_none, Z.eqb_refl|]. by rewrite IH.
Qed.

Lemma find_first_bound c s i : find_first c s = Some i -> (i < length s)%nat.
Proof.
  revert i. induction s as [|x s IH]; cbn; intros i; [done|]. destruct (x =? c); [intros [= <-]; lia|].
  destruct (find_first c s) as [j|]; [|done]. cbn. intros [= <-]. specialize (IH j eq_refl). lia.
Qed.

Lemma find_from_bound c pos s i : find_from c pos s = Some i -> (pos <= i < length s)%nat.
Proof.
  unfold find_from. destruct (find_first c (drop pos s)) as [j|] eqn:E; [|done]. cbn. intros [= <-].
  apply find_first_bound in E. rewrite length_drop in E. lia.
Qed.
