(* ===== verification/Http.v ===== *)
(** * HTTP requests: src/sylar/http/http.{h,cpp} and src/sylar/type.h

    The tables, the method and status names and [HttpRequest].

    Strings are lists of bytes.  Header, parameter and cookie tables are
    [std::map]s ordered by [CaseInsensitiveLess]: association lists in that
    order, in which an entry keeps the spelling of the name it was first
    inserted under. *)

From stdpp Require Import sorting.
From S2P Require Import Prelude Text.

Definition CRLF : list Z := [13; 10].

(** ** [CaseInsensitiveLess] and the tables *)

(** [strcasecmp] compares the folded strings. *)
Definition fold_case (s : list Z) : list Z := tolower <$> c_str s.

Definition CaseInsensitiveLess (lhs rhs : list Z) : bool := lex_lt (fold_case lhs) (fold_case rhs).
Definition strcasecmp_eq (a b : list Z) : bool := bool_decide (fold_case a = fold_case b).

Abbreviation table := (list (list Z * list Z)).

Fixpoint table_find (k : list Z) (t : table) : option (list Z) :=
  match t with
  | [] => None
  | (k', v) :: t => if strcasecmp_eq k' k then Some v else table_find k t
  end.

(** [t[k] = v]. *)
Fixpoint table_set (k v : list Z) (t : table) : table :=
  match t with
  | [] => [(k, v)]
  | (k', v') :: t' =>
      if strcasecmp_eq k' k then (k', v) :: t'
      else if CaseInsensitiveLess k k' then (k, v) :: t
      else (k', v') :: table_set k v t'
  end.

Definition table_erase (k : list Z) (t : table) : table :=
  filter (λ kv, strcasecmp_eq kv.1 k = false) t.

(** The common body of [get_header], [get_param] and [get_cookie]. *)
Definition table_get (k : list Z) (t : table) : list Z := default [] (table_find k t).

(** ** Methods and status codes *)

Inductive HttpMethod :=
| DELETE | GET | HEAD | POST | PUT | CONNECT | OPTIONS | TRACE | COPY | LOCK | MKCOL | MOVE
| PROPFIND | PROPPATCH | SEARCH | UNLOCK | BIND | REBIND | UNBIND | ACL | REPORT | MKACTIVITY
| CHECKOUT | MERGE | MSEARCH | NOTIFY | SUBSCRIBE | UNSUBSCRIBE | PATCH | PURGE | MKCALENDAR
| LINK | UNLINK | SOURCE | HTTP_INVALID_METHOD.

#[global] Instance HttpMethod_eq_dec : EqDecision HttpMethod.
Proof. solve_decision. Defined.

Definition HTTP_METHOD_MAP : list (HttpMethod * list Z) :=
  [(DELETE, str "DELETE"); (GET, str "GET"); (HEAD, str "HEAD"); (POST, str "POST");
   (PUT, str "PUT"); (CONNECT, str "CONNECT"); (OPTIONS, str "OPTIONS"); (TRACE, str "TRACE");
   (COPY, str "COPY"); (LOCK, str "LOCK"); (MKCOL, str "MKCOL"); (MOVE, str "MOVE");
   (PROPFIND, str "PROPFIND"); (PROPPATCH, str "PROPPATCH"); (SEARCH, str "SEARCH");
   (UNLOCK, str "UNLOCK"); (BIND, str "BIND"); (REBIND, str "REBIND"); (UNBIND, str "UNBIND");
   (ACL, str "ACL"); (REPORT, str "REPORT"); (MKACTIVITY, str "MKACTIVITY");
   (CHECKOUT, str "CHECKOUT"); (MERGE, str "MERGE"); (MSEARCH, str "M-SEARCH");
   (NOTIFY, str "NOTIFY"); (SUBSCRIBE, str "SUBSCRIBE"); (UNSUBSCRIBE, str "UNSUBSCRIBE");
   (PATCH, str "PATCH"); (PURGE, str "PURGE"); (MKCALENDAR, str "MKCALENDAR");
   (LINK, str "LINK"); (UNLINK, str "UNLINK"); (SOURCE, str "SOURCE")].

(** A status is the integer of the enumeration: the parser casts any integer. *)
Definition HttpStatus := Z.

Definition HTTP_STATUS_MAP : list (HttpStatus * list Z) :=
  [(100, str "Continue"); (101, str "Switching Protocols"); (102, str "Processing");
   (200, str "OK"); (201, str "Created"); (202, str "Accepted");
   (203, str "Non-Authoritative Information"); (204, str "No Content");
   (205, str "Reset Content"); (206, str "Partial Content"); (207, str "Multi-Status");
   (208, str "Already Reported"); (226, str "IM Used"); (300, str "Multiple Choices");
   (301, str "Moved Permanently"); (302, str "Found"); (303, str "See Other");
   (304, str "Not Modified"); (305, str "Use Proxy"); (307, str "Temporary Redirect");
   (308, str "Permanent Redirect"); (400, str "Bad Request"); (401, str "Unauthorized");
   (402, str "Payment Required"); (403, str "Forbidden"); (404, str "Not Found");
   (405, str "Method Not Allowed"); (406, str "Not Acceptable");
   (407, str "Proxy Authentication Required"); (408, str "Request Timeout");
   (409, str "Conflict"); (410, str "Gone"); (411, str "Length Required");
   (412, str "Precondition Failed"); (413, str "Payload Too Large"); (414, str "URI Too Long");
   (415, str "Unsupported Media Type"); (416, str "Range Not Satisfiable");
   (417, str "Expectation Failed"); (421, str "Misdirected Request");
   (422, str "Unprocessable Entity"); (423, str "Locked"); (424, str "Failed Dependency");
   (426, str "Upgrade Required"); (428, str "Precondition Required");
   (429, str "Too Many Requests"); (431, str "Request Header Fields Too Large");
   (451, str "Unavailable For Legal Reasons"); (500, str "Internal Server Error");
   (501, str "Not Implemented"); (502, str "Bad Gateway"); (503, str "Service Unavailable");
   (504, str "Gateway Timeout"); (505, str "HTTP Version Not Supported");
   (506, str "Variant Also Negotiates"); (507, str "Insufficient Storage");
   (508, str "Loop Detected"); (510, str "Not Extended");
   (511, str "Network Authentication Required")].

(** The first entry whose second component is [v]: the chain of [if]s. *)
Definition string_to_http_method (m : list Z) : HttpMethod :=
  match find (λ e, bool_decide (e.2 = m)) HTTP_METHOD_MAP with
  | Some e => e.1
  | None => HTTP_INVALID_METHOD
  end.
(** The overload for C strings compares by [strcmp]. *)
Definition string_to_http_method_c (m : list Z) : HttpMethod := string_to_http_method (c_str m).

Definition http_method_to_string (m : HttpMethod) : list Z :=
  match find (λ e, bool_decide (e.1 = m)) HTTP_METHOD_MAP with
  | Some e => e.2
  | None => str "<unknown>"
  end.
Definition http_status_to_string (s : HttpStatus) : list Z :=
  match find (λ e, e.1 =? s) HTTP_STATUS_MAP with
  | Some e => e.2
  | None => str "<unknown>"
  end.

(** ** [HttpRequest] *)

Record HttpRequest := mkHttpRequest {
  auto_close_ : bool;
  is_websocket_ : bool;
  parse_flags_ : Z;
  method_ : HttpMethod;
  version_ : Z;
  path_ : list Z;
  query_ : list Z;
  fragment_ : list Z;
  body_ : list Z;
  headers_ : table;
  params_ : table;
  cookies_ : table;
}.

Definition with_auto_close (v : bool) (r : HttpRequest) : HttpRequest :=
  mkHttpRequest v (is_websocket_ r) (parse_flags_ r) (method_ r) (version_ r) (path_ r) (query_ r)
    (fragment_ r) (body_ r) (headers_ r) (params_ r) (cookies_ r).
Definition with_websocket (v : bool) (r : HttpRequest) : HttpRequest :=
  mkHttpRequest (auto_close_ r) v (parse_flags_ r) (method_ r) (version_ r) (path_ r) (query_ r)
    (fragment_ r) (body_ r) (headers_ r) (params_ r) (cookies_ r).
Definition set_method (v : HttpMethod) (r : HttpRequest) : HttpRequest :=
  mkHttpRequest (auto_close_ r) (is_websocket_ r) (parse_flags_ r) v (version_ r) (path_ r)
    (query_ r) (fragment_ r) (body_ r) (headers_ r) (params_ r) (cookies_ r).
Definition set_version (v : Z) (r : HttpRequest) : HttpRequest :=
  mkHttpRequest (auto_close_ r) (is_websocket_ r) (parse_flags_ r) (method_ r) v (path_ r)
    (query_ r) (fragment_ r) (body_ r) (headers_ r) (params_ r) (cookies_ r).
Definition set_path (v : list Z) (r : HttpRequest) : HttpRequest :=
  mkHttpRequest (auto_close_ r) (is_websocket_ r) (parse_flags_ r) (method_ r) (version_ r) v
    (query_ r) (fragment_ r) (body_ r) (headers_ r) (params_ r) (cookies_ r).
Definition set_query (v : list Z) (r : HttpRequest) : HttpRequest :=
  mkHttpRequest (auto_close_ r) (is_websocket_ r) (parse_flags_ r) (method_ r) (version_ r)
    (path_ r) v (fragment_ r) (body_ r) (headers_ r) (params_ r) (cookies_ r).
Definition set_fragment (v : list Z) (r : HttpRequest) : HttpRequest :=
  mkHttpRequest (auto_close_ r) (is_websocket_ r) (parse_flags_ r) (method_ r) (version_ r)
    (path_ r) (query_ r) v (body_ r) (headers_ r) (params_ r) (cookies_ r).
Definition with_body (v : list Z) (r : HttpRequest) : HttpRequest :=
  mkHttpRequest (auto_close_ r) (is_websocket_ r) (parse_flags_ r) (method_ r) (version_ r)
    (path_ r) (query_ r) (fragment_ r) v (headers_ r) (params_ r) (cookies_ r).
Definition set_headers (v : table) (r : HttpRequest) : HttpRequest :=
  mkHttpRequest (auto_close_ r) (is_websocket_ r) (parse_flags_ r) (method_ r) (version_ r)
    (path_ r) (query_ r) (fragment_ r) (body_ r) v (params_ r) (cookies_ r).
Definition set_params (v : table) (r : HttpRequest) : HttpRequest :=
  mkHttpRequest (auto_close_ r) (is_websocket_ r) (parse_flags_ r) (method_ r) (version_ r)
    (path_ r) (query_ r) (fragment_ r) (body_ r) (headers_ r) v (cookies_ r).
Definition set_cookies (v : table) (r : HttpRequest) : HttpRequest :=
  mkHttpRequest (auto_close_ r) (is_websocket_ r) (parse_flags_ r) (method_ r) (version_ r)
    (path_ r) (query_ r) (fragment_ r) (body_ r) (headers_ r) (params_ r) v.

Definition connection : list Z := str "connection".
Definition connection_value (close : bool) : list Z :=
  if close then str "close" else str "keep-alive".

(** [set_header] and [set_auto_close] call each other; [None] when [fuel] calls
    are not enough. *)
Fixpoint set_header_fuel (fuel : nat) (name value : list Z) (r : HttpRequest) : option HttpRequest :=
  match fuel with
  | O => None
  | S fuel =>
      r ← (if strcasecmp_eq name connection then
             set_auto_close_fuel fuel (strcasecmp_eq value (str "close")) r
           else Some r);
      Some (set_headers (table_set name value (headers_ r)) r)
  end
with set_auto_close_fuel (fuel : nat) (v : bool) (r : HttpRequest) : option HttpRequest :=
  match fuel with
  | O => None
  | S fuel =>
      if Bool.eqb (auto_close_ r) v then Some r
      else
        let r := with_auto_close v r in
        if is_websocket_ r then Some r
        else set_header_fuel fuel connection (connection_value (auto_close_ r)) r
  end.

(** Four nested calls are the most there can be ([set_header_total] below). *)
Definition set_header (name value : list Z) (r : HttpRequest) : HttpRequest :=
  default r (set_header_fuel 4 name value r).
Definition set_auto_close (v : bool) (r : HttpRequest) : HttpRequest :=
  default r (set_auto_close_fuel 4 v r).

Definition get_header (name : list Z) (r : HttpRequest) : list Z := table_get name (headers_ r).
Definition del_header (name : list Z) (r : HttpRequest) : HttpRequest :=
  set_headers (table_erase name (headers_ r)) r.
Definition get_param (name : list Z) (r : HttpRequest) : list Z := table_get name (params_ r).
Definition del_param (name : list Z) (r : HttpRequest) : HttpRequest :=
  set_params (table_erase name (params_ r)) r.
Definition set_param (name value : list Z) (r : HttpRequest) : HttpRequest :=
  set_params (table_set name value (params_ r)) r.
Definition get_cookie (name : list Z) (r : HttpRequest) : list Z := table_get name (cookies_ r).
Definition del_cookie (name : list Z) (r : HttpRequest) : HttpRequest :=
  set_cookies (table_erase name (cookies_ r)) r.
Definition set_cookie (name value : list Z) (r : HttpRequest) : HttpRequest :=
  set_cookies (table_set name value (cookies_ r)) r.

Definition init_headers (r : HttpRequest) : HttpRequest :=
  if is_websocket_ r then r else set_header connection (connection_value (auto_close_ r)) r.

Definition set_websocket (v : bool) (r : HttpRequest) : HttpRequest :=
  if Bool.eqb (is_websocket_ r) v then r
  else
    let r := with_websocket v r in
    if is_websocket_ r then del_header connection r
    else set_header connection (connection_value (auto_close_ r)) r.

Definition set_body (v : list Z) (r : HttpRequest) : HttpRequest :=
  with_body v (set_header (str "content-length") (decimal (len v)) r).

Definition HttpRequest_new (version : Z) (auto_close : bool) : HttpRequest :=
  init_headers (mkHttpRequest auto_close false 0 GET version (str "/") [] [] [] [] [] []).

(** [operator<<] *)
Definition header_lines (t : table) : list Z :=
  concat ((λ kv, kv.1 ++ str ": " ++ kv.2 ++ CRLF) <$> t).
Definition version_string (v : Z) : list Z :=
  str "HTTP/" ++ decimal (Z.shiftr v 4) ++ str "." ++ decimal (Z.land v 15).

Definition request_to_string (r : HttpRequest) : list Z :=
  http_method_to_string (method_ r) ++ str " " ++ path_ r ++
  (match query_ r with [] => [] | q => str "?" ++ q end) ++
  (match fragment_ r with [] => [] | f => str "#" ++ f end) ++
  str " " ++ version_string (version_ r) ++ CRLF ++
  header_lines (headers_ r) ++
  (match body_ r with [] => CRLF | b => CRLF ++ b end).

(** ** Facts on the tables *)

Lemma strcasecmp_eq_spec a b : strcasecmp_eq a b = true <-> fold_case a = fold_case b.
Proof. unfold strcasecmp_eq. apply bool_decide_eq_true. Qed.

Lemma strcasecmp_neq_spec a b : strcasecmp_eq a b = false <-> fold_case a <> fold_case b.
Proof. unfold strcasecmp_eq. apply bool_decide_eq_false. Qed.

(** The table as a finite map on folded names. *)
Definition table_abs (t : table) : gmap (list Z) (list Z) :=
  list_to_map ((λ kv, (fold_case kv.1, kv.2)) <$> t).

Lemma table_abs_cons k v t : table_abs ((k, v) :: t) = <[fold_case k := v]> (table_abs t).
Proof. done. Qed.

Lemma table_find_abs k t : table_find k t = table_abs t !! fold_case k.
Proof.
  induction t as [|[k' v] t IH]; [done|]. rewrite table_abs_cons. simpl.
  destruct (strcasecmp_eq k' k) eqn:E.
  - apply strcasecmp_eq_spec in E. by rewrite E, lookup_insert_eq.
  - apply strcasecmp_neq_spec in E. by rewrite lookup_insert_ne.
Qed.

Lemma table_set_abs k v t : table_abs (table_set k v t) = <[fold_case k := v]> (table_abs t).
Proof.
  induction t as [|[k' v'] t IH]; [done|]. simpl.
  destruct (strcasecmp_eq k' k) eqn:E; [|destruct (CaseInsensitiveLess k k')].
  - apply strcasecmp_eq_spec in E. rewrite !table_abs_cons, E, insert_insert.
    by rewrite decide_True.
  - done.
  - apply strcasecmp_neq_spec in E. rewrite !table_abs_cons, IH. by apply insert_insert_ne.
Qed.

Lemma table_erase_abs k t : table_abs (table_erase k t) = delete (fold_case k) (table_abs t).
Proof.
  induction t as [|[k' v'] t IH]; [symmetry; apply delete_empty|]. unfold table_erase in *.
  destruct (strcasecmp_eq k' k) eqn:E.
  - rewrite filter_cons_False by (simpl; congruence). apply strcasecmp_eq_spec in E.
    rewrite IH, table_abs_cons, E. by rewrite delete_insert_eq.
  - rewrite filter_cons_True by done. apply strcasecmp_neq_spec in E.
    by rewrite !table_abs_cons, IH, delete_insert_ne.
Qed.

Lemma table_find_set_eq k k' v t :
  fold_case k = fold_case k' -> table_find k (table_set k' v t) = Some v.
Proof. intros E. by rewrite table_find_abs, table_set_abs, E, lookup_insert_eq. Qed.

Lemma table_find_set_ne k k' v t :
  fold_case k <> fold_case k' -> table_find k (table_set k' v t) = table_find k t.
Proof. intros E. rewrite !table_find_abs, table_set_abs. by rewrite lookup_insert_ne. Qed.

(** The tables stay ordered, so that printing goes in the order of the names. *)
Definition table_ordered (t : table) : Prop :=
  StronglySorted (λ a b, CaseInsensitiveLess a b = true) t.*1.

Lemma table_set_names k v t x : x ∈ (table_set k v t).*1 -> x = k \/ x ∈ t.*1.
Proof.
  induction t as [|[k' v'] t IH]; simpl; [set_solver|].
  destruct (strcasecmp_eq k' k); [auto|]. destruct (CaseInsensitiveLess k k'); set_solver.
Qed.

Lemma table_set_ordered k v t : table_ordered t -> table_ordered (table_set k v t).
Proof.
  unfold table_ordered. induction t as [|[k' v'] t IH]; simpl; intros H; [repeat constructor|].
  apply StronglySorted_cons in H as [Hf Hs].
  destruct (strcasecmp_eq k' k) eqn:E; [by apply StronglySorted_cons|].
  apply strcasecmp_neq_spec in E. destruct (CaseInsensitiveLess k k') eqn:L; simpl.
  - apply StronglySorted_cons. split; [|by apply StronglySorted_cons]. constructor; [done|].
    eapply Forall_impl; [exact Hf|]. intros x Hx. by eapply lex_lt_trans.
  - apply StronglySorted_cons. split; [|auto]. apply Forall_forall. intros x [->|Hx]%table_set_names.
    + apply lex_lt_total; [congruence|done].
    + rewrite Forall_forall in Hf. auto.
Qed.

Lemma table_erase_ordered k t : table_ordered t -> table_ordered (table_erase k t).
Proof.
  unfold table_ordered, table_erase. induction t as [|[k' v'] t IH]; intros H; [done|].
  apply StronglySorted_cons in H as [Hf Hs]. destruct (strcasecmp_eq k' k) eqn:E.
  - rewrite filter_cons_False by (simpl; congruence). auto.
  - rewrite filter_cons_True by done. apply StronglySorted_cons. split; [|auto].
    rewrite Forall_forall in Hf |- *. intros x Hx. apply Hf.
    apply list_elem_of_fmap in Hx as (kv & -> & Hkv). apply list_elem_of_filter in Hkv as [_ Hkv].
    by apply list_elem_of_fmap_2.
Qed.

Lemma table_names_NoDup t : table_ordered t -> NoDup ((λ kv, fold_case kv.1) <$> t).
Proof.
  unfold table_ordered. induction t as [|[k v] t IH]; intros H; [constructor|]. apply StronglySorted_cons in H as [Hf Hs]. constructor; [|auto].
  rewrite Forall_forall in Hf. intros ([k' v'] & Ek & Hin)%list_elem_of_fmap. cbn [fst] in Ek.
  specialize (Hf k' (list_elem_of_fmap_2 fst _ _ Hin)). unfold CaseInsensitiveLess in Hf. cbn [fst] in Hf. rewrite Ek in Hf. by rewrite lex_lt_irrefl in Hf.
Qed.

(** ** Requests *)

Lemma connection_value_close b : strcasecmp_eq (connection_value b) (str "close") = b.
Proof. by destruct b. Qed.

(** What [set_auto_close] leaves, in closed form. *)
Definition auto_close_result (v : bool) (r : HttpRequest) : HttpRequest :=
  if Bool.eqb (auto_close_ r) v then r
  else if is_websocket_ r then with_auto_close v r
  else set_headers (table_set connection (connection_value v) (headers_ r)) (with_auto_close v r).
Definition set_header_result (name value : list Z) (r : HttpRequest) : HttpRequest :=
  let r := if strcasecmp_eq name connection
           then auto_close_result (strcasecmp_eq value (str "close")) r else r in
  set_headers (table_set name value (headers_ r)) r.

Lemma set_auto_close_fuel_total fuel v r :
  (3 <= fuel)%nat -> set_auto_close_fuel fuel v r = Some (auto_close_result v r).
Proof.
  intros Hf. destruct fuel as [|[|[|fuel]]]; try lia. clear Hf.
  unfold auto_close_result. cbn [set_auto_close_fuel]. destruct (Bool.eqb (auto_close_ r) v); [done|].
  cbn [with_auto_close is_websocket_ auto_close_]. destruct (is_websocket_ r); [done|].
  cbn [set_header_fuel]. rewrite (proj2 (strcasecmp_eq_spec connection connection) eq_refl).
  rewrite connection_value_close. cbn [set_auto_close_fuel with_auto_close auto_close_].
  by rewrite Bool.eqb_reflx.
Qed.

(** The mutual recursion stops: four calls are always enough. *)
Lemma set_header_total fuel name value r :
  (4 <= fuel)%nat -> set_header_fuel fuel name value r = Some (set_header_result name value r).
Proof.
  intros Hf. destruct fuel as [|fuel]; [lia|]. unfold set_header_result. cbn [set_header_fuel].
  destruct (strcasecmp_eq name connection); [|done].
  by rewrite set_auto_close_fuel_total by lia.
Qed.

Lemma set_header_eq name value r : set_header name value r = set_header_result name value r.
Proof. unfold set_header. by rewrite set_header_total. Qed.
Lemma set_auto_close_eq v r : set_auto_close v r = auto_close_result v r.
Proof. unfold set_auto_close. by rewrite set_auto_close_fuel_total by lia. Qed.

Lemma auto_close_result_flag v r :
  auto_close_ (auto_close_result v r) = v /\ is_websocket_ (auto_close_result v r) = is_websocket_ r.
Proof.
  unfold auto_close_result. destruct (Bool.eqb (auto_close_ r) v) eqn:E.
  - by apply Bool.eqb_prop in E.
  - destruct (is_websocket_ r) eqn:Ew; cbn; by rewrite ?Ew.
Qed.

(** Setting the connection header moves the flag with it; another header leaves
    it alone. *)
Lemma set_header_flags name value r :
  auto_close_ (set_header name value r) =
    (if strcasecmp_eq name connection then strcasecmp_eq value (str "close") else auto_close_ r) /\
  is_websocket_ (set_header name value r) = is_websocket_ r.
Proof.
  rewrite set_header_eq. unfold set_header_result.
  destruct (strcasecmp_eq name connection); [|done]. cbn. apply auto_close_result_flag.
Qed.

Lemma set_header_find name name' value r :
  table_find name' (headers_ (set_header name value r)) =
    if strcasecmp_eq name name' then Some value else table_find name' (headers_ r).
Proof.
  rewrite set_header_eq. unfold set_header_result. cbn [set_headers headers_].
  destruct (strcasecmp_eq name name') eqn:E.
  - apply table_find_set_eq. symmetry. by apply strcasecmp_eq_spec.
  - apply strcasecmp_neq_spec in E. rewrite table_find_set_ne by congruence.
    destruct (strcasecmp_eq name connection) eqn:Ec; [|done]. apply strcasecmp_eq_spec in Ec.
    unfold auto_close_result. destruct (Bool.eqb _ _); [done|]. destruct (is_websocket_ r); [done|].
    cbn [set_headers headers_ with_auto_close]. apply table_find_set_ne. congruence.
Qed.

(** The connection header, while there is one, says what the flag says. *)
Definition conn_ok (r : HttpRequest) : Prop :=
  is_websocket_ r = false -> forall v, table_find connection (headers_ r) = Some v ->
  strcasecmp_eq v (str "close") = auto_close_ r.

Lemma set_header_conn name value r : conn_ok r -> conn_ok (set_header name value r).
Proof.
  intros H Hw v. destruct (set_header_flags name value r) as [-> Ew]. rewrite Ew in Hw.
  rewrite set_header_find. destruct (strcasecmp_eq name connection); [by intros [= ->]|auto].
Qed.

Lemma set_auto_close_conn v r : conn_ok r -> conn_ok (set_auto_close v r).
Proof.
  intros H Hw w. rewrite set_auto_close_eq in *. destruct (auto_close_result_flag v r) as [-> Ew].
  rewrite Ew in Hw. unfold auto_close_result. destruct (Bool.eqb _ _) eqn:E.
  - apply Bool.eqb_prop in E as <-. by apply H.
  - rewrite Hw. cbn. rewrite table_find_set_eq by done. intros [= <-]. apply connection_value_close.
Qed.

Lemma set_websocket_conn v r : conn_ok r -> conn_ok (set_websocket v r).
Proof.
  intros H. unfold set_websocket. destruct (Bool.eqb (is_websocket_ r) v); [done|].
  destruct v; cbn [with_websocket is_websocket_]; [intros Hw; done|].
  intros _ w. rewrite set_header_find. destruct (set_header_flags connection
    (connection_value (auto_close_ (with_websocket false r))) (with_websocket false r)) as [-> _].
  rewrite (proj2 (strcasecmp_eq_spec connection connection) eq_refl). by intros [= <-].
Qed.

Lemma del_header_conn name r : conn_ok r -> conn_ok (del_header name r).
Proof.
  intros H Hw v. cbn. rewrite table_find_abs, table_erase_abs, lookup_delete_Some.
  intros [_ Hv]. apply H; [done|]. by rewrite table_find_abs.
Qed.

(** ** Runs of the setters *)

Inductive request_step : HttpRequest -> HttpRequest -> Prop :=
| ReqAutoClose v r : request_step r (set_auto_close v r)
| ReqWebsocket v r : request_step r (set_websocket v r)
| ReqMethod v r : request_step r (set_method v r)
| ReqVersion v r : request_step r (set_version v r)
| ReqPath v r : request_step r (set_path v r)
| ReqQuery v r : request_step r (set_query v r)
| ReqFragment v r : request_step r (set_fragment v r)
| ReqBody v r : request_step r (set_body v r)
| ReqSetHeader n v r : request_step r (set_header n v r)
| ReqDelHeader n r : request_step r (del_header n r)
| ReqSetParam n v r : request_step r (set_param n v r)
| ReqDelParam n r : request_step r (del_param n r)
| ReqSetCookie n v r : request_step r (set_cookie n v r)
| ReqDelCookie n r : request_step r (del_cookie n r)
| ReqParams t r : request_step r (set_params t r)
| ReqCookies t r : request_step r (set_cookies t r)
| ReqInit r : request_step r (init_headers r).

(** The runs of a request's setters.  [set_headers] replaces the table behind the flag, so the header and the flag may disagree behind
    it ([false]), until the connection header is set again. *)
Inductive request_run (version : Z) (auto_close : bool) : bool -> HttpRequest -> Prop :=
| RunNew : request_run version auto_close true (HttpRequest_new version auto_close)
| RunStep b r r' : request_run version auto_close b r -> request_step r r' -> request_run version auto_close b r'
| RunSetHeaders b t r : request_run version auto_close b r -> request_run version auto_close false (set_headers t r)
| RunSetConnection b n v r : request_run version auto_close b r -> strcasecmp_eq n connection = true ->
    request_run version auto_close true (set_header n v r)
| RunInit b r : request_run version auto_close b r -> is_websocket_ r = false -> request_run version auto_close true (init_headers r).

Lemma init_headers_conn r : conn_ok r -> conn_ok (init_headers r).
Proof. intros H. unfold init_headers. destruct (is_websocket_ r); [done|]. by apply set_header_conn. Qed.

Lemma request_step_conn r r' : request_step r r' -> conn_ok r -> conn_ok r'.
Proof.
  destruct 1; auto using set_auto_close_conn, set_websocket_conn, set_header_conn, del_header_conn,
    init_headers_conn.
  apply set_header_conn.
Qed.

Lemma set_connection_conn name value r : strcasecmp_eq name connection = true -> conn_ok (set_header name value r).
Proof.
  intros E Hw v. destruct (set_header_flags name value r) as [-> _]. rewrite set_header_find, E. by intros [= ->].
Qed.

Lemma request_run_conn version auto_close b r : request_run version auto_close b r -> b = true -> conn_ok r.
Proof.
  induction 1 as [|b r r' _ IH Hs|b t r _ _|b n v r _ _ E|b r _ _ Hw]; intros Hb.
  - by apply init_headers_conn.
  - eapply request_step_conn; eauto.
  - done.
  - by apply set_connection_conn.
  - unfold init_headers. rewrite Hw. apply set_connection_conn. by apply strcasecmp_eq_spec.
Qed.

(** ** Claims *)

(** Method names and methods correspond one to one: printing a method and
    reading the name gives the method back, and a string that is read as a
    method is the name of that method.  The overload for C strings agrees. *)
Theorem http_methods_roundtrip (m : HttpMethod) (s : list Z) :
  (m <> HTTP_INVALID_METHOD -> string_to_http_method (http_method_to_string m) = m /\
     string_to_http_method_c (http_method_to_string m) = m) /\
  (string_to_http_method s <> HTTP_INVALID_METHOD ->
     http_method_to_string (string_to_http_method s) = s).
Proof.
  split; [by destruct m|]. unfold string_to_http_method.
  destruct (find _ HTTP_METHOD_MAP) as [[m' s']|] eqn:E; [|done]. intros _.
  apply find_some in E as [Hin E]. apply bool_decide_eq_true in E. simpl in E. subst s'. simpl.
  repeat destruct Hin as [[= <- <-]|Hin]; done.
Qed.

(** Updates of a table. *)
Inductive table_op := TSet (k v : list Z) | TErase (k : list Z).
Definition table_apply (o : table_op) (t : table) : table :=
  match o with TSet k v => table_set k v t | TErase k => table_erase k t end.
Definition map_apply (o : table_op) (m : gmap (list Z) (list Z)) : gmap (list Z) (list Z) :=
  match o with TSet k v => <[fold_case k := v]> m | TErase k => delete (fold_case k) m end.

(** Header, parameter and cookie tables are finite maps on names up to
    case: after any updates a lookup, under any spelling of the name, answers
    like the map, and the entries are strictly ordered by
    [CaseInsensitiveLess], so no name occurs twice. *)
Theorem header_tables_are_maps (ops : list table_op) (k : list Z) :
  let t := foldr table_apply [] ops in
  let m := foldr map_apply ∅ ops in
  table_find k t = m !! fold_case k /\ table_ordered t.
Proof.
  intros t m. assert (table_abs t = m /\ table_ordered t) as [Ea Ho].
  - subst t m. induction ops as [|o ops [IHa IHo]]; [split; [done|constructor]|].
    destruct o as [k' v'|k']; simpl; rewrite <- IHa.
    + split; [apply table_set_abs|by apply table_set_ordered].
    + split; [apply table_erase_abs|by apply table_erase_ordered].
  - by rewrite table_find_abs, Ea.
Qed.

(** (C34) On a request that is not a WebSocket's, the connection header, while there is one, says "close"
    exactly when the request is marked to be closed, whatever setters have been called; when
    [set_headers] has replaced the whole table, only once the connection header has been set since, with
    [set_header] or [init_headers].  And every call of [set_header] returns although it and [set_auto_close]
    call each other. *)
Theorem connection_header_in_sync (version : Z) (auto_close : bool) (r : HttpRequest) (v : list Z) :
  request_run version auto_close true r -> is_websocket_ r = false ->
  table_find connection (headers_ r) = Some v ->
  strcasecmp_eq v (str "close") = auto_close_ r /\
  forall fuel name value, (4 <= fuel)%nat ->
    set_header_fuel fuel name value r = Some (set_header name value r).
Proof.
  intros Hr Hw Hv. split; [by apply (request_run_conn _ _ _ _ Hr)|].
  intros fuel name value Hf. rewrite set_header_eq. by apply set_header_total.
Qed.

(** A table with a connection header of its own, and a call that sets the header again. *)
Lemma connection_header_in_sync_witness :
  let r := set_header (str "Connection") (str "Keep-Alive")
    (set_headers [(str "connection", str "close")] (HttpRequest_new 17 true)) in
  table_find connection (headers_ r) = Some (str "Keep-Alive") /\ auto_close_ r = false.
Proof.
  split; [vm_compute; reflexivity|]. symmetry.
  apply (connection_header_in_sync 17 true
    (set_header (str "Connection") (str "Keep-Alive") (set_headers [(str "connection", str "close")] (HttpRequest_new 17 true)))
    (str "Keep-Alive")).
  - eapply RunSetConnection; [eapply RunSetHeaders, RunNew|vm_compute; reflexivity].
  - vm_compute. reflexivity.
  - vm_compute. reflexivity.
Defined.

(** [set_headers] alone leaves the flag as it was: the header says "close" and the request is not marked. *)
Example set_headers_out_of_sync :
  let r := set_headers [(str "connection", str "close")] (HttpRequest_new 17 false) in
  table_find connection (headers_ r) = Some (str "close") /\ auto_close_ r = false.
Proof. by vm_compute. Qed.

