(* ===== verification/HttpResponse.v ===== *)
(** * HTTP responses: [HttpResponse] of src/sylar/http/http.{h,cpp}

    The operations carry the names they have in the class; those of
    [HttpRequest] are in Http.v. *)

From S2P Require Import Prelude Text Http.

Record HttpResponse := mkHttpResponse {
  close_ : bool;
  is_websocket_ : bool;
  version_ : Z;
  status_ : HttpStatus;
  reason_ : list Z;
  body_ : list Z;
  headers_ : table;
  cookies_ : list (list Z);
}.

Definition with_close (v : bool) (r : HttpResponse) : HttpResponse :=
  mkHttpResponse v (is_websocket_ r) (version_ r) (status_ r) (reason_ r) (body_ r) (headers_ r) (cookies_ r).
Definition with_websocket (v : bool) (r : HttpResponse) : HttpResponse :=
  mkHttpResponse (close_ r) v (version_ r) (status_ r) (reason_ r) (body_ r) (headers_ r) (cookies_ r).
Definition set_version (v : Z) (r : HttpResponse) : HttpResponse :=
  mkHttpResponse (close_ r) (is_websocket_ r) v (status_ r) (reason_ r) (body_ r) (headers_ r) (cookies_ r).
Definition set_status (v : HttpStatus) (r : HttpResponse) : HttpResponse :=
  mkHttpResponse (close_ r) (is_websocket_ r) (version_ r) v (reason_ r) (body_ r) (headers_ r) (cookies_ r).
Definition set_reason (v : list Z) (r : HttpResponse) : HttpResponse :=
  mkHttpResponse (close_ r) (is_websocket_ r) (version_ r) (status_ r) v (body_ r) (headers_ r) (cookies_ r).
Definition with_body (v : list Z) (r : HttpResponse) : HttpResponse :=
  mkHttpResponse (close_ r) (is_websocket_ r) (version_ r) (status_ r) (reason_ r) v (headers_ r) (cookies_ r).
Definition set_headers (v : table) (r : HttpResponse) : HttpResponse :=
  mkHttpResponse (close_ r) (is_websocket_ r) (version_ r) (status_ r) (reason_ r) (body_ r) v (cookies_ r).

Definition get_header (name : list Z) (r : HttpResponse) : list Z := table_get name (headers_ r).
Definition del_header (name : list Z) (r : HttpResponse) : HttpResponse :=
  set_headers (table_erase name (headers_ r)) r.
Definition set_header (name value : list Z) (r : HttpResponse) : HttpResponse :=
  set_headers (table_set name value (headers_ r)) r.

Definition init_headers (r : HttpResponse) : HttpResponse :=
  if is_websocket_ r then r else set_header connection (connection_value (close_ r)) r.

Definition set_close (v : bool) (r : HttpResponse) : HttpResponse :=
  if Bool.eqb (close_ r) v then r
  else
    let r := with_close v r in
    if is_websocket_ r then r else set_header connection (connection_value (close_ r)) r.

Definition set_websocket (v : bool) (r : HttpResponse) : HttpResponse :=
  if Bool.eqb (is_websocket_ r) v then r
  else
    let r := with_websocket v r in
    if is_websocket_ r then del_header connection r
    else set_header connection (connection_value (close_ r)) r.

Definition set_body (v : list Z) (r : HttpResponse) : HttpResponse :=
  with_body v (set_header (str "content-length") (decimal (len v)) r).

Definition HttpResponse_new (version : Z) (close : bool) : HttpResponse :=
  init_headers (mkHttpResponse close false version 200 [] [] [] []).

Definition response_to_string (r : HttpResponse) : list Z :=
  version_string (version_ r) ++ str " " ++ decimal (u32 (status_ r)) ++ str " " ++
  http_status_to_string (status_ r) ++ CRLF ++
  header_lines (headers_ r) ++
  concat ((λ c, str "Set-Cookie: " ++ c ++ CRLF) <$> cookies_ r) ++
  (match body_ r with [] => CRLF | b => CRLF ++ b end).

(** [set_body] frames the body: the content-length header is the number of
    its bytes in decimal, and the message that is sent ends with the empty line
    and exactly those bytes; for requests and responses. *)
Theorem set_body_frames (req : HttpRequest) (rsp : HttpResponse) (b : list Z) :
  len b < 2 ^ 64 -> b <> [] ->
  (exists d head, table_find (str "Content-Length") (Http.headers_ (Http.set_body b req)) = Some d /\
     decimal_value d = len b /\ Forall (λ c, 48 <= c <= 57) d /\
     request_to_string (Http.set_body b req) = head ++ CRLF ++ b) /\
  (exists d head, table_find (str "Content-Length") (headers_ (set_body b rsp)) = Some d /\
     decimal_value d = len b /\ Forall (λ c, 48 <= c <= 57) d /\
     response_to_string (set_body b rsp) = head ++ CRLF ++ b).
Proof.
  intros Hb Hne. destruct (decimal_correct (len b) ltac:(lia)) as [Ed Hd].
  split; exists (decimal (len b)); eexists; split_and!; try done.
  - unfold Http.set_body. change (Http.headers_ (Http.with_body b ?r)) with (Http.headers_ r). by rewrite set_header_find.
  - unfold request_to_string, Http.set_body. cbn [Http.body_ Http.with_body].
    destruct b as [|c b]; [done|]. rewrite !app_assoc. reflexivity.
  - unfold set_body. cbn [headers_ with_body set_header set_headers].
    by apply table_find_set_eq.
  - unfold response_to_string, set_body. cbn [body_ with_body].
    destruct b as [|c b]; [done|]. rewrite !app_assoc. reflexivity.
Qed.
