(* ===== verification/Servlet.v ===== *)
(** * Servlets: src/sylar/http/http_servlet.{h,cpp}

    A servlet is an object with [handle_request]; what a servlet of the program
    does is a function of the request, the response it fills in and the
    session, so the type of servlets is that of such functions.  [fnmatch] is a
    parameter: which urls a pattern matches. *)

From S2P Require Import Prelude Text Http HttpResponse.

Section servlets.
Context {session : Type} (fnmatch : list Z -> list Z -> bool).

(** [handle_request]: the result, and what it made of its arguments. *)
Definition servlet : Type :=
  HttpRequest * HttpResponse * session -> bool * (HttpRequest * HttpResponse * session).

(** [FunctionHttpServlet]: the constructor refuses an empty function. *)
Definition FunctionHttpServlet (cb : option servlet) : outcome servlet :=
  match cb with Some cb => Ret cb | None => Throw InvalidArgument end.

Definition not_found_page : list Z :=
  str "<html><head><title>404 Not Found</title></head>" ++
  str "<body><center><h1>404 Not Found</h1></center>" ++
  str "<hr><center>sylar http server</center></body></html>".

Definition NotFoundServlet : servlet := λ '(req, rsp, s),
  let rsp := set_status 404 rsp in
  let rsp := set_header (str "Server") (str "sylar/1.0.0") rsp in
  let rsp := set_header (str "Content-Type") (str "text/html") rsp in
  let rsp := set_body not_found_page rsp in
  (true, (req, rsp, s)).

(** Servlet pointers may be null. *)
Record ServletDispatch := mkServletDispatch {
  default_servlet_ : option servlet;
  exact_matchs_ : gmap (list Z) (option servlet);
  fuzzy_matchs_ : list (list Z * option servlet);
}.

Definition ServletDispatch_new : ServletDispatch := mkServletDispatch (Some NotFoundServlet) ∅ [].

Definition get_default_servlet (d : ServletDispatch) : option servlet := default_servlet_ d.
Definition set_default_servlet (v : option servlet) (d : ServletDispatch) : ServletDispatch :=
  mkServletDispatch v (exact_matchs_ d) (fuzzy_matchs_ d).

Definition get_exact_servlet (url : list Z) (d : ServletDispatch) : option servlet :=
  match exact_matchs_ d !! url with Some s => s | None => None end.

Fixpoint first_match (url : list Z) (l : list (list Z * option servlet)) : option servlet :=
  match l with
  | [] => None
  | (p, s) :: l => if fnmatch p url then s else first_match url l
  end.
Definition get_fuzzy_servlet (url : list Z) (d : ServletDispatch) : option servlet :=
  first_match url (fuzzy_matchs_ d).

Definition get_servlet (url : list Z) (d : ServletDispatch) : option servlet :=
  match get_exact_servlet url d with
  | Some s => Some s
  | None => get_fuzzy_servlet url d
  end.

Definition add_exact_servlet (url : list Z) (s : option servlet) (d : ServletDispatch)
    : ServletDispatch :=
  mkServletDispatch (default_servlet_ d) (<[url := s]> (exact_matchs_ d)) (fuzzy_matchs_ d).
Definition add_exact_function (url : list Z) (cb : option servlet) (d : ServletDispatch)
    : outcome ServletDispatch :=
  match FunctionHttpServlet cb with
  | Ret s => Ret (add_exact_servlet url (Some s) d)
  | Throw e => Throw e
  | Fault f => Fault f
  end.

(** The loop of [add_fuzzy_servlet], and the [emplace_back] behind it. *)
Fixpoint replace_or_append (url : list Z) (s : option servlet)
    (l : list (list Z * option servlet)) : list (list Z * option servlet) :=
  match l with
  | [] => [(url, s)]
  | (p, s') :: l => if bool_decide (p = url) then (p, s) :: l
                    else (p, s') :: replace_or_append url s l
  end.
Definition add_fuzzy_servlet (url : list Z) (s : option servlet) (d : ServletDispatch)
    : ServletDispatch :=
  mkServletDispatch (default_servlet_ d) (exact_matchs_ d)
    (replace_or_append url s (fuzzy_matchs_ d)).
Definition add_fuzzy_function (url : list Z) (cb : option servlet) (d : ServletDispatch)
    : outcome ServletDispatch :=
  match FunctionHttpServlet cb with
  | Ret s => Ret (add_fuzzy_servlet url (Some s) d)
  | Throw e => Throw e
  | Fault f => Fault f
  end.

Definition del_exact_servlet (url : list Z) (d : ServletDispatch) : bool * ServletDispatch :=
  match exact_matchs_ d !! url with
  | None => (false, d)
  | Some _ => (true, mkServletDispatch (default_servlet_ d) (delete url (exact_matchs_ d)) (fuzzy_matchs_ d))
  end.

Fixpoint erase_first (url : list Z) (l : list (list Z * option servlet))
    : option (list (list Z * option servlet)) :=
  match l with
  | [] => None
  | (p, s) :: l => if bool_decide (p = url) then Some l
                   else l' ← erase_first url l; Some ((p, s) :: l')
  end.
Definition del_fuzzy_servlet (url : list Z) (d : ServletDispatch) : bool * ServletDispatch :=
  match erase_first url (fuzzy_matchs_ d) with
  | None => (false, d)
  | Some l => (true, mkServletDispatch (default_servlet_ d) (exact_matchs_ d) l)
  end.

(** [ServletDispatch::handle_request] *)
Definition dispatch_request (d : ServletDispatch) : servlet := λ '(req, rsp, s),
  let matched_servlet := match get_servlet (path_ req) d with
                         | Some m => Some m
                         | None => get_default_servlet d
                         end in
  match matched_servlet with
  | Some m => m (req, rsp, s)
  | None => (false, (req, rsp, s))
  end.

(** ** Registrations *)

Inductive dispatch_op :=
| AddExact (url : list Z) (s : option servlet) | AddFuzzy (url : list Z) (s : option servlet)
| DelExact (url : list Z) | DelFuzzy (url : list Z) | SetDefault (s : option servlet).

Definition dispatch_step (d : ServletDispatch) (o : dispatch_op) : ServletDispatch :=
  match o with
  | AddExact url s => add_exact_servlet url s d
  | AddFuzzy url s => add_fuzzy_servlet url s d
  | DelExact url => (del_exact_servlet url d).2
  | DelFuzzy url => (del_fuzzy_servlet url d).2
  | SetDefault s => set_default_servlet s d
  end.
Definition dispatch_after (ops : list dispatch_op) : ServletDispatch :=
  foldl dispatch_step ServletDispatch_new ops.

Lemma replace_or_append_names url s l :
  (replace_or_append url s l).*1 = if decide (url ∈ l.*1) then l.*1 else l.*1 ++ [url].
Proof.
  induction l as [|[p s'] l IH].
  - case_decide as H; [by apply elem_of_nil in H|done].
  - cbn [replace_or_append]. case_bool_decide as Hp.
    + subst p. clear IH. case_decide as Hn; [done|]. destruct Hn. by left.
    + rewrite !fmap_cons, IH. cbn [fst]. case_decide as H1; case_decide as H2; try done.
      * destruct H2. by right.
      * apply elem_of_cons in H2 as [->|?]; done.
Qed.

Lemma erase_first_spec url l l' :
  erase_first url l = Some l' -> exists s pre post, l = pre ++ (url, s) :: post /\ l' = pre ++ post /\
    url ∉ pre.*1.
Proof.
  revert l'. induction l as [|[p s] l IH]; intros l'; simpl; [done|].
  case_bool_decide as Hp.
  - intros [= <-]. subst p. exists s, [], l. split_and!; [done|done|apply not_elem_of_nil].
  - destruct (erase_first url l) as [l1|]; [|done]. simpl. intros [= <-].
    destruct (IH l1 eq_refl) as (s' & pre & post & -> & -> & Hn).
    exists s', ((p, s) :: pre), post. split_and!; [done|done|]. simpl. rewrite elem_of_cons. naive_solver.
Qed.

Lemma dispatch_step_nodup d o :
  NoDup (fuzzy_matchs_ d).*1 -> NoDup (fuzzy_matchs_ (dispatch_step d o)).*1.
Proof.
  intros H. destruct o as [url s|url s|url|url|s]; try done; cbn [dispatch_step].
  - cbn [add_fuzzy_servlet fuzzy_matchs_]. rewrite replace_or_append_names. case_decide; [done|].
    apply NoDup_app. split_and!; [done| |apply NoDup_singleton].
    intros x Hx ->%list_elem_of_singleton. done.
  - unfold del_exact_servlet. by destruct (exact_matchs_ d !! url).
  - unfold del_fuzzy_servlet. destruct (erase_first _ _) as [l|] eqn:E; [|done]. simpl.
    apply erase_first_spec in E as (s & pre & post & E & -> & _). rewrite E in H.
    rewrite !fmap_app, fmap_cons in *. apply NoDup_app in H as (H1 & H2 & H3).
    apply NoDup_cons in H3 as [_ H3]. apply NoDup_app. split_and!; [done| |done].
    intros x Hx Hx'. apply (H2 x Hx). by right.
Qed.

Lemma dispatch_nodup ops : NoDup (fuzzy_matchs_ (dispatch_after ops)).*1.
Proof.
  unfold dispatch_after. assert (NoDup (fuzzy_matchs_ ServletDispatch_new).*1) as H by constructor.
  revert H. generalize ServletDispatch_new. induction ops as [|o ops IH]; intros d H; simpl; [done|].
  by apply IH, dispatch_step_nodup.
Qed.

(** Adding a pattern sets its servlet and no other's. *)
Lemma replace_or_append_entries url s l q m :
  NoDup l.*1 -> (q, m) ∈ replace_or_append url s l <-> (q = url /\ m = s) \/ (q <> url /\ (q, m) ∈ l).
Proof.
  induction l as [|[p s'] l IH]; intros Hnd; cbn [replace_or_append].
  - rewrite list_elem_of_singleton, elem_of_nil. naive_solver.
  - rewrite fmap_cons in Hnd. apply NoDup_cons in Hnd as [Hp Hnd]. cbn in Hp. case_bool_decide as E.
    + subst p. rewrite !elem_of_cons. split; [|naive_solver]. intros [[= -> ->]|Hin]; [by left|]. right.
      split; [|by right]. intros ->. apply Hp, list_elem_of_fmap. by exists (url, m).
    + rewrite !elem_of_cons, (IH Hnd). naive_solver.
Qed.

(** Deleting a pattern takes out its entry and keeps the order of the others. *)
Lemma erase_first_entries url l :
  NoDup l.*1 -> erase_first url l = if decide (url ∈ l.*1) then Some (filter (λ e, e.1 <> url) l) else None.
Proof.
  induction l as [|[p s] l IH]; intros Hnd; cbn [erase_first].
  { rewrite decide_False; [done|]. apply not_elem_of_nil. }
  rewrite fmap_cons in *. apply NoDup_cons in Hnd as [Hp Hnd]. cbn [fst] in *. case_bool_decide as E.
  - subst p. rewrite decide_True by (by left). rewrite filter_cons_False by (cbn; tauto). f_equal. symmetry.
    apply filter_keeps_all, Forall_forall. intros [q m] Hin. cbn. intros ->. apply Hp, list_elem_of_fmap. by exists (url, m).
  - rewrite IH by done. rewrite filter_cons_True by done. case_decide as H1; case_decide as H2; try done.
    + destruct H2. by right.
    + apply elem_of_cons in H2 as [->|?]; done.
Qed.

Lemma first_match_split url pre p s post :
  (forall q, q ∈ pre.*1 -> fnmatch q url = false) -> fnmatch p url = true ->
  first_match url (pre ++ (p, s) :: post) = s.
Proof.
  intros Hpre Hp. induction pre as [|[q s'] pre IH]; simpl; [by rewrite Hp|].
  rewrite Hpre by (by left). apply IH. intros q' Hq. apply Hpre. by right.
Qed.

Lemma first_match_none url l :
  (forall q, q ∈ l.*1 -> fnmatch q url = false) -> first_match url l = None.
Proof.
  induction l as [|[q s'] l IH]; intros H; simpl; [done|].
  rewrite H by (by left). apply IH. intros q' Hq. apply H. by right.
Qed.
End servlets.

Section servlet_claims.
Context {session : Type} (fnmatch : list Z -> list Z -> bool).


(** A request no servlet is registered for is answered by the default
    servlet of a fresh dispatcher with status 404 and a body whose length is
    announced. *)
Theorem unmatched_is_not_found (ops : list (dispatch_op (session := session)))
    (req : HttpRequest) (rsp : HttpResponse) (st : session) :
  let d := dispatch_after ops in
  Forall (λ o, match o with SetDefault _ => False | _ => True end) ops ->
  get_servlet fnmatch (path_ req) d = None ->
  exists rsp', dispatch_request fnmatch d (req, rsp, st) = (true, (req, rsp', st)) /\
    status_ rsp' = 404 /\ body_ rsp' = not_found_page /\
    table_find (str "Content-Length") (headers_ rsp') = Some (decimal (len not_found_page)) /\
    close_ rsp' = close_ rsp.
Proof.
  intros d Hops Hn. assert (default_servlet_ d = Some NotFoundServlet) as Ed.
  { subst d. unfold dispatch_after. assert (default_servlet_ ServletDispatch_new = Some (@NotFoundServlet session)) as H by done.
    clear Hn. revert H. generalize (@ServletDispatch_new session).
    induction Hops as [|o ops Ho _ IH]; intros d H; simpl; [done|]. apply IH.
    destruct o; try done; simpl.
    - unfold del_exact_servlet. by destruct (exact_matchs_ d !! url).
    - unfold del_fuzzy_servlet. by destruct (erase_first _ _). }
  unfold dispatch_request, get_default_servlet. rewrite Hn, Ed. eexists. split_and!; [reflexivity|done|done| |done].
  cbn [set_body with_body headers_]. apply table_find_set_eq. done.
Qed.
End servlet_claims.

Definition example_servlet : servlet (session := unit) := λ '(req, rsp, s), (true, (req, set_status 201 rsp, s)).

