(* ===== verification/HttpSession.v ===== *)
(** * HTTP connections: src/sylar/http/http_parser.{h,cpp}, http_session.cpp,
      http_connection.cpp and http_server.cpp

    The state machines generated from the Ragel sources are an interface,
    [Machine]: fed with bytes they report the elements they recognised, in
    order, and how many bytes they consumed.  The callbacks the parsers install,
    the loops that feed the machines from the socket, the assembly of bodies
    and the server's loop over requests are those of the code.  A buffer is the
    list of the bytes it holds that are not parsed yet. *)

From S2P Require Import Prelude Text Endian ByteArray Stream HttpResponse Http Servlet.

(** ** The generated machines *)

Class Machine (P event : Type) := {
  machine_init : P;
  (** the callbacks made, [nread], and the machine afterwards *)
  machine_execute : P -> list Z -> list event * Z * P;
  machine_finished : P -> bool;
  machine_error : P -> bool;
  machine_content_len : P -> Z;
  machine_chunked : P -> bool;
}.

(** ** [HttpRequestParser] *)

Inductive request_event :=
| EvMethod (at_ : list Z) | EvFragment (at_ : list Z) | EvPath (at_ : list Z)
| EvQuery (at_ : list Z) | EvVersion (at_ : list Z) | EvField (field value : list Z).

(** [strncmp(at, lit, length) == 0], [at] holding [length] bytes. *)
Definition strncmp_eq (at_ lit : list Z) : bool :=
  bool_decide (c_str at_ = take (length at_) lit).

Section request_parser.
Context {P : Type} `{!Machine P request_event} (lexical_cast : list Z -> option Z).

Record HttpRequestParser := mkRequestParser {
  parser_ : P;
  request_ : HttpRequest;
  errno_ : Z;
}.

Definition HttpRequestParser_new : HttpRequestParser :=
  mkRequestParser machine_init (HttpRequest_new 17 true) 0.

(** [get_request()->f(...)]: [get_request] renews the connection header first. *)
Definition on_request (f : HttpRequest -> HttpRequest) (p : HttpRequestParser) : HttpRequestParser :=
  mkRequestParser (parser_ p) (f (init_headers (request_ p))) (errno_ p).
Definition set_errno (v : Z) (p : HttpRequestParser) : HttpRequestParser :=
  mkRequestParser (parser_ p) (request_ p) v.

Definition on_request_method (at_ : list Z) (p : HttpRequestParser) : HttpRequestParser :=
  let m := string_to_http_method at_ in
  let p := on_request (set_method m) p in
  if bool_decide (m = HTTP_INVALID_METHOD) then set_errno 4098 p else p.
Definition on_request_version (at_ : list Z) (p : HttpRequestParser) : HttpRequestParser :=
  if strncmp_eq at_ (str "HTTP/1.1") then on_request (set_version 17) p
  else if strncmp_eq at_ (str "HTTP/1.0") then on_request (set_version 16) p
  else set_errno 4097 p.

Definition request_callback (p : HttpRequestParser) (e : request_event) : HttpRequestParser :=
  match e with
  | EvMethod at_ => on_request_method at_ p
  | EvFragment at_ => on_request (set_fragment at_) p
  | EvPath at_ => on_request (set_path at_) p
  | EvQuery at_ => on_request (set_query at_) p
  | EvVersion at_ => on_request_version at_ p
  | EvField field value => on_request (set_header field value) p
  end.

(** [execute]: whether the machine has finished, [offset], and the parser. *)
Definition request_execute (data : list Z) (p : HttpRequestParser) : bool * Z * HttpRequestParser :=
  let '(ev, n, m) := machine_execute (parser_ p) data in
  let p := foldl request_callback p ev in
  (machine_finished m, n, mkRequestParser m (request_ p) (errno_ p)).

Definition request_has_error (p : HttpRequestParser) : bool :=
  negb (errno_ p =? 0) || machine_error (parser_ p).

Definition request_content_length (p : HttpRequestParser) : Z :=
  if 0 <? machine_content_len (parser_ p) then machine_content_len (parser_ p)
  else match table_find (str "content-length") (headers_ (request_ p)) with
       | Some v => default 0 (lexical_cast v)
       | None => 0
       end.
End request_parser.
Arguments HttpRequestParser P : clear implicits.

(** ** [HttpResponseParser] *)

Inductive response_event :=
| EvReason (at_ : list Z) | EvStatus (at_ : list Z) | EvRspVersion (at_ : list Z)
| EvRspField (field value : list Z).

Section response_parser.
Context {P : Type} `{!Machine P response_event} (lexical_cast : list Z -> option Z).

Record HttpResponseParser := mkResponseParser {
  rsp_parser_ : P;
  response_ : HttpResponse.HttpResponse;
  rsp_errno_ : Z;
  is_chunked_ : bool;
}.

Definition HttpResponseParser_new : HttpResponseParser :=
  mkResponseParser machine_init (HttpResponse.HttpResponse_new 17 false) 0 false.

Definition on_response (f : HttpResponse.HttpResponse -> HttpResponse.HttpResponse) (p : HttpResponseParser)
    : HttpResponseParser :=
  mkResponseParser (rsp_parser_ p) (f (response_ p)) (rsp_errno_ p) (is_chunked_ p).

Definition on_response_version (at_ : list Z) (p : HttpResponseParser) : HttpResponseParser :=
  if strncmp_eq at_ (str "HTTP/1.1") then on_response (HttpResponse.set_version 17) p
  else if strncmp_eq at_ (str "HTTP/1.0") then on_response (HttpResponse.set_version 16) p
  else mkResponseParser (rsp_parser_ p) (response_ p) 4097 (is_chunked_ p).
Definition on_response_http_field (field value : list Z) (p : HttpResponseParser)
    : HttpResponseParser :=
  let p := on_response (HttpResponse.set_header field value) p in
  if bool_decide (field = str "transfer-encoding") && bool_decide (value = str "chunked")
  then mkResponseParser (rsp_parser_ p) (response_ p) (rsp_errno_ p) true else p.

Definition response_callback (p : HttpResponseParser) (e : response_event) : HttpResponseParser :=
  match e with
  | EvReason at_ => on_response (HttpResponse.set_reason at_) p
  | EvStatus at_ => on_response (HttpResponse.set_status (atoi at_)) p
  | EvRspVersion at_ => on_response_version at_ p
  | EvRspField field value => on_response_http_field field value p
  end.

Definition response_execute (data : list Z) (p : HttpResponseParser) : bool * Z * HttpResponseParser :=
  let '(ev, n, m) := machine_execute (rsp_parser_ p) data in
  let p := foldl response_callback p ev in
  (machine_finished m, n, mkResponseParser m (response_ p) (rsp_errno_ p) (is_chunked_ p)).

Definition response_has_error (p : HttpResponseParser) : bool :=
  negb (rsp_errno_ p =? 0) || machine_error (rsp_parser_ p).
Definition is_chunked (p : HttpResponseParser) : bool :=
  is_chunked_ p || machine_chunked (rsp_parser_ p).
Definition response_content_length (p : HttpResponseParser) : Z :=
  if 0 <? machine_content_len (rsp_parser_ p) then machine_content_len (rsp_parser_ p)
  else match table_find (str "content-length") (HttpResponse.headers_ (response_ p)) with
       | Some v => default 0 (lexical_cast v)
       | None => 0
       end.
End response_parser.
Arguments HttpResponseParser P : clear implicits.

(** ** Reading a message *)

Section messages.
Context {σ : Type} `{!Transport σ} (max_size : Z).

(** The loop that reads the head of a message, for either parser: [inl] is
    [return nullptr], [None] when the peer kept sending for [fuel] reads. *)
Fixpoint read_head {Q} (execute : list Z -> Q -> bool * Z * Q) (has_error : Q -> bool)
    (fuel : nat) (buff_size : Z) (data : list Z) (p : Q) (s : σ) : option (σ + σ * list Z * Q) :=
  match fuel with
  | O => None
  | S fuel =>
      match stream_read (buff_size - len data) s with
      | (Ret d, s) =>
          let '(finished, parsed, p) := execute (data ++ d) p in
          let data := drop (Z.to_nat parsed) (data ++ d) in
          if has_error p || (buff_size <=? len data) then Some (inl s)
          else if (finished : bool) then Some (inr (s, data, p))
          else read_head execute has_error fuel buff_size data p s
      | (_, s) => Some (inl s)
      end
  end.

(** A body of known length: the bytes left in the buffer first, then the
    socket; [None] is [return nullptr].  [resize] refuses more than
    [max_size] characters. *)
Definition read_body (body_length : Z) (data : list Z) : M σ (option (list Z)) := λ s,
  if max_size <? body_length then (Throw LogicError, s)
  else if body_length <=? len data then (Ret (Some (take (Z.to_nat body_length) data)), s)
  else
    let rest := replicate (Z.to_nat (body_length - len data)) 0 in
    match read_fix_length (body_length - len data) (s, rest) with
    | (Ret _, (s, rest)) => (Ret (Some (data ++ rest)), s)
    | (Throw _, (s, _)) => (Ret None, s)
    | (Fault f, (s, _)) => (Fault f, s)
    end.
End messages.

(** ** [HttpSession] *)

Section session.
Context {σ : Type} `{!Transport σ} {P : Type} `{!Machine P request_event}
  (lexical_cast : list Z -> option Z) (max_size : Z).

(** [recv_request]; [Ret None] is a null pointer. *)
Definition recv_request (fuel : nat) (buff_size : Z) (s : σ)
    : option (outcome (option HttpRequest) * σ) :=
  match read_head request_execute request_has_error fuel buff_size [] HttpRequestParser_new s with
  | None => None
  | Some (inl s) => Some (Ret None, s)
  | Some (inr (s, data, p)) =>
      let body_length := request_content_length lexical_cast p in
      if body_length =? 0 then Some (Ret (Some (init_headers (request_ p))), s)
      else match read_body max_size body_length data s with
           | (Ret (Some body), s) =>
               let r := set_body body (init_headers (request_ p)) in
               Some (Ret (Some (init_headers r)), s)
           | (Ret None, s) => Some (Ret None, s)
           | (Throw e, s) => Some (Throw e, s)
           | (Fault f, s) => Some (Fault f, s)
           end
  end.

(** [send_response]: write errors are logged and dropped. *)
Definition send_message (text : list Z) (s : σ) : outcome unit * σ :=
  match write_fix_length text (len text) s with
  | (Throw _, s) => (Ret tt, s)
  | r => r
  end.
Definition send_response (rsp : HttpResponse.HttpResponse) (s : σ) : outcome unit * σ :=
  send_message (HttpResponse.response_to_string rsp) s.
End session.

(** ** [HttpConnection] *)

Section connection.
Context {σ : Type} `{!Transport σ} {P : Type} `{!Machine P response_event}
  (lexical_cast : list Z -> option Z) (max_size : Z).

(** [recv_response]; the result of [read_chunked_body] is not looked at.  The
    buffer it gets holds the unparsed bytes, then whatever was there. *)
Definition recv_response (fuel : nat) (buff_size : Z) (s : σ)
    : option (outcome (option HttpResponse.HttpResponse) * σ) :=
  match read_head response_execute response_has_error fuel buff_size [] HttpResponseParser_new s with
  | None => None
  | Some (inl s) => Some (Ret None, s)
  | Some (inr (s, data, p)) =>
      let finish (body : list Z) (s : σ) :=
        let r := match body with [] => response_ p | _ => HttpResponse.set_body body (response_ p) end in
        Some (Ret (Some r), s) in
      if is_chunked p then
        let buffer := data ++ replicate (Z.to_nat (buff_size - len data)) 0 in
        '(_, body, _, st) ← read_chunked_body fuel buff_size buffer (len data) [] s;
        finish body (c_sock st)
      else
        let body_length := response_content_length lexical_cast p in
        if body_length =? 0 then finish [] s
        else match read_body max_size body_length data s with
             | (Ret (Some body), s) => finish body s
             | (Ret None, s) => Some (Ret None, s)
             | (Throw e, s) => Some (Throw e, s)
             | (Fault f, s) => Some (Fault f, s)
             end
  end.

Definition send_request (req : HttpRequest) (s : σ) : outcome unit * σ :=
  send_message (request_to_string req) s.
End connection.

(** ** [HttpServer] *)

Section server.
Context {σ : Type} `{!Transport σ} {P : Type} `{!Machine P request_event}
  (lexical_cast : list Z -> option Z) (max_size buff_size : Z) (fnmatch : list Z -> list Z -> bool).

Record HttpServer := mkHttpServer {
  is_keepalive_ : bool;
  server_name : list Z;
  servlet_dispatch_ : ServletDispatch (session := σ);
}.

(** The response of one turn of the loop of [handle_client]. *)
Definition respond (srv : HttpServer) (req : HttpRequest) (s : σ)
    : HttpRequest * HttpResponse.HttpResponse * σ :=
  let rsp := HttpResponse.HttpResponse_new (version_ req) (negb (is_keepalive_ srv) || auto_close_ req) in
  let rsp := HttpResponse.set_header (str "Server") (server_name srv) rsp in
  let '(ok, (req, rsp, s)) := dispatch_request fnmatch (servlet_dispatch_ srv) (req, rsp, s) in
  if ok then (req, rsp, s)
  else (req, HttpResponse.set_body (str "500 Internal Server Error") (HttpResponse.set_status 500 rsp), s).

(** The exchanges of a connection, and the socket when it is closed; [None]
    when [fuel] turns are not enough. *)
Fixpoint handle_client (fuel : nat) (srv : HttpServer) (s : σ)
    : option (list (HttpRequest * HttpResponse.HttpResponse) * outcome unit * σ) :=
  match fuel with
  | O => None
  | S fuel' =>
      '(r, s) ← recv_request lexical_cast max_size fuel buff_size s;
      match r with
      | Ret None => Some ([], Ret tt, s)
      | Ret (Some req) =>
          let '(req, rsp, s) := respond srv req s in
          match send_response rsp s with
          | (Ret _, s) =>
              if HttpResponse.close_ rsp then Some ([(req, rsp)], Ret tt, s)
              else '(l, o, s) ← handle_client fuel' srv s; Some ((req, rsp) :: l, o, s)
          | (Throw e, s) => Some ([(req, rsp)], Throw e, s)
          | (Fault f, s) => Some ([(req, rsp)], Fault f, s)
          end
      | Throw e => Some ([], Throw e, s)
      | Fault f => Some ([], Fault f, s)
      end
  end.
End server.

(** ** Reading the head *)

Section head_facts.
Context {σ : Type} `{!Transport σ} {incoming outgoing : σ -> list Z}
  `{!TransportLaws σ incoming outgoing}.

(** Nothing is lost between the socket, the bytes the machine consumed and the
    bytes left in the buffer. *)
Lemma read_head_conserves {Q} execute has_error fuel buff_size (p : Q) : forall data s s1 data1 p1,
  connected s = true ->
  read_head execute has_error fuel buff_size data p s = Some (inr (s1, data1, p1)) ->
  connected s1 = true /\ outgoing s1 = outgoing s /\
  exists head, data ++ incoming s = head ++ data1 ++ incoming s1.
Proof.
  revert p. induction fuel as [|fuel IH]; intros p data s s1 data1 p1 Hc; simpl; [done|].
  pose proof (stream_read_spec (incoming := incoming) (outgoing := outgoing) (buff_size - len data) s Hc) as H.
  destruct (stream_read _ s) as [[d|e|f] s0]; [|done|done].
  destruct H as (Hc0 & Hin & Hout & _).
  destruct (execute (data ++ d) p) as [[fin parsed] p0].
  assert (data ++ incoming s = take (Z.to_nat parsed) (data ++ d) ++
    drop (Z.to_nat parsed) (data ++ d) ++ incoming s0) as Esplit.
  { rewrite Hin, app_assoc, (app_assoc (take _ _)), take_drop. done. }
  destruct (_ || _); [done|]. destruct fin.
  - intros [= <- <- <-]. split_and!; [done|done|]. eauto.
  - intros E. destruct (IH _ _ _ _ _ _ Hc0 E) as (Hc1 & Hout1 & head & Eh).
    split_and!; [done|congruence|]. exists (take (Z.to_nat parsed) (data ++ d) ++ head).
    by rewrite Esplit, Eh, app_assoc.
Qed.

(** The parser's error flag is clear when the loop succeeds, and what every
    call of [execute] keeps holds at the end. *)
Lemma read_head_inv {Q} execute has_error fuel buff_size (I : Q -> Prop) (p : Q) : forall data s s1 data1 p1,
  (forall data p, I p -> I (execute data p).2) -> I p ->
  read_head execute has_error fuel buff_size data p s = Some (inr (s1, data1, p1)) ->
  I p1 /\ has_error p1 = false.
Proof.
  revert p. induction fuel as [|fuel IH]; intros p data s s1 data1 p1 Hex HI; simpl; [done|].
  destruct (stream_read _ s) as [[d|e|f] s0]; [|done|done].
  specialize (Hex (data ++ d) p HI) as HI0.
  destruct (execute (data ++ d) p) as [[fin parsed] p0]. simpl in HI0.
  destruct (has_error p0) eqn:Ee; simpl; [done|]. destruct (_ <=? _); [done|]. destruct fin.
  - by intros [= <- <- <-].
  - intros E. by eapply IH.
Qed.

(** A head that the first read brings is taken at once; the rest of what was read stays. *)
Lemma read_head_at_once {Q} (execute : list Z -> Q -> bool * Z * Q) (has_error : Q -> bool) fuel buff_size p s s1 d head rest :
  connected s = true -> head <> [] -> incoming s = head ++ rest -> stream_read buff_size s = (Ret d, s1) -> len head <= len d ->
  connected s1 = true /\ exists data, rest = data ++ incoming s1 /\ forall p1,
    execute (head ++ data) p = (true, len head, p1) -> has_error p1 = false ->
    read_head execute has_error (S fuel) buff_size [] p s = Some (inr (s1, data, p1)).
Proof.
  intros Hc Hne Hin Hread Hd.
  pose proof (stream_read_spec (incoming := incoming) (outgoing := outgoing) buff_size s Hc) as Hs. rewrite Hread in Hs.
  destruct Hs as (Hc1 & Hin1 & _ & Hdb & _). split; [done|]. rewrite Hin1 in Hin.
  assert (exists data, d = head ++ data /\ rest = data ++ incoming s1) as (data & -> & Hrest).
  { apply app_eq_inv in Hin as [(k & -> & ->)|(k & -> & Hk)]; [by exists k|]. rewrite length_app in Hd. destruct k; [|cbn in Hd; lia].
    rewrite app_nil_r. exists []. by rewrite app_nil_r. }
  exists data. split; [done|]. intros p1 Eex Herr.
  cbn [read_head app length]. rewrite Z.sub_0_r, Hread, Eex, Herr, Nat2Z.id, drop_app_length. cbn [orb].
  rewrite length_app in Hdb. destruct head; [done|]. cbn [length] in Hdb. by rewrite (proj2 (Z.leb_gt _ _)) by lia.
Qed.

(** A body of known length is exactly the next bytes of the connection. *)
Lemma read_body_spec max_size n data s :
  connected s = true -> 0 < n <= max_size ->
  match read_body max_size n data s with
  | (Ret (Some body), s') => body = take (Z.to_nat n) (data ++ incoming s) /\ len body = n /\
      incoming s' = drop (Z.to_nat n - length data) (incoming s) /\ outgoing s' = outgoing s
  | (Ret None, s') => len data < n
  | (Throw _, _) | (Fault _, _) => False
  end /\
  (Responsive σ incoming -> n <= len (data ++ incoming s) ->
   exists body s', read_body max_size n data s = (Ret (Some body), s')).
Proof.
  intros Hc Hn. unfold read_body. destruct (Z.ltb_spec max_size n); [lia|].
  destruct (Z.leb_spec n (len data)) as [Hle|Hlt].
  { split; [|intros; eauto]. split_and!; [|rewrite length_take; lia| |done].
    - rewrite take_app_le by lia. done.
    - assert (Z.to_nat n - length data = 0)%nat as -> by lia. done. }
  set (k := n - len data). set (buf := replicate (Z.to_nat k) 0).
  assert (len buf = k) as Ebuf by (unfold buf; rewrite length_replicate; lia).
  assert (forall s' rest, received (incoming := incoming) (outgoing := outgoing) s buf k (s', rest) ->
    rest = take (Z.to_nat k) (incoming s) /\ len rest = k /\
    incoming s' = drop (Z.to_nat k) (incoming s) /\ outgoing s' = outgoing s) as Hrec.
  { intros s' rest (_ & Ho & Hk & Hi & Hr). cbn [fst snd] in *. subst rest. unfold memcpy_at.
    rewrite take_0, app_nil_l, drop_ge, app_nil_r by (rewrite length_take; lia).
    split_and!; [done|rewrite length_take; lia|done|done]. }
  split.
  - pose proof (read_fix_length_spec incoming outgoing s buf k Hc ltac:(lia)) as Hfix.
    destruct (read_fix_length k (s, buf)) as [[[]|e|f] [s' rest]]; [|lia|done].
    apply Hrec in Hfix as (-> & Hl & Hi & Ho). split_and!; [|rewrite length_app; lia| |done].
    + rewrite take_app_ge by lia. f_equal. f_equal. lia.
    + rewrite Hi. f_equal. lia.
  - intros Hresp Hlen. rewrite length_app in Hlen.
    destruct (read_fix_length_live incoming outgoing s buf k Hc) as ([s' rest] & -> & _); [lia|lia|].
    eauto.
Qed.
End head_facts.

Lemma init_headers_body r : body_ (init_headers r) = body_ r.
Proof.
  unfold init_headers. destruct (is_websocket_ r) eqn:Ew; [done|]. rewrite set_header_eq.
  unfold set_header_result, auto_close_result. destruct (strcasecmp_eq _ _); [|done].
  destruct (Bool.eqb _ _); [done|]. by rewrite Ew.
Qed.

(** ** What the request parser lets through *)

Section request_parser_facts.
Context {P : Type} `{!Machine P request_event}.

(** While no error is flagged the method is one of the table and the version is
    1.0 or 1.1. *)
Definition parser_ok (p : HttpRequestParser P) : Prop :=
  errno_ p = 0 -> method_ (request_ p) <> HTTP_INVALID_METHOD /\
                  (version_ (request_ p) = 16 \/ version_ (request_ p) = 17).

Lemma set_header_start name value r :
  method_ (set_header name value r) = method_ r /\ version_ (set_header name value r) = version_ r.
Proof.
  rewrite set_header_eq. unfold set_header_result, auto_close_result.
  destruct (strcasecmp_eq name connection); [|done]. destruct (Bool.eqb _ _); [done|].
  by destruct (is_websocket_ r).
Qed.

Lemma init_headers_start r :
  method_ (init_headers r) = method_ r /\ version_ (init_headers r) = version_ r.
Proof. unfold init_headers. destruct (is_websocket_ r); [done|apply set_header_start]. Qed.

(** Callbacks that leave the request line alone, and never clear the error. *)
Lemma on_request_ok f p :
  (forall r, method_ (f r) = method_ r /\ version_ (f r) = version_ r) ->
  parser_ok p -> parser_ok (on_request f p).
Proof.
  intros Hf Hok He. cbn in *. destruct (Hf (init_headers (request_ p))) as [-> ->].
  destruct (init_headers_start (request_ p)) as [-> ->]. auto.
Qed.

Lemma request_callback_ok p e : parser_ok p -> parser_ok (request_callback p e).
Proof.
  intros Hok. destruct e as [a|a|a|a|a|fl v]; cbn [request_callback];
    try (apply on_request_ok; [done|exact Hok]).
  - unfold on_request_method. case_bool_decide as Hm; [done|]. intros He. cbn in *.
    split; [done|]. destruct (init_headers_start (request_ p)) as [_ ->]. by apply Hok.
  - unfold on_request_version.
    destruct (strncmp_eq a (str "HTTP/1.1")); [|destruct (strncmp_eq a (str "HTTP/1.0")); [|done]];
      intros He; cbn in *; destruct (init_headers_start (request_ p)) as [-> _];
      (split; [by apply Hok|auto]).
  - apply on_request_ok; [|exact Hok]. intros r. apply set_header_start.
Qed.

Lemma request_execute_ok data p : parser_ok p -> parser_ok (request_execute data p).2.
Proof.
  intros Hok. unfold request_execute. destruct (machine_execute _ _) as [[ev n] m]. simpl.
  assert (parser_ok (foldl request_callback p ev)) as H; [|exact H].
  clear m n. revert p Hok. induction ev as [|e ev IH]; intros p Hok; [done|].
  simpl. by apply IH, request_callback_ok.
Qed.

Lemma parser_new_ok : parser_ok HttpRequestParser_new.
Proof. intros _. split; [done|by right]. Qed.
End request_parser_facts.

(** ** A machine for the examples

    Its head is one byte, the length of the body; 255 announces a chunked
    body. *)
Definition toy_machine (event : Type) : Machine (option Z) event := {|
  machine_init := None;
  machine_execute p data := match p, data with
                            | None, n :: _ => ([], 1, Some n)
                            | _, _ => ([], 0, p)
                            end;
  machine_finished p := match p with Some _ => true | None => false end;
  machine_error p := false;
  machine_content_len p := match p with Some n => if n =? 255 then 0 else n | None => 0 end;
  machine_chunked p := match p with Some n => n =? 255 | None => false end;
|}.

(** ** Claims *)

Section session_claims.
Context {σ : Type} `{!Transport σ} (incoming outgoing : σ -> list Z)
  `{!TransportLaws σ incoming outgoing} {P : Type} `{!Machine P request_event}
  (lexical_cast : list Z -> option Z) (max_size : Z).

(** (C29) The body of a request is exactly the bytes that follow its head, as
    many as its content length says, however they are split over reads: when
    the peer sends them [recv_request] returns the request with that body, the
    announced length, and the socket just behind it, unless more had already
    been read. *)
Theorem request_body_exact (fuel : nat) (buff_size : Z) (s s1 : σ) (data : list Z)
    (p : HttpRequestParser P) :
  connected s = true -> Responsive σ incoming ->
  read_head request_execute request_has_error fuel buff_size [] HttpRequestParser_new s =
    Some (inr (s1, data, p)) ->
  let n := request_content_length lexical_cast p in
  0 < n <= max_size -> n <= len (data ++ incoming s1) ->
  exists head r s', recv_request lexical_cast max_size fuel buff_size s = Some (Ret (Some r), s') /\
    incoming s = head ++ data ++ incoming s1 /\
    body_ r = take (Z.to_nat n) (data ++ incoming s1) /\
    table_find (str "content-length") (headers_ r) = Some (decimal n) /\
    incoming s' = drop (Z.to_nat n - length data) (incoming s1) /\ outgoing s' = outgoing s.
Proof.
  intros Hc Hresp E n Hn Hlen.
  destruct (read_head_conserves (incoming := incoming) (outgoing := outgoing) _ _ _ _ _ _ _ _ _ _ Hc E)
    as (Hc1 & Ho1 & head & Eh).
  destruct (read_body_spec (incoming := incoming) (outgoing := outgoing) max_size n data s1 Hc1 Hn) as [H Hlive].
  destruct (Hlive Hresp Hlen) as (body & s' & Eb). rewrite Eb in H. destruct H as (-> & Elen & Ei & Eo).
  unfold recv_request. rewrite E. cbv zeta. fold n. destruct (Z.eqb_spec n 0); [lia|]. rewrite Eb.
  set (r := set_body _ _).
  exists head, (init_headers r), s'. split_and!; [done|done|by rewrite init_headers_body| |done|congruence].
  assert (table_find (str "content-length") (headers_ r) = Some (decimal n)) as Hcl.
  { unfold r, set_body. change (headers_ (with_body ?b ?q)) with (headers_ q).
    rewrite set_header_find, Elen. done. }
  unfold init_headers. destruct (is_websocket_ r); [done|]. rewrite set_header_find.
  destruct (strcasecmp_eq connection (str "content-length")) eqn:Ec; [by vm_compute in Ec|done].
Qed.

(** Bytes of a following request that were read together with the end of
    one are lost: they are neither in the request that is returned nor left on
    the socket. *)
Theorem pipelined_bytes_lost (fuel : nat) (buff_size : Z) (s s1 : σ) (data : list Z)
    (p : HttpRequestParser P) :
  connected s = true ->
  read_head request_execute request_has_error fuel buff_size [] HttpRequestParser_new s =
    Some (inr (s1, data, p)) ->
  let n := request_content_length lexical_cast p in
  0 < n <= max_size -> n < len data ->
  exists head r, recv_request lexical_cast max_size fuel buff_size s = Some (Ret (Some r), s1) /\
    incoming s = head ++ body_ r ++ drop (Z.to_nat n) data ++ incoming s1 /\
    drop (Z.to_nat n) data <> [].
Proof.
  intros Hc E n Hn Hlen.
  destruct (read_head_conserves (incoming := incoming) (outgoing := outgoing) _ _ _ _ _ _ _ _ _ _ Hc E)
    as (Hc1 & Ho1 & head & Eh).
  unfold recv_request. rewrite E. cbv zeta. fold n. destruct (Z.eqb_spec n 0); [lia|].
  unfold read_body. destruct (Z.ltb_spec max_size n); [lia|]. destruct (Z.leb_spec n (len data)); [|lia].
  exists head. eexists. split_and!; [reflexivity| |].
  - rewrite init_headers_body. cbn [set_body with_body body_]. rewrite (app_assoc (take _ _)), take_drop. done.
  - intros Ed. apply (f_equal (@length Z)) in Ed. rewrite length_drop in Ed. simpl in Ed. lia.
Qed.

(** A request that reaches the server has a method of the table and version
    1.0 or 1.1: one with another method or version is refused whatever follows
    it. *)
Theorem request_line_checked (fuel : nat) (buff_size : Z) (s s1 : σ) (data : list Z)
    (p : HttpRequestParser P) :
  read_head request_execute request_has_error fuel buff_size [] HttpRequestParser_new s =
    Some (inr (s1, data, p)) ->
  method_ (request_ p) <> HTTP_INVALID_METHOD /\
  (version_ (request_ p) = 16 \/ version_ (request_ p) = 17).
Proof.
  intros E. destruct (read_head_inv _ _ _ _ parser_ok _ _ _ _ _ _ request_execute_ok parser_new_ok E)
    as [Hok Herr].
  apply Hok. unfold request_has_error in Herr. apply orb_false_iff in Herr as [Herr _].
  apply negb_false_iff in Herr. by apply Z.eqb_eq in Herr.
Qed.
End session_claims.

Definition toy_requests : Machine (option Z) request_event := toy_machine request_event.
Definition toy_responses : Machine (option Z) response_event := toy_machine response_event.

Lemma request_body_exact_witness :
  exists head r s', recv_request (Machine0 := toy_requests) (λ _, None) 100 3 8
      (mkNetwork [[3]; [7; 8]; [9; 10]] 9 []) = Some (Ret (Some r), s') /\
    [3; 7; 8; 9; 10] = head ++ [] ++ [7; 8; 9; 10] /\ body_ r = [7; 8; 9] /\
    table_find (str "content-length") (headers_ r) = Some (decimal 3) /\
    network_incoming s' = [10] /\ n_sent s' = [].
Proof.
  eapply (request_body_exact network_incoming n_sent (Machine0 := toy_requests) (λ _, None) 100 3 8
    (mkNetwork [[3]; [7; 8]; [9; 10]] 9 []) (mkNetwork [[]; [7; 8]; [9; 10]] 9 []) []
    (mkRequestParser (Some 3) (HttpRequest_new 17 true) 0)).
  - reflexivity.
  - apply network_responsive.
  - reflexivity.
  - vm_compute. split; [reflexivity|discriminate].
  - vm_compute. discriminate.
Defined.

Lemma pipelined_bytes_lost_witness :
  exists head r, recv_request (Machine0 := toy_requests) (λ _, None) 100 3 8
      (mkNetwork [[1; 7; 1; 8]] 9 []) = Some (Ret (Some r), mkNetwork [[]] 9 []) /\
    [1; 7; 1; 8] = head ++ body_ r ++ [1; 8] ++ [] /\ [1; 8] <> [].
Proof.
  eapply (pipelined_bytes_lost network_incoming n_sent (Machine0 := toy_requests) (λ _, None) 100 3 8
    (mkNetwork [[1; 7; 1; 8]] 9 []) (mkNetwork [[]] 9 []) [7; 1; 8]
    (mkRequestParser (Some 1) (HttpRequest_new 17 true) 0)).
  - reflexivity.
  - reflexivity.
  - vm_compute. split; [reflexivity|discriminate].
  - vm_compute. reflexivity.
Defined.

(** A chunked response reaches the client as the concatenation of its
    chunks, when no read cuts a line end. *)
Theorem chunked_response_assembled {σ : Type} `{!Transport σ} (incoming outgoing : σ -> list Z)
    `{!TransportLaws σ incoming outgoing} {P : Type} `{!Machine P response_event}
    (lexical_cast : list Z -> option Z) (max_size buff_size : Z) (fuel : nat) (s s1 s' : σ)
    (data enc tail : list Z) (chunks frags : list (list Z)) (p : HttpResponseParser P) :
  connected s = true -> 0 < buff_size < 2 ^ 64 ->
  read_head response_execute response_has_error fuel buff_size [] HttpResponseParser_new s =
    Some (inr (s1, data, p)) ->
  is_chunked p = true -> chunk_lines chunks enc -> (length enc <= fuel)%nat -> concat chunks <> [] ->
  len data <= buff_size -> delivers buff_size s1 frags s' ->
  data ++ concat frags = enc ++ tail -> no_split data -> Forall no_split frags ->
  exists r s2, recv_response lexical_cast max_size fuel buff_size s = Some (Ret (Some r), s2) /\
    HttpResponse.body_ r = concat chunks /\
    table_find (str "content-length") (HttpResponse.headers_ r) = Some (decimal (len (concat chunks))).
Proof.
  intros Hc Hbs E Hch Henc Hfuel Hne Hd Hdel Estream Hn Hns.
  destruct (read_head_conserves (incoming := incoming) (outgoing := outgoing) _ _ _ _ _ _ _ _ _ _ Hc E)
    as (Hc1 & _ & _).
  unfold recv_response. rewrite E, Hch.
  set (buffer := data ++ _).
  assert (len buffer = buff_size) as Eb by (unfold buffer; rewrite length_app, length_replicate; lia).
  assert (take (Z.to_nat (len data)) buffer = data) as Et
    by (unfold buffer; rewrite Nat2Z.id; apply take_app_length).
  destruct (read_chunked_body_spec incoming outgoing buff_size (len data) buffer [] enc tail chunks frags s1 s' fuel)
    as (st & frags' & -> & _); try done; try lia; try (by rewrite Et).
  simpl. eexists _, _. split; [reflexivity|]. destruct (concat chunks) as [|b body] eqn:Ebody; [done|].
  split; [done|]. apply table_find_set_eq. done.
Qed.

Lemma chunked_response_assembled_witness :
  exists r s2, recv_response (Machine0 := toy_responses) (λ _, None) 100 11 8
      (mkNetwork [[255]; [51;13;10;97];[98;99;13;10;48;13;10]] 1 []) = Some (Ret (Some r), s2) /\
    HttpResponse.body_ r = [97;98;99] /\
    table_find (str "content-length") (HttpResponse.headers_ r) = Some (decimal (len [97;98;99])).
Proof.
  eapply (chunked_response_assembled network_incoming n_sent (Machine0 := toy_responses) (λ _, None) 100 8 11
    (mkNetwork [[255]; [51;13;10;97];[98;99;13;10;48;13;10]] 1 [])
    (mkNetwork [[]; [51;13;10;97];[98;99;13;10;48;13;10]] 1 []) (mkNetwork [[]] 1 []) []
    [51;13;10;97;98;99;13;10;48;13;10] [] [[97;98;99]] [[51;13;10;97];[98;99;13;10;48;13;10]]).
  - reflexivity.
  - lia.
  - vm_compute. reflexivity.
  - reflexivity.
  - exact abc_lines.
  - simpl. lia.
  - discriminate.
  - simpl. lia.
  - eapply delivers_cons; [vm_compute; reflexivity|].
    eapply delivers_cons; [vm_compute; reflexivity|]. apply delivers_nil.
  - reflexivity.
  - done.
  - repeat constructor; done.
Defined.

(** ** The server's loop *)

Section server_claims.
Context {σ : Type} `{!Transport σ} {P : Type} `{!Machine P request_event}
  (lexical_cast : list Z -> option Z) (max_size buff_size : Z) (fnmatch : list Z -> list Z -> bool).

(** Servlets that leave the decision to close to the server. *)
Definition keeps_close (d : ServletDispatch (session := σ)) : Prop :=
  forall req rsp s, HttpResponse.close_ (dispatch_request fnmatch d (req, rsp, s)).2.1.2 = HttpResponse.close_ rsp.

Lemma respond_close (srv : HttpServer (σ := σ)) req s req' rsp' s' :
  keeps_close (servlet_dispatch_ srv) -> respond fnmatch srv req s = (req', rsp', s') ->
  HttpResponse.close_ rsp' = negb (is_keepalive_ srv) || auto_close_ req.
Proof.
  intros Hk. unfold respond.
  set (rsp := HttpResponse.set_header _ _ _). pose proof (Hk req rsp s) as H.
  destruct (dispatch_request _ _ _) as [ok [[req1 rsp1] s1]]. simpl in H.
  destruct ok; intros [= <- <- <-]; by rewrite ?H.
Qed.

(** One exchange from [s] to [s']: a request is received, answered, and the response sent. *)
Definition exchange (srv : HttpServer (σ := σ)) (s : σ) (x : HttpRequest * HttpResponse.HttpResponse) (s' : σ) : Prop :=
  exists fuel req s1 s2, recv_request lexical_cast max_size fuel buff_size s = Some (Ret (Some req), s1) /\
    respond fnmatch srv req s1 = (x.1, x.2, s2) /\ send_response x.2 s2 = (Ret tt, s').
(** Exchanges in turn. *)
Inductive exchanges (srv : HttpServer (σ := σ)) : σ -> list (HttpRequest * HttpResponse.HttpResponse) -> σ -> Prop :=
| no_exchange s : exchanges srv s [] s
| next_exchange s x s1 l s' : exchange srv s x s1 -> exchanges srv s1 l s' -> exchanges srv s (x :: l) s'.
Definition asks_close (x : HttpRequest * HttpResponse.HttpResponse) : bool := HttpResponse.close_ x.2.
(** The exchanges of a whole connection: the responses before the last one do not ask to close, and
    either the last one does, or the next request is not received. *)
Definition served (srv : HttpServer (σ := σ)) (s : σ) (l : list (HttpRequest * HttpResponse.HttpResponse)) (s' : σ) : Prop :=
  (exists pre x, l = pre ++ [x] /\ exchanges srv s l s' /\ Forall (λ y, asks_close y = false) pre /\ asks_close x = true) \/
  (exists s1 fuel, exchanges srv s l s1 /\ Forall (λ y, asks_close y = false) l /\
     recv_request lexical_cast max_size fuel buff_size s1 = Some (Ret None, s')).

Lemma read_head_fuel {Q} (execute : list Z -> Q -> bool * Z * Q) has_error fuel fuel' p : forall data s r,
  (fuel <= fuel')%nat -> read_head execute has_error fuel buff_size data p s = Some r ->
  read_head execute has_error fuel' buff_size data p s = Some r.
Proof.
  revert fuel' p. induction fuel as [|fuel IH]; intros [|fuel'] p data s r Hle; try done; [lia|]. cbn [read_head].
  destruct (stream_read _ s) as [[d|e|f] s1]; [|done..]. destruct (execute _ p) as [[fin n] p1].
  destruct (_ || _); [done|]. destruct fin; [done|]. apply IH. lia.
Qed.
Lemma recv_request_fuel fuel fuel' s r :
  (fuel <= fuel')%nat -> recv_request lexical_cast max_size fuel buff_size s = Some r ->
  recv_request lexical_cast max_size fuel' buff_size s = Some r.
Proof.
  intros Hle. unfold recv_request. destruct (read_head _ _ fuel _ _ _ s) as [h|] eqn:E; [|done].
  by rewrite (read_head_fuel _ _ _ _ _ _ _ _ Hle E).
Qed.

Lemma served_cons srv s x s1 l s' :
  asks_close x = false -> exchange srv s x s1 -> served srv s1 l s' -> served srv s (x :: l) s'.
Proof.
  intros Hx He [(pre & y & -> & Hl & Hp & Hy)|(s2 & fuel & Hl & Hp & Hr)].
  - left. exists (x :: pre), y. split_and!; [done|by econstructor|by constructor|done].
  - right. exists s2, fuel. split_and!; [by econstructor|by constructor|done].
Qed.

(** The loop on one exchange. *)
Lemma handle_exchange srv s x s1 :
  exchange srv s x s1 -> exists f0, forall fuel, (f0 <= fuel)%nat ->
    handle_client lexical_cast max_size buff_size fnmatch (S fuel) srv s =
      if asks_close x then Some ([x], Ret tt, s1)
      else '(l, o, s') ← handle_client lexical_cast max_size buff_size fnmatch fuel srv s1; Some (x :: l, o, s').
Proof.
  intros (f0 & req & s2 & s3 & Er & Ep & Es). exists f0. intros fuel Hf. cbn [handle_client].
  rewrite (recv_request_fuel f0 (S fuel) s _ ltac:(lia) Er). cbn. rewrite Ep, Es. by destruct x.
Qed.

Lemma handle_client_served srv fuel : forall s l s',
  handle_client lexical_cast max_size buff_size fnmatch fuel srv s = Some (l, Ret tt, s') -> served srv s l s'.
Proof.
  induction fuel as [|fuel IH]; intros s l s'; [done|]. cbn [handle_client].
  destruct (recv_request _ _ _ _ s) as [[r s0]|] eqn:Er; [|done]. cbn.
  destruct r as [[req|]|e|f]; [| |done..].
  2: { intros [= <- <-]. right. exists s, (S fuel). split_and!; [constructor|constructor|done]. }
  destruct (respond fnmatch srv req s0) as [[req1 rsp1] s1] eqn:Ep.
  destruct (send_response rsp1 s1) as [[[]|e|f] s2] eqn:Es; [|done..].
  assert (exchange srv s (req1, rsp1) s2) as Hx by (by exists (S fuel), req, s0, s1).
  destruct (HttpResponse.close_ rsp1) eqn:Ec.
  - intros [= <- <-]. left. exists [], (req1, rsp1). split_and!; [done|by econstructor; [exact Hx|constructor]|constructor|done].
  - destruct (handle_client _ _ _ _ fuel srv s2) as [[[l' o'] s3]|] eqn:E; [|done]. cbn. intros [= <- -> <-].
    by eapply served_cons; [|exact Hx|apply IH].
Qed.

Lemma served_handle_client srv l : forall s s',
  served srv s l s' -> exists f0, forall fuel, (f0 <= fuel)%nat ->
    handle_client lexical_cast max_size buff_size fnmatch fuel srv s = Some (l, Ret tt, s').
Proof.
  induction l as [|x l IH]; intros s s' H.
  - destruct H as [(pre & x & E & _)|(s1 & f0 & He & _ & Hr)]; [by destruct pre|]. inversion He; subst.
    exists (S f0). intros [|fuel] Hf; [lia|]. cbn [handle_client]. by rewrite (recv_request_fuel f0 (S fuel) _ _ ltac:(lia) Hr).
  - assert (exists s1, exchange srv s x s1 /\ ((asks_close x = true /\ l = [] /\ s1 = s') \/ (asks_close x = false /\ served srv s1 l s'))) as (s1 & Hx & Hrest).
    { destruct H as [(pre & y & E & He & Hp & Hy)|(s2 & f0 & He & Hp & Hr)]; inversion He as [|? ? s1 ? ? Hx Hl]; subst; exists s1; (split; [done|]).
      - destruct pre as [|z pre]; injection E as <- ->.
        + left. split_and!; [done|done|]. by inversion Hl.
        + right. apply Forall_cons in Hp as [Hz Hp]. split; [done|]. left. by exists pre, y.
      - right. apply Forall_cons in Hp as [Hz Hp]. split; [done|]. right. by exists s2, f0. }
    destruct (handle_exchange srv s x s1 Hx) as [f0 Hf0]. destruct Hrest as [(Hc & -> & ->)|(Hc & Hrest)].
    + exists (S f0). intros [|fuel] Hf; [lia|]. rewrite Hf0 by lia. by rewrite Hc.
    + destruct (IH s1 s' Hrest) as [f1 Hf1]. exists (S (f0 + f1)). intros [|fuel] Hf; [lia|]. rewrite Hf0, Hc, Hf1 by lia. done.
Qed.

(** (C30) A connection is served until a response asks to close or a request is not received, and
    no further: a run of [handle_client] that returns is a sequence of exchanges of which only the last one may
    have asked to close, and when it has not, no further request was received; and every sequence of exchanges that ends so is
    what [handle_client] does, with enough fuel.  A server without keep-alive whose servlets leave the flag
    alone serves at most one request per connection, and its response asks to close. *)
Theorem server_close_policy (srv : HttpServer (σ := σ)) (s s' : σ) (l : list (HttpRequest * HttpResponse.HttpResponse)) :
  ((exists fuel, handle_client lexical_cast max_size buff_size fnmatch fuel srv s = Some (l, Ret tt, s')) <-> served srv s l s') /\
  (served srv s l s' -> is_keepalive_ srv = false -> keeps_close (servlet_dispatch_ srv) ->
     (length l <= 1)%nat /\ Forall (λ x, HttpResponse.close_ x.2 = true) l).
Proof.
  split; [split|].
  - intros [fuel H]. by eapply handle_client_served.
  - intros H. destruct (served_handle_client srv l s s' H) as [f0 Hf]. exists f0. by apply Hf.
  - intros H Hka Hk.
    assert (forall s x s1, exchange srv s x s1 -> asks_close x = true) as Hx.
    { intros s0 x s1 (fuel & req & s2 & s3 & _ & Ep & _). unfold asks_close. erewrite respond_close by done. by rewrite Hka. }
    assert (forall s l s1, exchanges srv s l s1 -> Forall (λ x, asks_close x = true) l) as Hall.
    { induction 1; constructor; eauto. }
    destruct H as [(pre & x & -> & He & Hp & Hc)|(s1 & fuel & He & Hp & _)].
    + apply Hall in He as He'. apply Forall_app in He' as [Hpre Hlast]. destruct pre as [|y pre]; [by split; [cbn; lia|]|].
      apply Forall_cons in Hp as [Hy _]. apply Forall_cons in Hpre as [Hy' _]. congruence.
    + apply Hall in He. destruct l as [|y l]; [split; [cbn; lia|constructor]|].
      apply Forall_cons in Hp as [Hy _]. apply Forall_cons in He as [Hy' _]. congruence.
Qed.
End server_claims.

Definition plain_server : HttpServer (σ := Network) := mkHttpServer false (str "sylar") ServletDispatch_new.

Lemma server_close_policy_witness :
  exists l s', served (Machine0 := toy_requests) (λ _, None) 100 8 (λ _ _, false) plain_server
      (mkNetwork [[1; 7]; [1; 8]] 99 []) l s' /\ (length l = 1)%nat /\
    Forall (λ x, HttpResponse.close_ x.2 = true) l.
Proof.
  assert (exists l s', handle_client (Machine0 := toy_requests) (λ _, None) 100 8 (λ _ _, false) 2 plain_server
      (mkNetwork [[1; 7]; [1; 8]] 99 []) = Some (l, Ret tt, s') /\ (length l = 1)%nat) as (l & s' & E & Hl).
  { eexists _, _. split; [vm_compute; reflexivity|reflexivity]. }
  destruct (server_close_policy (Machine0 := toy_requests) (λ _, None) 100 8 (λ _ _, false) plain_server
      (mkNetwork [[1; 7]; [1; 8]] 99 []) s' l) as [H1 H2].
  assert (served (Machine0 := toy_requests) (λ _, None) 100 8 (λ _ _, false) plain_server
      (mkNetwork [[1; 7]; [1; 8]] 99 []) l s') as Hc by (apply H1; exists 2%nat; exact E).
  exists l, s'. split; [exact Hc|]. split; [exact Hl|]. apply H2; [exact Hc|reflexivity|].
  intros req rsp s. vm_compute. reflexivity.
Defined.
