(* ===== verification/Address.v ===== *)
(** * Network addresses: src/sylar/address.{h,cpp}

    Addresses hold the structures of the socket API: 16-bit and 32-bit fields
    are the values of the registers, so a field in network order reads as its
    bytes swapped on the little-endian host; [get_addr] shows the bytes in
    memory.  [getaddrinfo], [getifaddrs] and [inet_pton] are parameters. *)

From S2P Require Import Prelude Endian Text Http.

Definition AF_UNSPEC := 0.
Definition AF_UNIX := 1.
Definition AF_INET := 2.
Definition AF_INET6 := 10.

Record sockaddr_in := mkSockaddrIn {
  sin_family : Z; sin_port : Z; s_addr : Z; sin_zero : list Z;
}.
Record sockaddr_in6 := mkSockaddrIn6 {
  sin6_family : Z; sin6_port : Z; sin6_flowinfo : Z; s6_addr : list Z; sin6_scope_id : Z;
}.
Record sockaddr_un := mkSockaddrUn { sun_family : Z; sun_path : list Z }.
Record sockaddr := mkSockaddr { sa_family : Z; sa_data : list Z }.

(** The classes derived from [Address], with their members. *)
Inductive Address :=
| IPv4Address (address_ : sockaddr_in)
| IPv6Address (address_ : sockaddr_in6)
| UnixAddress (address_ : sockaddr_un) (length_ : Z)
| UnknownAddress (address_ : sockaddr) (length_ : Z).

(** ** Constructors *)

Definition zeros (n : nat) : list Z := replicate n 0.

Definition IPv4Address_default : sockaddr_in := mkSockaddrIn AF_INET 0 0 (zeros 8).
Definition IPv4Address_of_int (address port : Z) : sockaddr_in :=
  mkSockaddrIn AF_INET (htons port) (htonl address) (zeros 8).
Definition IPv6Address_default : sockaddr_in6 := mkSockaddrIn6 AF_INET6 0 0 (zeros 16) 0.
Definition IPv6Address_of_bytes (address : list Z) (port : Z) : sockaddr_in6 :=
  mkSockaddrIn6 AF_INET6 (htons port) 0 address 0.

(** [inet_pton] gives the bytes of the address, when the text is one. *)
Definition IPv4Address_of_text (inet_pton : list Z -> option (list Z)) (address : list Z) (port : Z)
    : outcome sockaddr_in :=
  match inet_pton address with
  | Some b => Ret (mkSockaddrIn AF_INET (htons port) (of_le b) (zeros 8))
  | None => Throw LogicError
  end.
Definition IPv6Address_of_text (inet_pton : list Z -> option (list Z)) (address : list Z) (port : Z)
    : outcome sockaddr_in6 :=
  match inet_pton address with
  | Some b => Ret (mkSockaddrIn6 AF_INET6 (htons port) 0 b 0)
  | None => Throw LogicError
  end.

Definition MAX_PATH_LEN := 107.
Definition sun_path_offset := 2.
Definition UnixAddress_default : Address :=
  UnixAddress (mkSockaddrUn AF_UNIX (zeros 108)) (sun_path_offset + MAX_PATH_LEN).

(** [strncpy(dst, src, n)]: up to [n] characters of [src], the rest of the [n]
    filled with zeros; what [dst] holds beyond is kept. *)
Definition strncpy (dst src : list Z) (n : nat) : list Z :=
  let copied := take n (c_str src) in
  copied ++ zeros (n - length copied) ++ drop n dst.

Definition UnixAddress_of_path (path : list Z) : outcome Address :=
  if MAX_PATH_LEN <? len path then Throw LogicError
  else Ret (UnixAddress (mkSockaddrUn AF_UNIX (strncpy (zeros 108) path (length path)))
              (sun_path_offset + len path)).

Definition UnknownAddress_default : Address := UnknownAddress (mkSockaddr 0 (zeros 14)) 16.
Definition UnknownAddress_of_family (family : Z) : Address :=
  UnknownAddress (mkSockaddr family (zeros 14)) 16.

(** [Address::create(int)] *)
Definition create_family (family : Z) : Address :=
  if family =? AF_INET then IPv4Address IPv4Address_default
  else if family =? AF_INET6 then IPv6Address IPv6Address_default
  else if family =? AF_UNIX then UnixAddress_default
  else UnknownAddress_of_family family.

(** What a [sockaddr] pointer given by the system points to, by its family. *)
Inductive any_sockaddr :=
| SockIn (a : sockaddr_in) | SockIn6 (a : sockaddr_in6) | SockOther (a : sockaddr).
Definition any_family (a : any_sockaddr) : Z :=
  match a with SockIn a => sin_family a | SockIn6 a => sin6_family a | SockOther a => sa_family a end.

(** [Address::create] of such a pointer. *)
Definition create_sockaddr (addr : option any_sockaddr) : option Address :=
  match addr with
  | None => None
  | Some (SockIn a) => Some (IPv4Address a)
  | Some (SockIn6 a) => Some (IPv6Address a)
  | Some (SockOther a) => Some (UnknownAddress a 16)
  end.

(** ** Bytes, order and text *)

Definition get_addr (a : Address) : list Z :=
  match a with
  | IPv4Address a => to_le 2 (sin_family a) ++ to_le 2 (sin_port a) ++ to_le 4 (s_addr a) ++ sin_zero a
  | IPv6Address a => to_le 2 (sin6_family a) ++ to_le 2 (sin6_port a) ++ to_le 4 (sin6_flowinfo a) ++
                     s6_addr a ++ to_le 4 (sin6_scope_id a)
  | UnixAddress a _ => to_le 2 (sun_family a) ++ sun_path a
  | UnknownAddress a _ => to_le 2 (sa_family a) ++ sa_data a
  end.
Definition get_addr_len (a : Address) : Z :=
  match a with
  | IPv4Address _ => 16
  | IPv6Address _ => 28
  | UnixAddress _ l => l
  | UnknownAddress _ l => l
  end.
Definition get_family (a : Address) : Z := of_le (take 2 (get_addr a)).

(** [memcmp]: the sign of the first difference in the first [n] bytes. *)
Fixpoint memcmp (a b : list Z) (n : nat) : Z :=
  match n, a, b with
  | S n, x :: a, y :: b => if x =? y then memcmp a b n else x - y
  | _, _, _ => 0
  end.

Definition address_lt (lhs rhs : Address) : bool :=
  let min_len := Z.min (get_addr_len lhs) (get_addr_len rhs) in
  let result := memcmp (get_addr lhs) (get_addr rhs) (Z.to_nat min_len) in
  if result <? 0 then true
  else if (result =? 0) && (min_len <? get_addr_len rhs) then true
  else false.
Definition address_eq (lhs rhs : Address) : bool :=
  if negb (get_addr_len lhs =? get_addr_len rhs) then false
  else memcmp (get_addr lhs) (get_addr rhs) (Z.to_nat (get_addr_len lhs)) =? 0.
Definition address_ne (lhs rhs : Address) : bool := negb (address_eq lhs rhs).

(** [<<] of an unsigned integer in hexadecimal. *)
Fixpoint hex_loop (fuel : nat) (n : Z) (acc : list Z) : list Z :=
  match fuel with
  | O => acc
  | S fuel => let d := n mod 16 in
              let acc := (if d <? 10 then 48 + d else 87 + d) :: acc in
              if n <? 16 then acc else hex_loop fuel (n / 16) acc
  end.
Definition hex (n : Z) : list Z := hex_loop 16 n [].

Definition get_path (a : sockaddr_un) (length_ : Z) : list Z :=
  if sun_path_offset <? length_ then
    if sun_path a !!! 0%nat =? 0 then
      [92; 48] ++ take (Z.to_nat (length_ - sun_path_offset - 1)) (drop 1 (sun_path a))
    else c_str (sun_path a)
  else [].

(** The eight 16-bit registers of an IPv6 address. *)
Fixpoint words (b : list Z) : list Z :=
  match b with
  | x :: y :: b => of_le [x; y] :: words b
  | _ => []
  end.

Definition output (a : Address) : list Z :=
  match a with
  | IPv4Address a =>
      let address := ntohl (s_addr a) in
      decimal (Z.land (Z.shiftr address 24) 255) ++ str "." ++
      decimal (Z.land (Z.shiftr address 16) 255) ++ str "." ++
      decimal (Z.land (Z.shiftr address 8) 255) ++ str "." ++
      decimal (Z.land address 255) ++ str ":" ++ decimal (ntohs (sin_port a))
  | IPv6Address a =>
      str "[" ++
      match words (s6_addr a) with
      | [] => []
      | w :: ws => hex w ++ concat ((λ w, str ":" ++ hex w) <$> ws)
      end ++ str "]" ++ str ":" ++ decimal (ntohs (sin6_port a))
  | UnixAddress a l => get_path a l
  | UnknownAddress a l =>
      str "UnknownAddress family=" ++ decimal (sa_family a) ++ str " len=" ++ decimal l
  end.

(** ** Ports, networks and broadcast addresses *)

Definition get_port4 (a : sockaddr_in) : Z := ntohs (sin_port a).
Definition set_port4 (port : Z) (a : sockaddr_in) : sockaddr_in :=
  mkSockaddrIn (sin_family a) (htons port) (s_addr a) (sin_zero a).
Definition get_port6 (a : sockaddr_in6) : Z := ntohs (sin6_port a).
Definition set_port6 (port : Z) (a : sockaddr_in6) : sockaddr_in6 :=
  mkSockaddrIn6 (sin6_family a) (htons port) (sin6_flowinfo a) (s6_addr a) (sin6_scope_id a).

(** [bit_mask<T>] for a [w]-bit [T]; [~] is computed on 64 bits. *)
Definition bit_mask (w prefix_len : Z) : Z :=
  let prefix_len := if w <? prefix_len then w else prefix_len in
  uint w (u64 (Z.lnot (u64 (Z.shiftl 1 (w - prefix_len)) - 1))).

Definition with_s_addr (v : Z) (a : sockaddr_in) : sockaddr_in :=
  mkSockaddrIn (sin_family a) (sin_port a) v (sin_zero a).
Definition with_s6_addr (v : list Z) (a : sockaddr_in6) : sockaddr_in6 :=
  mkSockaddrIn6 (sin6_family a) (sin6_port a) (sin6_flowinfo a) v (sin6_scope_id a).

Definition get_broadcast_address4 (prefix_len : Z) (a : sockaddr_in) : sockaddr_in :=
  if prefix_len <? 32 then
    with_s_addr (Z.lor (s_addr a) (htonl (u32 (Z.lnot (bit_mask 32 prefix_len))))) a
  else a.
Definition get_network_address4 (prefix_len : Z) (a : sockaddr_in) : sockaddr_in :=
  if prefix_len <? 32 then
    with_s_addr (Z.land (s_addr a) (htonl (bit_mask 32 prefix_len))) a
  else a.

(** The assignment to one byte, and the loop that sets the ones behind it. *)
Definition set_tail (i : nat) (f : Z -> Z) (fill : Z) (b : list Z) : list Z :=
  take i b ++ match drop i b with
              | x :: rest => f x :: ((λ _, fill) <$> rest)
              | [] => []
              end.
Definition get_broadcast_address6 (prefix_len : Z) (a : sockaddr_in6) : sockaddr_in6 :=
  if prefix_len <? 128 then
    with_s6_addr (set_tail (Z.to_nat (prefix_len / 8))
      (λ x, u8 (Z.lor x (Z.lnot (bit_mask 8 (prefix_len mod 8))))) 255 (s6_addr a)) a
  else a.
Definition get_network_address6 (prefix_len : Z) (a : sockaddr_in6) : sockaddr_in6 :=
  if prefix_len <? 128 then
    with_s6_addr (set_tail (Z.to_nat (prefix_len / 8))
      (λ x, Z.land x (bit_mask 8 (prefix_len mod 8))) 0 (s6_addr a)) a
  else a.

(** ** Looking up names and interfaces *)

(** [host.find(c)] as the part before and the part behind, if [c] occurs. *)
Fixpoint split_at (c : Z) (s : list Z) : option (list Z * list Z) :=
  match s with
  | [] => None
  | x :: s => if x =? c then Some ([], s)
              else '(a, b) ← split_at c s; Some (x :: a, b)
  end.

(** The node and service [lookup_address] hands to [getaddrinfo]. *)
Definition split_host (host : list Z) : list Z * list Z :=
  let '(node, service) :=
    match host with
    | [] => ([], [])
    | c :: rest =>
        if c =? 91 then
          match split_at 93 rest with
          | Some (node, after) => (node, drop 1 after)
          | None => ([], [])
          end
        else match split_at 58 host with
             | Some (node, after) => (node, after)
             | None => ([], [])
             end
    end in
  (match node with [] => host | _ => node end, service).

Section system.
(** [getaddrinfo] gives [None] on an error; the three integers are the family,
    the socket type and the protocol of the hints. *)
Context (getaddrinfo : list Z -> list Z -> Z -> Z -> Z -> option (list (option any_sockaddr))).

(** [lookup_address(result, ...)]; the bool and what [result] has become. *)
Definition lookup_addresses (result : list Address) (host : list Z) (family socket_type protocol : Z)
    : bool * list Address :=
  let '(node, service) := split_host host in
  match getaddrinfo (c_str node) (c_str service) family socket_type protocol with
  | None => (false, result)
  | Some results =>
      let result := result ++ omap create_sockaddr results in
      (match result with [] => false | _ => true end, result)
  end.
Definition lookup_address (host : list Z) (family socket_type protocol : Z) : option Address :=
  match lookup_addresses [] host family socket_type protocol with
  | (true, a :: _) => Some a
  | _ => None
  end.

(** [dynamic_pointer_cast<IPAddress>] *)
Definition as_ip (a : Address) : option Address :=
  match a with IPv4Address _ | IPv6Address _ => Some a | _ => None end.
Definition lookup_ip_addresses (result : list Address) (host : list Z) (socket_type protocol : Z)
    : bool * list Address :=
  match lookup_addresses [] host AF_UNSPEC socket_type protocol with
  | (false, _) => (false, result)
  | (true, adds) =>
      let result := result ++ omap as_ip adds in
      (match result with [] => false | _ => true end, result)
  end.
Definition lookup_ip_address (host : list Z) (socket_type protocol : Z) : option Address :=
  match lookup_ip_addresses [] host socket_type protocol with
  | (true, a :: _) => Some a
  | _ => None
  end.

Definition set_port (port : Z) (a : Address) : Address :=
  match a with
  | IPv4Address a => IPv4Address (set_port4 port a)
  | IPv6Address a => IPv6Address (set_port6 port a)
  | a => a
  end.
(** [IPAddress::create]: the first address that is one; on an error of
    [getaddrinfo] the loop runs over an uninitialised pointer. *)
Definition ip_create (address : option (list Z)) (port : Z) : outcome (option Address) :=
  match address with
  | None => Ret None
  | Some address =>
      match getaddrinfo address [] AF_UNSPEC 0 0 with
      | None => Fault BadAccess
      | Some results => Ret (set_port port <$> head (omap as_ip (omap create_sockaddr results)))
      end
  end.
End system.

(** [while(mask){ mask &= (mask - 1); ++prefix_len; }]; a turn clears a bit, so
    as many turns as the mask has bits are enough. *)
Fixpoint count_bits (fuel : nat) (mask prefix_len : Z) : Z :=
  match fuel with
  | O => prefix_len
  | S fuel => if mask =? 0 then prefix_len
              else count_bits fuel (Z.land mask (mask - 1)) (prefix_len + 1)
  end.

(** One entry of [getifaddrs]: name, address and netmask. *)
Record ifaddr := mkIfaddr {
  ifa_name : list Z; ifa_addr : option any_sockaddr; ifa_netmask : option any_sockaddr;
}.

Definition prefix_length (addr : any_sockaddr) (netmask : option any_sockaddr) : outcome Z :=
  match addr with
  | SockIn _ => match netmask with
                | Some (SockIn m) => Ret (count_bits 32 (ntohl (s_addr m)) 0)
                | None => Fault NullDeref
                | _ => Fault BadAccess
                end
  | SockIn6 _ => match netmask with
                 | Some (SockIn6 m) => Ret (foldl (λ n b, count_bits 8 b n) 0 (s6_addr m))
                 | None => Fault NullDeref
                 | _ => Fault BadAccess
                 end
  | SockOther _ => Ret 0
  end.

Definition interfaces := gmap (list Z) (list (Address * Z)).

(** The loop of [get_interface_address]. *)
Fixpoint interface_loop (family : Z) (l : list ifaddr) (result : interfaces) : outcome interfaces :=
  match l with
  | [] => Ret result
  | cur :: l =>
      match ifa_addr cur with
      | None => Fault NullDeref
      | Some a =>
          if negb (family =? any_family a) && negb (family =? AF_UNSPEC)
          then interface_loop family l result
          else match prefix_length a (ifa_netmask cur) with
               | Ret prefix_len =>
                   match create_sockaddr (Some a) with
                   | Some addr =>
                       if prefix_len =? 0 then interface_loop family l result
                       else interface_loop family l
                              (<[ifa_name cur := default [] (result !! ifa_name cur) ++ [(addr, prefix_len)]]> result)
                   | None => interface_loop family l result
                   end
               | Throw e => Throw e
               | Fault f => Fault f
               end
      end
  end.

(** [getifaddrs] gives [None] on an error. *)
Definition get_interface_addresses (getifaddrs : option (list ifaddr)) (family : Z) (result : interfaces)
    : outcome (bool * interfaces) :=
  match getifaddrs with
  | None => Ret (false, result)
  | Some l => match interface_loop family l result with
              | Ret result => Ret (bool_decide (result <> ∅), result)
              | Throw e => Throw e
              | Fault f => Fault f
              end
  end.
Definition get_interface_address (getifaddrs : option (list ifaddr)) (name : list Z) (family : Z)
    : outcome (option (list (Address * Z))) :=
  match get_interface_addresses getifaddrs family ∅ with
  | Ret (false, _) => Ret None
  | Ret (true, results) => Ret (results !! name)
  | Throw e => Throw e
  | Fault f => Fault f
  end.

(** ** Facts: order *)

(** The bytes an address is compared by. *)
Definition addr_key (a : Address) : list Z := take (Z.to_nat (get_addr_len a)) (get_addr a).
Definition addr_ok (a : Address) : Prop := 0 <= get_addr_len a <= len (get_addr a).

Lemma memcmp_spec a b n :
  (n <= length a)%nat -> (n <= length b)%nat ->
  (memcmp a b n = 0 <-> take n a = take n b) /\
  (memcmp a b n < 0 <-> lex_lt (take n a) (take n b) = true).
Proof.
  revert a b. induction n as [|n IH]; intros [|x a] [|y b] Ha Hb; simpl in *; try lia; try done.
  destruct (IH a b) as [IH1 IH2]; [lia..|]. destruct (Z.eqb_spec x y) as [->|Hne].
  - rewrite Z.ltb_irrefl. simpl. rewrite IH1, IH2. split; [|done]. split; congruence.
  - split; [split; [lia|congruence]|]. rewrite orb_true_iff, Z.ltb_lt. simpl.
    split; [left; lia|intros [?|[=]]; lia].
Qed.

Lemma lex_lt_app a b c d :
  length a = length b -> lex_lt (a ++ c) (b ++ d) = lex_lt a b || (bool_decide (a = b) && lex_lt c d).
Proof.
  revert b. induction a as [|x a IH]; intros [|y b] E; simpl in *; try lia; [done|].
  rewrite IH by lia. destruct (Z.eqb_spec x y) as [->|Hne].
  - rewrite Z.ltb_irrefl. simpl. f_equal. f_equal. apply bool_decide_ext. split; congruence.
  - rewrite (bool_decide_eq_false_2 (_ :: _ = _)) by congruence. simpl. by rewrite !orb_false_r.
Qed.

Lemma lex_lt_empty c : lex_lt c [] = false.
Proof. by destruct c. Qed.

(** [operator<] is the lexicographic order of the compared bytes. *)
Lemma address_lt_lex a b : addr_ok a -> addr_ok b -> address_lt a b = lex_lt (addr_key a) (addr_key b).
Proof.
  intros Ha Hb. unfold addr_ok in *. unfold address_lt, addr_key. set (la := get_addr_len a) in *.
  set (lb := get_addr_len b) in *. set (A := get_addr a) in *. set (B := get_addr b) in *.
  set (n := Z.to_nat (Z.min la lb)).
  destruct (memcmp_spec A B n) as [H1 H2]; [lia..|].
  rewrite <- (take_drop n (take (Z.to_nat la) A)), <- (take_drop n (take (Z.to_nat lb) B)).
  rewrite !take_take, !Nat.min_l by lia.
  rewrite lex_lt_app by (rewrite !length_take; lia).
  assert (lex_lt (drop n (take (Z.to_nat la) A)) (drop n (take (Z.to_nat lb) B)) = (Z.min la lb <? lb)) as ->.
  { destruct (Z.ltb_spec (Z.min la lb) lb) as [Hlt|Hge].
    - rewrite (drop_ge (take (Z.to_nat la) A)) by (rewrite length_take; lia).
      destruct (drop n (take (Z.to_nat lb) B)) eqn:E; [|done].
      apply (f_equal length) in E. rewrite length_drop, length_take in E. simpl in E. lia.
    - rewrite (drop_ge (take (Z.to_nat lb) B)) by (rewrite length_take; lia). apply lex_lt_empty. }
  destruct (Z.ltb_spec (memcmp A B n) 0) as [Hlt|Hge].
  - by rewrite (proj1 H2 Hlt).
  - destruct (lex_lt (take n A) (take n B)) eqn:E; [pose proof (proj2 H2 eq_refl); lia|]. simpl.
    destruct (Z.eqb_spec (memcmp A B n) 0) as [E0|E0]; simpl.
    + rewrite bool_decide_eq_true_2 by (by apply H1). simpl. by destruct (_ <? _).
    + rewrite bool_decide_eq_false_2 by (intros E'; apply E0, H1, E'). done.
Qed.

Lemma address_eq_bytes a b : addr_ok a -> addr_ok b -> address_eq a b = bool_decide (addr_key a = addr_key b).
Proof.
  intros Ha Hb. unfold addr_ok in *. unfold address_eq, addr_key.
  destruct (Z.eqb_spec (get_addr_len a) (get_addr_len b)) as [E|E]; simpl.
  - rewrite E in *. destruct (memcmp_spec (get_addr a) (get_addr b) (Z.to_nat (get_addr_len b))) as [H1 _]; [lia..|].
    destruct (Z.eqb_spec (memcmp (get_addr a) (get_addr b) (Z.to_nat (get_addr_len b))) 0) as [E0|E0].
    + rewrite bool_decide_eq_true_2; [done|by apply H1].
    + rewrite bool_decide_eq_false_2; [done|by intros ?%H1].
  - rewrite bool_decide_eq_false_2; [done|]. intros Ek. apply (f_equal length) in Ek.
    rewrite !length_take in Ek. lia.
Qed.

(** ** Facts: masks *)

Lemma testbit_byte x X i :
  is_byte x -> 0 <= i -> Z.testbit (x + 256 * X) i = if i <? 8 then Z.testbit x i else Z.testbit X (i - 8).
Proof.
  intros Hx Hi. unfold is_byte in Hx. replace (x + 256 * X) with (X * 2 ^ 8 + x) by lia.
  rewrite <- lor_shiftl_add by lia. rewrite Z.lor_spec, Z.shiftl_spec by lia.
  destruct (Z.ltb_spec i 8).
  - rewrite Z.testbit_neg_r by lia. done.
  - rewrite <- (Z.mod_small x (2 ^ 8)) by lia. rewrite Z.mod_pow2_bits_high by lia. by rewrite orb_false_r.
Qed.

Section bitwise.
Context (op : Z -> Z -> Z) (g : bool -> bool -> bool).
Context (op_bits : forall a b i, Z.testbit (op a b) i = g (Z.testbit a i) (Z.testbit b i)).
Context (g_off : g false false = false).
Context (op_byte : forall a b, is_byte a -> is_byte b -> is_byte (op a b)).

Lemma op_bytes x y X Y :
  is_byte x -> is_byte y -> op (x + 256 * X) (y + 256 * Y) = op x y + 256 * op X Y.
Proof.
  intros Hx Hy. apply Z.bits_inj'. intros i Hi.
  rewrite op_bits, !testbit_byte, !op_bits by auto. by destruct (i <? 8).
Qed.

Lemma of_le_op a b :
  length a = length b -> Forall is_byte a -> Forall is_byte b ->
  of_le (zip_with op a b) = op (of_le a) (of_le b).
Proof.
  revert b. induction a as [|x a IH]; intros [|y b] E Ha Hb; simpl in *; try lia.
  - apply Z.bits_inj'. intros i Hi. by rewrite op_bits, Z.bits_0, g_off.
  - apply Forall_cons in Ha as [? ?], Hb as [? ?]. rewrite IH, op_bytes by (done || lia). done.
Qed.

Lemma rev_zip_with a b : length a = length b -> rev (zip_with op a b) = zip_with op (rev a) (rev b).
Proof.
  revert b. induction a as [|x a IH]; intros [|y b] E; simpl in *; try lia; [done|].
  rewrite IH by lia. rewrite zip_with_app; [done|]. rewrite !length_rev. lia.
Qed.

(** Swapping the bytes of a register commutes with the operation. *)
Lemma swap_op n x y :
  of_le (rev (to_le n (op x y))) = op (of_le (rev (to_le n x))) (of_le (rev (to_le n y))).
Proof.
  assert (to_le n (op x y) = zip_with op (to_le n x) (to_le n y)) as ->.
  { revert x y. induction n as [|n IH]; intros x y; simpl; [done|].
    pose proof (Z.mod_pos_bound x 256 ltac:(lia)). pose proof (Z.mod_pos_bound y 256 ltac:(lia)).
    pose proof (op_bytes (x mod 256) (y mod 256) (x / 256) (y / 256)) as E.
    rewrite <- !(Z.add_comm (256 * _)), <- !Z.div_mod in E by lia. rewrite E by done.
    assert (is_byte (op (x mod 256) (y mod 256))) as Hb by auto. unfold is_byte in Hb.
    f_equal.
    - rewrite Z.add_comm, Z.mul_comm, Z.mod_add, Z.mod_small by lia. done.
    - rewrite Z.add_comm, Z.mul_comm, Z.div_add, Z.div_small by lia. simpl. apply IH. }
  rewrite rev_zip_with by (by rewrite !length_to_le).
  apply of_le_op; [by rewrite !length_rev, !length_to_le|apply Forall_rev, to_le_bytes..].
Qed.
End bitwise.

Lemma land_byte a b : is_byte a -> is_byte b -> is_byte (Z.land a b).
Proof.
  unfold is_byte. intros Ha Hb. split; [apply Z.land_nonneg; lia|].
  pose proof (Z.land_ones a 8 ltac:(lia)). assert (Z.land (Z.land a b) (Z.ones 8) = Z.land a b) as E.
  { rewrite <- Z.land_assoc, Z.land_ones by lia. rewrite (Z.mod_small b) by lia. done. }
  rewrite Z.land_ones in E by lia. pose proof (Z.mod_pos_bound (Z.land a b) (2 ^ 8)). lia.
Qed.
Lemma lor_byte a b : is_byte a -> is_byte b -> is_byte (Z.lor a b).
Proof.
  unfold is_byte. intros Ha Hb. split; [apply Z.lor_nonneg; lia|].
  assert (Z.land (Z.lor a b) (Z.ones 8) = Z.lor a b) as E.
  { rewrite Z.land_lor_distr_l, !Z.land_ones, !Z.mod_small by lia. done. }
  rewrite Z.land_ones in E by lia. pose proof (Z.mod_pos_bound (Z.lor a b) (2 ^ 8)). lia.
Qed.

Lemma htonl_land x y : htonl (Z.land x y) = Z.land (htonl x) (htonl y).
Proof. apply (swap_op Z.land andb Z.land_spec eq_refl land_byte 4). Qed.
Lemma htonl_lor x y : htonl (Z.lor x y) = Z.lor (htonl x) (htonl y).
Proof. apply (swap_op Z.lor orb Z.lor_spec eq_refl lor_byte 4). Qed.
Lemma htonl_twice v : htonl (htonl v) = v mod 2 ^ 32.
Proof. apply (of_le_rev_twice 4). Qed.

(** Clearing and setting the [k] low bits. *)
Lemma land_high v w k :
  0 <= k <= w -> 0 <= v < 2 ^ w -> Z.land v (2 ^ w - 2 ^ k) = v / 2 ^ k * 2 ^ k.
Proof.
  intros Hk Hv. replace (2 ^ w - 2 ^ k) with (Z.shiftl (Z.ones (w - k)) k).
  2:{ rewrite Z.shiftl_mul_pow2, Z.ones_equiv by lia. rewrite <- Z.sub_1_r, Z.mul_sub_distr_r.
      rewrite <- Z.pow_add_r by lia. rewrite Z.sub_add. lia. }
  rewrite <- Z.shiftr_div_pow2, <- Z.shiftl_mul_pow2 by lia.
  apply Z.bits_inj'. intros i Hi. rewrite Z.land_spec, !Z.shiftl_spec by lia.
  destruct (decide (i < k)); [rewrite !(Z.testbit_neg_r _ (i - k)) by lia; apply andb_false_r|].
  rewrite Z.shiftr_spec by lia. rewrite Z.sub_add. destruct (decide (i < w)).
  - rewrite Z.ones_spec_low by lia. apply andb_true_r.
  - rewrite <- (Z.mod_small v (2 ^ w)) by lia. by rewrite Z.mod_pow2_bits_high by lia.
Qed.
Lemma lor_low v k : 0 <= k -> Z.lor v (2 ^ k - 1) = v / 2 ^ k * 2 ^ k + (2 ^ k - 1).
Proof.
  intros Hk. assert (0 < 2 ^ k) by (apply Z.pow_pos_nonneg; lia).
  rewrite <- lor_shiftl_add by lia. rewrite Z.sub_1_r, <- Z.ones_equiv, <- Z.shiftr_div_pow2 by lia.
  apply Z.bits_inj'. intros i Hi. rewrite !Z.lor_spec, Z.shiftl_spec by lia.
  destruct (decide (i < k)).
  - rewrite Z.ones_spec_low by lia. by rewrite !orb_true_r.
  - rewrite Z.shiftr_spec, Z.sub_add by lia. done.
Qed.

Lemma bit_mask_value w p :
  0 < w < 64 -> 0 <= p <= w -> bit_mask w p = (2 ^ w - 2 ^ (w - p)) mod 2 ^ w.
Proof.
  intros Hw Hp. unfold bit_mask. destruct (Z.ltb_spec w p); [lia|].
  rewrite Z.shiftl_1_l. assert (0 < 2 ^ (w - p)) by (apply Z.pow_pos_nonneg; lia).
  assert (2 ^ (w - p) <= 2 ^ w) by (apply Z.pow_le_mono_r; lia).
  assert (2 ^ w < 2 ^ 64) by (apply Z.pow_lt_mono_r; lia).
  rewrite (uint_small 64 (2 ^ (w - p))) by lia. unfold uint, Z.lnot.
  assert (2 ^ 64 = 2 ^ (64 - w) * 2 ^ w) as E by (rewrite <- Z.pow_add_r by lia; f_equal; lia).
  rewrite E. rewrite Z.mul_comm, Z.rem_mul_r, Z.mul_comm, Z.mod_add, Z.mod_mod by lia.
  replace (Z.pred (- (2 ^ (w - p) - 1))) with (2 ^ w - 2 ^ (w - p) + (-1) * 2 ^ w) by lia.
  by rewrite Z.mod_add by lia.
Qed.

Lemma bit_mask_eq w p : 0 < w < 64 -> 0 <= p <= w -> bit_mask w p = 2 ^ w - 2 ^ (w - p).
Proof.
  intros Hw Hp. rewrite bit_mask_value by done.
  assert (0 < 2 ^ (w - p)) by (apply Z.pow_pos_nonneg; lia).
  assert (2 ^ (w - p) <= 2 ^ w) by (apply Z.pow_le_mono_r; lia). apply Z.mod_small. lia.
Qed.

Lemma lnot_mask w p :
  0 < w < 64 -> 0 <= p <= w -> uint w (Z.lnot (bit_mask w p)) = 2 ^ (w - p) - 1.
Proof.
  intros Hw Hp. rewrite bit_mask_eq by done. unfold uint, Z.lnot.
  assert (0 < 2 ^ (w - p)) by (apply Z.pow_pos_nonneg; lia).
  assert (2 ^ (w - p) <= 2 ^ w) by (apply Z.pow_le_mono_r; lia).
  replace (Z.pred (- (2 ^ w - 2 ^ (w - p)))) with (2 ^ (w - p) - 1 + (-1) * 2 ^ w) by lia.
  rewrite Z.mod_add by lia. apply Z.mod_small. lia.
Qed.

(** The number an address stands for. *)
Definition number4 (a : sockaddr_in) : Z := ntohl (s_addr a).
Definition number6 (a : sockaddr_in6) : Z := of_le (rev (s6_addr a)).
Definition sockaddr_in6_ok (a : sockaddr_in6) : Prop :=
  length (s6_addr a) = 16%nat /\ Forall is_byte (s6_addr a).

Lemma number4_network p a : 0 <= p < 32 ->
  number4 (get_network_address4 p a) = number4 a / 2 ^ (32 - p) * 2 ^ (32 - p).
Proof.
  intros Hp. unfold get_network_address4. destruct (Z.ltb_spec p 32); [|lia].
  unfold number4, ntohl. cbn [with_s_addr s_addr]. fold (htonl (Z.land (s_addr a) (htonl (bit_mask 32 p)))).
  rewrite htonl_land, htonl_twice, bit_mask_eq by lia.
  assert (0 < 2 ^ (32 - p)) by (apply Z.pow_pos_nonneg; lia).
  assert (2 ^ (32 - p) <= 2 ^ 32) by (apply Z.pow_le_mono_r; lia).
  rewrite Z.mod_small by lia. apply land_high; [lia|apply htonl_range].
Qed.

Lemma number4_broadcast p a : 0 <= p < 32 ->
  number4 (get_broadcast_address4 p a) = number4 a / 2 ^ (32 - p) * 2 ^ (32 - p) + (2 ^ (32 - p) - 1).
Proof.
  intros Hp. unfold get_broadcast_address4. destruct (Z.ltb_spec p 32); [|lia].
  unfold number4, ntohl. cbn [with_s_addr s_addr].
  fold (htonl (Z.lor (s_addr a) (htonl (u32 (Z.lnot (bit_mask 32 p)))))).
  rewrite htonl_lor, htonl_twice, lnot_mask by lia.
  assert (0 < 2 ^ (32 - p)) by (apply Z.pow_pos_nonneg; lia).
  assert (2 ^ (32 - p) <= 2 ^ 32) by (apply Z.pow_le_mono_r; lia).
  rewrite Z.mod_small by lia. apply lor_low. lia.
Qed.

(** The number of bytes behind [x], and changing [x] and what follows. *)
Lemma be_split pre x post :
  of_le (rev (pre ++ x :: post)) =
  of_le (rev pre) * 2 ^ (8 * (len post + 1)) + x * 2 ^ (8 * len post) + of_le (rev post).
Proof.
  rewrite rev_app_distr. cbn [rev]. rewrite <- app_assoc, !of_le_app, !length_rev. cbn [of_le length].
  change (256 ^ Z.of_nat 1) with 256.
  replace (8 * (len post + 1)) with (8 * len post + 8) by lia. rewrite Z.pow_add_r by lia.
  replace (2 ^ (8 * len post)) with (256 ^ len post) by (rewrite Z.pow_mul_r by lia; done).
  change (2 ^ 8) with 256. ring.
Qed.

Lemma be_const c (post : list Z) :
  of_le (rev ((λ _, c) <$> post)) * 255 = c * (2 ^ (8 * len post) - 1).
Proof.
  induction post as [|y post IH]; [simpl; lia|]. rewrite fmap_cons. simpl rev.
  rewrite of_le_app, length_rev, length_fmap. cbn [of_le length].
  rewrite Nat2Z.inj_succ. replace (8 * Z.succ (len post)) with (8 * len post + 8) by lia.
  rewrite Z.pow_add_r by lia. change 256 with (2 ^ 8). rewrite <- Z.pow_mul_r by lia. nia.
Qed.

Lemma be_range b : Forall is_byte b -> 0 <= of_le (rev b) < 2 ^ (8 * len b).
Proof.
  intros H. pose proof (of_le_range (rev b) (Forall_rev H)) as Hr. rewrite length_rev in Hr.
  change 256 with (2 ^ 8) in Hr. rewrite <- Z.pow_mul_r in Hr by lia. done.
Qed.

(** Dividing the number by the size of the block that starts within [x]. *)
Lemma be_block pre x post r :
  is_byte x -> Forall is_byte post -> 0 <= r < 8 ->
  of_le (rev (pre ++ x :: post)) / 2 ^ (8 * len post + (8 - r)) =
  of_le (rev pre) * 2 ^ r + x / 2 ^ (8 - r).
Proof.
  intros Hx Hp Hr. rewrite be_split. pose proof (be_range post Hp) as Hpost. unfold is_byte in Hx.
  set (m := 8 * len post) in *. set (P := of_le (rev post)) in *.
  assert (0 < 2 ^ m) by (apply Z.pow_pos_nonneg; lia).
  assert (0 < 2 ^ (8 - r)) by (apply Z.pow_pos_nonneg; lia).
  rewrite !Z.pow_add_r by lia. replace (8 * (len post + 1)) with (m + r + (8 - r)) by lia.
  rewrite !Z.pow_add_r by lia.
  pose proof (Z.div_mod x (2 ^ (8 - r)) ltac:(lia)) as Ed.
  pose proof (Z.mod_pos_bound x (2 ^ (8 - r)) ltac:(lia)) as Em.
  symmetry. apply Z.div_unique_pos with (r := (x mod 2 ^ (8 - r)) * 2 ^ m + P); nia.
Qed.

Lemma split_byte (b : list Z) i :
  (i < length b)%nat -> exists pre x post, b = pre ++ x :: post /\ length pre = i /\
    forall f c, set_tail i f c b = pre ++ f x :: ((λ _, c) <$> post).
Proof.
  intros Hi. destruct (drop i b) as [|x post] eqn:E.
  { apply (f_equal length) in E. rewrite length_drop in E. simpl in E. lia. }
  exists (take i b), x, post. split_and!.
  - by rewrite <- E, take_drop.
  - rewrite length_take. lia.
  - intros f c. unfold set_tail. by rewrite E.
Qed.

(** Where bit [p] of a sixteen-byte address is. *)
Lemma prefix_position p (b : list Z) :
  length b = 16%nat -> Forall is_byte b -> 0 <= p < 128 ->
  exists pre x post, b = pre ++ x :: post /\ is_byte x /\ Forall is_byte post /\
    128 - p = 8 * len post + (8 - p mod 8) /\
    forall f c, set_tail (Z.to_nat (p / 8)) f c b = pre ++ f x :: ((λ _, c) <$> post).
Proof.
  intros Hl Hb Hp. pose proof (Z.div_mod p 8 ltac:(lia)). pose proof (Z.mod_pos_bound p 8 ltac:(lia)).
  destruct (split_byte b (Z.to_nat (p / 8))) as (pre & x & post & -> & Epre & Hset); [lia|].
  apply Forall_app in Hb as [_ Hb]. apply Forall_cons in Hb as [Hx Hpost].
  rewrite length_app in Hl. simpl in Hl. exists pre, x, post. split_and!; auto. lia.
Qed.

Lemma number6_network p a : sockaddr_in6_ok a -> 0 <= p < 128 ->
  number6 (get_network_address6 p a) = number6 a / 2 ^ (128 - p) * 2 ^ (128 - p).
Proof.
  intros [Hl Hb] Hp. unfold get_network_address6. destruct (Z.ltb_spec p 128); [|lia].
  unfold number6. cbn [with_s6_addr s6_addr].
  destruct (prefix_position p (s6_addr a) Hl Hb Hp) as (pre & x & post & E & Hx & Hpost & Ek & Hset).
  rewrite Hset, E, Ek, be_block by (done || apply Z.mod_pos_bound; lia). rewrite be_split, length_fmap.
  pose proof (Z.mod_pos_bound p 8 ltac:(lia)) as Hr. rewrite bit_mask_eq by lia.
  rewrite land_high by (unfold is_byte in Hx; lia).
  assert (of_le (rev ((λ _, 0) <$> post)) = 0) as -> by (pose proof (be_const 0 post); lia).
  replace (8 * (len post + 1)) with (8 * len post + (p mod 8) + (8 - p mod 8)) by lia.
  rewrite !Z.pow_add_r by lia. ring.
Qed.

Lemma number6_broadcast p a : sockaddr_in6_ok a -> 0 <= p < 128 ->
  number6 (get_broadcast_address6 p a) =
  number6 a / 2 ^ (128 - p) * 2 ^ (128 - p) + (2 ^ (128 - p) - 1).
Proof.
  intros [Hl Hb] Hp. unfold get_broadcast_address6. destruct (Z.ltb_spec p 128); [|lia].
  unfold number6. cbn [with_s6_addr s6_addr].
  destruct (prefix_position p (s6_addr a) Hl Hb Hp) as (pre & x & post & E & Hx & Hpost & Ek & Hset).
  rewrite Hset, E, Ek, be_block by (done || apply Z.mod_pos_bound; lia). rewrite be_split, length_fmap.
  pose proof (Z.mod_pos_bound p 8 ltac:(lia)) as Hr.
  assert (u8 (Z.lor x (Z.lnot (bit_mask 8 (p mod 8)))) =
    x / 2 ^ (8 - p mod 8) * 2 ^ (8 - p mod 8) + (2 ^ (8 - p mod 8) - 1)) as ->.
  { unfold uint. rewrite <- Z.land_ones, Z.land_lor_distr_l, !Z.land_ones by lia.
    change (Z.lnot ?m mod 2 ^ 8) with (u8 (Z.lnot m)). rewrite lnot_mask by lia.
    unfold is_byte in Hx. rewrite Z.mod_small by lia. apply lor_low. lia. }
  assert (of_le (rev ((λ _, 255) <$> post)) = 2 ^ (8 * len post) - 1) as ->
    by (pose proof (be_const 255 post); lia).
  replace (8 * (len post + 1)) with (8 * len post + (p mod 8) + (8 - p mod 8)) by lia.
  rewrite !Z.pow_add_r by lia. ring.
Qed.

(** ** Claims *)

(** (C39) Networks: for a prefix length shorter than the address, the network
    address is the first and the broadcast address the last address of the block
    of [2 ^ (w - p)] addresses the address lies in, for IPv4 and IPv6; the port is
    kept. *)
Theorem network_block (a : sockaddr_in) (b : sockaddr_in6) (p q : Z) :
  0 <= p < 32 -> sockaddr_in6_ok b -> 0 <= q < 128 ->
  (let block := number4 a / 2 ^ (32 - p) * 2 ^ (32 - p) in
   number4 (get_network_address4 p a) = block /\
   number4 (get_broadcast_address4 p a) = block + (2 ^ (32 - p) - 1) /\
   block <= number4 a <= block + (2 ^ (32 - p) - 1) /\
   get_port4 (get_network_address4 p a) = get_port4 a) /\
  (let block := number6 b / 2 ^ (128 - q) * 2 ^ (128 - q) in
   number6 (get_network_address6 q b) = block /\
   number6 (get_broadcast_address6 q b) = block + (2 ^ (128 - q) - 1) /\
   block <= number6 b <= block + (2 ^ (128 - q) - 1) /\
   get_port6 (get_network_address6 q b) = get_port6 b).
Proof.
  intros Hp Hb Hq.
  assert (forall v k, 0 <= k -> v / 2 ^ k * 2 ^ k <= v <= v / 2 ^ k * 2 ^ k + (2 ^ k - 1)) as Hblock.
  { intros v k Hk. assert (0 < 2 ^ k) by (apply Z.pow_pos_nonneg; lia).
    pose proof (Z.div_mod v (2 ^ k) ltac:(lia)). pose proof (Z.mod_pos_bound v (2 ^ k) ltac:(lia)). lia. }
  split; cbv zeta; split_and!; try (apply Hblock; lia).
  - by apply number4_network.
  - by apply number4_broadcast.
  - unfold get_network_address4. by destruct (p <? 32).
  - by apply number6_network.
  - by apply number6_broadcast.
  - unfold get_network_address6. by destruct (q <? 128).
Qed.

Lemma network_block_witness :
  number4 (get_network_address4 24 (IPv4Address_of_int 3232235777 80)) =
    number4 (IPv4Address_of_int 3232235777 80) / 2 ^ 8 * 2 ^ 8.
Proof.
  apply (network_block (IPv4Address_of_int 3232235777 80) IPv6Address_default 24 64).
  - lia.
  - split; [reflexivity|]. vm_compute. repeat constructor; discriminate.
  - lia.
Defined.

(** [operator<] is a strict total order on addresses whose equality is
    [operator==]: the lexicographic order of the bytes given to the socket
    calls. *)
Theorem address_order (a b c : Address) :
  addr_ok a -> addr_ok b -> addr_ok c ->
  address_lt a a = false /\
  (address_lt a b = true -> address_lt b c = true -> address_lt a c = true) /\
  (address_eq a b = true \/ address_lt a b = true \/ address_lt b a = true) /\
  (address_eq a b = true -> address_lt a b = false) /\
  (address_eq a b = true <-> addr_key a = addr_key b).
Proof.
  intros Ha Hb Hc. rewrite !address_lt_lex, address_eq_bytes by done. split_and!.
  - apply lex_lt_irrefl.
  - apply lex_lt_trans.
  - destruct (decide (addr_key a = addr_key b)) as [E|E]; [left; by apply bool_decide_eq_true|right].
    destruct (lex_lt (addr_key a) (addr_key b)) eqn:El; [by left|right]. by apply lex_lt_total.
  - rewrite bool_decide_eq_true. intros ->. apply lex_lt_irrefl.
  - apply bool_decide_eq_true.
Qed.

Lemma address_order_witness :
  address_lt (create_family 2) (create_family 10) = true /\
  (address_eq (create_family 2) (create_family 10) = true <->
   addr_key (create_family 2) = addr_key (create_family 10)).
Proof.
  split; [vm_compute; reflexivity|].
  apply (address_order (create_family 2) (create_family 10) (create_family 1));
    vm_compute; split; discriminate.
Defined.

(** Unix addresses: a path of at most 107 characters without NUL is given
    back by [get_path], a longer one is refused; and a path that starts with NUL,
    the way abstract sockets are named, loses its name: only zeros are stored. *)
Theorem unix_paths (path name : list Z) :
  Forall (λ c, c <> 0) path -> path <> [] -> len name < MAX_PATH_LEN ->
  (len path <= MAX_PATH_LEN -> exists a l,
     UnixAddress_of_path path = Ret (UnixAddress a l) /\ get_path a l = path /\
     l = sun_path_offset + len path) /\
  (MAX_PATH_LEN < len path -> UnixAddress_of_path path = Throw LogicError) /\
  (exists a l, UnixAddress_of_path (0 :: name) = Ret (UnixAddress a l) /\
     get_path a l = [92; 48] ++ zeros (length name)).
Proof.
  intros Hp Hne Hname. unfold UnixAddress_of_path, MAX_PATH_LEN, sun_path_offset in *. split_and!.
  - intros Hl. destruct (Z.ltb_spec 107 (len path)); [lia|]. eexists _, _. split_and!; [reflexivity| |done].
    unfold get_path, strncpy, sun_path_offset. cbn [sun_path]. rewrite c_str_id, take_ge by done.
    rewrite Nat.sub_diag. cbn [zeros replicate app].
    destruct (Z.ltb_spec 2 (2 + len path)) as [_|?]; [|destruct path; [done|simpl in *; lia]].
    destruct path as [|c path]; [done|]. apply Forall_cons in Hp as [Hc Hp].
    change (((c :: path) ++ ?t) !!! 0%nat) with c. destruct (Z.eqb_spec c 0); [done|].
    rewrite <- app_comm_cons. simpl. destruct (Z.eqb_spec c 0); [done|]. f_equal.
    change (c_str (path ++ drop (length path) (zeros 107)) = path).
    destruct (drop (length path) (zeros 107)) as [|z t] eqn:E.
    + apply (f_equal length) in E. unfold zeros in E. rewrite length_drop, length_replicate in E. simpl in *. lia.
    + assert (z = 0) as ->.
      { apply (f_equal (λ l, l !! 0%nat)) in E. rewrite lookup_drop in E. simpl in E.
        unfold zeros in E. apply lookup_replicate_1 in E as [-> _]. done. }
      by apply c_str_app.
  - intros Hl. destruct (Z.ltb_spec 107 (len path)); [done|lia].
  - cbn [length]. destruct (Z.ltb_spec 107 (Z.of_nat (S (length name)))); [lia|].
    eexists _, _. split; [reflexivity|]. unfold get_path, strncpy, sun_path_offset. cbn [sun_path c_str].
    destruct (Z.ltb_spec 2 (2 + Z.of_nat (S (length name)))); [|lia]. cbn. f_equal. f_equal.
    replace (Z.to_nat _) with (length name) by lia. apply take_app_length'. unfold zeros. by rewrite length_replicate.
Qed.

Lemma split_at_app c a b : Forall (λ x, x <> c) a -> split_at c (a ++ c :: b) = Some (a, b).
Proof.
  induction 1 as [|x a Hx _ IH]; simpl; [by rewrite Z.eqb_refl|].
  destruct (Z.eqb_spec x c); [done|]. by rewrite IH.
Qed.
Lemma split_at_none c a : Forall (λ x, x <> c) a -> split_at c a = None.
Proof.
  induction 1 as [|x a Hx _ IH]; simpl; [done|]. destruct (Z.eqb_spec x c); [done|]. by rewrite IH.
Qed.

(** [lookup_address] takes its argument apart as documented: "node:service"
    and "[node]:service" give node and service, a name alone and "[node]" give
    the node and an empty service. *)
Theorem host_split (node service v6 : list Z) :
  node <> [] -> v6 <> [] -> Forall (λ c, c <> 58) node -> head node <> Some 91 ->
  Forall (λ c, c <> 93) v6 ->
  split_host (node ++ [58] ++ service) = (node, service) /\
  split_host node = (node, []) /\
  split_host ([91] ++ v6 ++ [93; 58] ++ service) = (v6, service) /\
  split_host ([91] ++ v6 ++ [93]) = (v6, []).
Proof.
  intros Hn Hv Hcolon Hbr Hclose. unfold split_host. split_and!.
  - destruct node as [|c node]; [done|]. rewrite <- app_comm_cons. destruct (Z.eqb_spec c 91) as [->|_]; [done|].
    rewrite app_comm_cons. simpl ([58] ++ service). by rewrite split_at_app.
  - destruct node as [|c node]; [done|]. destruct (Z.eqb_spec c 91) as [->|_]; [done|].
    by rewrite split_at_none.
  - cbn [app]. rewrite Z.eqb_refl, split_at_app by done. by destruct v6.
  - cbn [app]. rewrite Z.eqb_refl, split_at_app by done. by destruct v6.
Qed.

(** The text of an IPv6 address shows each group with its two bytes
    exchanged: the loopback address, fifteen zero bytes and a one, is printed
    with 100 as last group. *)
Theorem ipv6_groups_swapped :
  output (IPv6Address (IPv6Address_of_bytes (zeros 15 ++ [1]) 80)) = str "[0:0:0:0:0:0:0:100]:80" /\
  output (IPv4Address (IPv4Address_of_int 2130706433 80)) = str "127.0.0.1:80".
Proof. split; vm_compute; reflexivity. Qed.

(** The prefix length computed from a netmask is the one it was made from. *)
Lemma netmask_prefix (p : nat) : (p <= 32)%nat -> count_bits 32 (bit_mask 32 (Z.of_nat p)) 0 = Z.of_nat p.
Proof.
  intros Hp. assert (forallb (λ p, count_bits 32 (bit_mask 32 (Z.of_nat p)) 0 =? Z.of_nat p) (seq 0 33) = true) as H
    by (vm_compute; reflexivity).
  rewrite forallb_forall in H. specialize (H p). rewrite in_seq in H. apply Z.eqb_eq, H. lia.
Qed.
