(* ===== verification/Ragel.v ===== *)
(** * Ragel machines

    The part of the Ragel language that the grammars of src/sylar (uri.rl,
    http/http11_parser.rl) are written in: regular expressions over bytes with
    entering ([>]), leaving ([%]) and finishing ([@]) actions and with the guarded
    concatenations [:>] and [:>>].
    An entering action belongs to the transitions out of the start of its
    expression; a finishing action to the transitions into a final state; a leaving
    action to the transitions that leave the expression at a final state, and to the
    end of the input when the expression is final there.
    The machine follows all ways through the expression at once: a step executes the
    actions of every transition that can be taken, each once, in the order in which
    Ragel numbers them (an entering action before the actions inside its expression,
    the others after them, left to right).  A guarded concatenation gives priorities
    to transitions: of two that can be taken on one byte and carry different
    priorities under one name, the lower is not taken. *)

From S2P Require Import Prelude Text.

(** ** Expressions *)

Inductive re {A : Type} : Type :=
| Eps
| Chars (l : list (Z * Z))           (** one byte in one of the ranges *)
| Cat (r1 r2 : re)
| Alt (r1 r2 : re)
| Star (r : re)
| Enter (a : A) (r : re)             (** [r >a] *)
| Leave (a : A) (r : re)             (** [r %a] *)
| Finish (a : A) (r : re)            (** [r @a] *)
| Every (k n : nat) (r : re)         (** [r $(k, n)]: priority [n] under the name [k] *)
| First (k n : nat) (r : re)         (** [r >(k, n)] *)
| Last (k n : nat) (r : re).         (** [r @(k, n)] *)
Arguments re : clear implicits.

#[global] Instance re_eq_dec {A} `{!EqDecision A} : EqDecision (re A).
Proof. solve_decision. Defined.

Section expressions.
Context {A : Type}.
Implicit Types r : re A.

Definition Opt r : re A := Alt r Eps.
Definition Plus r : re A := Cat r (Star r).
Fixpoint times (n : nat) r : re A := match n with O => Eps | S n => Cat r (times n r) end.
(** [r{1,n}] *)
Fixpoint upto (n : nat) r : re A := match n with O => Eps | S O => r | S n => Cat r (Opt (upto n r)) end.
Fixpoint alts (l : list (re A)) : re A := match l with [] => Chars [] | [r] => r | r :: l => Alt r (alts l) end.
Fixpoint cats (l : list (re A)) : re A := match l with [] => Eps | [r] => r | r :: l => Cat r (cats l) end.
(** [r1 :> r2] and [r1 :>> r2]: once [r2] can start, or end, [r1] goes on no more. *)
Definition guarded (k : nat) (r1 r2 : re A) : re A := Cat (Every k 0 r1) (First k 1 r2).
Definition finish_guarded (k : nat) (r1 r2 : re A) : re A := Cat (Every k 0 r1) (Last k 1 r2).

Fixpoint nullable r : bool :=
  match r with
  | Eps => true
  | Chars _ => false
  | Cat r1 r2 => nullable r1 && nullable r2
  | Alt r1 r2 => nullable r1 || nullable r2
  | Star _ => true
  | Enter _ r | Leave _ r | Finish _ r | Every _ _ r | First _ _ r | Last _ _ r => nullable r
  end.

(** A quoted string, a set of characters and the classes of Ragel, over bytes. *)
Definition lit (s : string) : re A := cats ((λ c, Chars [(c, c)]) <$> str s).
Definition one_of (s : string) : list (Z * Z) := (λ c, (c, c)) <$> str s.
Definition any : list (Z * Z) := [(0, 255)].
Definition digit : list (Z * Z) := [(48, 57)].
Definition upper : list (Z * Z) := [(65, 90)].
Definition alpha : list (Z * Z) := [(65, 90); (97, 122)].
Definition xdigit : list (Z * Z) := [(48, 57); (65, 70); (97, 102)].
Definition space : list (Z * Z) := [(9, 13); (32, 32)].
(** [any -- ascii] *)
Definition non_ascii : list (Z * Z) := [(128, 255)].

(** The leaving actions at a final state. *)
Fixpoint leaving r : list A :=
  match r with
  | Eps | Chars _ | Star _ => []
  | Cat r1 r2 => leaving r1 ++ leaving r2
  | Alt r1 r2 => (if nullable r1 then leaving r1 else []) ++ (if nullable r2 then leaving r2 else [])
  | Enter _ r | Finish _ r | Every _ _ r | First _ _ r | Last _ _ r => leaving r
  | Leave a r => a :: leaving r
  end.

Definition in_ranges (c : Z) (l : list (Z * Z)) : bool := existsb (λ '(a, b), (a <=? c) && (c <=? b)) l.
Definition cat r1 r2 : re A := match r1 with Eps => r2 | _ => Cat r1 r2 end.

(** A transition: what is left of the expression, the actions, the priorities. *)
Record trans := mkTrans { to : re A; acts : list A; prios : list (nat * nat) }.
Definition on_to (f : re A -> re A) (t : trans) : trans := mkTrans (f (to t)) (acts t) (prios t).
Definition more_acts (l : list A) (t : trans) : trans := mkTrans (to t) (l ++ acts t) (prios t).
Definition more_prios (k n : nat) (t : trans) : trans := mkTrans (to t) (acts t) ((k, n) :: prios t).

(** The transitions on a byte. *)
Fixpoint deriv r (c : Z) : list trans :=
  match r with
  | Eps => []
  | Chars l => if in_ranges c l then [mkTrans Eps [] []] else []
  | Cat r1 r2 =>
      (on_to (λ r1', cat r1' r2) <$> deriv r1 c) ++
      (if nullable r1 then more_acts (leaving r1) <$> deriv r2 c else [])
  | Alt r1 r2 => deriv r1 c ++ deriv r2 c
  | Star r => on_to (λ r', cat r' (Star r)) <$> deriv r c
  | Enter a r => more_acts [a] <$> deriv r c
  | Leave a r => on_to (Leave a) <$> deriv r c
  | Finish a r => (λ t, on_to (Finish a) (if nullable (to t) then more_acts [a] t else t)) <$> deriv r c
  | Every k n r => (λ t, on_to (Every k n) (more_prios k n t)) <$> deriv r c
  | First k n r => more_prios k n <$> deriv r c
  | Last k n r => (λ t, on_to (Last k n) (if nullable (to t) then more_prios k n t else t)) <$> deriv r c
  end.

(** The first name under which both have a priority, and not the same one, decides. *)
Definition beats (t1 t2 : trans) : bool :=
  match list_find (λ kn, existsb (λ km, (km.1 =? kn.1)%nat && negb (km.2 =? kn.2)%nat) (prios t1) = true) (prios t2) with
  | Some (_, (k, n)) => existsb (λ km, (km.1 =? k)%nat && (n <? km.2)%nat) (prios t1)
  | None => false
  end.

(** The actions in the order in which Ragel numbers them. *)
Fixpoint numbered r : list A :=
  match r with
  | Eps | Chars _ => []
  | Cat r1 r2 | Alt r1 r2 => numbered r1 ++ numbered r2
  | Star r | Every _ _ r | First _ _ r | Last _ _ r => numbered r
  | Enter a r => a :: numbered r
  | Leave a r | Finish a r => numbered r ++ [a]
  end.
End expressions.
Arguments trans A : clear implicits.

(** Every embedding of an action has its own number. *)
Fixpoint number {A} (n : nat) (r : re A) : re (nat * A) * nat :=
  match r with
  | Eps => (Eps, n)
  | Chars l => (Chars l, n)
  | Cat r1 r2 => let '(r1, n) := number n r1 in let '(r2, n) := number n r2 in (Cat r1 r2, n)
  | Alt r1 r2 => let '(r1, n) := number n r1 in let '(r2, n) := number n r2 in (Alt r1 r2, n)
  | Star r => let '(r, n) := number n r in (Star r, n)
  | Enter a r => let '(r, m) := number (S n) r in (Enter (n, a) r, m)
  | Leave a r => let '(r, m) := number n r in (Leave (m, a) r, S m)
  | Finish a r => let '(r, m) := number n r in (Finish (m, a) r, S m)
  | Every k i r => let '(r, m) := number n r in (Every k i r, m)
  | First k i r => let '(r, m) := number n r in (First k i r, m)
  | Last k i r => let '(r, m) := number n r in (Last k i r, m)
  end.

(** ** Machines *)

Section machine.
Context {A : Type} `{!EqDecision A}.
(** All actions of the machine, in order. *)
Variable order : list A.

Definition in_order (l : list A) : list A := filter (.∈ l) order.

(** The transitions that are taken. *)
Definition taken (s : list (re A)) (c : Z) : list (trans A) :=
  let l := s ≫= λ r, deriv r c in List.filter (λ t, negb (existsb (λ t', beats t' t) l)) l.
Definition step (s : list (re A)) (c : Z) : list (re A) * list A :=
  let l := taken s c in (remove_dups (to <$> l), in_order (l ≫= acts)).
Definition is_final (s : list (re A)) : bool := existsb nullable s.
(** The actions at the end of the input. *)
Definition eof_actions (s : list (re A)) : list A := in_order (s ≫= λ r, if nullable r then leaving r else []).

Lemma taken_elem s c t :
  t ∈ taken s c <-> (exists r, r ∈ s /\ t ∈ deriv r c) /\ forall r' t', r' ∈ s -> t' ∈ deriv r' c -> beats t' t = false.
Proof.
  unfold taken. rewrite list_elem_of_In, filter_In, <- list_elem_of_In, negb_true_iff, list_elem_of_bind. split.
  - intros [(r & Ht & Hr) Hb]. split; [by exists r|]. intros r' t' Hr' Ht'. apply not_true_is_false. intros Hbt.
    apply not_true_iff_false in Hb. apply Hb, existsb_exists. exists t'. split; [|done]. apply list_elem_of_In, list_elem_of_bind. by exists r'.
  - intros [(r & Hr & Ht) Hb]. split; [by exists r|]. apply not_true_is_false. intros (t' & Hin & Hbt)%existsb_exists.
    apply list_elem_of_In, list_elem_of_bind in Hin as (r' & Ht' & Hr'). rewrite (Hb r' t') in Hbt; done.
Qed.

Lemma step_states s c r' : r' ∈ (step s c).1 <-> exists t, t ∈ taken s c /\ to t = r'.
Proof. unfold step. cbn. rewrite elem_of_remove_dups, list_elem_of_fmap. naive_solver. Qed.

Lemma in_order_ext l l' : (forall a, a ∈ l <-> a ∈ l') -> in_order l = in_order l'.
Proof. intros H. unfold in_order. apply list_filter_iff. apply H. Qed.

Lemma step_actions s c l :
  (forall t, t ∈ taken s c -> acts t ⊆ l) -> (forall x, x ∈ l -> exists t, t ∈ taken s c /\ x ∈ acts t) ->
  (step s c).2 = in_order l.
Proof.
  intros H1 H2. apply in_order_ext. intros x. rewrite list_elem_of_bind. split.
  - intros (t & Hx & Ht). by eapply H1.
  - intros (t & Ht & Hx)%H2. by exists t.
Qed.
End machine.

(** ** Following a machine

    A set of states is known by a list it stays in and one state that is in it: what
    a byte does to every state of the list is checked by evaluation. *)

Section follow.
Context {A : Type} `{!EqDecision A} (order : list A).
Implicit Types (P Q : list (re A)) (r : re A) (c : Z) (l : list A).

Definition at_state P r (s : list (re A)) : Prop := s ⊆ P /\ r ∈ s.

Fixpoint ranges_eqb (l k : list (Z * Z)) : bool :=
  match l, k with
  | [], [] => true
  | (a, b) :: l, (c, d) :: k => (a =? c) && (b =? d) && ranges_eqb l k
  | _, _ => false
  end.
Fixpoint re_eqb (r k : re A) : bool :=
  match r, k with
  | Eps, Eps => true
  | Chars l, Chars l' => ranges_eqb l l'
  | Cat a b, Cat a' b' | Alt a b, Alt a' b' => if re_eqb a a' then re_eqb b b' else false
  | Star a, Star b => re_eqb a b
  | Enter x a, Enter y b | Leave x a, Leave y b | Finish x a, Finish y b => if bool_decide (x = y) then re_eqb a b else false
  | Every k n a, Every k' n' b | First k n a, First k' n' b | Last k n a, Last k' n' b =>
      if (k =? k')%nat && (n =? n')%nat then re_eqb a b else false
  | _, _ => false
  end.
Definition among (x : A) l : bool := existsb (λ y, bool_decide (x = y)) l.

Lemma ranges_eqb_eq (l k : list (Z * Z)) : ranges_eqb l k = true -> l = k.
Proof.
  revert k. induction l as [|[a b] l IH]; intros [|[c d] k]; try done. cbn.
  rewrite !andb_true_iff, !Z.eqb_eq. by intros [[-> ->] ->%IH].
Qed.
Lemma re_eqb_eq r k : re_eqb r k = true -> r = k.
Proof.
  revert k. induction r; intros []; cbn; try done;
    repeat match goal with |- context [if ?b then _ else _] => destruct b eqn:?; [|done] end;
    rewrite ?bool_decide_eq_true, ?andb_true_iff, ?Nat.eqb_eq in *; intros; destruct_and?; f_equal; eauto using ranges_eqb_eq.
Qed.
Lemma among_elem x l : among x l = true <-> x ∈ l.
Proof.
  unfold among. rewrite existsb_exists. split.
  - by intros (y & Hy%list_elem_of_In & ->%bool_decide_eq_true).
  - intros Hx. exists x. split; [by apply list_elem_of_In|by apply bool_decide_eq_true].
Qed.

(** On [c] every state of [P] goes to [Q] with actions of [l], by the transitions that
    those of [r] do not beat; [r] goes to [r'], and its transitions have all the
    actions, by those that nothing beats. *)
Definition moves P Q r r' c l : bool :=
  let best := List.filter (λ t, negb (existsb (λ x, existsb (λ t', beats t' t) (deriv x c)) P)) (deriv r c) in
  forallb (λ x, forallb (λ t, existsb (λ t', beats t' t) (deriv r c) ||
    existsb (re_eqb (to t)) Q && forallb (λ e, among e l) (acts t)) (deriv x c)) P &&
  existsb (λ t, re_eqb (to t) r') best && forallb (λ e, existsb (λ t, among e (acts t)) best) l.

Lemma moves_step P Q r r' c l s :
  moves P Q r r' c l = true -> at_state P r s ->
  exists y s', step order s c = (y :: s', in_order order l) /\ at_state Q r' (y :: s').
Proof.
  intros [[Hall Hr]%andb_true_iff Hl]%andb_true_iff [Hsub Hin].
  assert (forall t, t ∈ taken s c -> to t ∈ Q /\ acts t ⊆ l) as Hd.
  { intros t [(x & Hx & Ht) Hb]%taken_elem. pose proof (forallb_elem _ _ _ (forallb_elem _ _ _ Hall (Hsub x Hx)) Ht) as H. cbv beta in H.
    apply orb_true_iff in H as [H|[Hq Ha]%andb_true_iff].
    { apply existsb_exists in H as (t' & Ht'%list_elem_of_In & Hbt). rewrite (Hb r t') in Hbt; done. }
    apply existsb_exists in Hq as (y' & Hy'%list_elem_of_In & ->%re_eqb_eq). split; [done|].
    intros e He. by apply among_elem, (forallb_elem _ _ _ Ha). }
  assert (forall t, t ∈ List.filter (λ t, negb (existsb (λ x, existsb (λ t', beats t' t) (deriv x c)) P)) (deriv r c) -> t ∈ taken s c) as Hbest.
  { intros t Ht. rewrite list_elem_of_In, filter_In, <- list_elem_of_In, negb_true_iff in Ht. destruct Ht as [Ht Hb]. apply taken_elem.
    split; [by exists r|]. intros x t' Hx Ht'. apply not_true_is_false. intros Hbt. apply not_true_iff_false in Hb. apply Hb, existsb_exists.
    exists x. split; [by apply list_elem_of_In, Hsub|]. apply existsb_exists. exists t'. split; [by apply list_elem_of_In|done]. }
  apply existsb_exists in Hr as (t0 & Ht0%list_elem_of_In%Hbest & <-%re_eqb_eq).
  assert (to t0 ∈ (step order s c).1) as Hr' by (apply step_states; by exists t0).
  assert ((step order s c).2 = in_order order l) as Hact.
  { apply step_actions; [intros t Ht; by apply Hd|]. intros e He.
    pose proof (forallb_elem _ _ _ Hl He) as (t & Ht%list_elem_of_In%Hbest & Hea%among_elem)%existsb_exists. by exists t. }
  assert (forall y, y ∈ (step order s c).1 -> y ∈ Q) as Hsub'.
  { intros y (t & Ht & <-)%step_states. by apply Hd. }
  destruct (step order s c) as [s' l'] eqn:E. cbn in *. subst l'. destruct s' as [|y s']; [by apply not_elem_of_nil in Hr'|].
  exists y, s'. by split.
Qed.

Lemma at_state_final P r s : at_state P r s -> nullable r = true -> is_final s = true.
Proof. intros [_ Hr] Hn. apply existsb_exists. exists r. split; [by apply list_elem_of_In|done]. Qed.

(** A set of states that is known exactly. *)
Definition same_states P (s : list (re A)) : Prop := forall x, x ∈ s <-> x ∈ P.
(** On [c] the states [P] become [Q], with the actions [l]. *)
Definition goes P Q c l : bool :=
  let k := taken P c in
  forallb (λ t, existsb (re_eqb (to t)) Q && forallb (λ e, among e l) (acts t)) k &&
  forallb (λ q, existsb (λ t, re_eqb (to t) q) k) Q && forallb (λ e, existsb (λ t, among e (acts t)) k) l &&
  negb (length Q =? 0)%nat.

Lemma taken_same P s c t : same_states P s -> t ∈ taken s c <-> t ∈ taken P c.
Proof. intros H. rewrite !taken_elem. split; (intros [(r & Hr & Ht) Hb]; split; [exists r; split; [by apply H|done]|intros r' t' Hr'; apply Hb; by apply H]). Qed.

Lemma goes_step P Q c l s :
  goes P Q c l = true -> same_states P s ->
  exists y s', step order s c = (y :: s', in_order order l) /\ same_states Q (y :: s').
Proof.
  intros [[[Hall HQ]%andb_true_iff Hl]%andb_true_iff Hne]%andb_true_iff Hs.
  assert (forall x, x ∈ (step order s c).1 <-> x ∈ Q) as Hst.
  { intros x. rewrite step_states. split.
    - intros (t & Ht%(taken_same P s c t Hs) & <-). pose proof (forallb_elem _ _ _ Hall Ht) as [Hq _]%andb_true_iff.
      by apply existsb_exists in Hq as (q & Hq%list_elem_of_In & ->%re_eqb_eq).
    - intros Hx. pose proof (forallb_elem _ _ _ HQ Hx) as (t & Ht%list_elem_of_In & Et%re_eqb_eq)%existsb_exists.
      exists t. split; [by apply (taken_same P)|done]. }
  assert ((step order s c).2 = in_order order l) as Hact.
  { apply step_actions.
    - intros t Ht%(taken_same P s c t Hs). pose proof (forallb_elem _ _ _ Hall Ht) as [_ Ha]%andb_true_iff.
      intros e He. by apply among_elem, (forallb_elem _ _ _ Ha).
    - intros e He. pose proof (forallb_elem _ _ _ Hl He) as (t & Ht%list_elem_of_In & Hea%among_elem)%existsb_exists.
      exists t. split; [by apply (taken_same P)|done]. }
  destruct (step order s c) as [s' l'] eqn:E. cbn in *. subst l'. destruct s' as [|y s']; [|by exists y, s'].
  destruct Q as [|q Q]; [done|]. exfalso. apply (not_elem_of_nil q), Hst. by left.
Qed.

Lemma at_state_one r : at_state [r] r [r].
Proof. split; [done|by left]. Qed.
Lemma at_state_same r s : at_state [r] r s <-> same_states [r] s.
Proof.
  split.
  - intros [Hs Hr] x. split; [by apply Hs|]. by intros ->%list_elem_of_singleton.
  - intros H. split; [intros x Hx; by apply H|]. apply H. by left.
Qed.

(** The states of [P] are left with the actions of [l] at the end of the input. *)
Definition ends P r l : bool :=
  forallb (λ x, negb (nullable x) || forallb (λ e, among e l) (leaving x)) P &&
  nullable r && forallb (λ e, among e (leaving r)) l.

Lemma ends_eof P r l s :
  ends P r l = true -> at_state P r s -> is_final s = true /\ eof_actions order s = in_order order l.
Proof.
  intros [[Hall Hn]%andb_true_iff Hl]%andb_true_iff [Hsub Hin]. split.
  - by apply (at_state_final P r).
  - apply in_order_ext. intros e. rewrite list_elem_of_bind. split.
    + intros (x & He & Hx). destruct (nullable x) eqn:Hnx; [|by apply not_elem_of_nil in He].
      pose proof (forallb_elem _ _ _ Hall (Hsub x Hx)) as H. cbn in H. rewrite Hnx in H. cbn in H.
      by apply among_elem, (forallb_elem _ _ _ H).
    + intros He. exists r. rewrite Hn. split; [|done]. by apply among_elem, (forallb_elem _ _ _ Hl).
Qed.

(** The same for all bytes of some ranges. *)
Definition bytes : list Z := Z.of_nat <$> seq 0 256.
Definition all_moves P Q r r' (cls : list (Z * Z)) l : bool :=
  forallb (λ c, if in_ranges c cls then moves P Q r r' c l else true) bytes.

Lemma all_moves_in P Q r r' cls l c :
  all_moves P Q r r' cls l = true -> 0 <= c < 256 -> in_ranges c cls = true -> moves P Q r r' c l = true.
Proof.
  intros H Hc Hin. assert (c ∈ bytes) as Hb.
  { unfold bytes. apply list_elem_of_fmap. exists (Z.to_nat c). split; [lia|]. apply elem_of_seq. lia. }
  pose proof (forallb_elem _ _ c H Hb) as E. cbv beta in E. by rewrite Hin in E.
Qed.

(** The states that can be reached by some bytes. *)
Definition successors P (cs : list Z) : list (re A) := remove_dups (P ≫= λ r, cs ≫= λ c, to <$> deriv r c).
Fixpoint explore (fuel : nat) (cs : list Z) P : list (re A) :=
  match fuel with O => P | S fuel => explore fuel cs (remove_dups (P ++ successors P cs)) end.
(** The [k]-th of the transitions on [c]. *)
Definition nth_move (k : nat) r c : re A := from_option to Eps (deriv r c !! k).

(** ** Texts

    The first byte of a text starts an element, with its entering actions; inside an
    element nothing is done. *)

(** A text of bytes of some ranges and of percent-encoded bytes. *)
Fixpoint spelled (cls : list (Z * Z)) (t : list Z) : bool :=
  match t with
  | [] => true
  | c :: t' =>
      if c =? 37 then match t' with a :: b :: t'' => in_ranges a xdigit && in_ranges b xdigit && spelled cls t'' | _ => false end
      else in_ranges c cls && spelled cls t'
  end.
(** Its first byte. *)
Definition starts (cls : list (Z * Z)) (t : list Z) : bool :=
  match t with [] => false | c :: _ => (c =? 37) || in_ranges c cls end.
Definition plain (cls : list (Z * Z)) (t : list Z) : bool := forallb (λ c, in_ranges c cls) t.

Lemma spelled_ind cls (R : list Z -> Prop) :
  R [] -> (forall c t, in_ranges c cls = true -> R t -> R (c :: t)) ->
  (forall a b t, in_ranges a xdigit = true -> in_ranges b xdigit = true -> R t -> R (37 :: a :: b :: t)) ->
  forall t, spelled cls t = true -> R t.
Proof.
  intros H0 H1 H2. fix IH 1. intros [|c t]; [done|]. cbn [spelled]. destruct (Z.eqb_spec c 37) as [->|].
  - destruct t as [|a [|b t]]; try done. intros [[Ha Hb]%andb_true_iff Ht]%andb_true_iff. by apply H2; [| |apply IH].
  - intros [Hc Ht]%andb_true_iff. by apply H1; [|apply IH].
Qed.

Lemma spelled_starts cls t : spelled cls t = true -> t <> [] -> starts cls t = true.
Proof. destruct t as [|c t]; [done|]. cbn. destruct (c =? 37); [done|]. by intros [-> _]%andb_true_iff. Qed.

Definition byte_ranges (cls : list (Z * Z)) : bool := forallb (λ '(a, b), (0 <=? a) && (b <? 256)) cls.
Lemma in_ranges_byte cls c : byte_ranges cls = true -> in_ranges c cls = true -> 0 <= c < 256.
Proof.
  unfold byte_ranges, in_ranges. rewrite forallb_forall, existsb_exists. intros H ([a b] & Hin & Hc).
  apply H in Hin. rewrite !andb_true_iff in *. lia.
Qed.

(** The state behind a text on which no action is executed. *)
Fixpoint quietly (s : list (re A)) (t : list Z) : option (list (re A)) :=
  match t with
  | [] => Some s
  | c :: t => match step order s c with (y :: s', []) => quietly (y :: s') t | _ => None end
  end.
(** The state behind a text whose first byte executes the actions [l]. *)
Definition enters l (s : list (re A)) (t : list Z) (s' : list (re A)) : Prop :=
  exists c t' y s1, t = c :: t' /\ step order s c = (y :: s1, in_order order l) /\ quietly (y :: s1) t' = Some s'.

Lemma in_order_nil : in_order order [] = [].
Proof. unfold in_order. induction order as [|x o IH]; [done|]. by rewrite filter_cons_False by apply not_elem_of_nil. Qed.

Lemma moves_quietly P Q r r' c s :
  moves P Q r r' c [] = true -> at_state P r s ->
  exists s', at_state Q r' s' /\ forall t, quietly s (c :: t) = quietly s' t.
Proof.
  intros Hm Hs. destruct (moves_step P Q r r' c [] s Hm Hs) as (y & s' & E & Hs'). rewrite in_order_nil in E.
  exists (y :: s'). split; [done|]. intros t. cbn [quietly]. by rewrite E.
Qed.
Lemma all_moves_quietly P Q r r' cls c s :
  byte_ranges cls = true -> all_moves P Q r r' cls [] = true -> in_ranges c cls = true -> at_state P r s ->
  exists s', at_state Q r' s' /\ forall t, quietly s (c :: t) = quietly s' t.
Proof. intros Hb Hm Hc Hs. eapply moves_quietly; [|done]. by eapply all_moves_in, Hc; [|eapply in_ranges_byte]. Qed.

Lemma goes_quietly P Q c s :
  goes P Q c [] = true -> same_states P s -> exists s', same_states Q s' /\ forall t, quietly s (c :: t) = quietly s' t.
Proof.
  intros Hm Hs. destruct (goes_step P Q c [] s Hm Hs) as (y & s' & E & Hs'). rewrite in_order_nil in E.
  exists (y :: s'). split; [done|]. intros t. cbn [quietly]. by rewrite E.
Qed.
(** A fixed text from exactly these states. *)
Fixpoint goes_word P (t : list Z) Q : bool :=
  match t with
  | [] => forallb (λ x, existsb (re_eqb x) Q) P && forallb (λ x, existsb (re_eqb x) P) Q
  | c :: t => let P1 := to <$> taken P c in goes P P1 c [] && goes_word P1 t Q
  end.
Lemma goes_word_quietly P t Q s :
  goes_word P t Q = true -> same_states P s -> exists s', same_states Q s' /\ quietly s t = Some s'.
Proof.
  assert (forall (X Y : list (re A)) x, forallb (λ x, existsb (re_eqb x) Y) X = true -> x ∈ X -> x ∈ Y) as Hsub.
  { intros X Y x H Hx. pose proof (forallb_elem _ _ _ H Hx) as (y & Hy%list_elem_of_In & ->%re_eqb_eq)%existsb_exists. done. }
  revert P s. induction t as [|c t IH]; intros P s; cbn [goes_word].
  - intros [H1 H2]%andb_true_iff Hs. exists s. split; [|done]. intros x. rewrite (Hs x). split; by apply Hsub.
  - intros [Hm Hw]%andb_true_iff Hs. destruct (goes_quietly _ _ c s Hm Hs) as (s1 & Hs1 & E). rewrite E. by apply (IH _ _ Hw).
Qed.
(** All bytes of some ranges, and texts of them. *)
Definition all_goes P Q (cls : list (Z * Z)) l : bool := forallb (λ c, if in_ranges c cls then goes P Q c l else true) bytes.
Lemma all_goes_in P Q cls l c : byte_ranges cls = true -> all_goes P Q cls l = true -> in_ranges c cls = true -> goes P Q c l = true.
Proof.
  intros Hcls H Hin. pose proof (in_ranges_byte cls c Hcls Hin) as Hc. assert (c ∈ bytes) as Hb.
  { unfold bytes. apply list_elem_of_fmap. exists (Z.to_nat c). split; [lia|]. apply elem_of_seq. lia. }
  pose proof (forallb_elem _ _ c H Hb) as E. cbv beta in E. by rewrite Hin in E.
Qed.
Lemma goes_plain P cls s t :
  byte_ranges cls = true -> all_goes P P cls [] = true -> plain cls t = true -> same_states P s ->
  exists s', same_states P s' /\ quietly s t = Some s'.
Proof.
  intros Hcls Hall. revert s. induction t as [|c t IH]; intros s Ht Hs; [by exists s|]. cbn in Ht. apply andb_true_iff in Ht as [Hc Ht].
  destruct (goes_quietly P P c s) as (s1 & Hs1 & E); [by eapply all_goes_in|done|]. rewrite E. by apply IH.
Qed.

Lemma goes_enters P Q V c t l s :
  goes P Q c l = true -> same_states P s ->
  (forall s1, same_states Q s1 -> exists s', same_states V s' /\ quietly s1 t = Some s') ->
  exists s', same_states V s' /\ enters l s (c :: t) s'.
Proof.
  intros Hm Hs Ht. destruct (goes_step P Q c l s Hm Hs) as (y & s1 & E & Hs1). destruct (Ht _ Hs1) as (s' & Hs' & Hq).
  exists s'. split; [done|]. by exists c, t, y, s1.
Qed.

(** A fixed text, along the first transitions. *)
Fixpoint word r (t : list Z) r' : bool :=
  match t with
  | [] => re_eqb r r'
  | c :: t => let r1 := nth_move 0 r c in moves [r] [r1] r r1 c [] && word r1 t r'
  end.
Lemma word_quietly r t r' s : word r t r' = true -> at_state [r] r s -> exists s', at_state [r'] r' s' /\ quietly s t = Some s'.
Proof.
  revert r s. induction t as [|c t IH]; intros r s; cbn [word].
  - intros <-%re_eqb_eq Hs. by exists s.
  - intros [Hm Hw]%andb_true_iff Hs. destruct (moves_quietly _ _ _ _ c s Hm Hs) as (s1 & Hs1 & E). rewrite E. by apply (IH _ _ Hw).
Qed.

Section element.
Context (P : list (re A)) (r r1 r2 : re A) (cls : list (Z * Z)).
Context (Hcls : byte_ranges cls = true) (Hloop : all_moves P P r r cls [] = true).

Lemma quietly_plain s t : plain cls t = true -> at_state P r s -> exists s', at_state P r s' /\ quietly s t = Some s'.
Proof.
  revert s. induction t as [|c t IH]; intros s Ht Hs; [by exists s|]. cbn in Ht. apply andb_true_iff in Ht as [Hc Ht].
  destruct (all_moves_quietly P P r r cls c s) as (s1 & Hs1 & E1); try done. rewrite E1. by apply IH.
Qed.

(** [r1] is behind a percent sign, [r2] behind the first digit. *)
Context (Hpct : moves P P r r1 37 [] = true) (Hx1 : all_moves P P r1 r2 xdigit [] = true) (Hx2 : all_moves P P r2 r xdigit [] = true).

Lemma quietly_hex a b s :
  in_ranges a xdigit = true -> in_ranges b xdigit = true -> at_state P r1 s ->
  exists s', at_state P r s' /\ forall t, quietly s (a :: b :: t) = quietly s' t.
Proof.
  intros Ha Hb Hs. destruct (all_moves_quietly P P r1 r2 xdigit a s) as (s1 & Hs1 & E1); try done.
  destruct (all_moves_quietly P P r2 r xdigit b s1) as (s2 & Hs2 & E2); try done. exists s2. split; [done|]. intros. by rewrite E1, E2.
Qed.

Lemma quietly_spelled s t : spelled cls t = true -> at_state P r s -> exists s', at_state P r s' /\ quietly s t = Some s'.
Proof.
  intros Ht. revert t Ht s. refine (spelled_ind cls _ _ _ _).
  - intros s Hs. by exists s.
  - intros c t Hc IH s Hs. destruct (all_moves_quietly P P r r cls c s) as (s1 & Hs1 & E1); try done. rewrite E1. by apply IH.
  - intros a b t Ha Hb IH s Hs. destruct (moves_quietly P P r r1 37 s Hpct Hs) as (s1 & Hs1 & E1). rewrite E1.
    destruct (quietly_hex a b s1 Ha Hb Hs1) as (s2 & Hs2 & E2). rewrite E2. by apply IH.
Qed.

(** From a state in front of the element, the bytes [cls0] start it. *)
Context (P0 : list (re A)) (r0 : re A) (cls0 : list (Z * Z)) (l : list A).
Context (Hcls0 : byte_ranges cls0 = true) (Hfirst : all_moves P0 P r0 r cls0 l = true).

Lemma enters_plain s c t :
  in_ranges c cls0 = true -> plain cls t = true -> at_state P0 r0 s -> exists s', at_state P r s' /\ enters l s (c :: t) s'.
Proof.
  intros Hc Ht Hs.
  destruct (moves_step P0 P r0 r c l s) as (y & s1 & E & Hs1); [by eapply all_moves_in, Hc; [|eapply in_ranges_byte]|done|].
  destruct (quietly_plain _ t Ht Hs1) as (s' & Hs' & E'). exists s'. split; [done|]. by exists c, t, y, s1.
Qed.

Context (Hfirst1 : moves P0 P r0 r1 37 l = true).

Lemma enters_spelled s t :
  starts cls0 t = true -> spelled cls t = true -> at_state P0 r0 s -> exists s', at_state P r s' /\ enters l s t s'.
Proof.
  intros H0 Ht Hs. destruct t as [|c t]; [done|]. cbn [spelled] in Ht. cbn [starts] in H0. destruct (Z.eqb_spec c 37) as [->|].
  - destruct t as [|a [|b t]]; try done. apply andb_true_iff in Ht as [[Ha Hb]%andb_true_iff Ht].
    destruct (moves_step P0 P r0 r1 37 l s Hfirst1 Hs) as (y & s1 & E & Hs1).
    destruct (quietly_hex a b _ Ha Hb Hs1) as (s2 & Hs2 & E2). destruct (quietly_spelled s2 t Ht Hs2) as (s' & Hs' & E').
    exists s'. split; [done|]. exists 37, (a :: b :: t), y, s1. split_and!; [done|done|]. by rewrite E2.
  - apply andb_true_iff in Ht as [_ Ht].
    destruct (moves_step P0 P r0 r c l s) as (y & s1 & E & Hs1); [by eapply all_moves_in, H0; [|eapply in_ranges_byte]|done|].
    destruct (quietly_spelled _ t Ht Hs1) as (s' & Hs' & E'). exists s'. split; [done|]. by exists c, t, y, s1.
Qed.
End element.
End follow.
