(* ===== verification/RagelRun.v ===== *)
(** * Running a Ragel machine over a buffer

    The loop that [write exec] generates, for machines whose actions have a current
    byte and can stop the loop ([fbreak]), and the elements of a message it reports by
    callbacks. *)

From S2P Require Import Prelude Text Ragel.

(** A call of the generated function: the object it works on and the callbacks that
    were made. *)
Record Call (P E : Type) := mkCall { parser : P; events : list E }.
Arguments mkCall {P E} _ _.
Arguments parser {P E} _.
Arguments events {P E} _.
Definition on_parser {P E} (g : P -> P) (s : Call P E) : Call P E := mkCall (g (parser s)) (events s).
Definition emit {P E} (e : E) (s : Call P E) : Call P E := mkCall (parser s) (events s ++ [e]).

Section run.
Context {A St : Type} `{!EqDecision A} (order : list A).
(** Whether the loop goes on. *)
Variable do_action : nat -> A -> M St bool.

Fixpoint do_actions (fpc : nat) (l : list A) : M St bool :=
  match l with
  | [] => mret true
  | a :: l => b ← do_action fpc a; if b : bool then do_actions fpc l else mret false
  end.

(** The state and [p] in the end. *)
Fixpoint run (s : list (re A)) (fpc : nat) (p : list Z) : M St (list (re A) * nat) :=
  match p with
  | [] => mret (s, fpc)
  | c :: p =>
      match step order s c with
      | ([], _) => mret ([], fpc)
      | (s, l) => b ← do_actions fpc l; if b : bool then run s (S fpc) p else mret (s, S fpc)
      end
  end.

(** One byte whose actions all go on. *)
Lemma run_step s c y s' l fpc p st st' :
  step order s c = (y :: s', l) -> do_actions fpc l st = (Ret true, st') ->
  run s fpc (c :: p) st = run (y :: s') (S fpc) p st'.
Proof. intros E Ea. cbn [run]. rewrite E. by erewrite bind_Ret by exact Ea. Qed.
Lemma run_quietly s t s' fpc p st :
  quietly order s t = Some s' -> run s fpc (t ++ p) st = run s' (fpc + length t) p st.
Proof.
  revert s fpc. induction t as [|c t IH]; intros s fpc H; cbn [quietly app length] in *.
  - injection H as <-. by rewrite Nat.add_0_r.
  - destruct (step order s c) as [[|y s1] [|]] eqn:E; try discriminate.
    erewrite run_step by (exact E || reflexivity). rewrite (IH _ _ H). by rewrite Nat.add_succ_comm.
Qed.
Lemma run_enters l s t s' fpc p st st' :
  enters order l s t s' -> do_actions fpc (in_order order l) st = (Ret true, st') ->
  run s fpc (t ++ p) st = run s' (fpc + length t) p st'.
Proof.
  intros (c & t' & y & s1 & -> & E & Hq) Ea. cbn [app]. erewrite run_step by (exact E || exact Ea).
  rewrite (run_quietly _ _ _ _ _ _ Hq). f_equal. cbn. lia.
Qed.

(** What every action keeps. *)
Lemma run_inv (I : St -> Prop) (n : nat) :
  (forall fpc a st, (fpc < n)%nat -> I st -> I (do_action fpc a st).2) ->
  forall p s fpc st, (fpc + length p <= n)%nat -> I st -> I (run s fpc p st).2.
Proof.
  intros Hact. assert (forall l fpc st, (fpc < n)%nat -> I st -> I (do_actions fpc l st).2) as Hacts.
  { induction l as [|a l IH]; intros fpc st Hf Hi; [done|]. cbn [do_actions]. unfold mbind, M_bind.
    pose proof (Hact fpc a st Hf Hi) as H. destruct (do_action fpc a st) as [[[]|e|f] st']; try done. by apply IH. }
  induction p as [|c p IH]; intros s fpc st Hf Hi; [done|]. cbn [run length] in *. destruct (step order s c) as [[|y s'] l]; [done|].
  unfold mbind, M_bind. pose proof (Hacts l fpc st ltac:(lia) Hi) as H. destruct (do_actions fpc l st) as [[[]|e|f] st']; try done.
  apply IH; [lia|done].
Qed.
End run.

(** ** Elements of a message *)

(** [PTR_TO(start)] with the length [LEN(start, fpc)]. *)
Definition slice (buffer : list Z) (start fpc : nat) : list Z := take (fpc - start) (drop start buffer).

Lemma slice_eq u pre v post : u = pre ++ v ++ post -> slice u (length pre) (length pre + length v) = v.
Proof.
  intros ->. unfold slice. rewrite drop_app_length. replace (length pre + length v - length pre)%nat with (length v) by lia.
  by rewrite take_app_length.
Qed.

Section elements.
Context {A P E : Type} `{!EqDecision A} (order : list A).
Variable do_action : list Z -> nat -> A -> M (Call P E) bool.
(** What the callers rely on between elements. *)
Variable ok : P -> Prop.

(** Over [t] the machine goes from [s] to [s'] and makes the callbacks [evs]. *)
Definition reads (s : list (re A)) (t : list Z) (s' : list (re A)) (evs : list E) : Prop :=
  forall u pre post p ev, u = pre ++ t ++ post -> ok p ->
  exists p', ok p' /\
    run order (do_action u) s (length pre) (t ++ post) (mkCall p ev) =
    run order (do_action u) s' (length (pre ++ t)) post (mkCall p' (ev ++ evs)).

Lemma reads_app s t1 s1 e1 t2 s2 e2 : reads s t1 s1 e1 -> reads s1 t2 s2 e2 -> reads s (t1 ++ t2) s2 (e1 ++ e2).
Proof.
  intros H1 H2 u pre post p ev Hu Hp. rewrite <- app_assoc in *.
  destruct (H1 u pre (t2 ++ post) p ev Hu Hp) as (p1 & Hp1 & ->).
  destruct (H2 u (pre ++ t1) post p1 (ev ++ e1)) as (p2 & Hp2 & ->); [by rewrite Hu, <- app_assoc|done|].
  exists p2. split; [done|]. by rewrite !app_assoc.
Qed.
Lemma reads_nil s : reads s [] s [].
Proof. intros u pre post p ev _ Hp. exists p. by rewrite !app_nil_r. Qed.
Lemma reads_quietly s t s' : quietly order s t = Some s' -> reads s t s' [].
Proof.
  intros H u pre post p ev _ Hp. exists p. split; [done|]. rewrite (run_quietly _ _ _ _ _ _ _ _ H), app_nil_r.
  by rewrite length_app.
Qed.

(** An element whose first byte sets a mark and whose end, seen at the byte behind it,
    reports the text from the mark and may keep something of it. *)
Lemma reads_marked (set : nat -> P -> P) (get : P -> nat) (keep : list Z -> P -> P) l0 l K Q R r r' s v s1 c :
  (forall n p, get (set n p) = n) -> (forall n p, ok p -> ok (set n p)) -> (forall u p, ok p -> ok (keep u p)) ->
  (forall u fpc p ev, do_actions (do_action u) fpc (in_order order l0) (mkCall p ev) = (Ret true, mkCall (set fpc p) ev)) ->
  (forall u fpc p ev, (get p <= fpc)%nat -> do_actions (do_action u) fpc (in_order order l) (mkCall p ev) =
     (Ret true, mkCall (keep u p) (ev ++ [K (slice u (get p) fpc)]))) ->
  enters order l0 s v s1 -> moves Q R r r' c l = true -> at_state Q r s1 ->
  exists s2, at_state R r' s2 /\ reads s (v ++ [c]) s2 [K v].
Proof.
  intros Hget Hset Hkeep H0 Hl He Hm Hs1. destruct (moves_step order _ _ _ _ _ _ _ Hm Hs1) as (y & s2 & E1 & Hs2).
  exists (y :: s2). split; [exact Hs2|]. intros u pre post p ev Hu Hp. exists (keep u (set (length pre) p)). split; [by apply Hkeep, Hset|].
  rewrite <- app_assoc in *. erewrite run_enters; [|exact He|apply H0]. cbn [app].
  erewrite run_step; [|exact E1|apply Hl; rewrite Hget; lia]. rewrite Hget, (slice_eq u pre v ([c] ++ post)) by exact Hu.
  f_equal. rewrite !length_app. cbn. lia.
Qed.
End elements.
