(* ===== verification/HttpGrammar.v ===== *)
(** * The parser of requests: src/sylar/http/http11_parser.{h,rl}

    The grammar of http11_parser.rl as an expression of Ragel.v, the actions of its
    machine over [http_parser], [http_parser_execute], and the instance of the
    interface of HttpSession.v it makes.

    Some operators of the grammar do not mean what they look like: [-] is the
    difference of two expressions, so ["1"-"9"] is the digit 1 and [0 - 31] the byte
    0, and a number in front of a parenthesis is the byte with that code. *)

From S2P Require Import Prelude Text Ragel RagelRun Stream Servlet HttpResponse Http HttpSession.

Inductive action :=
| mark | start_field | write_field | start_value | write_value | request_method | request_uri | fragment
| start_query | query_string | http_version | request_path | done | xml | json.
#[global] Instance action_eq_dec : EqDecision action.
Proof. solve_decision. Defined.

(** ** The grammar *)

Section grammar.
Abbreviation G := (re action).
(** [parser->uri_relaxed], which nothing initialises. *)
Variable uri_relaxed : bool.

Definition byte (c : Z) : G := Chars [(c, c)].
Definition CRLF_expr : G := Alt (cats [byte 13; byte 10]) (byte 10).

Definition more_delims : list (Z * Z) := if uri_relaxed then one_of "{}^" else [].
Definition sub_delims : list (Z * Z) := one_of "!$&'()*+,;=" ++ more_delims.
Definition unreserved : list (Z * Z) := alpha ++ digit ++ one_of "-._~".
Definition pct_encoded : G := cats [lit "%"; Chars xdigit; Chars xdigit].
Definition pchar : G := alts [Chars non_ascii; Chars unreserved; pct_encoded; Chars sub_delims; lit ":"; lit "@"].

Definition fragment_expr : G := Leave fragment (Enter mark (Star (alts [pchar; lit "/"; lit "?"]))).
Definition query_expr : G := Leave query_string (Star (alts [pchar; lit "/"; lit "?"])).

Definition segment_nz_nc : G := Plus (alts [Chars unreserved; pct_encoded; Chars sub_delims; lit "@"]).
Definition segment_nz : G := Plus pchar.
Definition segment : G := Star pchar.
Definition path_empty : G := Eps.
Definition path_rootless : G := Cat segment_nz (Star (Cat (lit "/") segment)).
Definition path_noscheme : G := Cat segment_nz_nc (Star (Cat (lit "/") segment)).
Definition path_absolute : G := Cat (lit "/") (Opt (Cat segment_nz (Star (Cat (lit "/") segment)))).
Definition path_abempty : G := Star (Cat (lit "/") segment).

Definition reg_name : G := Star (alts [Chars unreserved; pct_encoded; Chars sub_delims]).
Definition dec_octet : G :=
  alts [Chars digit; cats [lit "1"; Chars digit]; cats [lit "1"; Chars digit; Chars digit];
        cats [lit "2"; lit "0"; Chars digit]; cats [lit "25"; lit "0"]].
Definition IPv4address : G := cats [dec_octet; lit "."; dec_octet; lit "."; dec_octet; lit "."; dec_octet].
Definition h16 : G := upto 4 (Chars xdigit).
Definition h16c : G := Cat h16 (lit ":").
Definition ls32 : G := Alt (cats [h16; lit ":"; h16]) IPv4address.
(** [((h16 ":"){n,} h16)?] *)
Definition h16s (n : nat) : G := Opt (cats [times n h16c; Star h16c; h16]).
Definition IPv6address : G :=
  alts [cats [byte 6; h16c; ls32]; cats [lit "::"; byte 5; h16c; ls32]; cats [Opt h16; lit "::"; byte 4; h16c; ls32];
        cats [h16s 1; lit "::"; byte 3; h16c; ls32]; cats [h16s 2; lit "::"; byte 2; h16c; ls32];
        cats [h16s 3; lit "::"; h16c; ls32]; cats [h16s 4; lit "::"; ls32]; cats [h16s 5; lit "::"; h16]; Cat (h16s 6) (lit "::")].
Definition IPvFuture : G := cats [lit "v"; Plus (Chars xdigit); lit "."; Plus (alts [Chars unreserved; Chars sub_delims; lit ":"])].
Definition IP_literal : G := cats [lit "["; Alt IPv6address IPvFuture; lit "]"].
Definition port : G := Star (Chars digit).
Definition host : G := alts [IP_literal; IPv4address; reg_name].
Definition userinfo : G := Star (alts [Chars unreserved; pct_encoded; Chars sub_delims; lit ":"]).
Definition authority : G := cats [Opt (Cat userinfo (lit "@")); host; Opt (Cat (lit ":") port)].
Definition scheme : G := Cat (Chars alpha) (Star (Chars (alpha ++ digit ++ one_of "+-."))).

Definition relative_part : G := alts [cats [lit "//"; authority; path_abempty]; path_absolute; path_noscheme; path_empty].
Definition hier_part : G := alts [cats [lit "//"; authority; path_abempty]; path_absolute; path_rootless; path_empty].
(** [(part %request_path ("?" %start_query query)?) >mark %request_uri ("#" fragment)?] *)
Definition reference (part : G) : G :=
  Cat (Leave request_uri (Enter mark (Cat (Leave request_path part) (Opt (Cat (Leave start_query (lit "?")) query_expr)))))
      (Opt (Cat (lit "#") fragment_expr)).
Definition relative_ref : G := reference relative_part.
Definition URI : G := cats [scheme; lit ":"; reference hier_part].
Definition URI_reference : G := Alt URI relative_ref.

Definition Method : G := Leave request_method (Enter mark (upto 20 (Chars (upper ++ digit)))).
Definition http_number : G := Cat (lit "1.") (Alt (lit "0") (lit "1")).
Definition HTTP_Version : G := Leave http_version (Enter mark (Cat (lit "HTTP/") http_number)).
Definition Request_Line : G := cats [Method; lit " "; URI_reference; lit " "; HTTP_Version; CRLF_expr].

(** [ascii -- (HTTP_CTL | HTTP_separator)] and [any -- HTTP_CTL] *)
Definition token_chars : list (Z * Z) :=
  [(1, 8); (10, 31); (33, 33); (35, 39); (42, 43); (45, 46); (48, 57); (65, 90); (94, 122); (124, 124); (126, 126)].
Definition text_chars : list (Z * Z) := [(1, 126); (128, 255)].
Definition lws : G := Cat (Opt CRLF_expr) (Plus (Chars (one_of " " ++ [(9, 9)]))).
Definition content : G := Alt (Chars text_chars) lws.
Definition field_name : G := Leave write_field (Enter start_field (Plus (Chars token_chars))).
Definition field_value : G := Leave write_value (Enter start_value (Star content)).
Definition message_header : G := guarded 0 (cats [field_name; lit ":"; Star lws; field_value]) CRLF_expr.
Definition Request : G := cats [Request_Line; Star message_header; CRLF_expr].

Definition SocketJSONStart : G := Cat (lit "@") relative_part.
Definition SocketJSONData : G := finish_guarded 1 (cats [lit "{"; Star (Chars any); lit "}"]) (byte 0).
Definition SocketXMLData : G :=
  finish_guarded 2 (cats [Leave request_path (Enter mark (Cat (lit "<") (Plus (Chars ([(97, 122)] ++ digit ++ [(65, 90)] ++ one_of "-.")))));
                          Chars (one_of "/>" ++ space); Star (Chars any); lit ">"]) (byte 0).
Definition SocketJSON : G :=
  cats [Leave request_path (Enter mark SocketJSONStart); lit " "; Finish json (Enter mark SocketJSONData)].
Definition SocketXML : G := Finish xml SocketXMLData.
Definition main_expr : G := Finish done (Alt Request (Alt SocketXML SocketJSON)).
End grammar.

Abbreviation numbered_action := (nat * action)%type.
Abbreviation state := (re numbered_action).
Definition http_machine (uri_relaxed : bool) : state := (number 0 (main_expr uri_relaxed)).1.
Definition http_actions : list numbered_action := Eval vm_compute in numbered (http_machine false).

(** ** [http_parser] *)

Record http_parser := mkHttpParser {
  cs : list state;                 (** none: the error state *)
  body_start : Z; content_len : Z; parser_mark : nat; nread : Z;
  field_start : nat; field_len : nat; query_start : nat; xml_sent : bool; json_sent : bool;
}.
Abbreviation ParserCall := (Call http_parser request_event).

Definition with_cs (v : list state) (p : http_parser) : http_parser :=
  mkHttpParser v (body_start p) (content_len p) (parser_mark p) (nread p) (field_start p) (field_len p) (query_start p) (xml_sent p) (json_sent p).
Definition with_body_start (v : Z) (p : http_parser) : http_parser :=
  mkHttpParser (cs p) v (content_len p) (parser_mark p) (nread p) (field_start p) (field_len p) (query_start p) (xml_sent p) (json_sent p).
Definition with_content_len (v : Z) (p : http_parser) : http_parser :=
  mkHttpParser (cs p) (body_start p) v (parser_mark p) (nread p) (field_start p) (field_len p) (query_start p) (xml_sent p) (json_sent p).
Definition with_mark (v : nat) (p : http_parser) : http_parser :=
  mkHttpParser (cs p) (body_start p) (content_len p) v (nread p) (field_start p) (field_len p) (query_start p) (xml_sent p) (json_sent p).
Definition with_nread (v : Z) (p : http_parser) : http_parser :=
  mkHttpParser (cs p) (body_start p) (content_len p) (parser_mark p) v (field_start p) (field_len p) (query_start p) (xml_sent p) (json_sent p).
Definition with_field (start flen : nat) (p : http_parser) : http_parser :=
  mkHttpParser (cs p) (body_start p) (content_len p) (parser_mark p) (nread p) start flen (query_start p) (xml_sent p) (json_sent p).
Definition with_query_start (v : nat) (p : http_parser) : http_parser :=
  mkHttpParser (cs p) (body_start p) (content_len p) (parser_mark p) (nread p) (field_start p) (field_len p) v (xml_sent p) (json_sent p).
Definition with_sent (x j : bool) (p : http_parser) : http_parser :=
  mkHttpParser (cs p) (body_start p) (content_len p) (parser_mark p) (nread p) (field_start p) (field_len p) (query_start p) x j.

(** [query_start] is not initialised; it is set before it is used. *)
Definition http_parser_init (uri_relaxed : bool) : http_parser :=
  mkHttpParser [http_machine uri_relaxed] 0 0 0 0 0 0 0 false false.

Section execute.
Variable buffer : list Z.

(** Whether the machine goes on ([false] is [fbreak]).  The callback of [request_uri] and
    of [header_done] does nothing. *)
Definition do_action (fpc : nat) (a : action) : M ParserCall bool :=
  p ← gets parser;
  match a with
  | mark | start_value => _ ← modify (on_parser (with_mark fpc)); mret true
  | start_field => _ ← modify (on_parser (with_field fpc (field_len p))); mret true
  | write_field => _ ← modify (on_parser (with_field (field_start p) (fpc - field_start p))); mret true
  | write_value =>
      _ ← modify (emit (EvField (take (field_len p) (drop (field_start p) buffer)) (slice buffer (parser_mark p) fpc))); mret true
  | request_method => _ ← modify (emit (EvMethod (slice buffer (parser_mark p) fpc))); mret true
  | request_uri => mret true
  | fragment => _ ← modify (emit (EvFragment (slice buffer (parser_mark p) fpc))); mret true
  | start_query => _ ← modify (on_parser (with_query_start fpc)); mret true
  | query_string =>
      (* the length of the string is negative when the mark is one of an earlier buffer *)
      if (query_start p <=? fpc)%nat then _ ← modify (emit (EvQuery (slice buffer (query_start p) fpc))); mret true
      else throw LogicError
  | http_version => _ ← modify (emit (EvVersion (slice buffer (parser_mark p) fpc))); mret true
  | request_path => _ ← modify (emit (EvPath (slice buffer (parser_mark p) fpc))); mret true
  | done =>
      _ ← modify (on_parser (if xml_sent p || json_sent p
            then with_content_len (i32 (Z.of_nat fpc - Z.of_nat (parser_mark p) + 1)) ∘ with_body_start (Z.of_nat (parser_mark p))
            else with_body_start (Z.of_nat fpc + 1)));
      mret false
  | xml => _ ← modify (on_parser (with_sent true (json_sent p))); mret true
  | json => _ ← modify (on_parser (with_sent (xml_sent p) true)); mret true
  end.

(** [write exec]: the state of the machine and [p] in the end. *)
Definition exec : list state -> nat -> list Z -> M ParserCall (list state * nat) :=
  run http_actions (λ fpc a, do_action fpc a.2).
End execute.

(** [http_parser_execute(parser, buffer, len, 0)] *)
Definition http_parser_execute (buffer : list Z) : M ParserCall Z :=
  if (length buffer =? 0)%nat then mret 0
  else
    _ ← modify (on_parser (with_field 0 0 ∘ with_mark 0 ∘ with_nread 0));
    p ← gets parser;
    '(s, n) ← exec buffer (cs p) 0 buffer;
    _ ← modify (on_parser (with_nread (Z.of_nat n) ∘ (if bool_decide (cs p = []) then λ p, p else with_cs s)));
    mret (Z.of_nat n).
Definition http_parser_has_error (p : http_parser) : bool := match cs p with [] => true | _ => false end.
Definition http_parser_is_finished (p : http_parser) : bool := is_final (cs p).

(** ** The machine of HttpSession.v

    A callback that raises leaves [http_parser_execute] and [execute]; the catch-all of
    the loop that reads a head returns a null pointer then, as it does for an error of
    the machine. *)
Record Driven := mkDriven { http_state : http_parser; raised : bool }.
Definition drive (p : Driven) (data : list Z) : list request_event * Z * Driven :=
  match http_parser_execute data (mkCall (http_state p) []) with
  | (Ret n, c) => (events c, n, mkDriven (parser c) (raised p))
  | (_, c) => (events c, 0, mkDriven (parser c) true)
  end.
#[global] Instance http11 (uri_relaxed : bool) : Machine Driven request_event := {|
  machine_init := mkDriven (http_parser_init uri_relaxed) false;
  machine_execute := drive;
  machine_finished p := http_parser_is_finished (http_state p);
  machine_error p := raised p || http_parser_has_error (http_state p);
  machine_content_len p := content_len (http_state p);
  machine_chunked _ := false;
|}.

(** ** What the machine makes of other texts *)

(** The callbacks, [nread] of the last call, and whether the machine has finished, for the
    buffers of several reads. *)
Fixpoint feed (p : Driven) (l : list (list Z)) : list request_event * Z * bool :=
  match l with
  | [] => ([], 0, false)
  | t :: l =>
      let '(ev, n, p) := drive p t in
      match l with
      | [] => (ev, n, http_parser_is_finished (http_state p))
      | _ => let '(ev', n, b) := feed p l in (ev ++ ev', n, b)
      end
  end.
Definition fresh : Driven := mkDriven (http_parser_init false) false.
Definition get_line : list request_event := [EvMethod (str "GET"); EvPath (str "/"); EvVersion (str "HTTP/1.1")].

(** An empty value is reported from the mark of the version. *)
Example empty_value :
  feed fresh [str "GET / HTTP/1.1" ++ CRLF ++ str "Host:" ++ CRLF ++ CRLF] =
    (get_line ++ [EvField (str "Host") (str "HTTP/1.1" ++ CRLF ++ str "Host:")], 25, true).
Proof. by vm_compute. Qed.

(** A method with a dash is refused, although the table has one. *)
Example dash_refused :
  feed fresh [str "M-SEARCH / HTTP/1.1" ++ CRLF ++ CRLF] = ([], 1, false) /\
  string_to_http_method (str "M-SEARCH") = MSEARCH.
Proof. by vm_compute. Qed.

(** An element that two reads share loses what the first read brought, a query raises an
    exception. *)
Example torn_elements :
  feed fresh [str "GET /ab"; str "cd HTTP/1.1" ++ CRLF ++ CRLF] =
    ([EvMethod (str "GET"); EvPath (str "cd"); EvVersion (str "HTTP/1.1")], 15, true) /\
  feed fresh [str "GET / HTTP/1.1" ++ CRLF ++ str "Ho"; str "st: a" ++ CRLF ++ CRLF] =
    (get_line ++ [EvField (str "st") (str "a")], 9, true) /\
  raised (drive (drive fresh (str "GET /ab?x=1")).2 (str "2 HTTP/1.1" ++ CRLF ++ CRLF)).2 = true.
Proof. by vm_compute. Qed.

(** Line ends are characters of names. *)
Example line_end_in_name :
  feed fresh [str "GET / HTTP/1.1" ++ CRLF ++ str "A" ++ CRLF ++ str "B: c" ++ CRLF ++ CRLF] =
    (get_line ++ [EvField (str "A" ++ CRLF ++ str "B") (str "c")], 27, true).
Proof. by vm_compute. Qed.
