(* ===== verification/HttpWire.v ===== *)
(** * Requests on the wire: http.cpp, http11_parser.rl, http_parser.cpp and http_session.cpp together

    What [operator<<] of [HttpRequest] prints is read by the machine of
    http11_parser.rl as exactly its elements, the callbacks of [HttpRequestParser] put
    them into a new request, and [recv_request] adds the body: the request arrives as
    it was sent. *)

From S2P Require Import Prelude Text Ragel RagelRun Stream HttpResponse Http Servlet HttpSession HttpGrammar.

(** ** The states of the machine along a request *)

(** Evaluated for either value of [uri_relaxed]. *)
Definition both {X} (f : bool -> X) (b : bool) : X := if b then f true else f false.
Definition ch (s : string) : Z := default 0 (head (str s)).

Definition path_chars := non_ascii ++ unreserved ++ sub_delims false ++ one_of ":@/".
Definition segment_chars := non_ascii ++ unreserved ++ sub_delims false ++ one_of ":@".
Definition query_chars := path_chars ++ one_of "?".
(** The characters of a name; of a value no line end, and no blank in front. *)
Definition name_chars : list (Z * Z) :=
  [(33, 33); (35, 39); (42, 43); (45, 46); (48, 57); (65, 90); (94, 122); (124, 124); (126, 126)].
Definition value_chars : list (Z * Z) := [(1, 9); (11, 12); (14, 126); (128, 255)].
Definition value_first : list (Z * Z) := [(1, 8); (11, 12); (14, 31); (33, 126); (128, 255)].

(** the target *)
Definition r_uri (b : bool) : state := Eval vm_compute in both (λ b, foldl (nth_move 0) (http_machine b) (str "GET ")) b.
Definition p_slash (b : bool) : list state := Eval vm_compute in both (λ b, to <$> deriv (r_uri b) (ch "/")) b.
Definition r_slash (b : bool) : state := Eval vm_compute in both (λ b, nth_move 1 (r_uri b) (ch "/")) b.
Definition r_path (b : bool) : state := Eval vm_compute in both (λ b, nth_move 0 (r_slash b) (ch "a")) b.
Definition r_path1 (b : bool) : state := Eval vm_compute in both (λ b, nth_move 0 (r_slash b) (ch "%")) b.
Definition r_path2 (b : bool) : state := Eval vm_compute in both (λ b, nth_move 0 (r_path1 b) (ch "0")) b.
Definition r_quest (b : bool) : state := Eval vm_compute in both (λ b, nth_move 0 (r_path b) (ch "?")) b.
Definition r_query (b : bool) : state := Eval vm_compute in both (λ b, nth_move 0 (r_quest b) (ch "x")) b.
Definition r_query1 (b : bool) : state := Eval vm_compute in both (λ b, nth_move 0 (r_quest b) (ch "%")) b.
Definition r_query2 (b : bool) : state := Eval vm_compute in both (λ b, nth_move 0 (r_query1 b) (ch "0")) b.
Definition r_hash (b : bool) : state := Eval vm_compute in both (λ b, nth_move 0 (r_path b) (ch "#")) b.
Definition r_frag (b : bool) : state := Eval vm_compute in both (λ b, nth_move 0 (r_hash b) (ch "x")) b.
Definition r_frag1 (b : bool) : state := Eval vm_compute in both (λ b, nth_move 0 (r_hash b) (ch "%")) b.
Definition r_frag2 (b : bool) : state := Eval vm_compute in both (λ b, nth_move 0 (r_frag1 b) (ch "0")) b.
(** the version and the headers *)
Definition r_ver : state := Eval vm_compute in nth_move 0 (r_path false) (ch " ").
Definition r_http : state := Eval vm_compute in nth_move 0 r_ver (ch "H").
Definition r_number : state := Eval vm_compute in foldl (nth_move 0) r_http (str "TTP/1.0").
Definition r_line : state := Eval vm_compute in nth_move 0 r_number 13.
Definition r_head : state := Eval vm_compute in nth_move 0 r_line 10.
Definition r_name : state := Eval vm_compute in nth_move 0 r_head (ch "x").
Definition r_colon : state := Eval vm_compute in nth_move 0 r_name (ch ":").
Definition p_blank : list state := Eval vm_compute in to <$> deriv r_colon (ch " ").
Definition r_blank : state := Eval vm_compute in nth_move 0 r_colon (ch " ").
Definition r_value : state := Eval vm_compute in nth_move 0 r_blank (ch "x").
Definition p_value : list state := Eval vm_compute in successors [r_value] (str "x ").
Definition r_cr : state := Eval vm_compute in nth_move 2 r_value 13.
Definition p_end : list state := Eval vm_compute in to <$> deriv r_head 13.
Definition r_end : state := Eval vm_compute in nth_move 1 r_head 13.
Definition p_done : list state := Eval vm_compute in successors p_end [10].
Definition r_done : state := Eval vm_compute in nth_move 0 r_end 10.

Ltac table := vm_compute; reflexivity.
Ltac tables b := destruct b; split_and!; table.
Definition methods : list (list Z) := filter (λ w, plain (upper ++ digit) w = true) HTTP_METHOD_MAP.*2.
(** A word in front of the target. *)
Definition method_word (b : bool) (w : list Z) : bool :=
  match w with
  | [] => false
  | c :: t =>
      let r1 := nth_move 0 (http_machine b) c in
      let r2 := foldl (nth_move 0) r1 t in
      moves [http_machine b] [r1] (http_machine b) r1 c [(0%nat, mark)] && word r1 t r2 &&
      moves [r2] [r_uri b] r2 (r_uri b) 32 [(1%nat, request_method)]
  end.
Lemma method_table b : forallb (method_word b) methods = true.
Proof. destruct b; table. Qed.

Lemma slash_table b :
  moves [r_uri b] (p_slash b) (r_uri b) (r_slash b) 47 [(9%nat, mark)] = true /\
  all_moves (p_slash b) [r_path b; r_path1 b; r_path2 b] (r_slash b) (r_path b) segment_chars [] = true /\
  moves (p_slash b) [r_path b; r_path1 b; r_path2 b] (r_slash b) (r_path1 b) 37 [] = true.
Proof. tables b. Qed.
Lemma target_path_table b (P := [r_path b; r_path1 b; r_path2 b]) :
  all_moves P P (r_path b) (r_path b) path_chars [] = true /\ moves P P (r_path b) (r_path1 b) 37 [] = true /\
  all_moves P P (r_path1 b) (r_path2 b) xdigit [] = true /\ all_moves P P (r_path2 b) (r_path b) xdigit [] = true.
Proof. tables b. Qed.
(** Behind the path, whether it goes on after the first slash or not. *)
Definition path_ends (b : bool) (P : list state) (r : state) : Prop :=
  moves P [r_quest b] r (r_quest b) 63 [(10%nat, request_path)] = true /\
  moves P [r_hash b] r (r_hash b) 35 [(10%nat, request_path); (13%nat, request_uri)] = true /\
  moves P [r_ver] r r_ver 32 [(10%nat, request_path); (13%nat, request_uri)] = true.
Lemma path_end_table b : path_ends b (p_slash b) (r_slash b) /\ path_ends b [r_path b; r_path1 b; r_path2 b] (r_path b).
Proof. unfold path_ends. tables b. Qed.
Lemma target_query_table b (P := [r_query b; r_query1 b; r_query2 b]) :
  all_moves [r_quest b] P (r_quest b) (r_query b) query_chars [(11%nat, start_query)] = true /\
  moves [r_quest b] P (r_quest b) (r_query1 b) 37 [(11%nat, start_query)] = true /\
  all_moves P P (r_query b) (r_query b) query_chars [] = true /\ moves P P (r_query b) (r_query1 b) 37 [] = true /\
  all_moves P P (r_query1 b) (r_query2 b) xdigit [] = true /\ all_moves P P (r_query2 b) (r_query b) xdigit [] = true /\
  moves P [r_hash b] (r_query b) (r_hash b) 35 [(12%nat, query_string); (13%nat, request_uri)] = true /\
  moves P [r_ver] (r_query b) r_ver 32 [(12%nat, query_string); (13%nat, request_uri)] = true.
Proof. tables b. Qed.
Lemma target_fragment_table b (P := [r_frag b; r_frag1 b; r_frag2 b]) :
  all_moves [r_hash b] P (r_hash b) (r_frag b) query_chars [(14%nat, mark)] = true /\
  moves [r_hash b] P (r_hash b) (r_frag1 b) 37 [(14%nat, mark)] = true /\
  all_moves P P (r_frag b) (r_frag b) query_chars [] = true /\ moves P P (r_frag b) (r_frag1 b) 37 [] = true /\
  all_moves P P (r_frag1 b) (r_frag2 b) xdigit [] = true /\ all_moves P P (r_frag2 b) (r_frag b) xdigit [] = true /\
  moves P [r_ver] (r_frag b) r_ver 32 [(15%nat, fragment)] = true.
Proof. tables b. Qed.
Lemma version_table :
  moves [r_ver] [r_http] r_ver r_http 72 [(16%nat, mark)] = true /\
  word r_http (str "TTP/1.0") r_number = true /\ word r_http (str "TTP/1.1") r_number = true /\
  moves [r_number] [r_line] r_number r_line 13 [(17%nat, http_version)] = true /\ word r_line [10] r_head = true.
Proof. split_and!; table. Qed.
Lemma field_table :
  all_moves [r_head] [r_name] r_head r_name name_chars [(18%nat, start_field)] = true /\
  all_moves [r_name] [r_name] r_name r_name name_chars [] = true /\
  moves [r_name] [r_colon] r_name r_colon 58 [(19%nat, write_field)] = true /\
  moves [r_colon] p_blank r_colon r_blank 32 [(20%nat, start_value)] = true /\
  all_moves p_blank p_value r_blank r_value value_first [(20%nat, start_value)] = true /\
  all_moves p_value p_value r_value r_value value_chars [] = true /\
  moves p_value [r_cr] r_value r_cr 13 [(21%nat, write_value)] = true /\ word r_cr [10] r_head = true.
Proof. split_and!; table. Qed.
Lemma end_table :
  moves [r_head] p_end r_head r_end 13 [(18%nat, start_field)] = true /\
  moves p_end p_done r_end r_done 10 [(29%nat, done)] = true /\ nullable r_done = true.
Proof. split_and!; table. Qed.

#[local] Opaque spelled at_state moves all_moves word.

(** ** The elements of a request *)

Abbreviation act u := (λ fpc a, do_action u fpc a.2).
(** A request that is not a message of the socket protocols. *)
Definition plain_request (p : http_parser) : Prop := xml_sent p = false /\ json_sent p = false /\ content_len p = 0.
Abbreviation http_reads := (reads http_actions (λ u fpc a, do_action u fpc a.2) plain_request).

(** The marks in front of an element and the reports behind it. *)
Lemma do_marks u fpc p ev :
  do_actions (act u) fpc (in_order http_actions [(0%nat, mark)]) (mkCall p ev) = (Ret true, mkCall (with_mark fpc p) ev) /\
  do_actions (act u) fpc (in_order http_actions [(9%nat, mark)]) (mkCall p ev) = (Ret true, mkCall (with_mark fpc p) ev) /\
  do_actions (act u) fpc (in_order http_actions [(14%nat, mark)]) (mkCall p ev) = (Ret true, mkCall (with_mark fpc p) ev) /\
  do_actions (act u) fpc (in_order http_actions [(16%nat, mark)]) (mkCall p ev) = (Ret true, mkCall (with_mark fpc p) ev) /\
  do_actions (act u) fpc (in_order http_actions [(11%nat, start_query)]) (mkCall p ev) = (Ret true, mkCall (with_query_start fpc p) ev).
Proof. split_and!; reflexivity. Qed.
Lemma do_reports u fpc p ev :
  do_actions (act u) fpc (in_order http_actions [(1%nat, request_method)]) (mkCall p ev) =
    (Ret true, mkCall p (ev ++ [EvMethod (slice u (parser_mark p) fpc)])) /\
  do_actions (act u) fpc (in_order http_actions [(10%nat, request_path)]) (mkCall p ev) =
    (Ret true, mkCall p (ev ++ [EvPath (slice u (parser_mark p) fpc)])) /\
  do_actions (act u) fpc (in_order http_actions [(10%nat, request_path); (13%nat, request_uri)]) (mkCall p ev) =
    (Ret true, mkCall p (ev ++ [EvPath (slice u (parser_mark p) fpc)])) /\
  do_actions (act u) fpc (in_order http_actions [(15%nat, fragment)]) (mkCall p ev) =
    (Ret true, mkCall p (ev ++ [EvFragment (slice u (parser_mark p) fpc)])) /\
  do_actions (act u) fpc (in_order http_actions [(17%nat, http_version)]) (mkCall p ev) =
    (Ret true, mkCall p (ev ++ [EvVersion (slice u (parser_mark p) fpc)])).
Proof. split_and!; reflexivity. Qed.
Lemma do_query u fpc p ev :
  (query_start p <= fpc)%nat ->
  do_actions (act u) fpc (in_order http_actions [(12%nat, query_string); (13%nat, request_uri)]) (mkCall p ev) =
    (Ret true, mkCall p (ev ++ [EvQuery (slice u (query_start p) fpc)])).
Proof.
  intros Hle. change (in_order http_actions [(12%nat, query_string); (13%nat, request_uri)]) with [(12%nat, query_string); (13%nat, request_uri)].
  cbn [do_actions snd]. erewrite (bind_Ret _ _ _ (mkCall p (ev ++ [EvQuery (slice u (query_start p) fpc)])) true); [reflexivity|].
  unfold do_action. erewrite bind_Ret by reflexivity. cbv beta iota. cbn [parser]. rewrite (proj2 (Nat.leb_le _ _) Hle). reflexivity.
Qed.

(** An element from its mark to the byte behind it, which reports it. *)
Lemma reads_element n l K P Q r r' s v s1 c :
  (n = 0 \/ n = 9 \/ n = 14 \/ n = 16)%nat ->
  enters http_actions [(n, mark)] s v s1 -> moves P Q r r' c l = true -> at_state P r s1 ->
  (forall u fpc p ev, do_actions (act u) fpc (in_order http_actions l) (mkCall p ev) =
     (Ret true, mkCall p (ev ++ [K (slice u (parser_mark p) fpc)]))) ->
  exists s2, at_state Q r' s2 /\ http_reads s (v ++ [c]) s2 [K v].
Proof.
  intros Hn He Hm Hs Hl. apply (reads_marked http_actions _ plain_request with_mark parser_mark (λ _ p, p) [(n, mark)] l K P Q r r' s v s1 c); try assumption.
  - reflexivity.
  - intros. assumption.
  - intros. assumption.
  - intros. destruct (do_marks u fpc p ev) as (? & ? & ? & ? & _). by destruct Hn as [-> |[-> |[-> | ->]]].
  - intros. apply Hl.
Qed.

Lemma reads_method b w :
  w ∈ methods -> exists s, at_state [r_uri b] (r_uri b) s /\ http_reads [http_machine b] (w ++ [32]) s [EvMethod w].
Proof.
  intros Hw. pose proof (forallb_elem _ _ w (method_table b) Hw) as H. destruct w as [|c t]; [discriminate H|].
  apply andb_true_iff in H as [[M1 M2]%andb_true_iff M3].
  pose proof (at_state_one (http_machine b)) as Hs.
  destruct (moves_step http_actions _ _ _ _ _ _ _ M1 Hs) as (y & s1 & E & Hs1).
  destruct (word_quietly http_actions _ _ _ _ M2 Hs1) as (s2 & Hs2 & Hq).
  apply (reads_element 0 [(1%nat, request_method)] EvMethod [foldl (nth_move 0) (nth_move 0 (http_machine b) c) t] [r_uri b]
    (foldl (nth_move 0) (nth_move 0 (http_machine b) c) t) (r_uri b) _ _ s2); try assumption.
  - by left.
  - exists c, t, y, s1. split_and!; assumption || reflexivity.
  - intros. apply do_reports.
Qed.

(** The path and the byte behind it. *)
Lemma enters_path b s pa :
  at_state [r_uri b] (r_uri b) s -> spelled path_chars pa = true -> pa = [] \/ starts segment_chars pa = true ->
  exists P r s1, path_ends b P r /\ at_state P r s1 /\ enters http_actions [(9%nat, mark)] s (47 :: pa) s1.
Proof.
  intros Hs Hpa Hst. destruct (slash_table b) as (T1 & T2 & T3). destruct (target_path_table b) as (T4 & T5 & T6 & T7).
  destruct (path_end_table b) as [He0 He]. destruct (moves_step http_actions _ _ _ _ _ _ _ T1 Hs) as (y & s1 & E & Hs1).
  destruct Hst as [->|Hst].
  - exists (p_slash b), (r_slash b), (y :: s1). split_and!; [exact He0|exact Hs1|]. by exists 47, [], y, s1.
  - destruct (enters_spelled http_actions _ (r_path b) (r_path1 b) (r_path2 b) path_chars eq_refl T4 T5 T6 T7
      (p_slash b) (r_slash b) segment_chars [] eq_refl T2 T3 (y :: s1) pa Hst Hpa Hs1) as (s2 & Hs2 & (c & t & y2 & s3 & -> & E2 & Hq)).
    rewrite in_order_nil in E2. exists [r_path b; r_path1 b; r_path2 b], (r_path b), s2. split_and!; [exact He|exact Hs2|].
    exists 47, (c :: t), y, s1. split_and!; [reflexivity|exact E|]. cbn [quietly]. by rewrite E2.
Qed.

(** The query from its first byte to the byte behind it. *)
Lemma reads_query b s q c Q r' :
  at_state [r_quest b] (r_quest b) s -> spelled query_chars q = true -> q <> [] ->
  moves [r_query b; r_query1 b; r_query2 b] Q (r_query b) r' c [(12%nat, query_string); (13%nat, request_uri)] = true ->
  exists s', at_state Q r' s' /\ http_reads s (q ++ [c]) s' [EvQuery q].
Proof.
  intros Hs Hq Hne Hm. destruct (target_query_table b) as (T1 & T2 & T3 & T4 & T5 & T6 & _ & _).
  destruct (enters_spelled http_actions _ (r_query b) (r_query1 b) (r_query2 b) query_chars eq_refl T3 T4 T5 T6
    _ _ query_chars _ eq_refl T1 T2 s q (spelled_starts _ _ Hq Hne) Hq Hs) as (s1 & Hs1 & He).
  eapply (reads_marked http_actions _ plain_request with_query_start query_start (λ _ p, p) [(11%nat, start_query)] _ EvQuery [r_query b; r_query1 b; r_query2 b] Q (r_query b) r' s q s1 c); [reflexivity| | | | |exact He|exact Hm|exact Hs1].
  - intros. assumption.
  - intros. assumption.
  - intros. apply do_marks.
  - intros. by apply do_query.
Qed.

Definition part (sep : string) (t : list Z) : list Z := match t with [] => [] | _ => str sep ++ t end.
Definition part_event (K : list Z -> request_event) (t : list Z) : list request_event := match t with [] => [] | _ => [K t] end.

Lemma reads_fragment b s f :
  at_state [r_hash b] (r_hash b) s -> spelled query_chars f = true -> f <> [] ->
  exists s', at_state [r_ver] r_ver s' /\ http_reads s (f ++ [32]) s' [EvFragment f].
Proof.
  intros Hs Hf Hne. destruct (target_fragment_table b) as (T1 & T2 & T3 & T4 & T5 & T6 & T7).
  destruct (enters_spelled http_actions _ (r_frag b) (r_frag1 b) (r_frag2 b) query_chars eq_refl T3 T4 T5 T6
    _ _ query_chars _ eq_refl T1 T2 s f (spelled_starts _ _ Hf Hne) Hf Hs) as (s1 & Hs1 & He).
  apply (reads_element 14 [(15%nat, fragment)] EvFragment _ _ _ _ _ _ s1 32 ltac:(lia) He T7 Hs1).
  intros. apply do_reports.
Qed.

(** The target of a request and the blank behind it. *)
Lemma reads_target b s pa q f :
  at_state [r_uri b] (r_uri b) s -> spelled path_chars pa = true -> pa = [] \/ starts segment_chars pa = true ->
  spelled query_chars q = true -> spelled query_chars f = true ->
  exists s', at_state [r_ver] r_ver s' /\
    http_reads s ((47 :: pa) ++ part "?" q ++ part "#" f ++ [32]) s' ([EvPath (47 :: pa)] ++ part_event EvQuery q ++ part_event EvFragment f).
Proof.
  intros Hs Hpa Hst Hq Hf. destruct (enters_path b s pa Hs Hpa Hst) as (P & r & s1 & (Eq & Eh & Es) & Hs1 & He).
  destruct (target_query_table b) as (_ & _ & _ & _ & _ & _ & Th & Ts).
  destruct q as [|qc q].
  - destruct f as [|fc f].
    + apply (reads_element 9 _ EvPath _ _ _ _ _ _ _ 32 ltac:(lia) He Es Hs1). intros; apply do_reports.
    + destruct (reads_element 9 _ EvPath _ _ _ _ _ _ _ 35 ltac:(lia) He Eh Hs1) as (s2 & Hs2 & R2); [intros; apply do_reports|].
      destruct (reads_fragment b s2 (fc :: f) Hs2 Hf ltac:(discriminate)) as (s3 & Hs3 & R3).
      exists s3. split; [exact Hs3|]. pose proof (reads_app _ _ _ _ _ _ _ _ _ _ R2 R3) as R. by rewrite <- app_assoc in R.
  - destruct (reads_element 9 _ EvPath _ _ _ _ _ _ _ 63 ltac:(lia) He Eq Hs1) as (s2 & Hs2 & R2); [intros; apply do_reports|].
    destruct f as [|fc f].
    + destruct (reads_query b s2 (qc :: q) 32 _ _ Hs2 Hq ltac:(discriminate) Ts) as (s3 & Hs3 & R3).
      exists s3. split; [exact Hs3|]. pose proof (reads_app _ _ _ _ _ _ _ _ _ _ R2 R3) as R. by rewrite <- app_assoc in R.
    + destruct (reads_query b s2 (qc :: q) 35 _ _ Hs2 Hq ltac:(discriminate) Th) as (s3 & Hs3 & R3).
      destruct (reads_fragment b s3 (fc :: f) Hs3 Hf ltac:(discriminate)) as (s4 & Hs4 & R4).
      exists s4. split; [exact Hs4|]. pose proof (reads_app _ _ _ _ _ _ _ _ _ _ R2 (reads_app _ _ _ _ _ _ _ _ _ _ R3 R4)) as R.
      rewrite <- !app_assoc in R. exact R.
Qed.

Lemma reads_version s v :
  at_state [r_ver] r_ver s -> v = str "HTTP/1.0" \/ v = str "HTTP/1.1" ->
  exists s', at_state [r_head] r_head s' /\ http_reads s (v ++ CRLF) s' [EvVersion v].
Proof.
  intros Hs Hv. destruct version_table as (T1 & T2 & T3 & T4 & T5).
  destruct (moves_step http_actions _ _ _ _ _ _ _ T1 Hs) as (y & s1 & E & Hs1).
  assert (exists s2, at_state [r_number] r_number s2 /\ enters http_actions [(16%nat, mark)] s v s2) as (s2 & Hs2 & He).
  { destruct Hv as [-> | ->].
    - destruct (word_quietly http_actions _ _ _ _ T2 Hs1) as (s2 & Hs2 & Hq). exists s2. split; [exact Hs2|].
      exists 72, (str "TTP/1.0"), y, s1. split_and!; [reflexivity|exact E|exact Hq].
    - destruct (word_quietly http_actions _ _ _ _ T3 Hs1) as (s2 & Hs2 & Hq). exists s2. split; [exact Hs2|].
      exists 72, (str "TTP/1.1"), y, s1. split_and!; [reflexivity|exact E|exact Hq]. }
  destruct (reads_element 16 _ EvVersion _ _ _ _ _ _ _ 13 ltac:(lia) He T4 Hs2) as (s3 & Hs3 & R); [intros; apply do_reports|].
  destruct (word_quietly http_actions _ _ _ _ T5 Hs3) as (s4 & Hs4 & Hq). exists s4. split; [exact Hs4|].
  pose proof (reads_app _ _ _ _ _ _ _ _ _ _ R (reads_quietly _ _ _ _ _ _ Hq)) as R'. rewrite <- app_assoc in R'. exact R'.
Qed.

(** A header: a name, a colon, a blank, and a value. *)
Definition name_ok (name : list Z) : bool := negb (bool_decide (name = [])) && plain name_chars name.
Definition value_ok (v : list Z) : bool := match v with [] => false | c :: v => in_ranges c value_first && plain value_chars v end.

Lemma do_field u fpc p ev pre mid name value post :
  u = pre ++ name ++ mid ++ value ++ post -> field_start p = length pre -> field_len p = length name ->
  parser_mark p = length (pre ++ name ++ mid) -> fpc = length (pre ++ name ++ mid ++ value) ->
  do_actions (act u) fpc [(21%nat, write_value)] (mkCall p ev) = (Ret true, mkCall p (ev ++ [EvField name value])).
Proof.
  intros Hu E1 E2 E3 E4. transitivity (Ret true, mkCall p (ev ++ [EvField (take (field_len p) (drop (field_start p) u)) (slice u (parser_mark p) fpc)])); [reflexivity|].
  rewrite E1, E2, E3. replace fpc with (length (pre ++ name ++ mid) + length value)%nat by (rewrite E4, !length_app; lia).
  rewrite (slice_eq u _ value post) by (by rewrite Hu, <- !app_assoc). by rewrite Hu, drop_app_length, take_app_length.
Qed.

Lemma reads_field s name value :
  at_state [r_head] r_head s -> name_ok name = true -> value_ok value = true ->
  exists s', at_state [r_head] r_head s' /\ http_reads s (name ++ str ": " ++ value ++ CRLF) s' [EvField name value].
Proof.
  intros Hs [Hne Hn]%andb_true_iff Hv. destruct name as [|c name]; [discriminate Hne|]. destruct value as [|vc value]; [discriminate Hv|].
  apply andb_true_iff in Hv as [Hvc Hv]. cbn in Hn. apply andb_true_iff in Hn as [Hc Hn].
  destruct field_table as (T1 & T2 & T3 & T4 & T5 & T6 & T7 & T8).
  destruct (enters_plain http_actions [r_name] r_name name_chars eq_refl T2 _ _ name_chars _ eq_refl T1 s c name Hc Hn Hs) as (s1 & Hs1 & E1).
  destruct (moves_step http_actions _ _ _ _ _ _ _ T3 Hs1) as (y2 & s2 & E2 & Hs2).
  destruct (moves_step http_actions _ _ _ _ _ _ _ T4 Hs2) as (y3 & s3 & E3 & Hs3).
  destruct (enters_plain http_actions p_value r_value value_chars eq_refl T6 _ _ value_first _ eq_refl T5 _ vc value Hvc Hv Hs3) as (s4 & Hs4 & E4).
  destruct (moves_step http_actions _ _ _ _ _ _ _ T7 Hs4) as (y5 & s5 & E5 & Hs5).
  destruct (word_quietly http_actions _ _ _ _ T8 Hs5) as (s6 & Hs6 & E6).
  exists s6. split; [exact Hs6|]. intros u pre post p ev Hu Hp. set (nm := c :: name) in *. set (v := vc :: value) in *.
  change (in_order http_actions [(19%nat, write_field)]) with [(19%nat, write_field)] in E2.
  change (in_order http_actions [(20%nat, start_value)]) with [(20%nat, start_value)] in E3.
  change (in_order http_actions [(21%nat, write_value)]) with [(21%nat, write_value)] in E5.
  exists (with_mark (length (pre ++ nm ++ str ": ")) (with_field (length pre) (length nm) p)). split; [exact Hp|].
  rewrite <- !app_assoc in *.
  erewrite run_enters; [|exact E1|change (in_order http_actions [(18%nat, start_field)]) with [(18%nat, start_field)]; reflexivity].
  change (str ": " ++ v ++ CRLF ++ post) with (58 :: 32 :: v ++ 13 :: [10] ++ post).
  erewrite run_step; [|exact E2|reflexivity]. erewrite run_step; [|exact E3|reflexivity].
  erewrite run_enters; [|exact E4|change (in_order http_actions [(20%nat, start_value)]) with [(20%nat, start_value)]; reflexivity].
  erewrite run_step; [|exact E5|]. 2:{ eapply (do_field u _ _ _ pre (str ": ") nm v (CRLF ++ post)); [exact Hu|reflexivity|cbn -[nm]; lia| |]; cbn -[nm v]; rewrite ?length_app; cbn -[nm v]; lia. }
  rewrite (run_quietly _ _ _ _ _ _ _ _ E6). f_equal; [|f_equal]; rewrite ?length_app; cbn -[nm v]; [lia|].
  unfold with_mark, with_field. cbn -[nm]. f_equal; lia.
Qed.

Lemma reads_fields s hs :
  at_state [r_head] r_head s -> Forall (λ kv, name_ok kv.1 = true /\ value_ok kv.2 = true) hs ->
  exists s', at_state [r_head] r_head s' /\ http_reads s (header_lines hs) s' ((λ kv, EvField kv.1 kv.2) <$> hs).
Proof.
  intros Hs H. revert s Hs. induction H as [|[k v] hs [Hk Hv] _ IH]; intros s Hs.
  - exists s. split; [exact Hs|apply reads_nil].
  - destruct (reads_field s k v Hs Hk Hv) as (s1 & Hs1 & R1). destruct (IH s1 Hs1) as (s2 & Hs2 & R2).
    exists s2. split; [exact Hs2|]. pose proof (reads_app _ _ _ _ _ _ _ _ _ _ R1 R2) as R. exact R.
Qed.

(** ** The head of a request *)

Definition head_text (w pa q f v : list Z) (hs : table) : list Z :=
  (w ++ [32]) ++ ((47 :: pa) ++ part "?" q ++ part "#" f ++ [32]) ++ (v ++ CRLF) ++ header_lines hs ++ CRLF.
Definition head_events (w pa q f v : list Z) (hs : table) : list request_event :=
  [EvMethod w] ++ ([EvPath (47 :: pa)] ++ part_event EvQuery q ++ part_event EvFragment f) ++ [EvVersion v] ++
  ((λ kv, EvField kv.1 kv.2) <$> hs).

(** What the machine reads as a head: a method without special characters, a target that starts
    with one slash, and headers that have a value. *)
Record head_ok (w pa q f v : list Z) (hs : table) : Prop := {
  h_method : w ∈ methods;
  h_path : spelled path_chars pa = true /\ (pa = [] \/ starts segment_chars pa = true);
  h_query : spelled query_chars q = true;
  h_fragment : spelled query_chars f = true;
  h_version : v = str "HTTP/1.0" \/ v = str "HTTP/1.1";
  h_fields : Forall (λ kv, name_ok kv.1 = true /\ value_ok kv.2 = true) hs;
}.

(** The empty line ends the machine. *)
Lemma do_done u fpc p ev :
  xml_sent p = false -> json_sent p = false ->
  do_actions (act u) fpc [(29%nat, done)] (mkCall p ev) = (Ret false, mkCall (with_body_start (Z.of_nat fpc + 1) p) ev).
Proof.
  intros Hx Hj. transitivity (Ret false, on_parser (if xml_sent p || json_sent p
    then with_content_len (i32 (Z.of_nat fpc - Z.of_nat (parser_mark p) + 1)) ∘ with_body_start (Z.of_nat (parser_mark p))
    else with_body_start (Z.of_nat fpc + 1)) (mkCall p ev)); [reflexivity|]. by rewrite Hx, Hj.
Qed.
Lemma exec_done u s pre post p ev :
  at_state [r_head] r_head s -> plain_request p ->
  exists y s' p', is_final (y :: s') = true /\ plain_request p' /\
    exec u s (length pre) (CRLF ++ post) (mkCall p ev) = (Ret (y :: s', length (pre ++ CRLF)), mkCall p' ev).
Proof.
  intros Hs Hp. destruct end_table as (T1 & T2 & T3). destruct (moves_step http_actions _ _ _ _ _ _ _ T1 Hs) as (y & s1 & E1 & Hs1).
  destruct (moves_step http_actions _ _ _ _ _ _ _ T2 Hs1) as (y2 & s2 & E2 & Hs2).
  change (in_order http_actions [(18%nat, start_field)]) with [(18%nat, start_field)] in E1.
  change (in_order http_actions [(29%nat, done)]) with [(29%nat, done)] in E2. pose proof Hp as (Hx & Hj & _).
  exists y2, s2, (with_body_start (Z.of_nat (S (length pre)) + 1) (with_field (length pre) (field_len p) p)). split_and!.
  - exact (at_state_final _ _ _ Hs2 T3).
  - exact Hp.
  - unfold exec. change (CRLF ++ post) with (13 :: 10 :: post). erewrite run_step; [|exact E1|reflexivity].
    cbn [run]. rewrite E2. erewrite bind_Ret by (apply do_done; [exact Hx|exact Hj]). cbv beta iota.
    rewrite length_app. cbn. by replace (length pre + 2)%nat with (S (S (length pre))) by lia.
Qed.

(** The machine reads a head to its end and makes exactly the callbacks for its elements. *)
Lemma head_parsed b w pa q f v hs data :
  head_ok w pa q f v hs ->
  exists d, drive (mkDriven (http_parser_init b) false) (head_text w pa q f v hs ++ data) =
      (head_events w pa q f v hs, len (head_text w pa q f v hs), d) /\
    raised d = false /\ http_parser_is_finished (http_state d) = true /\ http_parser_has_error (http_state d) = false /\
    content_len (http_state d) = 0.
Proof.
  intros [Hw [Hpa Hst] Hq Hf Hv Hh]. destruct (reads_method b w Hw) as (s1 & Hs1 & R1).
  destruct (reads_target b s1 pa q f Hs1 Hpa Hst Hq Hf) as (s2 & Hs2 & R2).
  destruct (reads_version s2 v Hs2 Hv) as (s3 & Hs3 & R3). destruct (reads_fields s3 hs Hs3 Hh) as (s4 & Hs4 & R4).
  pose proof (reads_app _ _ _ _ _ _ _ _ _ _ R1 (reads_app _ _ _ _ _ _ _ _ _ _ R2 (reads_app _ _ _ _ _ _ _ _ _ _ R3 R4))) as R.
  clear R1 R2 R3 R4 Hs1 Hs2 Hs3. set (t := (w ++ [32]) ++ _) in R.
  assert (head_text w pa q f v hs = t ++ CRLF) as Et by (unfold head_text, t; by rewrite <- !app_assoc).
  rewrite Et. set (u := (t ++ CRLF) ++ data).
  set (p0 := with_field 0 0 (with_mark 0 (with_nread 0 (http_parser_init b)))).
  destruct (R u [] (CRLF ++ data) p0 []) as (p1 & Hp1 & E1); [unfold u; by rewrite <- app_assoc|done|].
  destruct (exec_done u s4 t data p1 (head_events w pa q f v hs) Hs4 Hp1) as (y & s' & p2 & Hfin & Hp2 & E2).
  assert (exec u [http_machine b] 0 u (mkCall p0 []) = (Ret (y :: s', length (t ++ CRLF)), mkCall p2 (head_events w pa q f v hs))) as E.
  { rewrite <- E2. etransitivity; [|exact E1]. unfold u at 2. by rewrite <- app_assoc. }
  destruct Hp2 as (_ & _ & Hlen).
  exists (mkDriven (with_nread (len (t ++ CRLF)) (with_cs (y :: s') p2)) false). split_and!; [|reflexivity|exact Hfin|reflexivity|exact Hlen].
  unfold drive, http_parser_execute. cbn [http_state raised]. assert ((length u =? 0)%nat = false) as ->.
  { apply Nat.eqb_neq. unfold u. rewrite !length_app. cbn. lia. }
  erewrite bind_Ret by reflexivity. cbv beta. erewrite bind_Ret by reflexivity. cbv beta.
  erewrite bind_Ret by exact E. cbv beta iota. reflexivity.
Qed.

(** ** The callbacks put the elements into a new request *)

(** What a callback does not touch. *)
Definition same_line (r r' : HttpRequest) : Prop :=
  method_ r' = method_ r /\ version_ r' = version_ r /\ path_ r' = path_ r /\ query_ r' = query_ r /\
  fragment_ r' = fragment_ r /\ body_ r' = body_ r /\ is_websocket_ r' = is_websocket_ r.
Lemma same_line_trans r1 r2 r3 : same_line r1 r2 -> same_line r2 r3 -> same_line r1 r3.
Proof. unfold same_line. intuition congruence. Qed.
Lemma set_header_line name value r : same_line r (set_header name value r).
Proof.
  rewrite set_header_eq. unfold set_header_result, auto_close_result, same_line.
  destruct (strcasecmp_eq name connection); [|done]. destruct (Bool.eqb _ _); [done|]. by destruct (is_websocket_ r) eqn:E.
Qed.
Lemma init_headers_line r : same_line r (init_headers r).
Proof. unfold init_headers. destruct (is_websocket_ r); [done|]. apply set_header_line. Qed.
Lemma init_headers_close r : auto_close_ (init_headers r) = auto_close_ r.
Proof.
  unfold init_headers. destruct (is_websocket_ r); [done|]. destruct (set_header_flags connection (connection_value (auto_close_ r)) r) as [-> _].
  rewrite (proj2 (strcasecmp_eq_spec connection connection) eq_refl). apply connection_value_close.
Qed.
Lemma init_headers_find k r :
  is_websocket_ r = false -> table_find k (headers_ (init_headers r)) =
    if strcasecmp_eq connection k then Some (connection_value (auto_close_ r)) else table_find k (headers_ r).
Proof. intros E. unfold init_headers. by rewrite E, set_header_find. Qed.

(** The headers of a message, in turn. *)
Definition add_header (r : HttpRequest) (kv : list Z * list Z) : HttpRequest := set_header kv.1 kv.2 (init_headers r).

Lemma add_headers r hs :
  is_websocket_ r = false -> NoDup ((λ kv, fold_case kv.1) <$> hs) ->
  let r' := foldl add_header r hs in
  same_line r r' /\
  (forall k, fold_case k <> fold_case connection ->
     table_find k (headers_ r') = from_option Some (table_find k (headers_ r)) (table_find k hs)) /\
  auto_close_ r' = from_option (λ v, strcasecmp_eq v (str "close")) (auto_close_ r) (table_find connection hs).
Proof.
  revert r. induction hs as [|[name v] hs IH]; intros r Hw Hnd; cbn [foldl]; [split_and!; done|].
  apply NoDup_cons in Hnd as [Hni Hnd]. set (r1 := add_header r (name, v)).
  assert (same_line r r1) as Hr1 by (eapply same_line_trans; [apply init_headers_line|apply set_header_line]).
  assert (is_websocket_ r1 = false) as Hw1 by (destruct Hr1 as (_ & _ & _ & _ & _ & _ & ->); done).
  assert (forall k, fold_case name = fold_case k -> table_find k hs = None) as Hnone.
  { intros k Ek. rewrite table_find_abs. apply not_elem_of_list_to_map_1. rewrite <- list_fmap_compose, <- Ek. exact Hni. }
  destruct (IH r1 Hw1 Hnd) as (IH1 & IH2 & IH3). split_and!; [by eapply same_line_trans| |].
  - intros k Hk. rewrite IH2 by done. cbn [table_find]. unfold r1, add_header. cbn [fst snd]. rewrite set_header_find.
    destruct (strcasecmp_eq name k) eqn:E.
    + apply strcasecmp_eq_spec in E. by rewrite Hnone.
    + rewrite init_headers_find by done. by rewrite (proj2 (strcasecmp_neq_spec connection k)) by congruence.
  - rewrite IH3. cbn [table_find]. unfold r1, add_header. cbn [fst snd]. destruct (set_header_flags name v (init_headers r)) as [-> _].
    rewrite init_headers_close. destruct (strcasecmp_eq name connection) eqn:E; [|done]. apply strcasecmp_eq_spec in E. by rewrite Hnone.
Qed.

Section callbacks.
Context {P : Type} `{!Machine P request_event}.

Lemma field_callbacks (p : HttpRequestParser P) hs :
  foldl request_callback p ((λ kv, EvField kv.1 kv.2) <$> hs) = mkRequestParser (parser_ p) (foldl add_header (request_ p) hs) (errno_ p).
Proof. revert p. induction hs as [|kv hs IH]; intros p; [by destruct p|]. cbn [foldl fmap list_fmap]. by rewrite IH. Qed.

Definition line_events (w pa q f v : list Z) : list request_event :=
  [EvMethod w] ++ ([EvPath (47 :: pa)] ++ part_event EvQuery q ++ part_event EvFragment f) ++ [EvVersion v].

Lemma head_events_eq w pa q f v hs : head_events w pa q f v hs = line_events w pa q f v ++ ((λ kv, EvField kv.1 kv.2) <$> hs).
Proof. unfold head_events, line_events. by rewrite <- !app_assoc. Qed.
Lemma line_callbacks (d : P) m w pa q f v n :
  string_to_http_method w = m -> m <> HTTP_INVALID_METHOD ->
  (v = str "HTTP/1.0" /\ n = 16) \/ (v = str "HTTP/1.1" /\ n = 17) ->
  foldl request_callback (mkRequestParser d (HttpRequest_new 17 true) 0) (line_events w pa q f v) =
    mkRequestParser d (mkHttpRequest true false 0 m n (47 :: pa) q f [] [(connection, str "close")] [] []) 0.
Proof.
  intros Hw Hm Hv. unfold line_events. cbn [app foldl request_callback]. unfold on_request_method. rewrite Hw, bool_decide_false by done.
  assert (on_request (set_method m) (mkRequestParser d (HttpRequest_new 17 true) 0) =
    mkRequestParser d (mkHttpRequest true false 0 m 17 (str "/") [] [] [] [(connection, str "close")] [] []) 0) as -> by reflexivity.
  assert (on_request (set_path (47 :: pa)) (mkRequestParser d (mkHttpRequest true false 0 m 17 (str "/") [] [] [] [(connection, str "close")] [] []) 0) =
    mkRequestParser d (mkHttpRequest true false 0 m 17 (47 :: pa) [] [] [] [(connection, str "close")] [] []) 0) as -> by reflexivity.
  destruct q as [|c q], f as [|c' f], Hv as [[-> ->] | [-> ->]]; reflexivity.
Qed.
End callbacks.

(** ** Claims *)

(** A request that can be sent: not a WebSocket handshake, a target that starts with one slash,
    headers that have a value, among them the connection, and the length of the body unless
    there is none. *)
Record wire_ok (r : HttpRequest) : Prop := {
  w_plain : is_websocket_ r = false;
  w_method : method_ r <> MSEARCH /\ method_ r <> HTTP_INVALID_METHOD;
  w_version : version_ r = 16 \/ version_ r = 17;
  w_path : exists pa, path_ r = 47 :: pa /\ spelled path_chars pa = true /\ (pa = [] \/ starts segment_chars pa = true);
  w_query : spelled query_chars (query_ r) = true;
  w_fragment : spelled query_chars (fragment_ r) = true;
  w_ordered : table_ordered (headers_ r);
  w_headers : Forall (λ kv, name_ok kv.1 = true /\ value_ok kv.2 = true) (headers_ r);
  w_connection : exists v, table_find connection (headers_ r) = Some v /\ strcasecmp_eq v (str "close") = auto_close_ r;
  w_length : table_find (str "content-length") (headers_ r) = Some (decimal (len (body_ r))) \/
             (table_find (str "content-length") (headers_ r) = None /\ body_ r = []);
}.

Lemma wire_head r :
  wire_ok r -> exists pa v, path_ r = 47 :: pa /\
    ((v = str "HTTP/1.0" /\ version_ r = 16) \/ (v = str "HTTP/1.1" /\ version_ r = 17)) /\
    head_ok (http_method_to_string (method_ r)) pa (query_ r) (fragment_ r) v (headers_ r) /\
    request_to_string r = head_text (http_method_to_string (method_ r)) pa (query_ r) (fragment_ r) v (headers_ r) ++ body_ r.
Proof.
  intros [_ [Hm1 Hm2] Hv (pa & Ep & Hpa) Hq Hf _ Hh _ _].
  exists pa, (version_string (version_ r)).
  assert ((version_string (version_ r) = str "HTTP/1.0" /\ version_ r = 16) \/ (version_string (version_ r) = str "HTTP/1.1" /\ version_ r = 17)) as Hver
    by (destruct Hv as [-> | ->]; [left|right]; done).
  split_and!; [done|done| |].
  - split; try done.
    + destruct (method_ r); try done; apply (bool_decide_unpack _); vm_compute; done.
    + destruct Hver as [[-> _]|[-> _]]; auto.
  - unfold request_to_string, head_text, part. rewrite Ep, <- !app_assoc. destruct (query_ r), (fragment_ r), (body_ r); rewrite ?app_nil_r; done.
Qed.

(** Everything but the body has arrived. *)
Record arrived (r r' : HttpRequest) : Prop := {
  a_method : method_ r' = method_ r;
  a_version : version_ r' = version_ r;
  a_path : path_ r' = path_ r;
  a_query : query_ r' = query_ r;
  a_fragment : fragment_ r' = fragment_ r;
  a_close : auto_close_ r' = auto_close_ r;
  a_plain : is_websocket_ r' = false;
  a_headers : forall k, fold_case k <> fold_case connection -> table_find k (headers_ r') = table_find k (headers_ r);
}.

Lemma arrived_line r r1 r2 :
  arrived r r1 -> same_line r1 r2 -> auto_close_ r2 = auto_close_ r1 ->
  (forall k, fold_case k <> fold_case connection -> table_find k (headers_ r2) = table_find k (headers_ r1)) -> arrived r r2.
Proof.
  intros [] (E1 & E2 & E3 & E4 & E5 & _ & E7) Ec Hh. split; try congruence. intros k Hk. rewrite Hh by done. auto.
Qed.
Lemma arrived_init r r1 : arrived r r1 -> arrived r (init_headers r1).
Proof.
  intros H. apply (arrived_line r r1); [done|apply init_headers_line|apply init_headers_close|].
  intros k Hk. rewrite init_headers_find by apply H. by rewrite (proj2 (strcasecmp_neq_spec connection k)) by congruence.
Qed.
Lemma arrived_body r r1 :
  arrived r r1 -> table_find (str "content-length") (headers_ r) = Some (decimal (len (body_ r))) -> arrived r (set_body (body_ r) r1).
Proof.
  intros H Hl. destruct (set_header_line (str "content-length") (decimal (len (body_ r))) r1) as (E1 & E2 & E3 & E4 & E5 & _ & E7).
  destruct H. split; unfold set_body; cbn [with_body method_ version_ path_ query_ fragment_ auto_close_ is_websocket_ headers_]; try congruence.
  - destruct (set_header_flags (str "content-length") (decimal (len (body_ r))) r1) as [-> _]. exact a_close0.
  - intros k Hk. rewrite set_header_find. destruct (strcasecmp_eq (str "content-length") k) eqn:E; [|auto].
    apply strcasecmp_eq_spec in E. rewrite table_find_abs, <- E, <- table_find_abs. by rewrite Hl.
Qed.

(** Behind the head the parser has finished, without an error, and has everything but the body. *)
Lemma wire_execute b r :
  wire_ok r ->
  exists head, request_to_string r = head ++ body_ r /\ head <> [] /\ forall data, exists p,
    request_execute (Machine0 := http11 b) (head ++ data) (HttpRequestParser_new (Machine0 := http11 b)) = (true, len head, p) /\
    request_has_error (Machine0 := http11 b) p = false /\ machine_content_len (Machine := http11 b) (parser_ p) = 0 /\ arrived r (request_ p) /\ body_ (request_ p) = [].
Proof.
  intros Hok. destruct (wire_head r Hok) as (pa & v & Ep & Hv & Hh & Ets). set (w := http_method_to_string (method_ r)) in *.
  exists (head_text w pa (query_ r) (fragment_ r) v (headers_ r)). split_and!; [exact Ets|unfold head_text; by destruct w|]. intros data.
  destruct (head_parsed b _ _ _ _ _ _ data Hh) as (d & Ed & Hraised & Hfin & Herr & Hlen).
  assert (string_to_http_method w = method_ r) as Hw by (destruct Hok, w_method0; unfold w; by destruct (method_ r)).
  set (r1 := mkHttpRequest true false 0 (method_ r) (version_ r) (47 :: pa) (query_ r) (fragment_ r) [] [(connection, str "close")] [] []).
  destruct (add_headers r1 (headers_ r) eq_refl (table_names_NoDup _ (w_ordered r Hok))) as (Hline & Hfind & Hclose).
  exists (mkRequestParser d (foldl add_header r1 (headers_ r)) 0).
  assert (request_execute (Machine0 := http11 b) (head_text w pa (query_ r) (fragment_ r) v (headers_ r) ++ data) (HttpRequestParser_new (Machine0 := http11 b)) =
    (true, len (head_text w pa (query_ r) (fragment_ r) v (headers_ r)), mkRequestParser d (foldl add_header r1 (headers_ r)) 0)) as Eex.
  { unfold request_execute. cbn [machine_execute http11 parser_ HttpRequestParser_new machine_init]. rewrite Ed. cbn [machine_finished http11]. rewrite Hfin.
    f_equal. unfold HttpRequestParser_new. rewrite head_events_eq, foldl_app.
    rewrite (line_callbacks _ (method_ r) w pa _ _ v (version_ r)); [|exact Hw|apply Hok|exact Hv]. by rewrite field_callbacks. }
  destruct Hline as (E1 & E2 & E3 & E4 & E5 & E6 & E7). split_and!; try done.
  - cbn. rewrite Hraised. exact Herr.
  - split; try done; cbn [request_].
    + by rewrite Ep.
    + rewrite Hclose. destruct (w_connection r Hok) as (cv & -> & <-). done.
    + intros k Hk. rewrite Hfind by done. unfold r1. cbn [headers_ table_find]. rewrite (proj2 (strcasecmp_neq_spec connection k)) by congruence. by destruct (table_find k (headers_ r)).
Qed.

Section wire.
Context {σ : Type} `{!Transport σ} (incoming outgoing : σ -> list Z) `{!TransportLaws σ incoming outgoing}.

(** The first read brings the head. *)
Lemma wire_read_head b buff_size fuel r s s1 d tail :
  wire_ok r -> connected s = true -> incoming s = request_to_string r ++ tail ->
  stream_read buff_size s = (Ret d, s1) -> len (request_to_string r) - len (body_ r) <= len d ->
  connected s1 = true /\ exists data p, body_ r ++ tail = data ++ incoming s1 /\
    read_head (request_execute (Machine0 := http11 b)) (request_has_error (Machine0 := http11 b)) (S fuel) buff_size []
      (HttpRequestParser_new (Machine0 := http11 b)) s = Some (inr (s1, data, p)) /\
    machine_content_len (Machine := http11 b) (parser_ p) = 0 /\ arrived r (request_ p) /\ body_ (request_ p) = [].
Proof.
  intros Hok Hc Hin Hread Hd. destruct (wire_execute b r Hok) as (head & Ets & Hne & Hex).
  rewrite Ets, length_app in Hd. rewrite Ets, <- app_assoc in Hin.
  destruct (read_head_at_once (incoming := incoming) (outgoing := outgoing) (request_execute (Machine0 := http11 b))
    (request_has_error (Machine0 := http11 b)) fuel buff_size (HttpRequestParser_new (Machine0 := http11 b)) s s1 d head (body_ r ++ tail) Hc Hne Hin Hread ltac:(lia))
    as (Hc1 & data & Hrest & Hhead).
  destruct (Hex data) as (p & Eex & Herr & Hcl & Ha & Hb). split; [exact Hc1|]. exists data, p. split_and!; try assumption. by apply Hhead.
Qed.

End wire.

(** A request with everything. *)
Definition sample : HttpRequest :=
  mkHttpRequest false false 0 POST 17 (str "/a/b%20") (str "x=1") (str "top") (str "abc")
    [(connection, str "Keep-Alive"); (str "content-length", str "3"); (str "Host", str "www.example.com:80")] [] [].

Lemma sample_ok : wire_ok sample.
Proof.
  split; try done.
  - by right.
  - exists (str "a/b%20"). split_and!; [reflexivity..|by right].
  - repeat constructor; done.
  - repeat constructor; done.
  - by exists (str "Keep-Alive").
  - by left.
Qed.

