(* ===== verification/HttpClientGrammar.v ===== *)
(** * The parser of responses: src/sylar/http/httpclient_parser.{h,rl}

    The grammar of httpclient_parser.rl as an expression of Ragel.v, the actions of its
    machine over [httpclient_parser], [httpclient_parser_execute], and the instance of
    the interface of HttpSession.v it makes.

    A header is read in up to four ways at once: content-length, transfer-encoding and
    connection have expressions of their own next to the one for all headers, and every
    way that succeeds makes its callbacks. *)

From S2P Require Import Prelude Text Ragel RagelRun Stream Servlet HttpResponse Http HttpSession.

Inductive action :=
| mark | start_field | write_field | start_value | write_content_len | write_connection_close | write_value
| reason_phrase | status_code | http_version | chunk_size | trans_chunked | done.
#[global] Instance action_eq_dec : EqDecision action.
Proof. solve_decision. Defined.

(** ** The grammar *)

Section grammar.
Abbreviation G := (re action).

Definition byte (c : Z) : G := Chars [(c, c)].
(** [/s/i] *)
Definition lit_i (s : string) : G := cats ((λ c, Chars (if in_ranges c alpha then [(toupper c, toupper c); (tolower c, tolower c)] else [(c, c)])) <$> str s).
Definition CRLF_expr : G := Alt (cats [byte 13; byte 10]) (byte 10).
(** [ascii -- (CTL | tspecials)] *)
Definition token_chars : list (Z * Z) :=
  [(33, 33); (35, 39); (42, 43); (45, 46); (48, 57); (65, 90); (94, 122); (124, 124); (126, 126)].
Definition token : G := Chars token_chars.
(** [any -- CRLF]: one byte that does not contain a line end *)
Definition no_line_end : list (Z * Z) := [(0, 9); (11, 255)].

Definition Reason_Phrase : G := Leave reason_phrase (Enter mark (Plus (Chars no_line_end))).
Definition Status_Code : G := Leave status_code (Enter mark (Plus (Chars digit))).
Definition http_number : G := cats [Plus (Chars digit); lit "."; Plus (Chars digit)].
Definition HTTP_Version : G := Leave http_version (Enter mark (Cat (lit "HTTP/") http_number)).
Definition Status_Line : G := guarded 0 (cats [HTTP_Version; lit " "; Status_Code; lit " "; Reason_Phrase]) CRLF_expr.

Definition field_name : G := Leave write_field (Enter start_field (Plus token)).
Definition field_value : G := Leave write_value (Enter start_value (Star (Chars any))).
Definition fields : G := guarded 1 (cats [field_name; lit ":"; Star (Chars space); field_value]) CRLF_expr.
Definition content_length : G :=
  Cat (cats [Leave write_field (Enter start_field (lit_i "Content-Length")); lit ":"; Star (Chars space);
             Leave write_value (Leave write_content_len (Enter start_value (Plus (Chars digit))))]) CRLF_expr.
Definition conn_close : G :=
  Cat (cats [lit_i "Connection"; lit ":"; Star (Chars space); lit_i "close"]) (Leave write_connection_close CRLF_expr).
Definition transfer_encoding_chunked : G :=
  Cat (cats [Leave write_field (Enter start_field (lit_i "Transfer-Encoding")); lit ":"; Star (Chars space);
             Leave write_value (Enter start_value (lit_i "chunked"))]) (Finish trans_chunked CRLF_expr).
Definition message_header : G := alts [transfer_encoding_chunked; conn_close; content_length; fields].
Definition Response : G := cats [Status_Line; Star message_header; CRLF_expr].

Definition chunk_ext_val : G := Plus token.
Definition chunk_ext_name : G := Plus token.
Definition chunk_extension : G :=
  Star (cats [lit ";"; Leave start_value (Leave write_field (Enter start_field chunk_ext_name));
              Leave write_value (Opt (Cat (lit "=") (Enter start_value chunk_ext_val)))]).
Definition chunk_size_expr : G := Plus (Chars xdigit).
Definition Chunked_Header : G :=
  guarded 2 (Cat (Leave chunk_size (Enter mark chunk_size_expr)) chunk_extension) CRLF_expr.
Definition main_expr : G := Finish done (Alt Response Chunked_Header).
End grammar.

Abbreviation numbered_action := (nat * action)%type.
Abbreviation state := (re numbered_action).
Definition httpclient_machine : state := (number 0 main_expr).1.
Definition httpclient_actions : list numbered_action := Eval vm_compute in numbered httpclient_machine.

(** ** [httpclient_parser] *)

Record httpclient_parser := mkClientParser {
  cs : list state;                 (** none: the error state *)
  body_start : Z; content_len : Z; status : Z; chunked : bool; chunks_done : bool; close : bool; nread : Z;
  parser_mark : nat; field_start : nat; field_len : nat;
}.
Abbreviation ClientCall := (Call httpclient_parser response_event).

Definition with_cs (v : list state) (p : httpclient_parser) : httpclient_parser :=
  mkClientParser v (body_start p) (content_len p) (status p) (chunked p) (chunks_done p) (close p) (nread p) (parser_mark p) (field_start p) (field_len p).
Definition with_body_start (v : Z) (p : httpclient_parser) : httpclient_parser :=
  mkClientParser (cs p) v (content_len p) (status p) (chunked p) (chunks_done p) (close p) (nread p) (parser_mark p) (field_start p) (field_len p).
Definition with_content_len (v : Z) (p : httpclient_parser) : httpclient_parser :=
  mkClientParser (cs p) (body_start p) v (status p) (chunked p) (chunks_done p) (close p) (nread p) (parser_mark p) (field_start p) (field_len p).
Definition with_status (v : Z) (p : httpclient_parser) : httpclient_parser :=
  mkClientParser (cs p) (body_start p) (content_len p) v (chunked p) (chunks_done p) (close p) (nread p) (parser_mark p) (field_start p) (field_len p).
Definition with_chunked (v : bool) (p : httpclient_parser) : httpclient_parser :=
  mkClientParser (cs p) (body_start p) (content_len p) (status p) v (chunks_done p) (close p) (nread p) (parser_mark p) (field_start p) (field_len p).
Definition with_chunks_done (v : bool) (p : httpclient_parser) : httpclient_parser :=
  mkClientParser (cs p) (body_start p) (content_len p) (status p) (chunked p) v (close p) (nread p) (parser_mark p) (field_start p) (field_len p).
Definition with_close (v : bool) (p : httpclient_parser) : httpclient_parser :=
  mkClientParser (cs p) (body_start p) (content_len p) (status p) (chunked p) (chunks_done p) v (nread p) (parser_mark p) (field_start p) (field_len p).
Definition with_nread (v : Z) (p : httpclient_parser) : httpclient_parser :=
  mkClientParser (cs p) (body_start p) (content_len p) (status p) (chunked p) (chunks_done p) (close p) v (parser_mark p) (field_start p) (field_len p).
Definition with_mark (v : nat) (p : httpclient_parser) : httpclient_parser :=
  mkClientParser (cs p) (body_start p) (content_len p) (status p) (chunked p) (chunks_done p) (close p) (nread p) v (field_start p) (field_len p).
Definition with_field (start flen : nat) (p : httpclient_parser) : httpclient_parser :=
  mkClientParser (cs p) (body_start p) (content_len p) (status p) (chunked p) (chunks_done p) (close p) (nread p) (parser_mark p) start flen.

(** [status] is not initialised; nothing reads it. *)
Definition httpclient_parser_init : httpclient_parser :=
  mkClientParser [httpclient_machine] 0 (-1) 0 false false false 0 0 0 0.

(** [strtol(s, NULL, 16)], cut to an [int]. *)
Fixpoint hex_digits (n : Z) (s : list Z) : Z :=
  match s with
  | c :: s => match hex_value c with Some v => hex_digits (16 * n + v) s | None => n end
  | [] => n
  end.
Definition strtol_16 (s : list Z) : Z :=
  let '(neg, s) := match skip_space s with 45 :: s => (true, s) | 43 :: s => (false, s) | s => (false, s) end in
  let s := match s with
           | 48 :: x :: d :: s' => if ((x =? 120) || (x =? 88)) && bool_decide (is_Some (hex_value d)) then d :: s' else s
           | _ => s
           end in
  let n := hex_digits 0 s in
  i32 (Z.max (- 2 ^ 63) (Z.min (2 ^ 63 - 1) (if neg then - n else n))).

Section execute.
Variable buffer : list Z.

(** The C string at the mark; the byte behind the buffer is 0. *)
Definition at_mark (p : httpclient_parser) : list Z := c_str (drop (parser_mark p) buffer).

(** Whether the machine goes on ([false] is [fbreak]).  The callbacks of [chunk_size],
    [last_chunk] and [header_done] do nothing. *)
Definition do_action (fpc : nat) (a : action) : M ClientCall bool :=
  p ← gets parser;
  match a with
  | mark | start_value => _ ← modify (on_parser (with_mark fpc)); mret true
  | start_field => _ ← modify (on_parser (with_field fpc (field_len p))); mret true
  | write_field => _ ← modify (on_parser (with_field (field_start p) (fpc - field_start p))); mret true
  | write_content_len => _ ← modify (on_parser (with_content_len (atoi (at_mark p)))); mret true
  | write_connection_close => _ ← modify (on_parser (with_close true)); mret true
  | write_value =>
      _ ← modify (emit (EvRspField (take (field_len p) (drop (field_start p) buffer)) (slice buffer (parser_mark p) fpc))); mret true
  | reason_phrase => _ ← modify (emit (EvReason (slice buffer (parser_mark p) fpc))); mret true
  | status_code =>
      _ ← modify (on_parser (with_status (atoi (at_mark p))));
      _ ← modify (emit (EvStatus (slice buffer (parser_mark p) fpc))); mret true
  | http_version => _ ← modify (emit (EvRspVersion (slice buffer (parser_mark p) fpc))); mret true
  | chunk_size =>
      let n := strtol_16 (at_mark p) in
      _ ← modify (on_parser (with_chunks_done (n <=? 0) ∘ with_content_len n ∘ with_chunked true)); mret true
  | trans_chunked => _ ← modify (on_parser (with_chunked true)); mret true
  | done => _ ← modify (on_parser (with_body_start (Z.of_nat fpc + 1))); mret false
  end.

(** [write exec]: the state of the machine and [p] in the end. *)
Definition exec : list state -> nat -> list Z -> M ClientCall (list state * nat) :=
  run httpclient_actions (λ fpc a, do_action fpc a.2).
End execute.

(** [httpclient_parser_execute(parser, buffer, len, 0)], the byte behind the buffer being 0. *)
Definition httpclient_parser_execute (buffer : list Z) : M ClientCall Z :=
  _ ← modify (on_parser (with_field 0 0 ∘ with_mark 0 ∘ with_nread 0));
  p ← gets parser;
  '(s, n) ← exec buffer (cs p) 0 buffer;
  _ ← modify (on_parser (with_nread (Z.of_nat n) ∘ with_cs s));
  p ← gets parser;
  if (parser_mark p <? length buffer)%nat && (field_len p <=? length buffer)%nat && (field_start p <? length buffer)%nat
  then mret (Z.of_nat n) else mret (-1).
Definition httpclient_parser_has_error (p : httpclient_parser) : bool := match cs p with [] => true | _ => false end.
(** [cs == httpclient_parser_first_final]: the machine has one final state, which nothing leaves. *)
Definition httpclient_parser_is_finished (p : httpclient_parser) : bool := is_final (cs p).

(** ** The machine of HttpSession.v *)

Definition drive_client (p : httpclient_parser) (data : list Z) : list response_event * Z * httpclient_parser :=
  match httpclient_parser_execute data (mkCall p []) with
  | (Ret n, c) => (events c, u64 n, parser c)
  | (_, c) => (events c, 0, parser c)
  end.
#[global] Instance httpclient : Machine httpclient_parser response_event := {|
  machine_init := httpclient_parser_init;
  machine_execute := drive_client;
  machine_finished := httpclient_parser_is_finished;
  machine_error := httpclient_parser_has_error;
  machine_content_len := content_len;
  machine_chunked := chunked;
|}.

(** ** What the machine makes of some texts *)

Definition ok_line : list response_event := [EvRspVersion (str "HTTP/1.1"); EvStatus (str "200"); EvReason (str "OK")].

(** The headers with expressions of their own are reported by both. *)
Example reported_twice :
  exists p, drive_client httpclient_parser_init
      (str "HTTP/1.1 200 OK" ++ CRLF ++ str "Content-Length: 12" ++ CRLF ++ str "Connection: close" ++ CRLF ++ CRLF ++ str "body") =
    (ok_line ++ [EvRspField (str "Content-Length") (str "12"); EvRspField (str "Content-Length") (str "12");
                 EvRspField (str "Connection") (str "close")], 58, p) /\
  httpclient_parser_is_finished p = true /\ content_len p = 12 /\ chunked p = false /\ close p = true.
Proof. eexists. split; [vm_compute; reflexivity|]. by vm_compute. Qed.

(** An empty value is reported from the mark of the reason. *)
Example empty_field :
  (drive_client httpclient_parser_init (str "HTTP/1.1 200 OK" ++ CRLF ++ str "A:" ++ CRLF ++ CRLF)).1 =
    (ok_line ++ [EvRspField (str "A") (str "OK" ++ CRLF ++ str "A:")], 23).
Proof. by vm_compute. Qed.

(** A line that is a hexadecimal number is a response that has finished. *)
Example number_is_response :
  exists p, drive_client httpclient_parser_init (str "1aF" ++ CRLF) = ([], 5, p) /\
  httpclient_parser_is_finished p = true /\ chunked p = true /\ content_len p = 431.
Proof. eexists. split; [vm_compute; reflexivity|]. by vm_compute. Qed.
