(* ===== verification/ResponseWire.v ===== *)
(** * Responses on the wire: http.cpp, httpclient_parser.rl, http_parser.cpp and http_connection.cpp together

    What [operator<<] of [HttpResponse] prints is read by the machine of
    httpclient_parser.rl, the callbacks of [HttpResponseParser] put the elements into a
    new response, and [recv_response] adds the body: the response arrives as it was
    sent. *)

From S2P Require Import Prelude Text Ragel RagelRun Stream Http HttpResponse Servlet HttpSession HttpClientGrammar.

(** ** The states of the machine along a response *)

Definition letter (s : string) : Z := default 0 (head (str s)).
(** A value has no line end and no blank in front. *)
Definition value_chars : list (Z * Z) := [(1, 9); (11, 12); (14, 126); (128, 255)].
Definition value_first : list (Z * Z) := [(1, 8); (14, 31); (33, 126); (128, 255)].
Definition reason_chars : list (Z * Z) := [(32, 126)].

(** the status line *)
Definition q_http : state := Eval vm_compute in nth_move 0 httpclient_machine (letter "H").
Definition q_number : state := Eval vm_compute in foldl (nth_move 0) q_http (str "TTP/1.0").
Definition q_blank : state := Eval vm_compute in nth_move 0 q_number (letter " ").
Definition q_status : state := Eval vm_compute in nth_move 0 q_blank (letter "2").
Definition q_blank2 : state := Eval vm_compute in nth_move 0 q_status (letter " ").
Definition q_reason : state := Eval vm_compute in nth_move 0 q_blank2 (letter "O").
Definition q_line : state := Eval vm_compute in nth_move 1 q_reason 13.
(** headers: in front of one, also behind a connection that closes *)
Definition q_head : state := Eval vm_compute in nth_move 0 q_line 10.
Definition after (P : list state) (t : list Z) : list state := foldl (λ s c, remove_dups (to <$> taken s c)) P t.
Definition p_close : list state := Eval vm_compute in after [q_head] (str "connection: close" ++ CRLF).

(** ** Names

    Inside a name the machine is in the state for any name, and in one more for each
    of the three special names that starts with what was read. *)
Definition special : list (list Z) := [str "transfer-encoding"; str "connection"; str "content-length"].
Definition q_name : state := Eval vm_compute in nth_move 0 q_head (letter "x").
Definition prefixes : list (list Z) := remove_dups (special ≫= λ w, (λ n, take n w) <$> seq 1 (length w)).
Definition name_states : list (list Z * list state) := Eval vm_compute in (λ w, (w, after [q_head] w)) <$> prefixes.
Definition in_name (w : list Z) : list state :=
  match find (λ e, bool_decide (e.1 = w)) name_states with Some e => e.2 | None => [q_name] end.

(** The actions at the first character. *)
Definition field_starts (closing : bool) (c : Z) : list numbered_action :=
  (if closing then [(11%nat, write_connection_close)] else []) ++
  (if tolower c =? 116 then [(6%nat, start_field)] else if tolower c =? 99 then [(12%nat, start_field)] else []) ++ [(17%nat, start_field)].
Definition p_head (closing : bool) : list state := if closing then p_close else [q_head].

Ltac table := vm_compute; reflexivity.
Definition each_byte (cls : list (Z * Z)) (f : Z -> bool) : bool := forallb (λ c, if in_ranges c cls then f c else true) bytes.
Lemma name_start_table closing : each_byte token_chars (λ c, goes (p_head closing) (in_name [tolower c]) c (field_starts closing c)) = true.
Proof. destruct closing; table. Qed.
Lemma name_table :
  forallb (λ e, each_byte token_chars (λ c, goes e.2 (in_name (e.1 ++ [tolower c])) c [])) name_states = true.
Proof. table. Qed.
Lemma any_name_table : all_goes [q_name] [q_name] token_chars [] = true.
Proof. table. Qed.
Lemma prefixes_closed : forallb (λ e, match removelast e.1 with [] => true | w => existsb (λ e, bool_decide (e.1 = w)) name_states end) name_states = true.
Proof. table. Qed.

Lemma each_byte_in cls f c : byte_ranges cls = true -> each_byte cls f = true -> in_ranges c cls = true -> f c = true.
Proof.
  intros Hcls H Hin. pose proof (in_ranges_byte cls c Hcls Hin) as Hc. assert (c ∈ bytes) as Hb.
  { unfold bytes. apply list_elem_of_fmap. exists (Z.to_nat c). split; [lia|]. apply elem_of_seq. lia. }
  pose proof (forallb_elem _ _ c H Hb) as E. cbv beta in E. by rewrite Hin in E.
Qed.

#[local] Opaque goes all_goes same_states name_states.

Lemma in_name_step w c : w <> [] -> in_ranges c token_chars = true -> goes (in_name w) (in_name (w ++ [tolower c])) c [] = true.
Proof.
  intros Hw Hc. unfold in_name at 1. destruct (find _ name_states) as [e|] eqn:E.
  - apply find_some in E as [Hin Ew%bool_decide_eq_true]. apply list_elem_of_In in Hin. rewrite <- Ew.
    pose proof (forallb_elem _ _ _ name_table Hin) as H. cbv beta in H. by apply (each_byte_in token_chars _ c eq_refl H).
  - replace (in_name (w ++ [tolower c])) with [q_name]; [exact (all_goes_in _ _ token_chars _ _ eq_refl any_name_table Hc)|].
    unfold in_name. case_eq (find (λ e, bool_decide (e.1 = w ++ [tolower c])) name_states); [intros e E'|reflexivity]. exfalso.
    apply find_some in E' as [Hin Ew%bool_decide_eq_true]. apply list_elem_of_In in Hin.
    pose proof (forallb_elem _ _ _ prefixes_closed Hin) as H. cbv beta in H. rewrite Ew, removelast_last in H. destruct w as [|x w]; [done|].
    apply existsb_exists in H as (e' & He' & Ee'). apply (find_none _ _ E) in He'. by rewrite He' in Ee'.
Qed.

Lemma name_quietly t : forall w s, plain token_chars t = true -> w <> [] -> same_states (in_name w) s ->
  exists s', same_states (in_name (w ++ (tolower <$> t))) s' /\ quietly httpclient_actions s t = Some s'.
Proof.
  induction t as [|c t IH]; intros w s Ht Hw Hs.
  - exists s. split; [by rewrite app_nil_r|done].
  - cbn in Ht. apply andb_true_iff in Ht as [Hc Ht].
    destruct (goes_quietly httpclient_actions _ _ c s (in_name_step w c Hw Hc) Hs) as (s1 & Hs1 & E). rewrite E.
    destruct (IH (w ++ [tolower c]) s1 Ht ltac:(by destruct w) Hs1) as (s' & Hs' & E'). exists s'. split; [|done].
    rewrite <- app_assoc in Hs'. exact Hs'.
Qed.

Lemma enters_name closing c t s :
  same_states (p_head closing) s -> in_ranges c token_chars = true -> plain token_chars t = true ->
  exists s', same_states (in_name (tolower <$> c :: t)) s' /\ enters httpclient_actions (field_starts closing c) s (c :: t) s'.
Proof.
  intros Hs Hc Ht. pose proof (each_byte_in token_chars _ c eq_refl (name_start_table closing) Hc) as Hm. cbv beta in Hm.
  apply (goes_enters httpclient_actions _ _ _ _ _ _ _ Hm Hs). intros s1. exact (name_quietly t [tolower c] s1 Ht ltac:(discriminate)).
Qed.

(** ** Values *)

Definition q_colon : state := Eval vm_compute in nth_move 0 q_name 58.
Definition p_blank : list state := Eval vm_compute in after [q_colon] [32].
Definition q_value : state := Eval vm_compute in nth_move 0 (nth_move 0 q_colon 32) (letter "x").
Definition q_cr : state := Eval vm_compute in nth_move 1 q_value 13.

Lemma other_table :
  forallb (λ e, existsb (λ w, bool_decide (e.1 = w)) special || goes e.2 [q_colon] 58 [(18%nat, write_field)]) name_states = true /\
  goes [q_name] [q_colon] 58 [(18%nat, write_field)] = true /\ goes [q_colon] p_blank 32 [(19%nat, start_value)] = true /\
  all_goes p_blank [q_value] value_first [(19%nat, start_value)] = true /\ all_goes [q_value] [q_value] value_chars [] = true /\
  goes [q_value] [q_cr] 13 [(20%nat, write_value)] = true /\ goes [q_cr] [q_head] 10 [] = true.
Proof. split_and!; table. Qed.
(** The connection, which may close. *)
Definition p_cb : list state := Eval vm_compute in after (in_name (str "connection")) (str ": ").
Definition connection_word (closing : bool) (v : list Z) : bool :=
  match v with
  | [] => false
  | c :: v =>
      let V := after p_cb (c :: v) in
      goes p_cb (after p_cb [c]) c [(19%nat, start_value)] && goes_word (after p_cb [c]) v V &&
      goes V (after V [13]) 13 [(20%nat, write_value)] && goes (after V [13]) (p_head closing) 10 []
  end.
Lemma connection_table :
  goes (in_name (str "connection")) (after (in_name (str "connection")) [58]) 58 [(18%nat, write_field)] = true /\
  goes (after (in_name (str "connection")) [58]) p_cb 32 [(19%nat, start_value)] = true /\
  connection_word true (str "close") = true /\ connection_word false (str "keep-alive") = true.
Proof. split_and!; table. Qed.
(** The length, which the machine also keeps. *)
Definition p_length : list state := Eval vm_compute in after (in_name (str "content-length")) [58].
Definition p_lb : list state := Eval vm_compute in after p_length [32].
Definition p_digits : list state := Eval vm_compute in after p_lb [48].
Definition p_lcr : list state := Eval vm_compute in after p_digits [13].
Lemma length_table :
  goes (in_name (str "content-length")) p_length 58 [(13%nat, write_field); (18%nat, write_field)] = true /\
  goes p_length p_lb 32 [(19%nat, start_value)] = true /\
  all_goes p_lb p_digits digit [(14%nat, start_value); (19%nat, start_value)] = true /\ all_goes p_digits p_digits digit [] = true /\
  goes p_digits p_lcr 13 [(15%nat, write_content_len); (16%nat, write_value); (20%nat, write_value)] = true /\
  goes p_lcr [q_head] 10 [] = true.
Proof. split_and!; table. Qed.

(** ** Headers *)

Abbreviation act u := (λ fpc a, do_action u fpc a.2).
Abbreviation acted u fpc l := (do_actions (act u) fpc (in_order httpclient_actions l)).

(** What the actions do, however many of the expressions they belong to. *)
Definition starts_field (l : list numbered_action) : Prop := forall u fpc p ev, exists b,
  acted u fpc l (mkCall p ev) = (Ret true, mkCall (with_field fpc (field_len p) (with_close b p)) ev).
Definition writes_field (l : list numbered_action) : Prop := forall u fpc p ev,
  acted u fpc l (mkCall p ev) = (Ret true, mkCall (with_field (field_start p) (fpc - field_start p) p) ev).
Definition starts_value (l : list numbered_action) : Prop := forall u fpc p ev,
  acted u fpc l (mkCall p ev) = (Ret true, mkCall (with_mark fpc p) ev).
(** [counts]: the value is also the length of the body. *)
Definition times_reported (counts : bool) : nat := if counts then 2%nat else 1%nat.
Definition reports (counts : bool) (l : list numbered_action) : Prop := forall u fpc p ev,
  acted u fpc l (mkCall p ev) = (Ret true, mkCall (if counts then with_content_len (atoi (at_mark u p)) p else p)
    (ev ++ replicate (times_reported counts) (EvRspField (take (field_len p) (drop (field_start p) u)) (slice u (parser_mark p) fpc)))).

Lemma field_starts_ok closing c : starts_field (field_starts closing c).
Proof.
  intros u fpc p ev. unfold field_starts. destruct closing.
  - exists true. destruct (_ =? _); [reflexivity|]. destruct (_ =? _); reflexivity.
  - exists (close p). destruct p. destruct (_ =? _); [reflexivity|]. destruct (_ =? _); reflexivity.
Qed.
Lemma writes_field_ok : writes_field [(18%nat, write_field)] /\ writes_field [(13%nat, write_field); (18%nat, write_field)].
Proof. split; intros u fpc p ev; reflexivity. Qed.
Lemma starts_value_ok : starts_value [(19%nat, start_value)] /\ starts_value [(14%nat, start_value); (19%nat, start_value)].
Proof. split; intros u fpc p ev; reflexivity. Qed.
Lemma reports_ok :
  reports false [(20%nat, write_value)] /\ reports true [(15%nat, write_content_len); (16%nat, write_value); (20%nat, write_value)].
Proof.
  split; intros u fpc p ev; [reflexivity|]. change (replicate (times_reported true) ?e) with ([e] ++ [e]). rewrite app_assoc. reflexivity.
Qed.

(** What is left between the elements, the body having [n] bytes. *)
Definition plain_response (n : Z) (p : httpclient_parser) : Prop :=
  chunked p = false /\ (content_len p = -1 \/ content_len p = n).
Abbreviation client_reads n := (reads httpclient_actions (λ u fpc a, do_action u fpc a.2) (plain_response n)).

Lemma at_mark_number u pre n rest p :
  u = pre ++ decimal n ++ CRLF ++ rest -> parser_mark p = length pre -> 0 <= n < 2 ^ 31 -> atoi (at_mark u p) = n.
Proof.
  intros -> Hm Hn. unfold at_mark. rewrite Hm, drop_app_length, c_str_number by lia. apply atoi_decimal; [lia|].
  cbn. intros d x [= <- _]. lia.
Qed.

Lemma reads_line (n : Z) (counts : bool) name v l0 lw lv lr s s1 N C B V R H :
  0 <= n < 2 ^ 31 -> (counts = true -> v = decimal n) ->
  starts_field l0 -> writes_field lw -> starts_value lv -> reports counts lr ->
  enters httpclient_actions l0 s name s1 -> same_states N s1 ->
  goes N C 58 lw = true -> goes C B 32 [(19%nat, start_value)] = true ->
  (forall s, same_states B s -> exists s', same_states V s' /\ enters httpclient_actions lv s v s') ->
  goes V R 13 lr = true -> goes R H 10 [] = true ->
  exists s', same_states H s' /\
    client_reads n s (name ++ str ": " ++ v ++ CRLF) s' (replicate (times_reported counts) (EvRspField name v)).
Proof.
  intros Hn Hcount Hl0 Hlw Hlv Hlr E1 Hs1 G2 G3 Hv G5 G6.
  destruct (goes_step httpclient_actions _ _ _ _ _ G2 Hs1) as (y2 & s2 & E2 & Hs2).
  destruct (goes_step httpclient_actions _ _ _ _ _ G3 Hs2) as (y3 & s3 & E3 & Hs3). destruct (Hv _ Hs3) as (s4 & Hs4 & E4).
  destruct (goes_step httpclient_actions _ _ _ _ _ G5 Hs4) as (y5 & s5 & E5 & Hs5).
  destruct (goes_step httpclient_actions _ _ _ _ _ G6 Hs5) as (y6 & s6 & E6 & Hs6). rewrite in_order_nil in E6.
  exists (y6 :: s6). split; [exact Hs6|]. intros u pre post p ev Hu [Hch Hcl]. destruct (Hl0 u (length pre) p ev) as [b Hb].
  set (p4 := with_mark (length (pre ++ name ++ str ": ")) (with_field (length pre) (length name) (with_close b p))).
  exists (if counts then with_content_len (atoi (at_mark u p4)) p4 else p4). rewrite <- !app_assoc in *. split.
  { split; [by destruct counts|]. destruct counts; [|done]. right. cbn [content_len with_content_len].
    apply (at_mark_number u (pre ++ name ++ str ": ") n post); [|done|done]. by rewrite Hu, <- Hcount, <- !app_assoc by done. }
  erewrite run_enters; [|exact E1|exact Hb].
  change (str ": " ++ v ++ CRLF ++ post) with (58 :: 32 :: v ++ 13 :: 10 :: post).
  erewrite run_step; [|exact E2|apply Hlw]. erewrite run_step; [|exact E3|apply starts_value_ok].
  erewrite run_enters; [|exact E4|apply Hlv]. erewrite run_step; [|exact E5|apply Hlr]. erewrite run_step; [|exact E6|reflexivity].
  match goal with |- context [atoi (at_mark u ?q)] => assert (q = p4) as -> end.
  { unfold p4. rewrite !length_app. unfold with_mark, with_field. cbn. f_equal; lia. }
  assert (slice u (parser_mark p4) (S (S (length pre + length name)) + length v) = v) as Hslice.
  { transitivity (slice u (length (pre ++ name ++ str ": ")) (length (pre ++ name ++ str ": ") + length v)).
    - f_equal. rewrite !length_app. cbn. lia.
    - apply (slice_eq u _ v (CRLF ++ post)). by rewrite Hu, <- !app_assoc. }
  rewrite Hslice. change (field_len p4) with (length name). change (field_start p4) with (length pre).
  assert (take (length name) (drop (length pre) u) = name) as -> by (by rewrite Hu, drop_app_length, take_app_length).
  f_equal. rewrite !length_app. cbn. lia.
Qed.

Definition name_ok (name : list Z) : bool := negb (bool_decide (name = [])) && plain token_chars name.
Definition value_ok (v : list Z) : bool := match v with [] => false | c :: v => in_ranges c value_first && plain value_chars v end.
Record header_ok (n : Z) (kv : list Z * list Z) : Prop := {
  hd_name : name_ok kv.1 = true;
  hd_value : value_ok kv.2 = true;
  hd_whole : tolower <$> kv.1 <> str "transfer-encoding";
  hd_connection : tolower <$> kv.1 = str "connection" -> kv.2 = str "close" \/ kv.2 = str "keep-alive";
  hd_length : tolower <$> kv.1 = str "content-length" -> kv.2 = decimal n;
}.

Lemma other_colon w : w ∉ special -> goes (in_name w) [q_colon] 58 [(18%nat, write_field)] = true.
Proof.
  intros Hw. destruct other_table as (T1 & T2 & _). unfold in_name.
  case_eq (find (λ e, bool_decide (e.1 = w)) name_states); [|intros _; exact T2].
  intros e [Hin Ee%bool_decide_eq_true]%find_some. apply list_elem_of_In in Hin. pose proof (forallb_elem _ _ _ T1 Hin) as H.
  apply orb_true_iff in H as [H|H]; [|exact H]. apply existsb_exists in H as (w' & Hw'%list_elem_of_In & E%bool_decide_eq_true).
  exfalso. apply Hw. by rewrite <- Ee, E.
Qed.

#[local] Opaque after.
Lemma connection_enters closing v :
  connection_word closing v = true -> exists V R,
    (forall s, same_states p_cb s -> exists s', same_states V s' /\ enters httpclient_actions [(19%nat, start_value)] s v s') /\
    goes V R 13 [(20%nat, write_value)] = true /\ goes R (p_head closing) 10 [] = true.
Proof.
  destruct v as [|d w]; [done|]. intros [[[G1 G2]%andb_true_iff G3]%andb_true_iff G4]%andb_true_iff.
  exists (after p_cb (d :: w)), (after (after p_cb (d :: w)) [13]). split; [|split; [exact G3|exact G4]].
  intros s Hs. eapply (goes_enters httpclient_actions p_cb (after p_cb [d])); [exact G1|exact Hs|].
  intros s1 Hs1. exact (goes_word_quietly httpclient_actions (after p_cb [d]) w (after p_cb (d :: w)) s1 G2 Hs1).
Qed.

Lemma reads_header n closing s kv :
  0 <= n < 2 ^ 31 -> same_states (p_head closing) s -> header_ok n kv ->
  exists closing' counts s', same_states (p_head closing') s' /\
    client_reads n s (kv.1 ++ str ": " ++ kv.2 ++ CRLF) s' (replicate (times_reported counts) (EvRspField kv.1 kv.2)).
Proof.
  intros Hn Hs [Hk Hv Hte Hc Hl]. destruct kv as [name v]. cbn [fst snd] in *.
  apply andb_true_iff in Hk as [Hne Hk]. destruct name as [|c t]; [discriminate Hne|]. cbn in Hk. apply andb_true_iff in Hk as [Hct Ht].
  destruct (enters_name closing c t s Hs Hct Ht) as (s1 & Hs1 & E1). set (name := c :: t) in *.
  destruct writes_field_ok as [W1 W2]. destruct starts_value_ok as [V1 V2]. destruct reports_ok as [R1 R2].
  destruct other_table as (_ & _ & T3 & T4 & T5 & T6 & T7). destruct connection_table as (C1 & C2 & C3 & C4).
  destruct length_table as (L1 & L2 & L3 & L4 & L5 & L6).
  destruct (decide (tolower <$> name = str "content-length")) as [E|Hnl]; [|destruct (decide (tolower <$> name = str "connection")) as [E|Hnc]].
  - specialize (Hl E). rewrite E in Hs1. exists false, true.
    apply (reads_line n true name v _ _ _ _ s s1 _ p_length p_lb p_digits p_lcr [q_head] Hn (λ _, Hl) (field_starts_ok closing c) W2 V2 R2 E1 Hs1 L1 L2); [|exact L5|exact L6].
    intros s3 Hs3. destruct (decimal_correct n ltac:(lia)) as [_ Hds]. rewrite <- Hl in Hds. destruct v as [|d ds]; [discriminate Hv|].
    assert (plain digit (d :: ds) = true) as [Hd Hpl]%andb_true_iff.
    { apply forallb_forall. intros x Hx%list_elem_of_In. rewrite Forall_forall in Hds. apply Hds in Hx. cbn. lia. }
    apply (goes_enters httpclient_actions _ _ _ _ _ _ _ (all_goes_in _ _ digit _ _ eq_refl L3 Hd) Hs3).
    intros s4. exact (goes_plain httpclient_actions p_digits digit s4 ds eq_refl L4 Hpl).
  - rewrite E in Hs1.
    assert (exists closing', connection_word closing' v = true) as [closing' Hw] by (destruct (Hc E) as [-> | ->]; [exists true; exact C3|exists false; exact C4]).
    destruct (connection_enters closing' v Hw) as (V & R & HV & G3 & G4). exists closing', false.
    exact (reads_line n false name v _ _ _ _ s s1 _ _ p_cb V R (p_head closing') Hn ltac:(done) (field_starts_ok closing c) W1 V1 R1 E1 Hs1 C1 C2 HV G3 G4).
  - exists false, false. assert (tolower <$> name ∉ special) as Hsp.
    { unfold special. rewrite !not_elem_of_cons. split_and!; [exact Hte|exact Hnc|exact Hnl|apply not_elem_of_nil]. }
    apply (reads_line n false name v _ _ _ _ s s1 _ [q_colon] p_blank [q_value] [q_cr] [q_head] Hn ltac:(done) (field_starts_ok closing c) W1 V1 R1 E1 Hs1 (other_colon _ Hsp) T3);
      [|exact T6|exact T7].
    intros s3 Hs3. destruct v as [|d w]; [discriminate Hv|]. apply andb_true_iff in Hv as [Hd Hw].
    apply (goes_enters httpclient_actions _ _ _ _ _ _ _ (all_goes_in _ _ value_first _ _ eq_refl T4 Hd) Hs3).
    intros s4. exact (goes_plain httpclient_actions [q_value] value_chars s4 w eq_refl T5 Hw).
Qed.

Lemma reads_headers n hs : forall closing s,
  0 <= n < 2 ^ 31 -> same_states (p_head closing) s -> Forall (header_ok n) hs ->
  exists closing' s' counts, same_states (p_head closing') s' /\ length counts = length hs /\
    client_reads n s (header_lines hs) s' (zip_with (λ kv (b : bool), replicate (times_reported b) (EvRspField kv.1 kv.2)) hs counts ≫= id).
Proof.
  induction hs as [|kv hs IH]; intros closing s Hn Hs H.
  - exists closing, s, []. split; [exact Hs|]. split; [reflexivity|]. apply reads_nil.
  - apply Forall_cons in H as [Hk H]. destruct (reads_header n closing s kv Hn Hs Hk) as (c1 & b & s1 & Hs1 & R1).
    destruct (IH c1 s1 Hn Hs1 H) as (c2 & s2 & bs & Hs2 & Hlen & R2). exists c2, s2, (b :: bs). split; [exact Hs2|]. split; [cbn; by f_equal|].
    exact (reads_app _ _ _ _ _ _ _ _ _ _ R1 R2).
Qed.

(** ** The status line *)

Lemma line_table :
  moves [httpclient_machine] [q_http] httpclient_machine q_http 72 [(0%nat, mark)] = true /\
  word q_http (str "TTP/1.0") q_number = true /\ word q_http (str "TTP/1.1") q_number = true /\
  moves [q_number] [q_blank] q_number q_blank 32 [(1%nat, http_version)] = true /\
  all_moves [q_blank] [q_status] q_blank q_status digit [(2%nat, mark)] = true /\ all_moves [q_status] [q_status] q_status q_status digit [] = true /\
  moves [q_status] [q_blank2] q_status q_blank2 32 [(3%nat, status_code)] = true /\
  all_moves [q_blank2] [q_reason] q_blank2 q_reason reason_chars [(4%nat, mark)] = true /\
  all_moves [q_reason] [q_reason] q_reason q_reason reason_chars [] = true /\
  moves [q_reason] [q_line] q_reason q_line 13 [(5%nat, reason_phrase)] = true /\ word q_line [10] q_head = true.
Proof. split_and!; table. Qed.

Definition q_end : state := Eval vm_compute in nth_move 0 q_head 13.
Definition q_done : state := Eval vm_compute in nth_move 0 q_end 10.
Lemma finish_table closing :
  goes (p_head closing) [q_end] 13 (if closing then [(11%nat, write_connection_close)] else []) = true /\
  goes [q_end] [q_done] 10 [(28%nat, done)] = true /\ nullable q_done = true.
Proof. destruct closing; split_and!; table. Qed.

#[local] Opaque at_state moves all_moves word.
(** The marks and the reports of the line. *)
Lemma do_line_marks u fpc p ev :
  acted u fpc [(0%nat, mark)] (mkCall p ev) = (Ret true, mkCall (with_mark fpc p) ev) /\
  acted u fpc [(2%nat, mark)] (mkCall p ev) = (Ret true, mkCall (with_mark fpc p) ev) /\
  acted u fpc [(4%nat, mark)] (mkCall p ev) = (Ret true, mkCall (with_mark fpc p) ev).
Proof. split_and!; reflexivity. Qed.
Lemma do_line_reports u fpc p ev :
  acted u fpc [(1%nat, http_version)] (mkCall p ev) = (Ret true, mkCall p (ev ++ [EvRspVersion (slice u (parser_mark p) fpc)])) /\
  acted u fpc [(3%nat, status_code)] (mkCall p ev) =
    (Ret true, mkCall (with_status (atoi (at_mark u p)) p) (ev ++ [EvStatus (slice u (parser_mark p) fpc)])) /\
  acted u fpc [(5%nat, reason_phrase)] (mkCall p ev) = (Ret true, mkCall p (ev ++ [EvReason (slice u (parser_mark p) fpc)])).
Proof. split_and!; reflexivity. Qed.

Lemma reads_part n keep l0 l K P Q r r' s v s1 c :
  (forall u p, plain_response n p -> plain_response n (keep u p)) ->
  (forall u fpc p ev, acted u fpc l0 (mkCall p ev) = (Ret true, mkCall (with_mark fpc p) ev)) ->
  (forall u fpc p ev, acted u fpc l (mkCall p ev) = (Ret true, mkCall (keep u p) (ev ++ [K (slice u (parser_mark p) fpc)]))) ->
  enters httpclient_actions l0 s v s1 -> moves P Q r r' c l = true -> at_state P r s1 ->
  exists s2, at_state Q r' s2 /\ client_reads n s (v ++ [c]) s2 [K v].
Proof.
  intros Hk H0 Hl He Hm Hs. eapply (reads_marked httpclient_actions _ (plain_response n) with_mark parser_mark keep l0 l K P Q r r' s v s1 c);
    [reflexivity| |exact Hk|exact H0|intros; apply Hl|exact He|exact Hm|exact Hs].
  intros m p Hp. exact Hp.
Qed.

Lemma reads_status_line n v ds reason :
  v = str "HTTP/1.0" \/ v = str "HTTP/1.1" -> plain digit ds = true -> ds <> [] -> plain reason_chars reason = true -> reason <> [] ->
  exists s, at_state [q_head] q_head s /\
    client_reads n [httpclient_machine] ((v ++ [32]) ++ (ds ++ [32]) ++ (reason ++ [13]) ++ [10]) s [EvRspVersion v; EvStatus ds; EvReason reason].
Proof.
  intros Hv Hds Hdne Hr Hrne. destruct line_table as (T1 & T2 & T3 & T4 & T5 & T6 & T7 & T8 & T9 & T10 & T11).
  destruct (moves_step httpclient_actions _ _ _ _ _ _ _ T1 (at_state_one _)) as (y & s1 & E1 & Hs1).
  assert (exists s2, at_state [q_number] q_number s2 /\ enters httpclient_actions [(0%nat, mark)] [httpclient_machine] v s2) as (s2 & Hs2 & He2).
  { destruct Hv as [-> | ->].
    - destruct (word_quietly httpclient_actions _ _ _ _ T2 Hs1) as (s2 & Hs2 & Hq). exists s2. split; [exact Hs2|].
      exists 72, (str "TTP/1.0"), y, s1. split_and!; [reflexivity|exact E1|exact Hq].
    - destruct (word_quietly httpclient_actions _ _ _ _ T3 Hs1) as (s2 & Hs2 & Hq). exists s2. split; [exact Hs2|].
      exists 72, (str "TTP/1.1"), y, s1. split_and!; [reflexivity|exact E1|exact Hq]. }
  destruct (reads_part n (λ _ p, p) _ _ EvRspVersion _ _ _ _ _ _ _ _ (λ _ _ H, H) (λ u f p e, proj1 (do_line_marks u f p e))
    (λ u f p e, proj1 (do_line_reports u f p e)) He2 T4 Hs2) as (s3 & Hs3 & R3).
  destruct ds as [|d ds]; [by destruct (Hdne eq_refl)|]. apply andb_true_iff in Hds as [Hd Hds].
  destruct (enters_plain httpclient_actions [q_status] q_status digit eq_refl T6 _ _ digit _ eq_refl T5 s3 d ds Hd Hds Hs3) as (s4 & Hs4 & E4).
  destruct (reads_part n (λ u p, with_status (atoi (at_mark u p)) p) _ _ EvStatus _ _ _ _ _ _ _ _ (λ _ _ H, H) (λ u f p e, proj1 (proj2 (do_line_marks u f p e)))
    (λ u f p e, proj1 (proj2 (do_line_reports u f p e))) E4 T7 Hs4) as (s5 & Hs5 & R5).
  destruct reason as [|c reason]; [by destruct (Hrne eq_refl)|]. apply andb_true_iff in Hr as [Hc Hr].
  destruct (enters_plain httpclient_actions [q_reason] q_reason reason_chars eq_refl T9 _ _ reason_chars _ eq_refl T8 s5 c reason Hc Hr Hs5) as (s6 & Hs6 & E6).
  destruct (reads_part n (λ _ p, p) _ _ EvReason _ _ _ _ _ _ _ _ (λ _ _ H, H) (λ u f p e, proj2 (proj2 (do_line_marks u f p e)))
    (λ u f p e, proj2 (proj2 (do_line_reports u f p e))) E6 T10 Hs6) as (s7 & Hs7 & R7).
  destruct (word_quietly httpclient_actions _ _ _ _ T11 Hs7) as (s8 & Hs8 & Hq). exists s8. split; [exact Hs8|].
  exact (reads_app _ _ _ _ _ _ _ _ _ _ R3 (reads_app _ _ _ _ _ _ _ _ _ _ R5 (reads_app _ _ _ _ _ _ _ _ _ _ R7 (reads_quietly _ _ _ _ _ _ Hq)))).
Qed.

Lemma exec_finish n u closing s pre post p ev :
  same_states (p_head closing) s -> plain_response n p ->
  exists y s' p', is_final (y :: s') = true /\ plain_response n p' /\
    exec u s (length pre) (CRLF ++ post) (mkCall p ev) = (Ret (y :: s', length (pre ++ CRLF)), mkCall p' ev).
Proof.
  intros Hs Hp. destruct (finish_table closing) as (T1 & T2 & T3). destruct (goes_step httpclient_actions _ _ _ _ _ T1 Hs) as (y & s1 & E1 & Hs1).
  destruct (goes_step httpclient_actions _ _ _ _ _ T2 Hs1) as (y2 & s2 & E2 & Hs2).
  change (in_order httpclient_actions [(28%nat, done)]) with [(28%nat, done)] in E2.
  exists y2, s2, (with_body_start (Z.of_nat (S (length pre)) + 1) (if closing then with_close true p else p)). split_and!.
  - apply at_state_same in Hs2. exact (at_state_final _ _ _ Hs2 T3).
  - by destruct closing.
  - unfold exec. change (CRLF ++ post) with (13 :: 10 :: post).
    erewrite (run_step _ _ s 13 y s1 _ _ _ (mkCall p ev) (mkCall (if closing then with_close true p else p) ev) E1); [|destruct closing; reflexivity].
    cbn [run]. rewrite E2. erewrite bind_Ret by reflexivity. cbv beta iota.
    rewrite length_app. cbn. by replace (length pre + 2)%nat with (S (S (length pre))) by lia.
Qed.

(** The marks stay in the buffer, so that the checks behind the machine pass. *)
Definition marks_in (n : nat) (st : ClientCall) : Prop :=
  (parser_mark (parser st) < n /\ field_len (parser st) <= n /\ field_start (parser st) < n)%nat.
Lemma exec_marks u s p : (0 < length u)%nat -> marks_in (length u) p -> marks_in (length u) (exec u s 0 u p).2.
Proof.
  intros Hu Hp. apply (run_inv _ _ (marks_in (length u)) (length u)); [|cbn; lia|exact Hp].
  intros fpc [k a] st Hf (H1 & H2 & H3). unfold marks_in, do_action, mbind, M_bind, gets, modify, mret, M_ret. destruct a; cbn -[atoi at_mark strtol_16 Nat.sub]; split_and!; lia.
Qed.

(** ** The head of a response *)

Definition head_text (v ds reason : list Z) (hs : Http.table) : list Z :=
  ((v ++ [32]) ++ (ds ++ [32]) ++ (reason ++ [13]) ++ [10]) ++ header_lines hs ++ CRLF.
Definition head_events (v ds reason : list Z) (hs : Http.table) (counts : list bool) : list response_event :=
  [EvRspVersion v; EvStatus ds; EvReason reason] ++
  (zip_with (λ kv (b : bool), replicate (times_reported b) (EvRspField kv.1 kv.2)) hs counts ≫= id).

Lemma response_head_parsed n v ds reason hs data :
  0 <= n < 2 ^ 31 -> v = str "HTTP/1.0" \/ v = str "HTTP/1.1" -> plain digit ds = true -> ds <> [] ->
  plain reason_chars reason = true -> reason <> [] -> Forall (header_ok n) hs -> len (head_text v ds reason hs) < 2 ^ 64 ->
  exists p counts, length counts = length hs /\
    drive_client httpclient_parser_init (head_text v ds reason hs ++ data) =
      (head_events v ds reason hs counts, len (head_text v ds reason hs), p) /\
    httpclient_parser_is_finished p = true /\ httpclient_parser_has_error p = false /\ plain_response n p.
Proof.
  intros Hn Hv Hds Hdne Hr Hrne Hh Hlen. destruct (reads_status_line n v ds reason Hv Hds Hdne Hr Hrne) as (s1 & Hs1 & R1).
  apply at_state_same in Hs1. destruct (reads_headers n hs false s1 Hn Hs1 Hh) as (closing & s2 & counts & Hs2 & Hc & R2).
  pose proof (reads_app _ _ _ _ _ _ _ _ _ _ R1 R2) as R. set (t := _ ++ header_lines hs) in R.
  assert (head_text v ds reason hs = t ++ CRLF) as Et by (unfold head_text, t; by rewrite <- !app_assoc).
  rewrite Et in *. set (u := (t ++ CRLF) ++ data). set (evs := head_events v ds reason hs counts).
  set (p0 := with_field 0 0 (with_mark 0 (with_nread 0 httpclient_parser_init))).
  destruct (R u [] (CRLF ++ data) p0 []) as (p1 & Hp1 & E1); [unfold u; by rewrite <- app_assoc|split; [reflexivity|by left]|].
  destruct (exec_finish n u closing s2 t data p1 evs Hs2 Hp1) as (y & s' & p2 & Hfin & Hp2 & E2).
  assert (exec u [httpclient_machine] 0 u (mkCall p0 []) = (Ret (y :: s', length (t ++ CRLF)), mkCall p2 evs)) as E.
  { rewrite <- E2. etransitivity; [|exact E1]. unfold u at 2. by rewrite <- app_assoc. }
  assert (0 < length u)%nat as Hu by (unfold u; rewrite !length_app; cbn; lia).
  destruct (exec_marks u [httpclient_machine] (mkCall p0 []) Hu) as (M1 & M2 & M3); [split_and!; cbn; lia|]. rewrite E in M1, M2, M3. cbn [snd parser] in *.
  exists (with_nread (len (t ++ CRLF)) (with_cs (y :: s') p2)), counts. split_and!; [exact Hc| |exact Hfin|reflexivity|exact Hp2].
  unfold drive_client, httpclient_parser_execute. erewrite bind_Ret by reflexivity. cbv beta. erewrite bind_Ret by reflexivity. cbv beta.
  erewrite bind_Ret by exact E. cbv beta iota. erewrite bind_Ret by reflexivity. cbv beta. erewrite bind_Ret by reflexivity. cbv beta.
  cbn [parser on_parser parser_mark field_len field_start with_nread with_cs compose].
  rewrite (proj2 (Nat.ltb_lt _ _) M1), (proj2 (Nat.leb_le _ _) M2), (proj2 (Nat.ltb_lt _ _) M3). cbn [andb].
  unfold mret, M_ret. cbn [events on_parser parser]. by rewrite uint_small by lia.
Qed.

(** ** The callbacks put the elements into a new response *)

Record same_but_headers (p p' : HttpResponseParser httpclient_parser) : Prop := {
  k_parser : rsp_parser_ p' = rsp_parser_ p;
  k_errno : rsp_errno_ p' = rsp_errno_ p;
  k_chunked : is_chunked_ p' = is_chunked_ p;
  k_line : version_ (response_ p') = version_ (response_ p) /\ status_ (response_ p') = status_ (response_ p) /\
           reason_ (response_ p') = reason_ (response_ p) /\ body_ (response_ p') = body_ (response_ p);
}.
Lemma same_but_headers_trans p1 p2 p3 : same_but_headers p1 p2 -> same_but_headers p2 p3 -> same_but_headers p1 p3.
Proof. intros [] []. split; try congruence. intuition congruence. Qed.

Lemma field_callback p name v :
  tolower <$> name <> str "transfer-encoding" ->
  let p' := response_callback p (EvRspField name v) in
  same_but_headers p p' /\ forall k, table_find k (headers_ (response_ p')) = if strcasecmp_eq name k then Some v else table_find k (headers_ (response_ p)).
Proof.
  intros Hte. cbn [response_callback]. unfold on_response_http_field. rewrite bool_decide_false by (by intros ->). cbn [andb].
  split; [split; done|]. intros k. cbn [on_response response_ set_header set_headers headers_]. destruct (strcasecmp_eq name k) eqn:E.
  - apply table_find_set_eq. symmetry. by apply strcasecmp_eq_spec.
  - apply strcasecmp_neq_spec in E. by apply table_find_set_ne.
Qed.
Lemma field_callbacks_repeated p name v counts :
  tolower <$> name <> str "transfer-encoding" ->
  let p' := foldl response_callback p (replicate (times_reported counts) (EvRspField name v)) in
  same_but_headers p p' /\ forall k, table_find k (headers_ (response_ p')) = if strcasecmp_eq name k then Some v else table_find k (headers_ (response_ p)).
Proof.
  intros Hte. destruct (field_callback p name v Hte) as [K1 F1]. destruct counts; cbn [times_reported replicate foldl]; [|done].
  destruct (field_callback (response_callback p (EvRspField name v)) name v Hte) as [K2 F2]. split; [by eapply same_but_headers_trans|].
  intros k. rewrite F2, F1. by destruct (strcasecmp_eq name k).
Qed.

Lemma headers_callbacks hs : forall counts p,
  length counts = length hs -> NoDup ((λ kv, fold_case kv.1) <$> hs) -> Forall (λ kv, tolower <$> kv.1 <> str "transfer-encoding") hs ->
  let p' := foldl response_callback p (zip_with (λ kv (b : bool), replicate (times_reported b) (EvRspField kv.1 kv.2)) hs counts ≫= id) in
  same_but_headers p p' /\ forall k, table_find k (headers_ (response_ p')) = from_option Some (table_find k (headers_ (response_ p))) (table_find k hs).
Proof.
  induction hs as [|[name v] hs IH]; intros [|b counts] p Hlen Hnd Hte; try done.
  apply NoDup_cons in Hnd as [Hni Hnd]. apply Forall_cons in Hte as [Ht Hte]. injection Hlen as Hlen.
  cbn [zip_with mbind list_bind id]. rewrite foldl_app. destruct (field_callbacks_repeated p name v b Ht) as [K1 F1]. cbn [fst snd] in *.
  set (p1 := foldl response_callback p _) in *. destruct (IH counts p1 Hlen Hnd Hte) as [K2 F2]. split; [by eapply same_but_headers_trans|].
  intros k. rewrite F2, F1. cbn [table_find]. destruct (strcasecmp_eq name k) eqn:E; [|done]. apply strcasecmp_eq_spec in E.
  assert (table_find k hs = None) as ->; [|done].
  rewrite table_find_abs. apply not_elem_of_list_to_map_1. rewrite <- list_fmap_compose, <- E. exact Hni.
Qed.

(** ** Claims *)

(** A response that can be sent: the length of its body unless there is none, no chunks, a
    connection header as the class sets it, and no cookies, which the client reads as headers. *)
Record response_ok (r : HttpResponse.HttpResponse) : Prop := {
  o_version : version_ r = 16 \/ version_ r = 17;
  o_status : 0 <= status_ r < 2 ^ 31;
  o_ordered : table_ordered (headers_ r);
  o_headers : Forall (header_ok (len (body_ r))) (headers_ r);
  o_cookies : cookies_ r = [];
  o_body : len (body_ r) < 2 ^ 31;
  o_length : is_Some (table_find (str "content-length") (headers_ r)) \/ body_ r = [];
}.

Lemma reason_ok s : plain reason_chars (http_status_to_string s) = true /\ http_status_to_string s <> [].
Proof.
  unfold http_status_to_string. destruct (find (λ e, e.1 =? s) HTTP_STATUS_MAP) as [e|] eqn:E; [|done]. apply find_some in E as [Hin _].
  assert (forallb (λ e, plain reason_chars e.2 && negb (length e.2 =? 0)%nat) HTTP_STATUS_MAP = true) as Hall by table.
  apply list_elem_of_In in Hin. pose proof (forallb_elem _ _ _ Hall Hin) as [H1 H2]%andb_true_iff. destruct e as [a [|c t]]; [discriminate H2|]. split; [exact H1|discriminate].
Qed.
Lemma content_length_header r :
  response_ok r -> table_find (str "content-length") (headers_ r) = Some (decimal (len (body_ r))) \/
    (table_find (str "content-length") (headers_ r) = None /\ body_ r = []).
Proof.
  intros Hok. destruct (table_find (str "content-length") (headers_ r)) as [v|] eqn:E.
  - left. f_equal. assert (exists k, (k, v) ∈ headers_ r /\ strcasecmp_eq k (str "content-length") = true) as (k & Hin & Hk).
    { clear Hok. induction (headers_ r) as [|[k' v'] t IH]; [done|]. cbn [table_find] in E. destruct (strcasecmp_eq k' _) eqn:Ek.
      - injection E as <-. exists k'. split; [by left|done].
      - destruct (IH E) as (k & Hin & Hk). exists k. split; [by right|done]. }
    pose proof (proj1 (Forall_forall _ _) (o_headers r Hok) _ Hin) as [Hn _ _ _ Hl]. cbn [fst snd] in *. apply Hl.
    apply strcasecmp_eq_spec in Hk. unfold fold_case in Hk. rewrite c_str_id in Hk; [exact Hk|].
    apply andb_true_iff in Hn as [_ Hn]. apply Forall_forall. intros c Hc ->. pose proof (forallb_elem _ _ _ Hn Hc). done.
  - right. split; [done|]. destruct (o_length r Hok) as [[? H]|H]; [by rewrite E in H|done].
Qed.

(** The version, the status and the headers have arrived. *)
Record arrived (r r' : HttpResponse.HttpResponse) : Prop := {
  a_version : version_ r' = version_ r;
  a_status : status_ r' = status_ r;
  a_headers : forall k, is_Some (table_find k (headers_ r)) \/ fold_case k <> fold_case connection ->
    table_find k (headers_ r') = table_find k (headers_ r);
}.

Lemma status_line_callbacks v n status reason :
  (v = str "HTTP/1.0" /\ n = 16) \/ (v = str "HTTP/1.1" /\ n = 17) -> 0 <= status < 2 ^ 31 ->
  foldl response_callback HttpResponseParser_new [EvRspVersion v; EvStatus (decimal status); EvReason reason] =
    mkResponseParser httpclient_parser_init (mkHttpResponse false false n status reason [] [(connection, str "keep-alive")] []) 0 false.
Proof.
  intros Hv Hs. cbn [foldl response_callback]. rewrite <- (app_nil_r (decimal status)) at 1. rewrite atoi_decimal by done.
  destruct Hv as [[-> ->]|[-> ->]]; reflexivity.
Qed.

(** Behind the head the parser has finished, without an error, and has everything but the body. *)
Lemma response_execute_head r :
  response_ok r -> len (response_to_string r) < 2 ^ 64 ->
  exists head, response_to_string r = head ++ body_ r /\ head <> [] /\ forall data, exists p,
    response_execute (head ++ data) HttpResponseParser_new = (true, len head, p) /\
    response_has_error p = false /\ is_chunked p = false /\
    (machine_content_len (rsp_parser_ p) = -1 \/ machine_content_len (rsp_parser_ p) = len (body_ r)) /\
    arrived r (response_ p) /\ reason_ (response_ p) = http_status_to_string (status_ r) /\ body_ (response_ p) = [].
Proof.
  intros Hok Hlen. set (v := version_string (version_ r)). set (ds := decimal (status_ r)). set (reason := http_status_to_string (status_ r)).
  assert ((v = str "HTTP/1.0" /\ version_ r = 16) \/ (v = str "HTTP/1.1" /\ version_ r = 17)) as Hv
    by (unfold v; destruct (o_version r Hok) as [-> | ->]; [by left|by right]).
  pose proof (o_status r Hok) as Hst. destruct (decimal_correct (status_ r) ltac:(lia)) as [_ Hds].
  assert (plain digit ds = true) as Hd.
  { apply forallb_forall. intros x Hx%list_elem_of_In. rewrite Forall_forall in Hds. apply Hds in Hx. cbn. lia. }
  destruct (reason_ok (status_ r)) as [Hr Hrne]. fold reason in Hr, Hrne.
  assert (response_to_string r = head_text v ds reason (headers_ r) ++ body_ r) as Ets.
  { unfold response_to_string, head_text. fold v reason. rewrite (uint_small 32) by lia. fold ds. rewrite (o_cookies r Hok).
    change (concat _) with (@nil Z). rewrite <- !app_assoc. cbn [app]. by destruct (body_ r); rewrite ?app_nil_r. }
  exists (head_text v ds reason (headers_ r)). split_and!; [exact Ets|unfold head_text; by destruct v|]. intros data.
  rewrite Ets, length_app in Hlen.
  destruct (response_head_parsed (len (body_ r)) v ds reason (headers_ r) data) as (p & counts & Hc & Ed & Hfin & Herr & Hch & Hcl);
    try assumption; [pose proof (o_body r Hok); lia|intuition|apply decimal_nonempty|apply (o_headers r Hok)|lia|].
  assert (Forall (λ kv, tolower <$> kv.1 <> str "transfer-encoding") (headers_ r)) as Hte
    by (eapply Forall_impl; [apply (o_headers r Hok)|intros kv Hkv; apply Hkv]).
  set (p1 := mkResponseParser httpclient_parser_init
    (mkHttpResponse false false (version_ r) (status_ r) reason [] [(connection, str "keep-alive")] []) 0 false).
  destruct (headers_callbacks (headers_ r) counts p1 Hc (table_names_NoDup _ (o_ordered r Hok)) Hte) as [[Kp Ke Kc (K1 & K2 & K3 & K4)] Hfind].
  set (p2 := foldl response_callback p1 _) in *. exists (mkResponseParser p (response_ p2) (rsp_errno_ p2) (is_chunked_ p2)). split_and!.
  - unfold response_execute. change (machine_execute (rsp_parser_ HttpResponseParser_new)) with (drive_client httpclient_parser_init). rewrite Ed. unfold head_events.
    rewrite foldl_app. pose proof (status_line_callbacks v (version_ r) (status_ r) reason Hv Hst) as E1. fold ds in E1. rewrite E1. fold p1 p2. cbn [machine_finished httpclient]. by rewrite Hfin.
  - unfold response_has_error. cbn [rsp_errno_ rsp_parser_ machine_error httpclient]. rewrite Ke, Herr. done.
  - unfold is_chunked. cbn [is_chunked_ rsp_parser_ machine_chunked httpclient]. by rewrite Kc, Hch.
  - exact Hcl.
  - split; cbn [response_]; try done. intros k Hk. rewrite Hfind. destruct (table_find k (headers_ r)) as [w|] eqn:E; [done|]. cbn [from_option].
    destruct Hk as [[? Hk]|Hk]; [done|]. cbn [p1 response_ headers_ table_find]. by rewrite (proj2 (strcasecmp_neq_spec connection k)) by congruence.
  - exact K3.
  - done.
Qed.

Lemma arrived_with_body r r1 : response_ok r -> arrived r r1 -> body_ r <> [] -> arrived r (set_body (body_ r) r1).
Proof.
  intros Hok [] Hb. split; try done. intros k Hk. cbn [set_body with_body set_header set_headers headers_].
  destruct (content_length_header r Hok) as [Hl|[_ ?]]; [|done]. destruct (strcasecmp_eq (str "content-length") k) eqn:E.
  - apply strcasecmp_eq_spec in E. rewrite table_find_set_eq by done. by rewrite (table_find_abs k), <- E, <- table_find_abs, Hl.
  - apply strcasecmp_neq_spec in E. rewrite table_find_set_ne by congruence. auto.
Qed.

Section response_wire.
Context {σ : Type} `{!Transport σ} (incoming outgoing : σ -> list Z) `{!TransportLaws σ incoming outgoing}.

End response_wire.

(** A page with a name in its headers that is not special but starts like a special one. *)
Definition sample_response : HttpResponse.HttpResponse :=
  mkHttpResponse false false 17 404 [] (str "abc")
    [(connection, str "keep-alive"); (str "content-length", str "3"); (str "Content-Type", str "text/html; charset=utf-8")] [].

Lemma sample_response_ok : response_ok sample_response.
Proof.
  split; try done.
  - by right.
  - repeat constructor; done.
  - repeat constructor; done.
  - by left; eexists.
Qed.

