(* ===== verification/Context.v ===== *)
(** * The switch of contexts: src/sylar/swap_context.S, [FiberContext] and
    [make_context] (src/sylar/fiber.{h,cpp})

    The code of [swap_context] as a list of instructions and what each of them does
    to the registers, the flags and the memory of a thread.  Memory is a map from
    addresses to 8-byte words; an access that is not aligned is refused. *)

From S2P Require Import Prelude.

Inductive Reg := rax | rbx | rbp | rsp | rsi | rdi | r12 | r13 | r14 | r15.
#[global] Instance Reg_eq_dec : EqDecision Reg.
Proof. solve_decision. Defined.

Record Cpu := mkCpu {
  RAX_ : Z; RBX_ : Z; RBP_ : Z; RSP_ : Z; RSI_ : Z; RDI_ : Z; R12_ : Z; R13_ : Z; R14_ : Z; R15_ : Z;
  rflags : Z;
  memory : Z -> Z;
}.
Definition regs (c : Cpu) (r : Reg) : Z :=
  match r with
  | rax => RAX_ c | rbx => RBX_ c | rbp => RBP_ c | rsp => RSP_ c | rsi => RSI_ c | rdi => RDI_ c
  | r12 => R12_ c | r13 => R13_ c | r14 => R14_ c | r15 => R15_ c
  end.
Definition set_reg (r : Reg) (v : Z) (c : Cpu) : Cpu :=
  let 'mkCpu a b bp sp si di x12 x13 x14 x15 f m := c in
  match r with
  | rax => mkCpu v b bp sp si di x12 x13 x14 x15 f m
  | rbx => mkCpu a v bp sp si di x12 x13 x14 x15 f m
  | rbp => mkCpu a b v sp si di x12 x13 x14 x15 f m
  | rsp => mkCpu a b bp v si di x12 x13 x14 x15 f m
  | rsi => mkCpu a b bp sp v di x12 x13 x14 x15 f m
  | rdi => mkCpu a b bp sp si v x12 x13 x14 x15 f m
  | r12 => mkCpu a b bp sp si di v x13 x14 x15 f m
  | r13 => mkCpu a b bp sp si di x12 v x14 x15 f m
  | r14 => mkCpu a b bp sp si di x12 x13 v x15 f m
  | r15 => mkCpu a b bp sp si di x12 x13 x14 v f m
  end.
Definition set_rflags (v : Z) (c : Cpu) : Cpu :=
  let 'mkCpu a b bp sp si di x12 x13 x14 x15 _ m := c in mkCpu a b bp sp si di x12 x13 x14 x15 v m.
Definition set_memory (m : Z -> Z) (c : Cpu) : Cpu :=
  let 'mkCpu a b bp sp si di x12 x13 x14 x15 f _ := c in mkCpu a b bp sp si di x12 x13 x14 x15 f m.

Inductive Instr :=
| movq_store (r : Reg) (off : Z) (base : Reg)    (** [movq %r, off(%base)] *)
| movq_load (off : Z) (base : Reg) (r : Reg)     (** [movq off(%base), %r] *)
| leaq (off : Z) (base : Reg) (r : Reg)
| pushq (r : Reg)
| pushq_mem (off : Z) (base : Reg)
| popq (r : Reg)
| pushfq
| popfq.

(** What [pushfq] stores (not VM and RF), and what [popfq] can change in user mode. *)
Definition PUSHED_FLAGS := 0xFCFFFF.
Definition USER_FLAGS := 0x244DD5.

Definition store_word (a v : Z) (m : Z -> Z) : Z -> Z := λ b, if b =? a then v else m b.
Definition addr (off : Z) (base : Reg) (c : Cpu) : Z := u64 (regs c base + off).

Definition store (a v : Z) (c : Cpu) : option Cpu :=
  if a mod 8 =? 0 then Some (set_memory (store_word a v (memory c)) c) else None.
Definition load (a : Z) (c : Cpu) : option Z := if a mod 8 =? 0 then Some (memory c a) else None.
Definition push (v : Z) (c : Cpu) : option Cpu := let a := addr (-8) rsp c in store a v (set_reg rsp a c).
Definition pop (c : Cpu) : option (Z * Cpu) := v ← load (regs c rsp) c; Some (v, set_reg rsp (addr 8 rsp c) c).

Definition exec (i : Instr) (c : Cpu) : option Cpu :=
  match i with
  | movq_store r off base => store (addr off base c) (regs c r) c
  | movq_load off base r => v ← load (addr off base c) c; Some (set_reg r v c)
  | leaq off base r => Some (set_reg r (addr off base c) c)
  | pushq r => push (regs c r) c
  | pushq_mem off base => v ← load (addr off base c) c; push v c
  | popq r => '(v, c) ← pop c; Some (set_reg r v c)
  | pushfq => push (Z.land (rflags c) PUSHED_FLAGS) c
  | popfq => '(v, c) ← pop c; Some (set_rflags (Z.lor (Z.land v USER_FLAGS) (Z.ldiff (rflags c) USER_FLAGS)) c)
  end.

Fixpoint exec_all (l : list Instr) (c : Cpu) : option Cpu :=
  match l with [] => Some c | i :: l => c ← exec i c; exec_all l c end.

Definition swap_context_code : list Instr := [
  (* save current context *)
  movq_store rbx 0x00 rdi; movq_store rbp 0x08 rdi; movq_store rsp 0x10 rdi; movq_store r12 0x18 rdi;
  movq_store r13 0x20 rdi; movq_store r14 0x28 rdi; movq_store r15 0x30 rdi;
  pushfq; popq rax; movq_store rax 0x40 rdi;
  movq_load 0 rsp rax; movq_store rax 0x48 rdi;
  (* load new context *)
  movq_load 0x00 rsi rbx; movq_load 0x08 rsi rbp; movq_load 0x10 rsi rsp; movq_load 0x18 rsi r12;
  movq_load 0x20 rsi r13; movq_load 0x28 rsi r14; movq_load 0x30 rsi r15; movq_load 0x38 rsi rdi;
  movq_load 0x40 rsi rax; pushq rax; popfq;
  leaq 8 rsp rsp; pushq_mem 0x48 rsi ].

(** [call swap_context] with the return address [ra], up to its [ret]: where it goes
    on, and the state there. *)
Definition swap_context (old_ctx new_ctx ra : Z) (c : Cpu) : option (Z * Cpu) :=
  c ← push ra (set_reg rsi new_ctx (set_reg rdi old_ctx c));
  c ← exec_all swap_context_code c;
  pop c.

(** [FiberContext]: the offsets of its members. *)
Definition RBX := 0.
Definition RBP := 1.
Definition RSP := 2.
Definition R12 := 3.
Definition R13 := 4.
Definition R14 := 5.
Definition R15 := 6.
Definition RDI := 7.
Definition REG_COUNT := 8.
Definition registers (ctx i : Z) : Z := ctx + 8 * i.
Definition ctx_rflags (ctx : Z) : Z := ctx + 8 * REG_COUNT.
Definition ret_addr (ctx : Z) : Z := ctx + 8 * REG_COUNT + 8.

Definition make_context (ctx ss_sp ss_size fiber fiber_func_wrapper : Z) (m : Z -> Z) : Z -> Z :=
  let sp := u64 (ss_sp + ss_size - 8) in
  let sp := Z.land sp 0xFFFFFFFFFFFFFFF0 in
  (* memset(ctx->registers, 0, sizeof(ctx->registers)) *)
  let m := fold_left (λ m i, store_word (registers ctx i) 0 m) [RBX; RBP; RSP; R12; R13; R14; R15; RDI] m in
  let m := store_word (registers ctx RSP) sp m in
  let m := store_word (registers ctx RDI) fiber m in
  let m := store_word (ctx_rflags ctx) 0x200 m in
  store_word (ret_addr ctx) fiber_func_wrapper m.

(** ** One switch *)

(** Two ranges of memory. *)
Definition apart (a n b k : Z) : Prop := a + n <= b \/ b + k <= a.
(** A [FiberContext], up to [ret_addr]. *)
Definition ctx_ok (ctx : Z) : Prop := ctx mod 8 = 0 /\ 0 <= ctx /\ ctx + 80 <= 2 ^ 64.
(** A stack pointer with room for [k] words below it. *)
Definition sp_ok (k sp : Z) : Prop := sp mod 8 = 0 /\ 8 * k <= sp < 2 ^ 64.

Lemma store_eq a v m b : b = a -> store_word a v m b = v.
Proof. intros ->. unfold store_word. by rewrite Z.eqb_refl. Qed.
Lemma store_ne a v m b : b <> a -> store_word a v m b = m b.
Proof. intros H. unfold store_word. by rewrite (proj2 (Z.eqb_neq _ _)). Qed.

Lemma exec_cons i l c c1 r : exec i c = Some c1 -> exec_all l c1 = r -> exec_all (i :: l) c = r.
Proof. intros H. cbn. by rewrite H. Qed.

Lemma exec_store r off base c a :
  addr off base c = a -> a mod 8 = 0 ->
  exec (movq_store r off base) c = Some (set_memory (store_word a (regs c r) (memory c)) c).
Proof. intros Ha H. cbn. unfold store. by rewrite Ha, H. Qed.
Lemma exec_load off base r c a :
  addr off base c = a -> a mod 8 = 0 -> exec (movq_load off base r) c = Some (set_reg r (memory c a) c).
Proof. intros Ha H. cbn. unfold load. by rewrite Ha, H. Qed.
Lemma push_at v c a :
  addr (-8) rsp c = a -> a mod 8 = 0 ->
  push v c = Some (set_memory (store_word a v (memory c)) (set_reg rsp a c)).
Proof. intros Ha H. unfold push, store. rewrite Ha, H. by destruct c. Qed.
Lemma pop_at c a :
  addr 8 rsp c = a -> regs c rsp mod 8 = 0 -> pop c = Some (memory c (regs c rsp), set_reg rsp a c).
Proof. intros Ha H. unfold pop, load. rewrite H. cbn. by rewrite Ha. Qed.

Lemma exec_push_mem off base c a b :
  addr off base c = a -> a mod 8 = 0 -> addr (-8) rsp c = b -> b mod 8 = 0 ->
  exec (pushq_mem off base) c = Some (set_memory (store_word b (memory c a) (memory c)) (set_reg rsp b c)).
Proof. intros Ha H Hb H'. cbn. unfold load. rewrite Ha, H. cbn. by apply push_at. Qed.
Lemma exec_lea off base r c a : addr off base c = a -> exec (leaq off base r) c = Some (set_reg r a c).
Proof. by intros <-. Qed.

(** [popfq] gives back the flags a program can change. *)
Definition flags_back (v f : Z) : Z := Z.lor (Z.land v USER_FLAGS) (Z.ldiff f USER_FLAGS).

Lemma mod8_add x k : x mod 8 = 0 -> k mod 8 = 0 -> (x + k) mod 8 = 0.
Proof. intros Hx Hk. by rewrite Zplus_mod, Hx, Hk. Qed.

(** Reads through the stores, and runs the next instruction of a known state. *)
Ltac look := repeat first [rewrite store_eq by lia | rewrite store_ne by lia].
Ltac word := unfold addr; cbn [regs RAX_ RBX_ RBP_ RSP_ RSI_ RDI_]; rewrite uint_small by lia; reflexivity.
Ltac aligned := cbn [regs RSP_]; first [assumption | apply mod8_add; [aligned | reflexivity]].
Ltac see := cbn [set_reg set_rflags set_memory regs RAX_ RBX_ RBP_ RSP_ RSI_ RDI_ R12_ R13_ R14_ R15_ rflags memory].
Ltac run_one :=
  eapply exec_cons;
  [first [eapply exec_lea; word | eapply exec_push_mem; [word|aligned|word|aligned] | eapply exec_store; [word|aligned] | eapply exec_load; [word|aligned]
         | cbn [exec]; eapply push_at; [word|aligned]
         | cbn [exec]; erewrite pop_at; [reflexivity|word|aligned] | reflexivity]
  |see; look].

(** The state behind a switch from the context at [A] to the one at [B], by a call
    with the stack pointer [S]; [N] is the stack pointer kept in [B]. *)
Record ctx_switched (A B ra : Z) (c c' : Cpu) : Prop := {
  sw_regs : (forall r i, In (r, i) [(rbx, RBX); (rbp, RBP); (r12, R12); (r13, R13); (r14, R14); (r15, R15); (rdi, RDI)] ->
    regs c' r = memory c (registers B i));
  sw_rsp : regs c' rsp = memory c (registers B RSP) + 8;
  sw_flags : rflags c' = flags_back (memory c (ctx_rflags B)) (rflags c);
  sw_saved : (forall r i, In (r, i) [(rbx, RBX); (rbp, RBP); (r12, R12); (r13, R13); (r14, R14); (r15, R15)] ->
    memory c' (registers A i) = regs c r);
  sw_saved_rsp : memory c' (registers A RSP) = regs c rsp - 8;
  sw_saved_flags : memory c' (ctx_rflags A) = Z.land (rflags c) PUSHED_FLAGS;
  sw_saved_ra : memory c' (ret_addr A) = ra;
  sw_frame : forall a, apart A 80 a 8 -> apart (regs c rsp - 16) 16 a 8 ->
    apart (memory c (registers B RSP) - 8) 16 a 8 -> memory c' a = memory c a;
}.

Lemma swap_context_spec A B ra c :
  ctx_ok A -> ctx_ok B -> sp_ok 2 (regs c rsp) -> sp_ok 1 (memory c (registers B RSP)) ->
  memory c (registers B RSP) + 8 < 2 ^ 64 -> apart A 80 B 80 ->
  apart A 80 (regs c rsp - 16) 16 -> apart B 80 (regs c rsp - 16) 16 ->
  apart A 80 (memory c (registers B RSP) - 8) 16 -> apart B 80 (memory c (registers B RSP) - 8) 16 ->
  exists c', swap_context A B ra c = Some (memory c (ret_addr B), c') /\ ctx_switched A B ra c c'.
Proof.
  unfold apart, ctx_ok, sp_ok. intros (HA1 & HA2 & HA3) (HB1 & HB2 & HB3) (HS1 & HS2) (HN1 & HN2) HN3 Hsep HAS HBS HAN HBN.
  destruct c as [ax bx bp S si di x12 x13 x14 x15 fl m]. cbn [regs RSP_ memory] in *.
  change (registers B RSP) with (B + 16) in *. remember (m (B + 16)) as N eqn:EN.
  unfold swap_context. see.
  erewrite push_at; [|word|aligned]. see.
  change (Some ?c ≫= ?k) with (k c). cbv beta.
  eassert (exec_all swap_context_code _ = Some _) as ->.
  { unfold swap_context_code. do 7 run_one. run_one. run_one. do 6 run_one.
    rewrite <- EN. do 10 run_one. reflexivity. }
  change (Some ?c ≫= ?k) with (k c). cbv beta. erewrite pop_at; [|word|aligned]. see.
  look. replace (ret_addr B) with (B + 72) by (unfold ret_addr, REG_COUNT; lia). eexists. split; [reflexivity|].
  split; see; unfold registers, ctx_rflags, ret_addr, RBX, RBP, RSP, R12, R13, R14, R15, RDI, REG_COUNT, apart; cbn [In].
  - intros r i Hin. repeat destruct Hin as [Hin|Hin]; try injection Hin as <- <-; try done; see; f_equal; lia.
  - rewrite <- (f_equal m (eq_refl : B + 16 = B + 8 * 2)), <- EN. lia.
  - unfold flags_back. by repeat f_equal.
  - intros r i Hin. repeat destruct Hin as [Hin|Hin]; try injection Hin as <- <-; try done; see;
      look; reflexivity.
  - look. lia.
  - look. reflexivity.
  - look. reflexivity.
  - intros a. change (8 * 2) with 16. rewrite <- EN. intros. by rewrite !store_ne by lia.
Qed.

(** The flags a program can change are back. *)
Lemma flags_kept f f' : Z.land (flags_back (Z.land f PUSHED_FLAGS) f') USER_FLAGS = Z.land f USER_FLAGS.
Proof.
  unfold flags_back. apply Z.bits_inj'. intros n Hn. rewrite !Z.land_spec, Z.lor_spec, !Z.land_spec, Z.ldiff_spec.
  destruct (Z.testbit USER_FLAGS n) eqn:Eu; [|by rewrite !andb_false_r].
  rewrite !andb_true_r, andb_false_r, orb_false_r.
  assert (Z.testbit PUSHED_FLAGS n = true) as ->; [|by rewrite andb_true_r].
  assert (Z.land USER_FLAGS PUSHED_FLAGS = USER_FLAGS) as E by reflexivity. rewrite <- E, Z.land_spec in Eu.
  by apply andb_true_iff in Eu as [_ ?].
Qed.

(** ** Claims *)

(** The conditions of a switch: aligned objects that do not overlap. *)
Record switchable (A B : Z) (c : Cpu) : Prop := {
  so_old : ctx_ok A;
  so_new : ctx_ok B;
  so_rsp : sp_ok 2 (regs c rsp);
  so_ctx : apart A 80 B 80;
  so_old_stack : apart A 80 (regs c rsp - 16) 16;
  so_new_stack : apart B 80 (regs c rsp - 16) 16;
}.

(** (C4) To the fiber that calls it, [swap_context] is a function that returns.  Once
    it has ctx_switched from the context at [A] to another, whatever runs meanwhile, as
    long as the object at [A] is left alone: a later switch to [A], from any context
    [C] and any stack, goes on behind the call with the callee-saved registers, the
    stack pointer and the flags of the time of the call, and it writes nothing of the
    fiber's stack from its stack pointer on. *)
Theorem swap_context_returns (A B C ra rc : Z) (c c1 c2 : Cpu) :
  switchable A B c -> sp_ok 1 (memory c (registers B RSP)) -> memory c (registers B RSP) + 8 < 2 ^ 64 ->
  apart A 80 (memory c (registers B RSP) - 8) 16 -> apart B 80 (memory c (registers B RSP) - 8) 16 ->
  snd <$> swap_context A B ra c = Some c1 ->
  (forall a, A <= a < A + 80 -> memory c2 a = memory c1 a) ->
  switchable C A c2 -> apart C 80 (regs c rsp - 16) 16 ->
  exists c3, swap_context C A rc c2 = Some (ra, c3) /\
    (forall r, In r [rbx; rbp; rsp; r12; r13; r14; r15] -> regs c3 r = regs c r) /\
    Z.land (rflags c3) USER_FLAGS = Z.land (rflags c) USER_FLAGS /\
    (forall a, regs c rsp <= a -> apart C 80 a 8 -> apart (regs c2 rsp - 16) 16 a 8 -> memory c3 a = memory c2 a).
Proof.
  intros [HA HB HS HAB HAS HBS] HN HN' HAN HBN H1 Hkeep [HC _ HS2 HCA HCS2 HAS2] HCS.
  destruct (swap_context_spec A B ra c) as (c1' & E1 & Hsw); try done. rewrite E1 in H1. injection H1 as ->.
  pose proof HA as (HA1 & HA2 & HA3). pose proof HS as [HS1 HSr].
  assert (forall i, 0 <= i < 8 -> memory c2 (registers A i) = memory c1 (registers A i)) as Hreg
    by (intros i Hi; apply Hkeep; unfold registers; lia).
  assert (memory c2 (registers A RSP) = regs c rsp - 8) as EN
    by (rewrite Hreg by (unfold RSP; lia); apply (sw_saved_rsp _ _ _ _ _ Hsw)).
  destruct (swap_context_spec C A rc c2) as (c3 & E3 & Hsw3); try done.
  { rewrite EN. split; [apply (mod8_add _ (-8)); [done|reflexivity]|lia]. }
  { rewrite EN. lia. }
  { rewrite EN. by replace (regs c rsp - 8 - 8) with (regs c rsp - 16) by lia. }
  { rewrite EN. by replace (regs c rsp - 8 - 8) with (regs c rsp - 16) by lia. }
  exists c3. split_and!.
  - rewrite E3, Hkeep by (unfold ret_addr, REG_COUNT; lia). by rewrite (sw_saved_ra _ _ _ _ _ Hsw).
  - intros r Hin. destruct (decide (r = rsp)) as [->|Hr]; [rewrite (sw_rsp _ _ _ _ _ Hsw3), EN; lia|].
    assert (exists i, 0 <= i < 8 /\ In (r, i) [(rbx, RBX); (rbp, RBP); (r12, R12); (r13, R13); (r14, R14); (r15, R15)]) as (i & Hi & Hri).
    { unfold RBX, RBP, R12, R13, R14, R15. cbn in *. destruct r; intuition (try done); eexists; (split; [|by eauto 10]); lia. }
    rewrite (sw_regs _ _ _ _ _ Hsw3 r i), Hreg by (done || cbn in *; tauto). by apply (sw_saved _ _ _ _ _ Hsw).
  - rewrite (sw_flags _ _ _ _ _ Hsw3), Hkeep by (unfold ctx_rflags, REG_COUNT; lia).
    rewrite (sw_saved_flags _ _ _ _ _ Hsw). apply flags_kept.
  - intros a Ha HCa H2a. apply (sw_frame _ _ _ _ _ Hsw3); [done|done|]. rewrite EN. unfold apart. lia.
Qed.

(** A thread on a stack at 8000, and a context at 2000 for one at 16000. *)
Definition caller : Cpu :=
  mkCpu 0 11 12 8000 0 0 13 14 15 16 0x246 (λ a, if a =? registers 2000 RSP then 16000 else if a =? ret_addr 2000 then 77 else 0).
Definition callee : Cpu := default caller (snd <$> swap_context 1000 2000 55 caller).

Lemma swap_context_returns_witness :
  exists c3, swap_context 2000 1000 66 (set_reg rbx 99 callee) = Some (55, c3) /\
    (forall r, In r [rbx; rbp; rsp; r12; r13; r14; r15] -> regs c3 r = regs caller r) /\
    Z.land (rflags c3) USER_FLAGS = Z.land (rflags caller) USER_FLAGS /\
    (forall a, regs caller rsp <= a -> apart 2000 80 a 8 -> apart (regs (set_reg rbx 99 callee) rsp - 16) 16 a 8 ->
       memory c3 a = memory (set_reg rbx 99 callee) a).
Proof.
  apply (swap_context_returns 1000 2000 2000 55 66 caller callee (set_reg rbx 99 callee)).
  - split; vm_compute; intuition discriminate.
  - vm_compute. intuition discriminate.
  - reflexivity.
  - vm_compute. left. discriminate.
  - vm_compute. left. discriminate.
  - vm_compute. reflexivity.
  - intros a _. unfold callee. by destruct (default caller _).
  - split; vm_compute; intuition discriminate.
  - vm_compute. left. discriminate.
Defined.

(** The stack pointer of a new context is a multiple of 16. *)
Lemma land_16 x : 0 <= x < 2 ^ 64 -> Z.land x 0xFFFFFFFFFFFFFFF0 = x - x mod 16.
Proof.
  intros Hx. assert (Z.land x 0xFFFFFFFFFFFFFFF0 = Z.shiftl (Z.shiftr x 4) 4) as ->.
  { change 0xFFFFFFFFFFFFFFF0 with (Z.shiftl (Z.ones 60) 4). apply Z.bits_inj'. intros n Hn.
    rewrite Z.land_spec, !Z.shiftl_spec by done. destruct (Z.ltb_spec n 4); [by rewrite (Z.testbit_neg_r (Z.ones 60)), (Z.testbit_neg_r (Z.shiftr x 4)), andb_false_r by lia|].
    rewrite Z.shiftr_spec, Z.sub_add by lia. destruct (Z.ltb_spec (n - 4) 60).
    - rewrite Z.ones_spec_low by lia. by rewrite andb_true_r.
    - rewrite Z.ones_spec_high, andb_false_r by lia. symmetry. rewrite <- (Z.mod_small x (2 ^ 64)) by done.
      apply Z.mod_pow2_bits_high. lia. }
  rewrite Z.shiftl_mul_pow2, Z.shiftr_div_pow2 by lia. change (2 ^ 4) with 16. pose proof (Z.div_mod x 16 ltac:(lia)). lia.
Qed.

Lemma make_context_words ctx ss_sp ss_size fiber wrapper m :
  let m' := make_context ctx ss_sp ss_size fiber wrapper m in
  (forall i, In i [RBX; RBP; R12; R13; R14; R15] -> m' (registers ctx i) = 0) /\
  m' (registers ctx RSP) = Z.land (u64 (ss_sp + ss_size - 8)) 0xFFFFFFFFFFFFFFF0 /\
  m' (registers ctx RDI) = fiber /\ m' (ctx_rflags ctx) = 0x200 /\ m' (ret_addr ctx) = wrapper /\
  (forall a, apart ctx 80 a 1 -> m' a = m a).
Proof.
  cbv zeta. unfold make_context, registers, ctx_rflags, ret_addr, RBX, RBP, RSP, R12, R13, R14, R15, RDI, REG_COUNT, apart.
  cbn [fold_left In].
  split_and!; [|look; reflexivity..|intros; by rewrite !store_ne by lia].
  intros i Hin. repeat destruct Hin as [<-|Hin]; [look; reflexivity..|done].
Qed.

(** (C28) The first switch to a fiber enters [fiber_func_wrapper] with the fiber as
    its argument and cleared registers, on the fiber's own stack, with the stack
    pointer aligned the way the calling convention wants it at the start of a
    function. *)
Theorem first_switch (A B ra ss_sp ss_size fiber wrapper : Z) (m : Z -> Z) (c : Cpu) :
  let c0 := set_memory (make_context B ss_sp ss_size fiber wrapper m) c in
  switchable A B c -> 0 <= ss_sp -> 32 <= ss_size -> ss_sp + ss_size < 2 ^ 64 ->
  apart A 80 ss_sp ss_size -> apart B 80 ss_sp ss_size ->
  exists c1, swap_context A B ra c0 = Some (wrapper, c1) /\ regs c1 rdi = fiber /\
    (forall r, In r [rbx; rbp; r12; r13; r14; r15] -> regs c1 r = 0) /\
    regs c1 rsp mod 16 = 8 /\ ss_sp + ss_size - 16 <= regs c1 rsp <= ss_sp + ss_size.
Proof.
  cbv zeta. intros [HA HB HS HAB HAS HBS] Hsp Hsize Htop HAss HBss.
  destruct (make_context_words B ss_sp ss_size fiber wrapper m) as (Hz & Ersp & Erdi & _ & Era & _).
  set (m0 := make_context B ss_sp ss_size fiber wrapper m) in *.
  assert (regs (set_memory m0 c) rsp = regs c rsp /\ memory (set_memory m0 c) = m0) as [E1 E2] by (by destruct c).
  rewrite uint_small, land_16 in Ersp by lia. set (sp := ss_sp + ss_size - 8) in *.
  assert (0 <= sp mod 16 < 16) as Hm by (apply Z.mod_pos_bound; lia).
  assert ((sp - sp mod 16) mod 16 = 0) as H16 by (rewrite Zminus_mod_idemp_r, Z.sub_diag; reflexivity).
  destruct (swap_context_spec A B ra (set_memory m0 c)) as (c1 & E & Hsw); rewrite ?E1, ?E2; try done.
  - rewrite Ersp. split; [|lia]. apply Z.mod_divide in H16 as [k ->]; [|lia].
    replace (k * 16) with (k * 2 * 8) by lia. by apply Z.mod_mul.
  - lia.
  - unfold apart in *. lia.
  - unfold apart in *. lia.
  - exists c1. rewrite E2, Era in E. split; [done|]. pose proof (sw_regs _ _ _ _ _ Hsw) as Hr. rewrite E2 in Hr. split_and!.
    + rewrite (Hr rdi RDI); [done|]. cbn. tauto.
    + intros r Hin. assert (exists i, In (r, i) [(rbx, RBX); (rbp, RBP); (r12, R12); (r13, R13); (r14, R14); (r15, R15)]) as (i & Hi).
      { clear - Hin. cbn in *. intuition (subst; eauto 10). }
      assert (In i [RBX; RBP; R12; R13; R14; R15]) by (cbn in *; clear - Hi; intuition congruence).
      rewrite (Hr r i), Hz; [done|done|]. cbn in *. clear - Hi. tauto.
    + rewrite (sw_rsp _ _ _ _ _ Hsw), E2, Ersp, <- Zplus_mod_idemp_l, H16. reflexivity.
    + rewrite (sw_rsp _ _ _ _ _ Hsw), E2, Ersp. lia.
    + rewrite (sw_rsp _ _ _ _ _ Hsw), E2, Ersp. lia.
Qed.

Lemma first_switch_witness :
  exists c1, swap_context 1000 2000 55 (set_memory (make_context 2000 16000 4096 4242 77 (λ _, 0)) caller) = Some (77, c1) /\
    regs c1 rdi = 4242 /\ (forall r, In r [rbx; rbp; r12; r13; r14; r15] -> regs c1 r = 0) /\
    regs c1 rsp mod 16 = 8 /\ 16000 + 4096 - 16 <= regs c1 rsp <= 16000 + 4096.
Proof.
  apply (first_switch 1000 2000 55 16000 4096 4242 77 (λ _, 0) caller).
  - split; vm_compute; intuition discriminate.
  - lia.
  - lia.
  - lia.
  - left. lia.
  - left. lia.
Defined.
