(* ===== verification/Fiber.v ===== *)
(** * Fibers: src/sylar/fiber.{h,cpp}

    The fibers of a process and the threads they run on.  Every thread has its
    [FiberEnvironment] with the call stack of its fibers, innermost first; an
    operation takes the thread [t] that makes it.  A call that switches context
    ends with the other fiber running, back behind its own [swap_context] or at
    the start of its function: registers are the matter of Context.v, here a
    context is either as [make_context] leaves it or one that [swap_context] has
    saved.  The bytes of the stacks are modelled, with the stack pointer of the
    fiber that leaves ([rsp]) as an argument: offsets into its stack. *)

From S2P Require Import Prelude.

Inductive FiberState := INITING | READY | RUNNING | SUSPENDED | SLEEPING | TERMINATED | EXCEPTION.
#[global] Instance FiberState_eq_dec : EqDecision FiberState.
Proof. solve_decision. Defined.

Definition SYLAR_FIBER_DEFAULT_STACK_SIZE := 128 * 1024.
Definition SYLAR_FIBER_MAX_CALL_STACK_DEPTH := 128%nat.

Record FiberMem := mkFiberMem {
  occupier_ : option nat;
  stack_size_ : Z;
  stack_buffer_ : list Z;          (** up to [stack_bottom_] *)
}.

Record Fiber := mkFiber {
  id_ : Z;
  env_ : nat;                      (** the thread whose environment it points to *)
  is_main_fiber_ : bool;
  state_ : FiberState;
  func_ : nat;
  func_args_ : Z;
  fresh_context : bool;            (** [context_] is as [make_context] leaves it *)
  ss_size : Z;
  use_shared_stack_ : bool;
  running_mem_ : option nat;
  stack_buffer_top_ : Z;           (** an offset from [stack_buffer_] *)
  save_buffer_ : option (list Z);  (** with [save_size_], its length *)
}.

Record FiberSharedStackPool := mkPool {
  alloc_idx_ : nat; stack_count_ : nat; stack_array_ : list nat;
}.

Record FiberEnvironment := mkEnv {
  call_stack : list nat;
  swap_in_fiber_ : option nat;
  swap_out_fiber_ : option nat;
  t_fiber_cnt : Z;                 (** the thread's counter *)
}.

Record World := mkWorld {
  fibers : gmap nat Fiber;
  mems : gmap nat FiberMem;
  pools : gmap nat FiberSharedStackPool;
  envs : gmap nat FiberEnvironment;
  next_addr : nat;
}.
Definition World_new : World := mkWorld ∅ ∅ ∅ ∅ 0.

Definition with_fibers (v : gmap nat Fiber) (w : World) : World := mkWorld v (mems w) (pools w) (envs w) (next_addr w).
Definition with_mems (v : gmap nat FiberMem) (w : World) : World := mkWorld (fibers w) v (pools w) (envs w) (next_addr w).
Definition with_pools (v : gmap nat FiberSharedStackPool) (w : World) : World :=
  mkWorld (fibers w) (mems w) v (envs w) (next_addr w).
Definition with_envs (v : gmap nat FiberEnvironment) (w : World) : World :=
  mkWorld (fibers w) (mems w) (pools w) v (next_addr w).
Definition with_next (v : nat) (w : World) : World := mkWorld (fibers w) (mems w) (pools w) (envs w) v.
Definition alter_fiber (g : Fiber -> Fiber) (f : nat) (w : World) : World := with_fibers (alter g f (fibers w)) w.
Definition alter_mem (g : FiberMem -> FiberMem) (m : nat) (w : World) : World := with_mems (alter g m (mems w)) w.
Definition alter_env (g : FiberEnvironment -> FiberEnvironment) (t : nat) (w : World) : World :=
  with_envs (alter g t (envs w)) w.

Definition with_state (s : FiberState) (x : Fiber) : Fiber :=
  mkFiber (id_ x) (env_ x) (is_main_fiber_ x) s (func_ x) (func_args_ x) (fresh_context x) (ss_size x)
    (use_shared_stack_ x) (running_mem_ x) (stack_buffer_top_ x) (save_buffer_ x).
Definition with_env (t : nat) (x : Fiber) : Fiber :=
  mkFiber (id_ x) t (is_main_fiber_ x) (state_ x) (func_ x) (func_args_ x) (fresh_context x) (ss_size x)
    (use_shared_stack_ x) (running_mem_ x) (stack_buffer_top_ x) (save_buffer_ x).
Definition with_context (b : bool) (x : Fiber) : Fiber :=
  mkFiber (id_ x) (env_ x) (is_main_fiber_ x) (state_ x) (func_ x) (func_args_ x) b (ss_size x)
    (use_shared_stack_ x) (running_mem_ x) (stack_buffer_top_ x) (save_buffer_ x).
Definition with_top (p : Z) (x : Fiber) : Fiber :=
  mkFiber (id_ x) (env_ x) (is_main_fiber_ x) (state_ x) (func_ x) (func_args_ x) (fresh_context x) (ss_size x)
    (use_shared_stack_ x) (running_mem_ x) p (save_buffer_ x).
Definition with_save (l : option (list Z)) (x : Fiber) : Fiber :=
  mkFiber (id_ x) (env_ x) (is_main_fiber_ x) (state_ x) (func_ x) (func_args_ x) (fresh_context x) (ss_size x)
    (use_shared_stack_ x) (running_mem_ x) (stack_buffer_top_ x) l.
Definition with_occupier (o : option nat) (m : FiberMem) : FiberMem := mkFiberMem o (stack_size_ m) (stack_buffer_ m).
Definition with_buffer (l : list Z) (m : FiberMem) : FiberMem := mkFiberMem (occupier_ m) (stack_size_ m) l.
Definition with_call_stack (l : list nat) (e : FiberEnvironment) : FiberEnvironment :=
  mkEnv l (swap_in_fiber_ e) (swap_out_fiber_ e) (t_fiber_cnt e).
Definition with_swap (i o : option nat) (e : FiberEnvironment) : FiberEnvironment :=
  mkEnv (call_stack e) i o (t_fiber_cnt e).
Definition with_cnt (n : Z) (e : FiberEnvironment) : FiberEnvironment :=
  mkEnv (call_stack e) (swap_in_fiber_ e) (swap_out_fiber_ e) n.

(** ** Objects *)

(** An access to an object that is gone. *)
Definition the {A} (l : World -> gmap nat A) (a : nat) : M World A := λ w,
  match l w !! a with Some x => (Ret x, w) | None => (Fault BadAccess, w) end.
Definition the_fiber : nat -> M World Fiber := the fibers.
Definition the_mem : nat -> M World FiberMem := the mems.
Definition the_env : nat -> M World FiberEnvironment := the envs.
(** The stack of a fiber; the main fiber has none. *)
Definition the_stack (x : Fiber) : M World (nat * FiberMem) :=
  match running_mem_ x with
  | Some m => mem ← the_mem m; mret (m, mem)
  | None => crash NullDeref
  end.
Definition get_state (f : nat) : M World FiberState := x ← the_fiber f; mret (state_ x).
Definition set_state (f : nat) (s : FiberState) : M World unit := _ ← the_fiber f; modify (alter_fiber (with_state s) f).

(** [SYLAR_ASSERT] *)
Definition sylar_assert (b : bool) : M World unit := if b then mret tt else crash Abort.

(** [new FiberMem(size)]; the bytes are not initialised in the code, and nothing reads
    them before a fiber has written them. *)
Definition alloc_mem (size : Z) : M World nat := λ w,
  let a := next_addr w in
  (Ret a, with_next (S a) (with_mems (<[a := mkFiberMem None size (replicate (Z.to_nat size) 0)]> (mems w)) w)).
Definition alloc_fiber (x : Fiber) : M World nat := λ w,
  let a := next_addr w in (Ret a, with_next (S a) (with_fibers (<[a := x]> (fibers w)) w)).
Definition alloc_pool (p : FiberSharedStackPool) : M World nat := λ w,
  let a := next_addr w in (Ret a, with_next (S a) (with_pools (<[a := p]> (pools w)) w)).
(** [t_fiber_cnt++] *)
Definition next_id (t : nat) : M World Z :=
  e ← the_env t; _ ← modify (alter_env (with_cnt (u64 (t_fiber_cnt e + 1))) t); mret (t_fiber_cnt e).

(** [FiberSharedStackPool]: the vector is filled with copies of one pointer. *)
Definition FiberSharedStackPool_new (stack_count : nat) (stack_size : Z) : M World nat :=
  m ← alloc_mem stack_size; alloc_pool (mkPool 0 stack_count (replicate stack_count m)).
Definition get_fiber_stack (p : nat) : M World nat :=
  pool ← the pools p;
  match stack_array_ pool !! alloc_idx_ pool with
  | Some m =>
      _ ← modify (λ w, with_pools (<[p := mkPool ((alloc_idx_ pool + 1) mod stack_count_ pool) (stack_count_ pool)
                                            (stack_array_ pool)]> (pools w)) w);
      mret m
  | None => crash BadAccess
  end.

(** The size the constructor gives an own stack. *)
Definition stack_size_for (stack_size : Z) : Z :=
  let stack_size := if 1024 * 1024 * 8 <? stack_size then 1024 * 1024 * 8
                    else if stack_size =? 0 then SYLAR_FIBER_DEFAULT_STACK_SIZE else stack_size in
  if negb (Z.land stack_size 4095 =? 0) then u64 (Z.land stack_size (u64 (Z.lnot 4095)) + 4096)
  else stack_size.

(** The two constructors, [stack_buffer_top_] not initialised. *)
Definition Fiber_new (t : nat) (func : nat) (args : Z) (stack_poll : option nat) (stack_size : Z) : M World nat :=
  id ← next_id t;
  m ← match stack_poll with
      | Some p => get_fiber_stack p
      | None => alloc_mem (stack_size_for stack_size)
      end;
  mem ← the_mem m;
  alloc_fiber (mkFiber id t false INITING func args false (stack_size_ mem) (bool_decide (is_Some stack_poll)) (Some m)
                 0 None).
Definition Fiber_main (t : nat) : M World nat :=
  id ← next_id t; alloc_fiber (mkFiber id t true RUNNING 0 0 false 0 false None 0 None).

(** [~Fiber] does nothing but free the object. *)
Definition Fiber_delete (f : nat) : M World unit := modify (λ w, with_fibers (delete f (fibers w)) w).

(** ** The call stack *)

Definition push_fiber (t : nat) (f : nat) : M World unit :=
  e ← the_env t;
  if (length (call_stack e) <? SYLAR_FIBER_MAX_CALL_STACK_DEPTH)%nat
  then modify (alter_env (with_call_stack (f :: call_stack e)) t) else crash BadAccess.
Definition pop_fiber (t : nat) : M World unit :=
  e ← the_env t; modify (alter_env (with_call_stack (tail (call_stack e))) t).
Definition get_current_fiber (t : nat) : M World nat :=
  e ← the_env t; match call_stack e with f :: _ => mret f | [] => crash Abort end.
(** [FiberEnvironment()], when a thread uses fibers for the first time. *)
Definition FiberEnvironment_new (t : nat) : M World unit :=
  _ ← modify (λ w, with_envs (<[t := mkEnv [] None None 0]> (envs w)) w);
  main_fiber ← Fiber_main t;
  push_fiber t main_fiber.
Definition get_this (t : nat) : M World nat := get_current_fiber t.
Definition set_env (t : nat) (f : nat) : M World unit :=
  s ← get_state f;
  _ ← sylar_assert (negb (bool_decide (s = RUNNING)));
  modify (alter_fiber (with_env t) f).

(** ** Switching *)

(** [memcpy] of the bytes above the stack pointer into a new buffer. *)
Definition save_fiber_stack (f : nat) : M World unit :=
  x ← the_fiber f;
  '(m, mem) ← the_stack x;
  if (0 <=? stack_buffer_top_ x) && (stack_buffer_top_ x <=? stack_size_ mem)
  then modify (alter_fiber (with_save (Some (drop (Z.to_nat (stack_buffer_top_ x)) (stack_buffer_ mem)))) f)
  else crash BadAccess.

Definition change_occupier (m : nat) (new_occupier : nat) : M World unit :=
  mem ← the_mem m;
  let occupy := modify (alter_mem (with_occupier (Some new_occupier)) m) in
  match occupier_ mem with
  | None => occupy
  | Some o =>
      if (o =? new_occupier)%nat then occupy
      else s ← get_state o;
           _ ← sylar_assert (bool_decide (s = SUSPENDED) || bool_decide (s = TERMINATED));
           _ ← save_fiber_stack o;
           occupy
  end.

(** [make_context]; see Context.v for the registers. *)
Definition make_context (f : nat) : M World unit :=
  _ ← the_fiber f; _ ← modify (alter_fiber (with_context true) f); set_state f READY.

(** What [swap_fiber] does behind [swap_context], in the fiber that is back. *)
Definition resume_stack (t : nat) : M World unit :=
  e ← the_env t;
  _ ← match swap_in_fiber_ e, swap_out_fiber_ e with
      | Some b_new_fiber, Some b_old_fiber =>
          if (b_new_fiber =? b_old_fiber)%nat then mret tt
          else x ← the_fiber b_new_fiber;
               match save_buffer_ x with
               | Some (c :: l) =>
                   '(m, mem) ← the_stack x;
                   let top := Z.to_nat (stack_buffer_top_ x) in
                   if (0 <=? stack_buffer_top_ x) && (top + length (c :: l) <=? length (stack_buffer_ mem))%nat
                   then modify (alter_mem (with_buffer (take top (stack_buffer_ mem) ++ (c :: l) ++
                                  drop (top + length (c :: l)) (stack_buffer_ mem))) m)
                   else crash BadAccess
               | _ => mret tt
               end
      | _, _ => mret tt
      end;
  modify (alter_env (with_swap None None) t).

Definition swap_fiber (t : nat) (rsp : Z) (old_fiber new_fiber : nat) : M World unit :=
  _ ← the_fiber old_fiber;
  _ ← modify (alter_fiber (with_top rsp) old_fiber);
  x ← the_fiber new_fiber;
  _ ← (if use_shared_stack_ x then
         '(m, mem) ← the_stack x;
         _ ← modify (alter_env (with_swap (Some new_fiber) (occupier_ mem)) t);
         change_occupier m new_fiber
       else modify (alter_env (with_swap None None) t));
  (* swap_context(&old_fiber->context_, &new_fiber->context_) *)
  _ ← modify (alter_fiber (with_context false) old_fiber);
  if fresh_context x then mret tt else resume_stack t.

Definition fiber_resume (t : nat) (rsp : Z) (f : nat) : M World unit :=
  s ← get_state f;
  if bool_decide (s = TERMINATED) || bool_decide (s = EXCEPTION) then mret tt
  else
    _ ← (if bool_decide (s = INITING) then make_context f else mret tt);
    x ← the_fiber f;
    cur_fiber ← get_current_fiber (env_ x);
    _ ← push_fiber (env_ x) f;
    _ ← set_state f RUNNING;
    _ ← set_state cur_fiber SUSPENDED;
    swap_fiber t rsp cur_fiber f.

(** [fiber_yield] and [fiber_sleep] differ in the state they leave. *)
Definition leave (left_as : FiberState) (t : nat) (rsp : Z) : M World unit :=
  cur_fiber ← get_current_fiber t;
  _ ← pop_fiber t;
  next_fiber ← get_current_fiber t;
  s ← get_state cur_fiber;
  _ ← (if bool_decide (s = RUNNING) then set_state cur_fiber left_as else mret tt);
  s' ← get_state next_fiber;
  _ ← sylar_assert (bool_decide (s' = SUSPENDED));
  _ ← set_state next_fiber RUNNING;
  swap_fiber t rsp cur_fiber next_fiber.
Definition fiber_yield : nat -> Z -> M World unit := leave SUSPENDED.
Definition fiber_sleep : nat -> Z -> M World unit := leave SLEEPING.

Definition fiber_wakeup (f : nat) : M World unit :=
  s ← get_state f; if bool_decide (s = SLEEPING) then set_state f SUSPENDED else mret tt.

(** The end of [fiber_func_wrapper]: the function returned, or threw. *)
Definition fiber_finish (threw : bool) (t : nat) (rsp : Z) : M World unit :=
  f ← get_current_fiber t;
  _ ← set_state f (if threw then EXCEPTION else TERMINATED);
  fiber_yield t rsp.

Definition Fiber_reset (f : nat) (func : nat) (args : Z) : M World bool :=
  x ← the_fiber f;
  match is_main_fiber_ x, running_mem_ x with
  | false, Some m =>
      mem ← the_mem m;
      _ ← modify (alter_fiber (λ x, mkFiber (id_ x) (env_ x) false INITING func args (fresh_context x) (stack_size_ mem)
                                      (use_shared_stack_ x) (Some m) (stack_buffer_top_ x) None) f);
      mret true
  | _, _ => mret false
  end.

(** The stack of a fiber is a whole number of pages, at least as large as
    asked for, and at most eight megabytes; asking for none gives the default
    size. *)
Theorem stack_size_rounded (n : Z) :
  0 <= n < 2 ^ 64 ->
  stack_size_for n mod 4096 = 0 /\ Z.min n (8 * 1024 * 1024) <= stack_size_for n <= 8 * 1024 * 1024 /\
  (0 < n <= 8 * 1024 * 1024 -> stack_size_for n < n + 4096) /\
  stack_size_for 0 = SYLAR_FIBER_DEFAULT_STACK_SIZE.
Proof.
  intros Hn. unfold stack_size_for, SYLAR_FIBER_DEFAULT_STACK_SIZE.
  set (m := if _ <? n then _ else _).
  assert (0 < m <= 8 * 1024 * 1024 /\ Z.min n (8 * 1024 * 1024) <= m /\ (0 < n <= 8 * 1024 * 1024 -> m = n)) as (Hm & Hmin & Heq).
  { unfold m. destruct (Z.ltb_spec (1024 * 1024 * 8) n); [lia|]. destruct (Z.eqb_spec n 0); lia. }
  change 4095 with (Z.ones 12). rewrite Z.land_ones by lia. change (2 ^ 12) with 4096.
  pose proof (Z.div_mod m 4096 ltac:(lia)) as Ed. pose proof (Z.mod_pos_bound m 4096 ltac:(lia)) as Em.
  destruct (Z.eqb_spec (m mod 4096) 0) as [E|E]; cbn [negb].
  - split_and!; [done|lia|lia|intros H; specialize (Heq H); lia|reflexivity].
  - assert (Z.land m (u64 (Z.lnot (Z.ones 12))) = m / 4096 * 4096) as ->.
    { change (u64 (Z.lnot (Z.ones 12))) with (2 ^ 64 - 2 ^ 12). change 4096 with (2 ^ 12).
      replace (2 ^ 64 - 2 ^ 12) with (Z.shiftl (Z.ones 52) 12) by reflexivity.
      rewrite <- Z.shiftr_div_pow2, <- Z.shiftl_mul_pow2 by lia.
      apply Z.bits_inj'. intros i Hi. rewrite Z.land_spec, !Z.shiftl_spec by lia.
      destruct (decide (i < 12)); [rewrite !(Z.testbit_neg_r _ (i - 12)) by lia; apply andb_false_r|].
      rewrite Z.shiftr_spec, Z.sub_add by lia. destruct (decide (i < 64)).
      - rewrite Z.ones_spec_low by lia. apply andb_true_r.
      - rewrite <- (Z.mod_small m (2 ^ 64)) by lia. by rewrite Z.mod_pow2_bits_high by lia. }
    rewrite uint_small by lia.
    assert (m <> 8 * 1024 * 1024) by (intros ->; by vm_compute in E).
    assert (m / 4096 * 4096 + 4096 <= 8 * 1024 * 1024).
    { assert (m / 4096 < 2048) by (apply Z.div_lt_upper_bound; lia). lia. }
    split_and!; [|lia|lia|intros H1; specialize (Heq H1); lia|reflexivity].
    replace (m / 4096 * 4096 + 4096) with ((m / 4096 + 1) * 4096) by lia. apply Z.mod_mul. lia.
Qed.

(** ** What the primitives do *)

Definition fstate (w : World) (f : nat) : option FiberState := state_ <$> fibers w !! f.
Definition calls (w : World) (t : nat) : option (list nat) := call_stack <$> envs w !! t.

(** Takes a computation that returned apart. *)
Ltac parts H :=
  repeat (match type of H with (_ ≫= _) _ = _ =>
    let E := fresh "E" in apply bind_Ret_inv in H; destruct H as (? & ? & E & H); cbv beta in H end).

Lemma the_inv {A} (l : World -> gmap nat A) a w r w' : the l a w = (Ret r, w') -> l w !! a = Some r /\ w' = w.
Proof. unfold the. destruct (l w !! a); [|done]. by intros [= -> ->]. Qed.

Lemma the_eq {A} (l : World -> gmap nat A) a w r : l w !! a = Some r -> the l a w = (Ret r, w).
Proof. unfold the. by intros ->. Qed.

Lemma get_state_inv f w s w' : get_state f w = (Ret s, w') -> fstate w f = Some s /\ w' = w.
Proof.
  unfold get_state. intros H. parts H. apply the_inv in E as [E ->]. injection H as <- <-. unfold fstate. by rewrite E.
Qed.

Lemma get_state_eq f s w : fstate w f = Some s -> get_state f w = (Ret s, w).
Proof.
  unfold fstate, get_state, the_fiber, the, mbind, M_bind. destruct (fibers w !! f); [|done]. by intros [= <-].
Qed.

Lemma set_state_inv f s w r w' :
  set_state f s w = (Ret r, w') -> is_Some (fibers w !! f) /\ w' = alter_fiber (with_state s) f w.
Proof.
  unfold set_state. intros H. parts H. apply the_inv in E as [E ->]. injection H as <-. by eauto.
Qed.

Lemma set_state_eq f s w : is_Some (fibers w !! f) -> set_state f s w = (Ret tt, alter_fiber (with_state s) f w).
Proof. intros [x Hx]. unfold set_state. by erewrite bind_Ret by (by apply the_eq). Qed.

Lemma current_inv t w f w' :
  get_current_fiber t w = (Ret f, w') -> w' = w /\ exists r, calls w t = Some (f :: r).
Proof.
  unfold get_current_fiber. intros H. parts H. apply the_inv in E as [E ->]. unfold calls. rewrite E. cbn.
  destruct (call_stack _); [done|]. injection H as <- <-. by eauto.
Qed.

Lemma current_eq t w f r : calls w t = Some (f :: r) -> get_current_fiber t w = (Ret f, w).
Proof.
  unfold calls, get_current_fiber. destruct (envs w !! t) as [e|] eqn:E; [|done]. cbn. intros [= Ec].
  erewrite bind_Ret by (by apply the_eq). by rewrite Ec.
Qed.

Lemma fstate_some w f s : fstate w f = Some s -> is_Some (fibers w !! f).
Proof. unfold fstate. destruct (fibers w !! f); [eauto|done]. Qed.

Lemma the_stack_inv x w m mem w' :
  the_stack x w = (Ret (m, mem), w') -> running_mem_ x = Some m /\ mems w !! m = Some mem /\ w' = w.
Proof.
  unfold the_stack. destruct (running_mem_ x); [|done]. intros H. parts H. apply the_inv in E as [E ->].
  by injection H as -> -> ->.
Qed.
Lemma the_stack_eq x w m mem :
  running_mem_ x = Some m -> mems w !! m = Some mem -> the_stack x w = (Ret (m, mem), w).
Proof. intros Hm Em. unfold the_stack. rewrite Hm. by erewrite bind_Ret by (by apply the_eq). Qed.

(** What stays of a fiber while the bytes of stacks move. *)
Definition skel (x : Fiber) : nat * bool * FiberState * bool * option nat :=
  (env_ x, is_main_fiber_ x, state_ x, use_shared_stack_ x, running_mem_ x).
Definition same_skel (w w' : World) : Prop :=
  (forall f, skel <$> fibers w' !! f = skel <$> fibers w !! f) /\ (forall t, calls w' t = calls w t) /\
  pools w' = pools w /\ next_addr w' = next_addr w.

#[local] Instance same_skel_preorder : PreOrder same_skel.
Proof.
  split; [intros w; by split_and!|]. intros w1 w2 w3 (A1 & A2 & A3 & A4) (B1 & B2 & B3 & B4).
  split_and!; [intros f; by rewrite B1|intros t; by rewrite B2|congruence|congruence].
Qed.

Lemma skel_alter_fiber g f w : (forall x, skel (g x) = skel x) -> same_skel w (alter_fiber g f w).
Proof.
  intros Hg. split_and!; try done. intros h. cbn. destruct (decide (f = h)) as [<-|].
  - rewrite lookup_alter_eq. destruct (fibers w !! f) as [x|]; [|done]. cbn. by rewrite Hg.
  - by rewrite lookup_alter_ne.
Qed.
Lemma skel_alter_mem g m w : same_skel w (alter_mem g m w).
Proof. split_and!; try done. Qed.
Lemma skel_alter_env g t w : (forall e, call_stack (g e) = call_stack e) -> same_skel w (alter_env g t w).
Proof.
  intros Hg. split_and!; try done. intros h. unfold calls. cbn. destruct (decide (t = h)) as [<-|].
  - rewrite lookup_alter_eq. destruct (envs w !! t) as [e|]; [|done]. cbn. by rewrite Hg.
  - by rewrite lookup_alter_ne.
Qed.

Lemma skel_fiber w w' f x :
  same_skel w w' -> fibers w !! f = Some x -> exists x', fibers w' !! f = Some x' /\ skel x' = skel x.
Proof.
  intros (H & _) E. specialize (H f). rewrite E in H. destruct (fibers w' !! f) as [x'|]; [|done].
  exists x'. split; [done|]. by apply (inj Some) in H.
Qed.
Lemma skel_fiber' w w' f x' :
  same_skel w w' -> fibers w' !! f = Some x' -> exists x, fibers w !! f = Some x /\ skel x' = skel x.
Proof.
  intros (H & _) E. specialize (H f). rewrite E in H. destruct (fibers w !! f) as [x|]; [|done].
  exists x. split; [done|]. by apply (inj Some) in H.
Qed.
Lemma skel_fstate w w' f : same_skel w w' -> fstate w' f = fstate w f.
Proof.
  intros (H & _). specialize (H f). unfold fstate.
  destruct (fibers w !! f), (fibers w' !! f); try done. apply (inj Some) in H. cbn. unfold skel in H. congruence.
Qed.

(** ** The stacks *)

(** A fiber whose bytes have to come back: it was swapped out and has not ended. *)
Definition kept (x : Fiber) : bool :=
  match state_ x with RUNNING => negb (fresh_context x) | SUSPENDED | SLEEPING => true | _ => false end.

(** The stack pointer of [f] and the bytes of its stack above it, wherever they are kept. *)
Definition view (w : World) (f : nat) : option (Z * list Z) :=
  x ← fibers w !! f;
  m ← running_mem_ x;
  mem ← mems w !! m;
  Some (stack_buffer_top_ x,
        if use_shared_stack_ x && negb (bool_decide (occupier_ mem = Some f)) then default [] (save_buffer_ x)
        else drop (Z.to_nat (stack_buffer_top_ x)) (stack_buffer_ mem)).

Record mem_ok (w : World) : Prop := {
  m_fiber : forall f x, fibers w !! f = Some x ->
    if is_main_fiber_ x then running_mem_ x = None /\ use_shared_stack_ x = false
    else exists m mem, running_mem_ x = Some m /\ mems w !! m = Some mem /\ 0 <= stack_buffer_top_ x <= stack_size_ mem;
  m_len : forall m mem, mems w !! m = Some mem -> Z.of_nat (length (stack_buffer_ mem)) = stack_size_ mem;
  m_own : forall f g x y m, f <> g -> fibers w !! f = Some x -> fibers w !! g = Some y ->
    running_mem_ x = Some m -> running_mem_ y = Some m -> use_shared_stack_ x = true;
  m_pool : forall p pool m, pools w !! p = Some pool -> m ∈ stack_array_ pool -> is_Some (mems w !! m) /\
    forall f x, fibers w !! f = Some x -> running_mem_ x = Some m -> use_shared_stack_ x = true;
  m_occupier : forall m mem o, mems w !! m = Some mem -> occupier_ mem = Some o ->
    exists x, fibers w !! o = Some x /\ running_mem_ x = Some m /\ use_shared_stack_ x = true;
  m_saved : forall f x m mem, fibers w !! f = Some x -> use_shared_stack_ x = true -> running_mem_ x = Some m ->
    mems w !! m = Some mem -> occupier_ mem <> Some f -> kept x = true ->
    occupier_ mem <> None /\ exists l, save_buffer_ x = Some l /\ Z.of_nat (length l) = stack_size_ mem - stack_buffer_top_ x;
  m_addr : (forall f, is_Some (fibers w !! f) -> (f < next_addr w)%nat) /\
    (forall m, is_Some (mems w !! m) -> (m < next_addr w)%nat);
}.
(** A running fiber occupies its stack. *)
Definition occupies (w : World) (f : nat) : Prop :=
  forall x m mem, fibers w !! f = Some x -> use_shared_stack_ x = true -> running_mem_ x = Some m ->
    mems w !! m = Some mem -> occupier_ mem = Some f.

Lemma alter_Some {A} (g : A -> A) f (l : gmap nat A) h y :
  alter g f l !! h = Some y -> exists z, l !! h = Some z /\ y = if decide (f = h) then g z else z.
Proof.
  rewrite lookup_alter_Some. intros [(-> & z & Hz & ->)|[Hne Hy]]; [exists z; by rewrite decide_True|].
  exists y. by rewrite decide_False.
Qed.

(** A change of a fiber that keeps its stack. *)
Definition same_stack (x x' : Fiber) : Prop :=
  is_main_fiber_ x' = is_main_fiber_ x /\ use_shared_stack_ x' = use_shared_stack_ x /\ running_mem_ x' = running_mem_ x.

Lemma alter_fiber_gen g f w :
  mem_ok w ->
  (forall x, fibers w !! f = Some x -> same_stack x (g x) /\
     (forall m mem, running_mem_ x = Some m -> mems w !! m = Some mem ->
        0 <= stack_buffer_top_ (g x) <= stack_size_ mem /\
        (use_shared_stack_ x = true -> occupier_ mem <> Some f -> kept (g x) = true ->
         occupier_ mem <> None /\ exists l, save_buffer_ (g x) = Some l /\ Z.of_nat (length l) = stack_size_ mem - stack_buffer_top_ (g x)))) ->
  mem_ok (alter_fiber g f w).
Proof.
  intros [H1 H2 H3 H4 H5 H6 H7] Hg.
  assert (forall h y, fibers (alter_fiber g f w) !! h = Some y -> exists x, fibers w !! h = Some x /\ same_stack x y) as Hl.
  { intros h y (z & Hz & ->)%alter_Some. exists z. split; [done|]. destruct (decide (f = h)) as [<-|]; [by apply Hg|done]. }
  split.
  - intros h y (z & Hz & ->)%alter_Some. pose proof (H1 h z Hz) as Hm. destruct (decide (f = h)) as [<-|]; [|done].
    destruct (Hg z Hz) as [(-> & -> & ->) Ht]. destruct (is_main_fiber_ z); [done|].
    destruct Hm as (m & mem & E1 & E2 & _). exists m, mem. split_and!; [done..| |]; by apply (Ht m mem).
  - apply H2.
  - intros h h' y y' m Hne (x & Hx & (_ & -> & ->))%Hl (x' & Hx' & (_ & _ & ->))%Hl. by eapply H3.
  - intros p pool m Hp Hm. destruct (H4 p pool m Hp Hm) as [? Hf]. split; [done|].
    intros h y (x & Hx & (_ & -> & ->))%Hl. by eapply Hf.
  - intros m mem o Hm Ho. destruct (H5 m mem o Hm Ho) as (x & Hx & ? & ?). cbn.
    destruct (decide (f = o)) as [<-|]; [|exists x; by rewrite lookup_alter_ne].
    exists (g x). rewrite lookup_alter_eq, Hx. destruct (proj1 (Hg x Hx)) as (_ & -> & ->). done.
  - intros h y m mem (z & Hz & ->)%alter_Some. destruct (decide (f = h)) as [<-|]; [|by apply H6].
    destruct (Hg z Hz) as [(_ & -> & ->) Ht]. intros Hs Hm Hmem. by apply (Ht m mem Hm Hmem).
  - split; [|apply H7]. intros h [y (x & Hx & _)%Hl]. apply (proj1 H7). by eexists.
Qed.

(** The range of the stack pointer. *)
Lemma top_range w f x m mem :
  mem_ok w -> fibers w !! f = Some x -> running_mem_ x = Some m -> mems w !! m = Some mem ->
  0 <= stack_buffer_top_ x <= stack_size_ mem.
Proof.
  intros Hok Hx Hm Hmem. pose proof (m_fiber _ Hok _ _ Hx) as H. destruct (is_main_fiber_ x); [destruct H; congruence|].
  destruct H as (m' & mem' & ? & ? & ?). by simplify_eq.
Qed.

Lemma alter_fiber_ok g f w :
  (forall x, fibers w !! f = Some x -> same_stack x (g x) /\ stack_buffer_top_ (g x) = stack_buffer_top_ x /\
     (kept (g x) = true -> kept x = true /\ save_buffer_ (g x) = save_buffer_ x)) ->
  mem_ok w -> mem_ok (alter_fiber g f w).
Proof.
  intros Hg Hok. apply alter_fiber_gen; [done|]. intros x Hx. destruct (Hg x Hx) as (Hs & -> & Ha). split; [done|].
  intros m mem Hm Hmem. split; [by eapply top_range|]. intros Hsh Ho Hact. destruct (Ha Hact) as [? ->].
  by eapply (m_saved _ Hok).
Qed.

Lemma alter_fiber_view g f w h :
  (forall x, fibers w !! f = Some x -> same_stack x (g x) /\ stack_buffer_top_ (g x) = stack_buffer_top_ x /\ save_buffer_ (g x) = save_buffer_ x) ->
  view (alter_fiber g f w) h = view w h.
Proof.
  intros Hg. unfold view. cbn. destruct (decide (f = h)) as [<-|]; [|by rewrite lookup_alter_ne].
  rewrite lookup_alter_eq. destruct (fibers w !! f) as [x|] eqn:E; [|done]. cbn.
  destruct (Hg x eq_refl) as ((_ & -> & ->) & -> & ->). done.
Qed.

Lemma alter_fiber_occupies g f w h :
  (forall x, fibers w !! f = Some x -> same_stack x (g x)) -> occupies w h -> occupies (alter_fiber g f w) h.
Proof.
  intros Hg Hr y m mem (x & Hx & ->)%alter_Some. destruct (decide (f = h)) as [<-|]; [|by eapply Hr].
  destruct (Hg x Hx) as (_ & -> & ->). by eapply Hr.
Qed.

Lemma alter_env_mem_ok g t w : mem_ok w -> mem_ok (alter_env g t w).
Proof. by intros []. Qed.

(** The stack pointer of the fiber that leaves. *)
Lemma set_top_ok f x rsp w :
  mem_ok w -> fibers w !! f = Some x ->
  (forall m mem, running_mem_ x = Some m -> mems w !! m = Some mem ->
     0 <= rsp <= stack_size_ mem /\ (use_shared_stack_ x = true -> occupier_ mem = Some f)) ->
  mem_ok (alter_fiber (with_top rsp) f w).
Proof.
  intros Hok Ef Hr. apply alter_fiber_gen; [done|]. intros z Hz. rewrite Ef in Hz. injection Hz as <-.
  split; [done|]. intros m mem Hm Hmem. destruct (Hr m mem Hm Hmem) as [? Ho]. split; [done|]. intros Hs []. by apply Ho.
Qed.

Lemma set_top_view f rsp w g : g <> f -> view (alter_fiber (with_top rsp) f w) g = view w g.
Proof. intros Hne. unfold view. cbn. by rewrite lookup_alter_ne. Qed.

(** A fiber that gives up its stack keeps its bytes in its buffer. *)
Definition saved (o m : nat) (mem : FiberMem) (y : Fiber) (new : nat) (w : World) : World :=
  alter_mem (with_occupier (Some new)) m
    (alter_fiber (with_save (Some (drop (Z.to_nat (stack_buffer_top_ y)) (stack_buffer_ mem)))) o w).

Lemma change_occupier_inv m new w r w' :
  change_occupier m new w = (Ret r, w') -> mem_ok w -> exists mem, mems w !! m = Some mem /\
    (((occupier_ mem = None \/ occupier_ mem = Some new) /\ w' = alter_mem (with_occupier (Some new)) m w) \/
     exists o y, occupier_ mem = Some o /\ o <> new /\ fibers w !! o = Some y /\
       (state_ y = SUSPENDED \/ state_ y = TERMINATED) /\ w' = saved o m mem y new w).
Proof.
  intros H Hok. unfold change_occupier in H. parts H. apply the_inv in E as [Em ->]. eexists. split; [exact Em|].
  destruct (occupier_ _) as [o|] eqn:Eo; [|injection H as <-; by eauto].
  destruct (Nat.eqb_spec o new) as [->|Hne]; [injection H as <-; by eauto|]. right.
  parts H. apply get_state_inv in E as [Es ->]. destruct (m_occupier _ Hok _ _ _ Em Eo) as (y & Ey & Ery & _).
  unfold fstate in Es. rewrite Ey in Es. injection Es as <-.
  unfold sylar_assert in E0. destruct (_ || _) eqn:Est; [|done]. injection E0 as _ <-.
  unfold save_fiber_stack in E1. parts E1. apply the_inv in E as [E ->]. rewrite Ey in E. injection E as <-.
  unfold the_stack in E0. rewrite Ery in E0. parts E0. apply the_inv in E as [E ->]. rewrite Em in E. injection E as <-.
  injection E0 as <- <-. destruct (_ && _); [|done]. injection E1 as _ <-. injection H as _ <-.
  exists o, y. split_and!; [done..| |done]. apply orb_true_iff in Est as [H|H]; apply bool_decide_eq_true in H; by auto.
Qed.

(** Whether [new] can have its stack without an assertion failing. *)
Definition can_take (w : World) (new : nat) : Prop :=
  forall x m mem o, fibers w !! new = Some x -> use_shared_stack_ x = true -> running_mem_ x = Some m ->
    mems w !! m = Some mem -> occupier_ mem = Some o -> o <> new ->
    fstate w o = Some SUSPENDED \/ fstate w o = Some TERMINATED.

Lemma change_occupier_total m new x w :
  mem_ok w -> fibers w !! new = Some x -> use_shared_stack_ x = true -> running_mem_ x = Some m -> can_take w new ->
  exists w', change_occupier m new w = (Ret tt, w').
Proof.
  intros Hok Ex Hs Hm Hc. pose proof (m_fiber _ Hok _ _ Ex) as Hf.
  assert (is_Some (mems w !! m)) as [mem Em].
  { destruct (is_main_fiber_ x); [destruct Hf; congruence|]. destruct Hf as (m' & mem & ? & ? & _). simplify_eq. by eexists. }
  unfold change_occupier. erewrite bind_Ret by (by apply the_eq). cbv beta zeta.
  destruct (occupier_ mem) as [o|] eqn:Eo; [|by eexists]. destruct (Nat.eqb_spec o new); [by eexists|].
  destruct (m_occupier _ Hok _ _ _ Em Eo) as (y & Ey & Ery & Esy).
  pose proof (Hc x m mem o Ex Hs Hm Em Eo ltac:(done)) as Hst. unfold fstate in Hst. rewrite Ey in Hst. cbn in Hst.
  erewrite bind_Ret by (apply (get_state_eq o (state_ y)); unfold fstate; by rewrite Ey). cbv beta.
  erewrite bind_Ret.
  2:{ unfold sylar_assert. rewrite (proj2 (orb_true_iff _ _)); [reflexivity|].
      rewrite !bool_decide_eq_true. destruct Hst; [left|right]; congruence. }
  cbv beta. pose proof (m_fiber _ Hok _ _ Ey) as Hfy.
  assert (0 <= stack_buffer_top_ y <= stack_size_ mem) as Ht.
  { destruct (is_main_fiber_ y); [destruct Hfy; congruence|]. destruct Hfy as (m' & mem' & ? & ? & ?). by simplify_eq. }
  eexists. erewrite bind_Ret; [reflexivity|]. unfold save_fiber_stack.
  erewrite bind_Ret by (by apply the_eq). cbv beta. unfold the_stack. rewrite Ery.
  erewrite bind_Ret; [|erewrite bind_Ret by (by apply the_eq); reflexivity]. cbv beta iota.
  rewrite (proj2 (Z.leb_le _ _)), (proj2 (Z.leb_le _ _)) by lia. reflexivity.
Qed.

Lemma occupy_ok m new x mem w :
  mem_ok w -> fibers w !! new = Some x -> use_shared_stack_ x = true -> running_mem_ x = Some m ->
  mems w !! m = Some mem ->
  (forall o y, occupier_ mem = Some o -> o <> new -> fibers w !! o = Some y ->
     exists l, save_buffer_ y = Some l /\ Z.of_nat (length l) = stack_size_ mem - stack_buffer_top_ y) ->
  mem_ok (alter_mem (with_occupier (Some new)) m w).
Proof.
  intros [H1 H2 H3 H4 H5 H6 H7] Ex Hs Hm Em Hd.
  assert (forall m' mem', mems (alter_mem (with_occupier (Some new)) m w) !! m' = Some mem' ->
    exists mem0, mems w !! m' = Some mem0 /\ mem' = if decide (m = m') then with_occupier (Some new) mem0 else mem0) as Hl.
  { intros m' mem'. apply alter_Some. }
  assert (forall m' mem0, mems w !! m' = Some mem0 -> exists mem', mems (alter_mem (with_occupier (Some new)) m w) !! m' = Some mem'
    /\ stack_size_ mem' = stack_size_ mem0) as Hr.
  { intros m' mem0 Hm0. cbn. destruct (decide (m = m')) as [<-|];
      [rewrite lookup_alter_eq, Hm0; by eexists|rewrite lookup_alter_ne by done; by eexists]. }
  split.
  - intros f y Hy. pose proof (H1 f y Hy) as Hf. destruct (is_main_fiber_ y); [done|].
    destruct Hf as (m' & mem0 & E1 & E2 & E3). destruct (Hr m' mem0 E2) as (mem' & E4 & E5).
    exists m', mem'. rewrite E5. done.
  - intros m' mem' (mem0 & E & ->)%Hl. apply H2 in E. by destruct (decide (m = m')).
  - apply H3.
  - intros p pool m' Hp Hm'. destruct (H4 p pool m' Hp Hm') as [[mem0 E] Hf]. split; [|done].
    destruct (Hr _ _ E) as (mem' & E' & _). by eexists.
  - intros m' mem' o (mem0 & E & ->)%Hl. destruct (decide (m = m')) as [<-|]; [|by apply H5].
    intros [= <-]. by exists x.
  - intros f y m' mem' Hy Hsy Hmy (mem0 & E & ->)%Hl Ho Ha. destruct (decide (m = m')) as [<-|]; [|by eapply H6].
    cbn in *. rewrite Em in E. injection E as <-.
    destruct (decide (occupier_ mem = Some f)) as [Hof|]; [|split; [done|]; by eapply H6].
    split; [done|]. apply (Hd f y Hof); [congruence|done].
  - split; [apply H7|]. intros m' [mem' (mem0 & E & _)%Hl]. apply (proj2 H7). by eexists.
Qed.

Lemma occupy_view m new mem w g :
  mems w !! m = Some mem -> g <> new ->
  (forall y, occupier_ mem = Some g -> fibers w !! g = Some y ->
     save_buffer_ y = Some (drop (Z.to_nat (stack_buffer_top_ y)) (stack_buffer_ mem))) ->
  (forall y, fibers w !! g = Some y -> running_mem_ y = Some m -> use_shared_stack_ y = true) ->
  view (alter_mem (with_occupier (Some new)) m w) g = view w g.
Proof.
  intros Em Hg Hd Hs. unfold view. cbn. destruct (fibers w !! g) as [y|] eqn:Ey; [|done]. cbn.
  destruct (running_mem_ y) as [m'|] eqn:Er; [|done]. cbn. destruct (decide (m = m')) as [<-|]; [|by rewrite lookup_alter_ne].
  rewrite lookup_alter_eq, Em. cbn. rewrite (Hs y eq_refl Er). cbn. rewrite bool_decide_eq_false_2 by congruence. cbn.
  case_bool_decide as Ho; cbn; [|done]. by rewrite (Hd y Ho eq_refl).
Qed.

Lemma save_ok o m mem l w :
  mem_ok w -> mems w !! m = Some mem -> occupier_ mem = Some o -> mem_ok (alter_fiber (with_save (Some l)) o w).
Proof.
  intros Hok Em Ho. apply alter_fiber_gen; [done|]. intros x Hx. split; [done|]. intros m' mem' Hm Hmem.
  split; [by apply (top_range w o x m' mem')|]. destruct (m_occupier _ Hok _ _ _ Em Ho) as (x' & Hx' & Hm' & _). simplify_eq. done.
Qed.

(** *** [change_occupier] *)

Lemma change_occupier_spec m new x w r w' :
  mem_ok w -> fibers w !! new = Some x -> use_shared_stack_ x = true -> running_mem_ x = Some m ->
  change_occupier m new w = (Ret r, w') ->
  mem_ok w' /\ same_skel w w' /\ envs w' = envs w /\ fibers w' !! new = Some x /\
  (forall g, fresh_context <$> fibers w' !! g = fresh_context <$> fibers w !! g) /\
  (exists mem, mems w !! m = Some mem /\ mems w' = <[m := with_occupier (Some new) mem]> (mems w)) /\
  (forall g, g <> new -> view w' g = view w g) /\
  (forall g, g <> new -> fstate w g = Some RUNNING -> occupies w g -> occupies w' g).
Proof.
  intros Hok Ex Hs Hm H. apply change_occupier_inv in H as (mem & Em & H); [|done].
  assert (forall (g : Fiber -> Fiber) o, mems (alter_mem (with_occupier (Some new)) m (alter_fiber g o w)) =
    <[m := with_occupier (Some new) mem]> (mems w)) as Hmems.
  { intros g o. cbn. apply map_eq. intros m'. destruct (decide (m = m')) as [<-|];
      [by rewrite lookup_alter_eq, lookup_insert_eq, Em|by rewrite lookup_alter_ne, lookup_insert_ne]. }
  assert (forall y g, fibers w !! g = Some y -> running_mem_ y = Some m -> use_shared_stack_ y = true) as Hsh.
  { intros y g Hy Hmy. destruct (decide (g = new)) as [->|Hne]; [congruence|].
    by apply (m_own _ Hok g new y x m). }
  destruct H as [[Ho ->]|(o & y & Ho & Hne & Ey & Hst & ->)].
  - split_and!.
    + apply (occupy_ok m new x mem); try done. intros o y Ho' Hne. destruct Ho; congruence.
    + apply skel_alter_mem.
    + done.
    + done.
    + done.
    + exists mem. split; [done|]. rewrite <- (Hmems id 0%nat). cbn. apply map_eq. intros m'.
      destruct (decide (m = m')) as [<-|]; [by rewrite !lookup_alter_eq|by rewrite !lookup_alter_ne].
    + intros g Hg. apply (occupy_view m new mem); [done|done| |by intros z; apply Hsh]. intros z Ho'. destruct Ho; congruence.
    + intros g Hg _ Hoc z m' mem' Hz Hsz Hmz (mem0 & Hm0 & ->)%alter_Some. pose proof (Hoc z m' mem0 Hz Hsz Hmz Hm0) as Hog.
      destruct (decide (m = m')) as [<-|]; [|done]. rewrite Em in Hm0. injection Hm0 as <-. destruct Ho; congruence.
  - pose proof (save_ok o m mem (drop (Z.to_nat (stack_buffer_top_ y)) (stack_buffer_ mem)) w Hok Em Ho) as Hok1.
    unfold saved. set (w1 := alter_fiber _ o w) in *.
    assert (fibers w1 !! new = Some x) as Ex1 by (unfold w1; cbn; by rewrite lookup_alter_ne).
    destruct (m_occupier _ Hok _ _ _ Em Ho) as (y' & Ey' & Ery & Esy). rewrite Ey in Ey'. injection Ey' as <-.
    assert (fibers w1 !! o = Some (with_save (Some (drop (Z.to_nat (stack_buffer_top_ y)) (stack_buffer_ mem))) y)) as Eo1
      by (unfold w1; cbn; by rewrite lookup_alter_eq, Ey).
    split_and!.
    + apply (occupy_ok m new x mem); try done. intros o' y' Ho' _ Hy'. rewrite Ho in Ho'. injection Ho' as <-.
      rewrite Eo1 in Hy'. injection Hy' as <-. eexists. split; [done|]. cbn. rewrite length_drop.
      pose proof (top_range w o y m mem Hok Ey Ery Em). pose proof (m_len _ Hok _ _ Em). lia.
    + transitivity w1; [by apply skel_alter_fiber|apply skel_alter_mem].
    + done.
    + done.
    + intros g. cbn. destruct (decide (o = g)) as [<-|]; [rewrite lookup_alter_eq, Ey; done|by rewrite lookup_alter_ne].
    + exists mem. split; [done|]. apply Hmems.
    + intros g Hg. rewrite (occupy_view m new mem w1 g); [|done|done| |].
      * unfold view. cbn. destruct (decide (o = g)) as [<-|]; [|by rewrite lookup_alter_ne].
        rewrite lookup_alter_eq, Ey. cbn. rewrite Ery. cbn. rewrite Em. cbn.
        rewrite bool_decide_eq_true_2 by done. by rewrite andb_false_r.
      * intros z Ho'. rewrite Ho in Ho'. injection Ho' as <-. rewrite Eo1. by intros [= <-].
      * intros z (z0 & Hz & ->)%alter_Some. pose proof (Hsh z0 g Hz). by destruct (decide (o = g)).
    + intros g Hg Hrun Hoc z m' mem' (z0 & Hz & ->)%alter_Some Hsz Hmz (mem0 & Hm0 & ->)%alter_Some.
      assert (o <> g) by (intros <-; unfold fstate in Hrun; rewrite Ey in Hrun; cbn in Hrun; destruct Hst; congruence).
      rewrite decide_False in * by done. pose proof (Hoc z0 m' mem0 Hz Hsz Hmz Hm0) as Hog.
      destruct (decide (m = m')) as [<-|]; [|done]. change (mems w !! m = Some mem0) in Hm0. congruence.
Qed.

(** *** Coming back *)

Definition restored (m : nat) (top : Z) (mem : FiberMem) (l : list Z) (w : World) : World :=
  alter_mem (with_buffer (take (Z.to_nat top) (stack_buffer_ mem) ++ l)) m w.

Lemma resume_stack_eq t e new x m mem w :
  mem_ok w -> envs w !! t = Some e -> swap_in_fiber_ e = Some new -> fibers w !! new = Some x ->
  running_mem_ x = Some m -> mems w !! m = Some mem ->
  (forall o, swap_out_fiber_ e = Some o -> o <> new -> exists l, save_buffer_ x = Some l /\
     Z.of_nat (length l) = stack_size_ mem - stack_buffer_top_ x) ->
  exists w1, resume_stack t w = (Ret tt, alter_env (with_swap None None) t w1) /\
    ((w1 = w /\ (swap_out_fiber_ e = None \/ swap_out_fiber_ e = Some new)) \/
     exists l, save_buffer_ x = Some l /\ Z.of_nat (length l) = stack_size_ mem - stack_buffer_top_ x /\
       swap_out_fiber_ e <> Some new /\ w1 = restored m (stack_buffer_top_ x) mem l w).
Proof.
  intros Hok Ee Ein Ex Hm Em Hsave. unfold resume_stack. erewrite bind_Ret by (by apply the_eq). cbv beta.
  rewrite Ein. destruct (swap_out_fiber_ e) as [o|]; [|eexists; split; [reflexivity|by auto]].
  destruct (Nat.eqb_spec new o) as [->|Hne]; [eexists; split; [reflexivity|by auto]|].
  destruct (Hsave o eq_refl ltac:(done)) as (l & El & Hl).
  pose proof (top_range _ _ _ _ _ Hok Ex Hm Em) as Ht. pose proof (m_len _ Hok _ _ Em) as Hlen.
  exists (restored m (stack_buffer_top_ x) mem l w). split; [|right; exists l; split_and!; congruence].
  erewrite bind_Ret; [reflexivity|]. erewrite bind_Ret by (by apply the_eq). cbv beta. rewrite El.
  destruct l as [|c l].
  - cbn in Hl. unfold restored. rewrite app_nil_r, take_ge by lia. unfold mret, M_ret. f_equal. unfold alter_mem, with_mems.
    rewrite alter_id; [by destruct w|]. intros mem' [= <-]%(eq_trans (eq_sym Em)). by destruct mem.
  - unfold the_stack. rewrite Hm. erewrite bind_Ret; [|erewrite bind_Ret by (by apply the_eq); reflexivity]. cbv beta iota zeta.
    rewrite (proj2 (Z.leb_le _ _)), (proj2 (Nat.leb_le _ _)) by lia. cbn [andb]. unfold modify, restored.
    rewrite (drop_ge (stack_buffer_ mem)) by lia. by rewrite app_nil_r.
Qed.

Lemma restored_ok m top mem l w :
  mem_ok w -> mems w !! m = Some mem -> 0 <= top -> Z.of_nat (length l) = stack_size_ mem - top ->
  mem_ok (restored m top mem l w).
Proof.
  intros [H1 H2 H3 H4 H5 H6 H7] Em Ht Hl. pose proof (H2 _ _ Em) as Hlen.
  assert (forall m' mem', mems (restored m top mem l w) !! m' = Some mem' -> exists mem0, mems w !! m' = Some mem0 /\
    stack_size_ mem' = stack_size_ mem0 /\ occupier_ mem' = occupier_ mem0 /\
    length (stack_buffer_ mem') = length (stack_buffer_ mem0)) as Hr.
  { intros m' mem' (mem0 & E & ->)%alter_Some. exists mem0. split; [done|]. destruct (decide (m = m')) as [<-|]; [|done].
    rewrite Em in E. injection E as <-. cbn. rewrite length_app, length_take. split_and!; [done..|lia]. }
  assert (forall m' mem0, mems w !! m' = Some mem0 -> exists mem', mems (restored m top mem l w) !! m' = Some mem'
    /\ stack_size_ mem' = stack_size_ mem0) as Hf.
  { intros m' mem0 Hm0. cbn. destruct (decide (m = m')) as [<-|];
      [rewrite lookup_alter_eq, Hm0; by eexists|rewrite lookup_alter_ne by done; by eexists]. }
  split.
  - intros f y Hy. pose proof (H1 f y Hy) as Hy'. destruct (is_main_fiber_ y); [done|].
    destruct Hy' as (m' & mem0 & E1 & E2 & E3). destruct (Hf m' mem0 E2) as (mem' & E4 & E5). exists m', mem'. rewrite E5. done.
  - intros m' mem' (mem0 & E & E1 & _ & E3)%Hr. rewrite E1, E3. by apply H2 in E.
  - apply H3.
  - intros p pool m' Hp Hm'. destruct (H4 p pool m' Hp Hm') as [[mem0 E] ?]. split; [|done].
    destruct (Hf _ _ E) as (mem' & E' & _). by eexists.
  - intros m' mem' o (mem0 & E & _ & E2 & _)%Hr. rewrite E2. by apply H5.
  - intros f y m' mem' Hy Hs Hm (mem0 & E & E1 & E2 & _)%Hr. rewrite E1, E2. by eapply H6.
  - split; [apply H7|]. intros m' [mem' (mem0 & E & _)%Hr]. apply (proj2 H7). by eexists.
Qed.

Lemma restored_view m new x top mem l w g :
  mem_ok w -> mems w !! m = Some mem -> occupier_ mem = Some new -> fibers w !! new = Some x -> running_mem_ x = Some m ->
  use_shared_stack_ x = true ->
  stack_buffer_top_ x = top -> Z.of_nat (length l) = stack_size_ mem - top ->
  view (restored m top mem l w) g = if decide (g = new) then Some (top, l) else view w g.
Proof.
  intros Hok Em Ho Ex Hm Hs Htop Hl. pose proof (top_range _ _ _ _ _ Hok Ex Hm Em) as Ht. pose proof (m_len _ Hok _ _ Em) as Hlen.
  unfold view. cbn. destruct (decide (g = new)) as [->|Hne].
  - rewrite Ex. cbn. rewrite Hm. cbn. rewrite lookup_alter_eq, Em. cbn. rewrite bool_decide_eq_true_2 by done.
    rewrite andb_false_r, Htop. rewrite drop_app_ge by (rewrite length_take; lia). rewrite length_take.
    by replace (_ - _)%nat with 0%nat by lia.
  - destruct (fibers w !! g) as [y|] eqn:Ey; [|done]. cbn. destruct (running_mem_ y) as [m'|] eqn:Er; [|done]. cbn.
    destruct (decide (m = m')) as [<-|]; [|by rewrite lookup_alter_ne]. rewrite lookup_alter_eq, Em. cbn.
    rewrite (m_own _ Hok g new y x m) by done. cbn. rewrite !bool_decide_eq_false_2 by congruence. done.
Qed.

Lemma env_view g t w f : view (alter_env g t w) f = view w f.
Proof. done. Qed.

(** The new fiber is back behind its [swap_context], or at its start. *)
Lemma come_back t e new x m mem (fresh : bool) w r w' :
  mem_ok w -> envs w !! t = Some e -> swap_in_fiber_ e = Some new -> fibers w !! new = Some x ->
  running_mem_ x = Some m -> mems w !! m = Some mem -> use_shared_stack_ x = true -> occupier_ mem = Some new ->
  (fresh = false -> swap_out_fiber_ e <> Some new -> swap_out_fiber_ e <> None /\
     exists l, save_buffer_ x = Some l /\ Z.of_nat (length l) = stack_size_ mem - stack_buffer_top_ x) ->
  (if fresh then mret tt else resume_stack t) w = (Ret r, w') ->
  mem_ok w' /\ same_skel w w' /\ fibers w' = fibers w /\ (forall g, occupies w g -> occupies w' g) /\
  (forall g, g <> new -> view w' g = view w g) /\
  (fresh = false -> view w' new = if decide (swap_out_fiber_ e = Some new) then view w new
     else pair (stack_buffer_top_ x) <$> save_buffer_ x).
Proof.
  intros Hok Ee Ein Ex Hm Em Hs Ho Hsave H. destruct fresh; [injection H as _ <-; by split_and!|].
  destruct (resume_stack_eq t e new x m mem w) as (w1 & E1 & Hcase); try done.
  { intros o Hout Hno. apply Hsave; congruence. }
  rewrite E1 in H. injection H as _ <-. destruct Hcase as [[-> Hout]|(l & El & Hl & Hno & ->)].
  - split_and!; [by apply alter_env_mem_ok|by apply skel_alter_env|done|done|done|]. intros _.
    destruct Hout as [Hout|Hout]; [|by rewrite decide_True].
    destruct (Hsave eq_refl) as [? _]; congruence.
  - pose proof (top_range _ _ _ _ _ Hok Ex Hm Em). rewrite decide_False by done.
    pose proof (λ g, restored_view m new x (stack_buffer_top_ x) mem l w g Hok Em Ho Ex Hm Hs eq_refl Hl) as Hv. split_and!.
    + apply alter_env_mem_ok, restored_ok; [done|done|lia|done].
    + transitivity (restored m (stack_buffer_top_ x) mem l w); [apply skel_alter_mem|by apply skel_alter_env].
    + done.
    + intros g Hg z m' mem' Hz Hsz Hmz (mem0 & Hm0 & ->)%alter_Some. pose proof (Hg z m' mem0 Hz Hsz Hmz Hm0).
      by destruct (decide (m = m')).
    + intros g Hg. rewrite env_view, Hv. by rewrite decide_False.
    + intros _. by rewrite env_view, Hv, decide_True, El.
Qed.

(** *** [swap_fiber] *)

Record swapped (rsp : Z) (old new : nat) (x : Fiber) (w w' : World) : Prop := {
  s_ok : mem_ok w';
  s_skel : same_skel w w';
  s_new : occupies w' new;
  s_others : forall g, g <> new -> fstate w g = Some RUNNING -> occupies w g -> occupies w' g;
  s_view : forall g, g <> old -> (g = new -> fresh_context x = false) -> view w' g = view w g;
  s_left : forall y m mem, fibers w !! old = Some y -> running_mem_ y = Some m -> mems w !! m = Some mem ->
    view w' old = Some (rsp, drop (Z.to_nat rsp) (stack_buffer_ mem));
  s_fresh : forall g, fresh_context <$> fibers w' !! g =
    if decide (g = old) then (λ _, false) <$> fibers w !! g else fresh_context <$> fibers w !! g;
}.

(** Where the stack pointer can be. *)
Definition rsp_ok (w : World) (f : nat) (rsp : Z) : Prop :=
  forall x m mem, fibers w !! f = Some x -> running_mem_ x = Some m -> mems w !! m = Some mem -> 0 <= rsp <= stack_size_ mem.

Lemma set_context_ok f b w :
  mem_ok w -> fstate w f <> Some RUNNING -> mem_ok (alter_fiber (with_context b) f w).
Proof.
  intros Hok Hs. apply alter_fiber_ok; [|done]. intros x Hx. split_and!; [done..|]. unfold kept. cbn.
  unfold fstate in Hs. rewrite Hx in Hs. cbn in Hs. destruct (state_ x); try done.
Qed.

(** The bytes of the fiber that leaves. *)
Lemma left_view rsp old y m mem w :
  occupies w old -> fibers w !! old = Some y -> running_mem_ y = Some m -> mems w !! m = Some mem ->
  view (alter_fiber (with_top rsp) old w) old = Some (rsp, drop (Z.to_nat rsp) (stack_buffer_ mem)).
Proof.
  intros Hoc Ey Hm Em. unfold view. cbn. rewrite lookup_alter_eq, Ey. cbn. rewrite Hm. cbn. rewrite Em. cbn.
  destruct (use_shared_stack_ y) eqn:Hs; [|done]. rewrite bool_decide_eq_true_2; [done|]. by eapply Hoc.
Qed.

(** [swap_context] saves the context of the fiber that leaves: the new fiber has its
    stack, whose bytes are not its own yet. *)
Lemma switched rsp old new x y w w2 :
  fibers w !! old = Some y -> state_ y <> RUNNING -> old <> new -> occupies w old ->
  mem_ok w2 -> same_skel w w2 -> occupies w2 new ->
  (forall g, g <> new -> fstate w g = Some RUNNING -> occupies w g -> occupies w2 g) ->
  (forall g, g <> new -> view w2 g = view (alter_fiber (with_top rsp) old w) g) ->
  (forall g, fresh_context <$> fibers w2 !! g = fresh_context <$> fibers w !! g) ->
  forall w', mem_ok w' -> same_skel (alter_fiber (with_context false) old w2) w' ->
  fibers w' = fibers (alter_fiber (with_context false) old w2) ->
  (forall g, occupies (alter_fiber (with_context false) old w2) g -> occupies w' g) ->
  (forall g, g <> new -> view w' g = view (alter_fiber (with_context false) old w2) g) ->
  (fresh_context x = false -> view w' new = view w new) -> swapped rsp old new x w w'.
Proof.
  intros Ey Hsy Hne Hoc Hok2 Hsk Hnew Hot Hv Hfr w' Hok' Hsk' Hf' Hoc' Hv' Hback.
  assert (forall g, occupies w2 g -> occupies (alter_fiber (with_context false) old w2) g) as Ho3 by (intros; by apply alter_fiber_occupies).
  assert (forall g, view (alter_fiber (with_context false) old w2) g = view w2 g) as Hv3 by (intros; by apply alter_fiber_view).
  split.
  - done.
  - etrans; [exact Hsk|]. etrans; [|exact Hsk']. by apply skel_alter_fiber.
  - by apply Hoc', Ho3.
  - intros g Hg Hr Ho. by apply Hoc', Ho3, Hot.
  - intros g Hg Hx. destruct (decide (g = new)) as [->|]; [by apply Hback, Hx|].
    rewrite Hv', Hv3, Hv by done. by apply set_top_view.
  - intros y' m mem Ey' Hm Em. rewrite Hv', Hv3, Hv by done. by apply (left_view rsp old y' m mem).
  - intros g. rewrite Hf'. cbn. destruct (decide (g = old)) as [->|]; [|by rewrite lookup_alter_ne, Hfr].
    rewrite lookup_alter_eq. destruct (skel_fiber _ _ _ _ Hsk Ey) as (y2 & E2 & _). by rewrite E2, Ey.
Qed.

Lemma swap_shared t rsp old new x y m mem e w w2 r w' :
  mem_ok w -> fibers w !! old = Some y -> fibers w !! new = Some x -> old <> new -> occupies w old ->
  state_ y <> RUNNING -> state_ x = RUNNING -> use_shared_stack_ x = true -> running_mem_ x = Some m ->
  mems w !! m = Some mem -> envs w !! t = Some e -> mem_ok (alter_fiber (with_top rsp) old w) ->
  change_occupier m new (alter_env (with_swap (Some new) (occupier_ mem)) t (alter_fiber (with_top rsp) old w)) = (Ret tt, w2) ->
  (if fresh_context x then mret tt else resume_stack t) (alter_fiber (with_context false) old w2) = (Ret r, w') ->
  swapped rsp old new x w w'.
Proof.
  intros Hok Ey Ex Hne Hoc Hsy Hsx Hs Hm Em Ee Hok0 E2 H.
  set (w1 := alter_env _ t _) in E2. assert (mem_ok w1) as Hok1 by (by apply alter_env_mem_ok).
  assert (fibers w1 !! new = Some x) as Ex1 by (unfold w1; cbn; by rewrite lookup_alter_ne).
  destruct (change_occupier_spec m new x w1 _ _ Hok1 Ex1 Hs Hm E2)
    as (Hok2 & Hsk2 & He2 & Ex2 & Hfr2 & (mem' & Em' & Ems2) & Hv2 & Ho2).
  change (mems w !! m = Some mem') in Em'. rewrite Em in Em'. injection Em' as <-.
  assert (same_skel w w1) as Hsk1 by (etrans; [by apply (skel_alter_fiber (with_top rsp) old)|by apply skel_alter_env]).
  assert (same_skel w w2) as Hsk by (by etrans).
  assert (mems w2 !! m = Some (with_occupier (Some new) mem)) as Em2 by (rewrite Ems2; apply lookup_insert_eq).
  assert (occupier_ mem <> Some new -> fresh_context x = false -> occupier_ mem <> None /\
    exists l, save_buffer_ x = Some l /\ Z.of_nat (length l) = stack_size_ mem - stack_buffer_top_ x) as Hsave.
  { intros Hno Hfr. apply (m_saved _ Hok1 new x m mem); try done. unfold kept. by rewrite Hsx, Hfr. }
  destruct (come_back t (with_swap (Some new) (occupier_ mem) e) new x m (with_occupier (Some new) mem) (fresh_context x)
    (alter_fiber (with_context false) old w2) r w') as (Hok' & Hsk' & Hf' & Ho' & Hv' & Hback); try done.
  - apply set_context_ok; [done|]. rewrite (skel_fstate w w2) by done. unfold fstate. rewrite Ey. cbn. congruence.
  - change (envs w2 !! t = Some (with_swap (Some new) (occupier_ mem) e)). rewrite He2. unfold w1. cbn. by rewrite lookup_alter_eq, Ee.
  - cbn. by rewrite lookup_alter_ne.
  - intros Hfr Hno. by apply Hsave.
  - eapply (switched rsp old new x y w w2); try done.
    + intros z m' mem' Hz _ Hm'. rewrite Ex2 in Hz. injection Hz as <-. rewrite Hm in Hm'. injection Hm' as <-.
      rewrite Em2. by intros [= <-].
    + intros g Hg Hr Ho. apply Ho2; [done|by rewrite (skel_fstate w w1)|]. by apply (alter_fiber_occupies (with_top rsp) old).
    + intros g. rewrite Hfr2. unfold w1. cbn. destruct (decide (old = g)) as [<-|];
        [rewrite lookup_alter_eq, Ey; done|by rewrite lookup_alter_ne].
    + intros Hfr. rewrite (Hback Hfr). unfold view. rewrite Ex. cbn. rewrite Hm. cbn. rewrite Em, Hs. cbn.
      rewrite lookup_alter_ne, Ex2 by done. cbn. rewrite Hm. cbn. rewrite Em2. cbn. rewrite Hs, bool_decide_eq_true_2 by done.
      destruct (decide (occupier_ mem = Some new)) as [Hself|Hno]; [by rewrite bool_decide_eq_true_2|].
      rewrite bool_decide_eq_false_2 by done. destruct (Hsave Hno Hfr) as (_ & l & -> & _). done.
Qed.

Lemma leaver_ok old rsp w :
  mem_ok w -> is_Some (fibers w !! old) -> occupies w old -> rsp_ok w old rsp -> mem_ok (alter_fiber (with_top rsp) old w).
Proof.
  intros Hok [y Ey] Hoc Hrsp. apply (set_top_ok old y); [done..|]. intros m mem Hm Hmem.
  split; [by apply (Hrsp y m mem)|]. intros. by apply (Hoc y m mem).
Qed.

Lemma swap_fiber_spec t rsp old new x y w r w' :
  mem_ok w -> fibers w !! old = Some y -> fibers w !! new = Some x -> old <> new -> occupies w old -> rsp_ok w old rsp ->
  state_ y <> RUNNING -> state_ x = RUNNING -> is_Some (envs w !! t) ->
  swap_fiber t rsp old new w = (Ret r, w') -> swapped rsp old new x w w'.
Proof.
  intros Hok Ey Ex Hne Hoc Hrsp Hsy Hsx [e Ee] H. unfold swap_fiber in H. parts H.
  apply the_inv in E as [E ->]. injection E0 as _ <-. apply the_inv in E1 as [E1 ->]. injection E3 as _ <-.
  set (w0 := alter_fiber (with_top rsp) old w) in *.
  assert (mem_ok w0) as Hok0 by (by apply leaver_ok).
  assert (fibers w0 !! new = Some x) as Ex0 by (unfold w0; cbn; by rewrite lookup_alter_ne).
  rewrite Ex0 in E1. injection E1 as <-. destruct (use_shared_stack_ x) eqn:Hs.
  - parts E2. destruct x1 as [m mem]. apply the_stack_inv in E0 as (Hm & Em & ->). parts E2. injection E0 as _ <-.
    destruct x6. by eapply (swap_shared t rsp old new x y m mem e w x7).
  - injection E2 as _ <-. set (w1 := alter_env _ t w0) in *.
    assert (same_skel w w1) as Hsk1 by (etrans; [by apply (skel_alter_fiber (with_top rsp) old)|by apply skel_alter_env]).
    assert (forall g, fresh_context <$> fibers w1 !! g = fresh_context <$> fibers w !! g) as Hfr.
    { intros g. unfold w1, w0. cbn. destruct (decide (old = g)) as [<-|];
        [rewrite lookup_alter_eq, Ey; done|by rewrite lookup_alter_ne]. }
    assert (mem_ok (alter_fiber (with_context false) old w1)) as Hok2.
    { apply set_context_ok; [by apply alter_env_mem_ok|]. rewrite (skel_fstate w w1) by done. unfold fstate. rewrite Ey. cbn. congruence. }
    assert (w' = alter_fiber (with_context false) old w1 \/
            w' = alter_env (with_swap None None) t (alter_fiber (with_context false) old w1)) as Hw'.
    { destruct (fresh_context x); [injection H as _ <-; by left|]. right. unfold resume_stack in H. parts H.
      apply the_inv in E0 as [E0 ->]. injection H as _ <-. unfold w1 in E0. cbn in E0. rewrite lookup_alter_eq, Ee in E0.
      injection E0 as <-. by injection E1 as _ <-. }
    assert (occupies w1 new) as Hnew by (intros z m' mem' Hz Hsz; change (fibers w0 !! new = Some z) in Hz; congruence).
    eapply (switched rsp old new x y w w1); try done.
    + by apply alter_env_mem_ok.
    + intros g Hg Hr Ho. by apply (alter_fiber_occupies (with_top rsp) old).
    + by destruct Hw' as [-> | ->]; [|apply alter_env_mem_ok].
    + destruct Hw' as [-> | ->]; [done|by apply skel_alter_env].
    + by destruct Hw' as [-> | ->].
    + by destruct Hw' as [-> | ->].
    + by destruct Hw' as [-> | ->].
    + intros _. assert (view w' new = view (alter_fiber (with_context false) old w1) new) as -> by (by destruct Hw' as [-> | ->]).
      rewrite alter_fiber_view by done. change (view w0 new = view w new). by apply set_top_view.
Qed.

Lemma can_take_mono w w1 new :
  same_skel w w1 -> (forall m mem, mems w1 !! m = Some mem -> exists mem0, mems w !! m = Some mem0 /\ occupier_ mem = occupier_ mem0) ->
  can_take w new -> can_take w1 new.
Proof.
  intros Hsk Hm Hc x1 m mem o Ex1 Hs Hmx Em Ho Hne. destruct (skel_fiber' _ _ _ _ Hsk Ex1) as (x & Ex & Hx).
  destruct (Hm m mem Em) as (mem0 & Em0 & Eo). rewrite (skel_fstate w w1) by done. unfold skel in Hx.
  apply (Hc x m mem0 o); congruence.
Qed.

Lemma swap_fiber_total t rsp old new x y w :
  mem_ok w -> fibers w !! old = Some y -> fibers w !! new = Some x -> old <> new -> occupies w old -> rsp_ok w old rsp ->
  state_ y <> RUNNING -> state_ x = RUNNING -> is_Some (envs w !! t) -> can_take w new ->
  exists w', swap_fiber t rsp old new w = (Ret tt, w').
Proof.
  intros Hok Ey Ex Hne Hoc Hrsp Hsy Hsx [e Ee] Hc. unfold swap_fiber. erewrite bind_Ret by (by apply the_eq). cbv beta.
  erewrite bind_Ret by reflexivity. cbv beta. set (w0 := alter_fiber (with_top rsp) old w).
  assert (mem_ok w0) as Hok0 by (by apply leaver_ok).
  assert (fibers w0 !! new = Some x) as Ex0 by (unfold w0; cbn; by rewrite lookup_alter_ne).
  erewrite bind_Ret by (by apply the_eq). cbv beta. destruct (use_shared_stack_ x) eqn:Hs.
  - pose proof (m_fiber _ Hok0 _ _ Ex0) as Hf. destruct (is_main_fiber_ x); [destruct Hf; congruence|].
    destruct Hf as (m & mem & Hm & Em & _).
    assert (exists w2, change_occupier m new (alter_env (with_swap (Some new) (occupier_ mem)) t w0) = (Ret tt, w2)) as [w2 E2].
    { apply (change_occupier_total m new x); [by apply alter_env_mem_ok|done..|].
      apply (can_take_mono w); [|by eauto|done]. etrans; [by apply (skel_alter_fiber (with_top rsp) old)|by apply skel_alter_env]. }
    erewrite bind_Ret.
    2:{ erewrite bind_Ret by (by apply the_stack_eq). cbv beta iota. erewrite bind_Ret by reflexivity. exact E2. }
    cbv beta. erewrite bind_Ret by reflexivity. cbv beta. destruct (fresh_context x) eqn:Efr; [by eexists|].
    assert (mem_ok (alter_env (with_swap (Some new) (occupier_ mem)) t w0)) as Hok1 by (by apply alter_env_mem_ok).
    destruct (change_occupier_spec m new x _ _ _ Hok1 Ex0 Hs Hm E2) as (Hok2 & Hsk2 & He2 & Ex2 & _ & (mem' & Em' & Ems2) & _).
    change (mems w0 !! m = Some mem') in Em'. rewrite Em in Em'. injection Em' as <-.
    destruct (resume_stack_eq t (with_swap (Some new) (occupier_ mem) e) new x m (with_occupier (Some new) mem)
      (alter_fiber (with_context false) old w2)) as (w4 & E4 & _); try done; [| | | | |by eexists].
    + apply set_context_ok; [done|]. rewrite (skel_fstate _ w2) by exact Hsk2.
      change (fstate w0 old <> Some RUNNING). rewrite (skel_fstate w w0) by (by apply skel_alter_fiber). unfold fstate. rewrite Ey. cbn. congruence.
    + change (envs w2 !! t = Some (with_swap (Some new) (occupier_ mem) e)). rewrite He2. cbn. by rewrite lookup_alter_eq, Ee.
    + cbn. by rewrite lookup_alter_ne.
    + change (mems w2 !! m = Some (with_occupier (Some new) mem)). rewrite Ems2. apply lookup_insert_eq.
    + intros o Ho Hno. cbn in Ho. apply (m_saved _ Hok1 new x m mem); try done; [congruence|]. unfold kept. by rewrite Hsx, Efr.
  - erewrite bind_Ret by reflexivity. cbv beta. erewrite bind_Ret by reflexivity. cbv beta.
    destruct (fresh_context x); [by eexists|]. unfold resume_stack. erewrite bind_Ret.
    2:{ apply the_eq. cbn. by rewrite lookup_alter_eq, Ee. }
    cbv beta. eexists. erewrite bind_Ret; [reflexivity|]. reflexivity.
Qed.

(** A switch hands a stack to the new fiber only. *)
Lemma swap_occupiers t rsp old new w r w' :
  mem_ok w -> is_Some (fibers w !! old) -> occupies w old -> rsp_ok w old rsp -> swap_fiber t rsp old new w = (Ret r, w') ->
  forall m mem', mems w' !! m = Some mem' -> exists mem, mems w !! m = Some mem /\
    (occupier_ mem' = occupier_ mem \/ occupier_ mem' = Some new).
Proof.
  intros Hok0 Hold Hoc Hrsp H. pose proof (leaver_ok old rsp w Hok0 Hold Hoc Hrsp) as Hok. unfold swap_fiber in H. parts H. apply the_inv in E as [_ ->]. injection E0 as _ <-. apply the_inv in E1 as [_ ->].
  injection E3 as _ <-. rename x6 into w2.
  assert (forall m mem', mems w2 !! m = Some mem' -> exists mem, mems w !! m = Some mem /\
    (occupier_ mem' = occupier_ mem \/ occupier_ mem' = Some new)) as H2.
  { destruct (use_shared_stack_ _); [|injection E2 as _ <-; by eauto]. parts E2. destruct x0 as [m0 mem0].
    apply the_stack_inv in E as (_ & _ & ->). parts E2. injection E as _ <-.
    apply change_occupier_inv in E2; [|by apply alter_env_mem_ok].
    destruct E2 as (mem & Em & [[_ ->]|(o & y & _ & _ & _ & _ & ->)]); intros m mem' (z & Hz & ->)%alter_Some;
      (exists z; split; [exact Hz|destruct (decide (m0 = m)); by auto]). }
  destruct (fresh_context _); [by injection H as _ <-|]. intros m mem' Hm'. unfold resume_stack in H. parts H.
  apply the_inv in E as [_ ->]. injection H as _ <-. change (mems x6 !! m = Some mem') in Hm'.
  destruct (swap_in_fiber_ _) as [b|]; [|injection E0 as _ <-; by apply H2].
  destruct (swap_out_fiber_ _) as [o|]; [|injection E0 as _ <-; by apply H2].
  destruct (_ =? _)%nat; [injection E0 as _ <-; by apply H2|]. parts E0. apply the_inv in E as [_ ->].
  destruct (save_buffer_ _) as [[|c l]|]; [injection E0 as _ <-; by apply H2| |injection E0 as _ <-; by apply H2].
  parts E0. destruct x8 as [m0 mem0]. apply the_stack_inv in E as (_ & _ & ->). destruct (_ && _); [|done]. injection E0 as _ <-.
  apply alter_Some in Hm' as (z & Hz & ->). destruct (H2 m z Hz) as (mem & Em & Hmem). exists mem. split; [done|].
  by destruct (decide (m0 = m)).
Qed.
