(* ===== verification/FiberRun.v ===== *)
(** * Fibers and their threads: runs of src/sylar/fiber.{h,cpp}

    The invariant of the fibers of a process over any run of the operations of
    Fiber.v by any number of threads ([fiber_step], [fibers_reachable]): the call
    stacks of the threads, who is running, who occupies a shared stack, and where
    the bytes of a fiber that waits are kept. *)

From S2P Require Import Prelude Fiber.

(** ** Fibers and their threads *)

Record calls_ok (w : World) : Prop := {
  c_stack : forall t l, calls w t = Some l -> NoDup l /\ (length l <= SYLAR_FIBER_MAX_CALL_STACK_DEPTH)%nat /\
    exists top rest, l = top :: rest /\ fstate w top = Some RUNNING /\ forall g, g ∈ rest -> fstate w g = Some SUSPENDED;
  c_one : forall t t' l l' g, calls w t = Some l -> calls w t' = Some l' -> g ∈ l -> g ∈ l' -> t = t';
  c_running : forall g, fstate w g = Some RUNNING -> exists t r, calls w t = Some (g :: r);
}.
Definition on_stack (w : World) (g : nat) : Prop := exists t l, calls w t = Some l /\ g ∈ l.
Definition parked (s : FiberState) : Prop := s = SUSPENDED \/ s = SLEEPING.

Record fib_ok (w : World) : Prop := {
  f_calls : calls_ok w;
  f_mem : mem_ok w;
  f_run : forall g, fstate w g = Some RUNNING -> occupies w g;
  f_ctx : forall g x, fibers w !! g = Some x -> state_ x <> READY /\ (parked (state_ x) -> fresh_context x = false);
}.

Lemma fstate_set s f w g :
  fstate (alter_fiber (with_state s) f w) g = if decide (f = g) then (λ _, s) <$> fstate w g else fstate w g.
Proof.
  unfold fstate. cbn. destruct (decide (f = g)) as [->|Hne]; [rewrite lookup_alter_eq; by destruct (fibers w !! g)|].
  by rewrite lookup_alter_ne.
Qed.

Lemma set_state_mem_ok s f w :
  mem_ok w -> occupies w f \/ (forall x, fibers w !! f = Some x -> kept (with_state s x) = true -> kept x = true) ->
  mem_ok (alter_fiber (with_state s) f w).
Proof.
  intros Hok [Ho|Hk]; [|by apply alter_fiber_ok; [|done]; intros x Hx; split_and!; [done..|]; intros; split; [by apply Hk|]].
  apply alter_fiber_gen; [done|]. intros x Hx. split; [done|]. intros m mem Hm Em. split; [by apply (top_range w f x m mem)|].
  intros Hs []. by apply (Ho x m mem).
Qed.

(** *** The call stacks *)

Lemma calls_push t cur rest f w w' :
  calls_ok w -> calls w t = Some (cur :: rest) -> ~ on_stack w f -> (length (cur :: rest) < 128)%nat ->
  (forall g, fstate w' g = if decide (cur = g) then Some SUSPENDED else if decide (f = g) then Some RUNNING else fstate w g) ->
  (forall t', calls w' t' = if decide (t = t') then Some (f :: cur :: rest) else calls w t') -> calls_ok w'.
Proof.
  intros [H1 H2 H3] Ec Hf Hlen Hst Hcs. destruct (H1 t _ Ec) as (Hnd & _ & top & rest' & E & Htop & Hrest). injection E as <- <-.
  assert (f ∉ cur :: rest) as Hnf by (intros Hin; apply Hf; by exists t, (cur :: rest)).
  assert (forall t' l, calls w t' = Some l -> t' <> t -> cur ∉ l) as Hcur.
  { intros t' l El Hne Hin. apply Hne. eapply H2; [exact El|exact Ec|done|by left]. }
  split.
  - intros t' l. rewrite Hcs. destruct (decide (t = t')) as [<-|Hne].
    + intros [= <-]. split_and!; [by constructor|unfold SYLAR_FIBER_MAX_CALL_STACK_DEPTH; simpl in *; lia|].
      exists f, (cur :: rest). split_and!; [done| |].
      * rewrite Hst, decide_False, decide_True; [done|done|]. intros ->. apply Hnf. by left.
      * intros g Hg. rewrite Hst. case_decide; [done|]. rewrite decide_False by (by intros ->).
        apply elem_of_cons in Hg as [->|Hg]; [done|auto].
    + intros El. destruct (H1 t' l El) as (? & ? & top & rest' & -> & Htop' & Hrest'). split_and!; [done..|].
      assert (forall g, g ∈ top :: rest' -> fstate w' g = fstate w g) as Hkeep.
      { intros g Hg. rewrite Hst, !decide_False; [done| |]; intros ->.
        - apply Hf. by exists t', (top :: rest').
        - by apply (Hcur t' (top :: rest') El). }
      exists top, rest'. split_and!; [done| |]; [rewrite Hkeep by (by left); done|].
      intros g Hg. rewrite Hkeep by (by right). auto.
  - intros t1 t2 l1 l2 g. rewrite !Hcs. destruct (decide (t = t1)) as [<-|], (decide (t = t2)) as [<-|]; [done| | |by apply H2].
    + intros [= <-] El2 [->|Hg1]%elem_of_cons Hg2; [destruct Hf; by exists t2, l2|by eapply (H2 t t2)].
    + intros El1 [= <-] Hg1 [->|Hg2]%elem_of_cons; [destruct Hf; by exists t1, l1|by eapply (H2 t1 t)].
  - intros g. rewrite Hst. case_decide; [done|]. destruct (decide (f = g)) as [<-|].
    + intros _. exists t, (cur :: rest). by rewrite Hcs, decide_True.
    + intros Hg. destruct (H3 g Hg) as (t' & r & El). exists t', r. rewrite Hcs, decide_False; [done|]. intros <-.
      rewrite Ec in El. by injection El.
Qed.

Lemma calls_pop t cur next rest s w w' :
  calls_ok w -> calls w t = Some (cur :: next :: rest) -> s <> RUNNING ->
  (forall g, fstate w' g = if decide (next = g) then Some RUNNING else if decide (cur = g) then Some s else fstate w g) ->
  (forall t', calls w' t' = if decide (t = t') then Some (next :: rest) else calls w t') -> calls_ok w'.
Proof.
  intros [H1 H2 H3] Ec Hs Hst Hcs. destruct (H1 t _ Ec) as (Hnd & Hlen & top & rest' & E & Htop & Hrest). injection E as <- <-.
  apply NoDup_cons in Hnd as [Hcur Hnd]. pose proof Hnd as [Hnext _]%NoDup_cons.
  assert (forall t' l g, calls w t' = Some l -> t' <> t -> g ∈ cur :: next :: rest -> g ∉ l) as Hsep.
  { intros t' l g El Hne Hg Hin. apply Hne. by eapply (H2 t' t). }
  split.
  - intros t' l. rewrite Hcs. destruct (decide (t = t')) as [<-|Hne].
    + intros [= <-]. split_and!; [done|simpl in *; lia|]. exists next, rest. split_and!; [done|by rewrite Hst, decide_True|].
      intros g Hg. rewrite Hst, !decide_False; [apply Hrest; by right| |]; intros ->; [apply Hcur; by right|done].
    + intros El. destruct (H1 t' l El) as (? & ? & top & rest' & -> & Htop' & Hrest'). split_and!; [done..|].
      assert (forall g, g ∈ top :: rest' -> fstate w' g = fstate w g) as Hkeep.
      { intros g Hg. rewrite Hst, !decide_False; [done| |]; intros ->; (eapply Hsep; [exact El|done| |exact Hg]); set_solver. }
      exists top, rest'. split_and!; [done| |]; [rewrite Hkeep by (by left); done|].
      intros g Hg. rewrite Hkeep by (by right). auto.
  - intros t1 t2 l1 l2 g. rewrite !Hcs. destruct (decide (t = t1)) as [<-|], (decide (t = t2)) as [<-|]; [done| | |by apply H2].
    + intros [= <-] El2 Hg1 Hg2. eapply (H2 t t2); [done..| |done]. by right.
    + intros El1 [= <-] Hg1 Hg2. eapply (H2 t1 t); [done..|]. by right.
  - intros g. rewrite Hst. destruct (decide (next = g)) as [<-|].
    + intros _. exists t, rest. by rewrite Hcs, decide_True.
    + destruct (decide (cur = g)); [congruence|]. intros Hg. destruct (H3 g Hg) as (t' & r & El). exists t', r.
      rewrite Hcs, decide_False; [done|]. intros <-. rewrite Ec in El. injection El as -> _. done.
Qed.

(** *** Entering and leaving *)

Definition prepared (f : nat) (w : World) : World :=
  if decide (fstate w f = Some INITING)
  then alter_fiber (with_state READY) f (alter_fiber (with_context true) f w) else w.
Definition entering (t cur f : nat) (rest : list nat) (w : World) : World :=
  alter_fiber (with_state SUSPENDED) cur (alter_fiber (with_state RUNNING) f
    (alter_env (with_call_stack (f :: cur :: rest)) t (prepared f w))).

Lemma prepared_fiber f w g : fibers (prepared f w) !! g =
  if decide (f = g) then (λ x, if decide (state_ x = INITING) then with_state READY (with_context true x) else x) <$> fibers w !! g
  else fibers w !! g.
Proof.
  unfold prepared. destruct (decide (f = g)) as [->|Hne].
  - unfold fstate. destruct (fibers w !! g) as [x|] eqn:Ex; cbn.
    + destruct (decide (Some (state_ x) = Some INITING)) as [[= Hi]|Hi].
      * cbn. rewrite !lookup_alter_eq, Ex. cbn. by rewrite decide_True.
      * rewrite Ex, decide_False by congruence. done.
    + by rewrite decide_False.
  - case_decide; [|done]. cbn. by rewrite !lookup_alter_ne.
Qed.
Lemma prepared_rest f w : mems (prepared f w) = mems w /\ envs (prepared f w) = envs w /\ pools (prepared f w) = pools w /\
  next_addr (prepared f w) = next_addr w.
Proof. unfold prepared. by case_decide. Qed.

Lemma fiber_resume_eq t rsp cur rest f x w :
  calls w t = Some (cur :: rest) -> (length (cur :: rest) < 128)%nat -> fibers w !! f = Some x -> env_ x = t ->
  state_ x <> TERMINATED -> state_ x <> EXCEPTION -> is_Some (fibers w !! cur) ->
  fiber_resume t rsp f w = swap_fiber t rsp cur f (entering t cur f rest w).
Proof.
  intros Ec Hlen Ex Et Ht He [y Ey]. unfold fiber_resume.
  assert (fstate w f = Some (state_ x)) as Es by (unfold fstate; by rewrite Ex).
  erewrite bind_Ret by (by apply get_state_eq). cbv beta. rewrite !bool_decide_eq_false_2 by done. cbn [orb].
  erewrite (bind_Ret _ _ _ (prepared f w) tt).
  2:{ unfold prepared. rewrite Es. destruct (decide (state_ x = INITING)) as [Hi|Hi];
        [rewrite bool_decide_eq_true_2, decide_True by congruence|by rewrite bool_decide_eq_false_2, decide_False by congruence].
      unfold make_context. erewrite bind_Ret by (by apply the_eq). cbv beta. erewrite bind_Ret by reflexivity. cbv beta.
      apply set_state_eq. cbn. rewrite lookup_alter_eq, Ex. by eexists. }
  cbv beta. pose proof (prepared_fiber f w) as Hp. destruct (prepared_rest f w) as (_ & Hpe & _).
  assert (exists x', fibers (prepared f w) !! f = Some x' /\ env_ x' = t) as (x' & Ex' & Et').
  { rewrite Hp, decide_True, Ex by done. cbn. eexists. split; [done|]. by case_decide. }
  erewrite bind_Ret by (by apply the_eq). cbv beta. rewrite Et'.
  assert (calls (prepared f w) t = Some (cur :: rest)) as Ec' by (unfold calls; by rewrite Hpe).
  erewrite bind_Ret by (by eapply current_eq). cbv beta.
  unfold calls in Ec'. destruct (envs (prepared f w) !! t) as [e|] eqn:Ee; [|done]. injection Ec' as Ec'.
  erewrite bind_Ret.
  2:{ unfold push_fiber. erewrite bind_Ret by (by apply the_eq). cbv beta. rewrite Ec'. unfold SYLAR_FIBER_MAX_CALL_STACK_DEPTH.
      rewrite (proj2 (Nat.ltb_lt _ _) Hlen). reflexivity. }
  cbv beta. erewrite bind_Ret by (apply set_state_eq; cbn; rewrite Ex'; by eexists). cbv beta.
  erewrite bind_Ret; [reflexivity|]. apply set_state_eq. cbn. rewrite lookup_alter_is_Some, Hp.
  destruct (decide (f = cur)) as [->|]; [rewrite Ex; by eexists|by rewrite Ey].
Qed.

Lemma calls_ok_skel w w' : same_skel w w' -> calls_ok w -> calls_ok w'.
Proof.
  intros Hsk [H1 H2 H3]. pose proof (λ g, skel_fstate w w' g Hsk) as Hst. destruct Hsk as (_ & Hcs & _). split.
  - intros t l. rewrite Hcs. intros El. destruct (H1 t l El) as (? & ? & top & rest & -> & ? & Hr).
    split_and!; [done..|]. exists top, rest. rewrite Hst. split_and!; [done..|]. intros g Hg. rewrite Hst. auto.
  - intros t t' l l' g. rewrite !Hcs. apply H2.
  - intros g. rewrite Hst. intros Hg. destruct (H3 g Hg) as (t & r & E). exists t, r. by rewrite Hcs.
Qed.

(** A switch leaves everything in order. *)
Lemma switch_ok rsp old new x w w' :
  swapped rsp old new x w w' -> calls_ok w ->
  (forall g, fstate w g = Some RUNNING -> g <> new -> occupies w g) ->
  (forall g z, fibers w !! g = Some z -> state_ z <> READY /\ (parked (state_ z) -> g <> old -> fresh_context z = false)) ->
  fib_ok w'.
Proof.
  intros Hsw Hc Hr Hx. pose proof (s_skel _ _ _ _ _ _ Hsw) as Hsk. split.
  - by eapply calls_ok_skel.
  - apply Hsw.
  - intros g Hg. rewrite (skel_fstate w w') in Hg by done. destruct (decide (g = new)) as [->|]; [apply Hsw|].
    apply (s_others _ _ _ _ _ _ Hsw); auto.
  - intros g z' Hz'. destruct (skel_fiber' _ _ _ _ Hsk Hz') as (z & Hz & Ez). unfold skel in Ez.
    assert (state_ z' = state_ z) as -> by congruence. destruct (Hx g z Hz) as [? Hp]. split; [done|]. intros Hpk.
    pose proof (s_fresh _ _ _ _ _ _ Hsw g) as Hf. rewrite Hz', Hz in Hf. cbn in Hf.
    destruct (decide (g = old)); [congruence|]. rewrite <- (Hp Hpk) by done. congruence.
Qed.

(** *** Resuming *)

Lemma entering_fiber t cur f rest w g :
  cur <> f -> fibers (entering t cur f rest w) !! g =
  if decide (cur = g) then with_state SUSPENDED <$> fibers w !! g
  else if decide (f = g) then (λ x, with_state RUNNING (if decide (state_ x = INITING) then with_context true x else x)) <$> fibers w !! g
  else fibers w !! g.
Proof.
  intros Hne. unfold entering. cbn. destruct (decide (cur = g)) as [<-|].
  - rewrite lookup_alter_eq, lookup_alter_ne by done. by rewrite prepared_fiber, decide_False by done.
  - rewrite lookup_alter_ne by done. destruct (decide (f = g)) as [<-|]; [|rewrite lookup_alter_ne by done; by rewrite prepared_fiber, decide_False].
    rewrite lookup_alter_eq, prepared_fiber, decide_True by done. destruct (fibers w !! f) as [x|]; [|done]. cbn.
    by destruct (decide (state_ x = INITING)).
Qed.

Lemma entering_calls t cur f rest w t' :
  is_Some (calls w t) -> calls (entering t cur f rest w) t' = if decide (t = t') then Some (f :: cur :: rest) else calls w t'.
Proof.
  destruct (prepared_rest f w) as (_ & He & _). unfold calls. cbn. rewrite He. intros Hs.
  destruct (decide (t = t')) as [<-|]; [|by rewrite lookup_alter_ne]. rewrite lookup_alter_eq.
  destruct (envs w !! t); [done|]. by destruct Hs.
Qed.

Lemma entering_mem_ok t cur f rest x w :
  fib_ok w -> cur <> f -> fstate w cur = Some RUNNING -> fibers w !! f = Some x -> state_ x <> RUNNING ->
  state_ x <> TERMINATED -> state_ x <> EXCEPTION ->
  mem_ok (entering t cur f rest w) /\ (forall g, view (entering t cur f rest w) g = view w g) /\
  (forall g, occupies w g -> occupies (entering t cur f rest w) g).
Proof.
  intros Hok Hne Hcur Ex Hr Ht He. pose proof (f_ctx _ Hok _ _ Ex) as [Hrd Hpk].
  assert (mem_ok (prepared f w) /\ (forall g, view (prepared f w) g = view w g) /\
    forall g, occupies w g -> occupies (prepared f w) g) as (Hok1 & Hv1 & Ho1).
  { unfold prepared. destruct (decide (fstate w f = Some INITING)) as [Hi|]; [|by split_and!; [apply (f_mem _ Hok)|..]]. split_and!.
    - apply set_state_mem_ok; [apply set_context_ok; [apply (f_mem _ Hok)|congruence]|by right].
    - intros g. by rewrite !alter_fiber_view.
    - intros g Hg. by do 2 (apply alter_fiber_occupies; [done|]). }
  unfold entering. set (w1 := alter_env _ t (prepared f w)).
  assert (mem_ok (alter_fiber (with_state RUNNING) f w1)) as Hok2.
  { apply set_state_mem_ok; [by apply alter_env_mem_ok|]. right. intros z Hz. change (fibers (prepared f w) !! f = Some z) in Hz.
    rewrite prepared_fiber, decide_True, Ex in Hz by done. injection Hz as <-. unfold kept. cbn.
    destruct (decide (state_ x = INITING)) as [Hi|Hi]; [by cbn|]. by destruct (state_ x). }
  split_and!.
  - apply set_state_mem_ok; [done|]. left. apply alter_fiber_occupies; [done|]. apply Ho1. by apply (f_run _ Hok).
  - intros g. rewrite !alter_fiber_view by done. apply Hv1.
  - intros g Hg. do 2 (apply alter_fiber_occupies; [done|]). by apply Ho1.
Qed.

(** What a switch does to the threads: [f] runs, [cur] waits. *)
Record moved (cur f : nat) (s : FiberState) (t : nat) (l : list nat) (rsp : Z) (w w' : World) : Prop := {
  mv_ok : fib_ok w';
  mv_state : forall g, fstate w' g = if decide (f = g) then Some RUNNING else if decide (cur = g) then Some s else fstate w g;
  mv_calls : forall t', calls w' t' = if decide (t = t') then Some l else calls w t';
  mv_view : forall g z, g <> cur -> fibers w !! g = Some z -> parked (state_ z) -> view w' g = view w g;
  mv_left : forall y m mem, fibers w !! cur = Some y -> running_mem_ y = Some m -> mems w !! m = Some mem ->
    view w' cur = Some (rsp, drop (Z.to_nat rsp) (stack_buffer_ mem));
  mv_stack : forall g z', fibers w' !! g = Some z' -> exists z, fibers w !! g = Some z /\ same_stack z z';
  mv_occ : forall m mem', mems w' !! m = Some mem' -> exists mem, mems w !! m = Some mem /\
    (occupier_ mem' = occupier_ mem \/ occupier_ mem' = Some f);
}.

Lemma fstate_lookup w f x : fibers w !! f = Some x -> fstate w f = Some (state_ x).
Proof. unfold fstate. by intros ->. Qed.

Lemma entering_state t cur f rest x w :
  cur <> f -> fstate w cur = Some RUNNING -> fibers w !! f = Some x ->
  forall g, fstate (entering t cur f rest w) g =
    if decide (cur = g) then Some SUSPENDED else if decide (f = g) then Some RUNNING else fstate w g.
Proof.
  intros Hne Hcur Ex g. unfold fstate in *. rewrite entering_fiber by done. destruct (decide (cur = g)) as [<-|].
  - by destruct (fibers w !! cur).
  - destruct (decide (f = g)) as [<-|]; [by rewrite Ex|done].
Qed.

(** The conditions of a switch, for [swap_fiber_spec] and [swap_fiber_total]. *)
Lemma entering_ready t cur f rest rsp x w :
  fib_ok w -> calls w t = Some (cur :: rest) -> ~ on_stack w f -> fibers w !! f = Some x ->
  state_ x <> TERMINATED -> state_ x <> EXCEPTION -> rsp_ok w cur rsp ->
  exists y, let w1 := entering t cur f rest w in
  let x1 := with_state RUNNING (if decide (state_ x = INITING) then with_context true x else x) in
  mem_ok w1 /\ fibers w1 !! cur = Some y /\ fibers w1 !! f = Some x1 /\ cur <> f /\ occupies w1 cur /\ rsp_ok w1 cur rsp /\
  state_ y <> RUNNING /\ is_Some (envs w1 !! t) /\ fstate w cur = Some RUNNING /\ state_ x <> RUNNING.
Proof.
  intros Hok Ec Hnot Ex Ht He Hrsp. destruct (c_stack _ (f_calls _ Hok) _ _ Ec) as (_ & _ & top & r & E & Hcur & _). injection E as <- <-.
  assert (cur <> f) as Hne by (intros ->; apply Hnot; exists t, (f :: rest); split; [done|by left]).
  assert (state_ x <> RUNNING) as Hr.
  { intros Hr. destruct (c_running _ (f_calls _ Hok) f) as (t' & r & E); [by rewrite (fstate_lookup _ _ _ Ex), Hr|].
    apply Hnot. exists t', (f :: r). split; [done|by left]. }
  pose proof (fstate_some _ _ _ Hcur) as [y Ey].
  destruct (entering_mem_ok t cur f rest x w) as (Hok1 & _ & Ho1); try done.
  exists (with_state SUSPENDED y). cbv zeta. split_and!; try done.
  - by rewrite entering_fiber, decide_True, Ey by done.
  - by rewrite entering_fiber, decide_False, decide_True, Ex by done.
  - by apply Ho1, (f_run _ Hok).
  - intros z m mem Hz Hm Em. rewrite entering_fiber, decide_True, Ey in Hz by done. injection Hz as <-.
    destruct (prepared_rest f w) as (Hmems & _). unfold entering in Em. cbn in Em. rewrite Hmems in Em. by apply (Hrsp y m mem).
  - pose proof (entering_calls t cur f rest w t ltac:(by rewrite Ec)) as Hc. unfold calls in Hc.
    destruct (envs (entering t cur f rest w) !! t); [by eexists|]. by rewrite decide_True in Hc.
Qed.

Lemma fiber_resume_spec t rsp cur rest f x w r w' :
  fib_ok w -> calls w t = Some (cur :: rest) -> (length (cur :: rest) < 128)%nat -> ~ on_stack w f ->
  fibers w !! f = Some x -> env_ x = t -> state_ x <> TERMINATED -> state_ x <> EXCEPTION -> rsp_ok w cur rsp ->
  fiber_resume t rsp f w = (Ret r, w') -> moved cur f SUSPENDED t (f :: cur :: rest) rsp w w'.
Proof.
  intros Hok Ec Hlen Hnot Ex Et Ht He Hrsp H.
  destruct (entering_ready t cur f rest rsp x w) as (y & Hok1 & Ey & Ex1 & Hne & Hoc & Hrsp1 & Hsy & Hen & Hcur & Hr); try done.
  rewrite (fiber_resume_eq t rsp cur rest f x) in H by (done || by eapply fstate_some).
  pose proof (entering_state t cur f rest x w Hne Hcur Ex) as Hst.
  pose proof (entering_calls t cur f rest w) as Hcs.
  destruct (entering_mem_ok t cur f rest x w) as (_ & Hv1 & Ho1); try done.
  set (w1 := entering t cur f rest w) in *. set (x1 := with_state RUNNING _) in Ex1.
  pose proof (swap_fiber_spec t rsp cur f x1 y w1 r w' Hok1 Ey Ex1 Hne Hoc Hrsp1 Hsy eq_refl Hen H) as Hsw.
  pose proof (s_skel _ _ _ _ _ _ Hsw) as Hsk.
  assert (calls_ok w1) as Hc1.
  { apply (calls_push t cur rest f w); try done; [apply Hok|]. intros t'. apply Hcs. by rewrite Ec. }
  split.
  - apply (switch_ok rsp cur f x1 w1); [done|done| |].
    + intros g Hg Hgf. apply Ho1, (f_run _ Hok). rewrite Hst in Hg. case_decide; [done|]. by case_decide.
    + intros g z Hz. unfold w1 in Hz. rewrite entering_fiber in Hz by done. destruct (decide (cur = g)) as [->|].
      * destruct (fibers w !! g); [|done]. injection Hz as <-. by split.
      * destruct (decide (f = g)) as [<-|]; [rewrite Ex in Hz; injection Hz as <-; split; [done|by intros []]|].
        destruct (f_ctx _ Hok g z Hz) as [? Hp]. split; [done|]. by intros Hpk _; apply Hp.
  - intros g. rewrite (skel_fstate w1 w'), Hst by done. destruct (decide (cur = g)) as [<-|]; [by rewrite decide_False|done].
  - intros t'. destruct Hsk as (_ & Hc' & _). rewrite Hc'. apply Hcs. by rewrite Ec.
  - intros g z Hg Hz Hp. rewrite (s_view _ _ _ _ _ _ Hsw); [apply Hv1|done|]. intros ->. rewrite Ex in Hz. injection Hz as <-.
    unfold x1. cbn. rewrite decide_False; [by apply (f_ctx _ Hok f x Ex)|]. by destruct Hp as [-> | ->].
  - intros y0 m mem Hy0 Hm Em. apply (s_left _ _ _ _ _ _ Hsw (with_state SUSPENDED y0) m mem); [|done|].
    + unfold w1. by rewrite entering_fiber, decide_True, Hy0 by done.
    + destruct (prepared_rest f w) as (Hmems & _). unfold w1, entering. cbn. by rewrite Hmems.
  - intros g z' Hz'. destruct (skel_fiber' _ _ _ _ Hsk Hz') as (z1 & Hz1 & Ez). unfold w1 in Hz1. rewrite entering_fiber in Hz1 by done.
    unfold skel in Ez. destruct (decide (cur = g)); [|destruct (decide (f = g))]; [| |by exists z1; split; [|split_and!; congruence]];
      (destruct (fibers w !! g) as [z|]; [|done]); exists z; (split; [done|]); injection Hz1 as <-; [by injection Ez|].
    destruct (decide (state_ z = INITING)); by injection Ez.
  - intros m mem' Hm'. destruct (swap_occupiers t rsp cur f w1 r w' Hok1 ltac:(by eexists) Hoc Hrsp1 H m mem' Hm') as (mem & Em & Hcase).
    exists mem. split; [|done]. destruct (prepared_rest f w) as (Hmems & _). unfold w1, entering in Em. cbn in Em. by rewrite Hmems in Em.
Qed.

(** *** Leaving *)

Definition leaving (s : FiberState) (t cur next : nat) (rest : list nat) (w : World) : World :=
  alter_fiber (with_state RUNNING) next (alter_fiber (with_state s) cur (alter_env (with_call_stack (next :: rest)) t w)).

Lemma with_state_id f y w : fibers w !! f = Some y -> alter_fiber (with_state (state_ y)) f w = w.
Proof.
  intros E. unfold alter_fiber, with_fibers. rewrite alter_id; [by destruct w|]. intros z Hz. rewrite E in Hz. injection Hz as <-.
  by destruct y.
Qed.

Lemma leaving_absorb s s0 t cur next rest w :
  leaving s t cur next rest (alter_fiber (with_state s0) cur w) = leaving s t cur next rest w.
Proof.
  unfold leaving, alter_fiber, alter_env, with_fibers, with_envs. cbn. do 2 f_equal.
  apply map_eq. intros g. destruct (decide (cur = g)) as [<-|]; [rewrite !lookup_alter_eq; by destruct (fibers w !! cur)|].
  by rewrite !lookup_alter_ne.
Qed.

Lemma leave_eq left_as t rsp cur next rest y w :
  calls w t = Some (cur :: next :: rest) -> cur <> next -> fibers w !! cur = Some y -> fstate w next = Some SUSPENDED ->
  leave left_as t rsp w =
    swap_fiber t rsp cur next (leaving (if decide (state_ y = RUNNING) then left_as else state_ y) t cur next rest w).
Proof.
  intros Ec Hne Ey Enext. unfold leave. erewrite bind_Ret by (by eapply current_eq). cbv beta.
  pose proof Ec as Ec0. unfold calls in Ec0. destruct (envs w !! t) as [e|] eqn:Ee; [|done]. injection Ec0 as Ec0.
  erewrite (bind_Ret _ _ _ (alter_env (with_call_stack (next :: rest)) t w) tt).
  2:{ unfold pop_fiber. erewrite bind_Ret by (by apply the_eq). by rewrite Ec0. }
  cbv beta. set (w1 := alter_env _ t w).
  assert (calls w1 t = Some (next :: rest)) as Ec1 by (unfold calls, w1; cbn; by rewrite lookup_alter_eq, Ee).
  erewrite bind_Ret by (by eapply current_eq). cbv beta.
  erewrite bind_Ret by (apply get_state_eq; by apply (fstate_lookup w1 cur)). cbv beta.
  erewrite (bind_Ret _ _ _ (alter_fiber (with_state (if decide (state_ y = RUNNING) then left_as else state_ y)) cur w1) tt).
  2:{ destruct (decide (state_ y = RUNNING)).
      - rewrite bool_decide_eq_true_2 by done. apply set_state_eq. change (is_Some (fibers w !! cur)). by rewrite Ey.
      - rewrite bool_decide_eq_false_2 by done. by rewrite (with_state_id cur y w1). }
  cbv beta. set (w2 := alter_fiber _ cur w1).
  assert (fstate w2 next = Some SUSPENDED) as En2 by (unfold w2; rewrite fstate_set, decide_False by done; done).
  erewrite bind_Ret by (by apply get_state_eq). cbv beta.
  erewrite bind_Ret by (rewrite bool_decide_eq_true_2 by done; reflexivity). cbv beta.
  erewrite bind_Ret; [reflexivity|]. apply set_state_eq. by eapply fstate_some.
Qed.

Lemma leaving_fiber s t cur next rest w g :
  cur <> next -> fibers (leaving s t cur next rest w) !! g =
  if decide (next = g) then with_state RUNNING <$> fibers w !! g
  else if decide (cur = g) then with_state s <$> fibers w !! g else fibers w !! g.
Proof.
  intros Hne. unfold leaving. cbn. destruct (decide (next = g)) as [<-|].
  - rewrite lookup_alter_eq, lookup_alter_ne by done. by destruct (fibers w !! next).
  - rewrite lookup_alter_ne by done. destruct (decide (cur = g)) as [<-|]; [by rewrite lookup_alter_eq|by rewrite lookup_alter_ne].
Qed.

Lemma leaving_calls s t cur next rest w t' :
  is_Some (calls w t) -> calls (leaving s t cur next rest w) t' = if decide (t = t') then Some (next :: rest) else calls w t'.
Proof.
  unfold calls. cbn. intros Hs. destruct (decide (t = t')) as [<-|]; [|by rewrite lookup_alter_ne]. rewrite lookup_alter_eq.
  destruct (envs w !! t); [done|]. by destruct Hs.
Qed.

Lemma leaving_state s t cur next rest w :
  cur <> next -> is_Some (fibers w !! cur) -> is_Some (fibers w !! next) ->
  forall g, fstate (leaving s t cur next rest w) g =
    if decide (next = g) then Some RUNNING else if decide (cur = g) then Some s else fstate w g.
Proof.
  intros Hne [y Ey] [z Ez] g. unfold fstate. rewrite leaving_fiber by done. destruct (decide (next = g)) as [<-|]; [by rewrite Ez|].
  destruct (decide (cur = g)) as [<-|]; [by rewrite Ey|done].
Qed.

Lemma leaving_mem_ok s t cur next rest w :
  fib_ok w -> cur <> next -> fstate w cur = Some RUNNING -> fstate w next = Some SUSPENDED ->
  mem_ok (leaving s t cur next rest w) /\ (forall g, view (leaving s t cur next rest w) g = view w g) /\
  (forall g, occupies w g -> occupies (leaving s t cur next rest w) g).
Proof.
  intros Hok Hne Hcur Hnext. unfold leaving. set (w1 := alter_env _ t w).
  assert (mem_ok (alter_fiber (with_state s) cur w1)) as Hok1.
  { apply set_state_mem_ok; [apply alter_env_mem_ok, Hok|]. left. by apply (f_run _ Hok). }
  split_and!.
  - apply set_state_mem_ok; [done|]. right. intros z. change (fibers (alter_fiber (with_state s) cur w1)) with (alter (with_state s) cur (fibers w)).
    rewrite lookup_alter_ne by done. intros Hz _. apply fstate_lookup in Hz. rewrite Hnext in Hz. injection Hz as Hz.
    unfold kept. by rewrite <- Hz.
  - intros g. by rewrite !alter_fiber_view.
  - intros g Hg. by do 2 (apply alter_fiber_occupies; [done|]).
Qed.

Lemma leaving_ready s t rsp cur next rest w :
  fib_ok w -> calls w t = Some (cur :: next :: rest) -> rsp_ok w cur rsp ->
  exists x y, let w1 := leaving s t cur next rest w in
  mem_ok w1 /\ fibers w !! cur = Some y /\ fibers w !! next = Some x /\ fibers w1 !! cur = Some (with_state s y) /\
  fibers w1 !! next = Some (with_state RUNNING x) /\ cur <> next /\ occupies w1 cur /\ rsp_ok w1 cur rsp /\
  is_Some (envs w1 !! t) /\ state_ y = RUNNING /\ state_ x = SUSPENDED.
Proof.
  intros Hok Ec Hrsp. destruct (c_stack _ (f_calls _ Hok) _ _ Ec) as (Hnd & _ & top & r' & E & Hcur & Hrest). injection E as <- <-.
  assert (cur <> next) as Hne by (apply NoDup_cons in Hnd as [Hn _]; intros ->; apply Hn; by left).
  pose proof (Hrest next ltac:(by left)) as Hnext.
  pose proof (fstate_some _ _ _ Hcur) as [y Ey]. pose proof (fstate_some _ _ _ Hnext) as [x Ex].
  destruct (leaving_mem_ok s t cur next rest w) as (Hok1 & _ & Ho1); try done.
  exists x, y. cbv zeta. apply fstate_lookup in Ex as Sx. apply fstate_lookup in Ey as Sy. split_and!; try done; try congruence.
  - by rewrite leaving_fiber, decide_False, decide_True, Ey by done.
  - by rewrite leaving_fiber, decide_True, Ex by done.
  - by apply Ho1, (f_run _ Hok).
  - intros z m mem Hz Hm Em. rewrite leaving_fiber, decide_False, decide_True, Ey in Hz by done. injection Hz as <-.
    by apply (Hrsp y m mem).
  - unfold calls in Ec. cbn. rewrite lookup_alter_is_Some. by destruct (envs w !! t).
Qed.

Lemma leaving_spec s t rsp cur next rest w r w' :
  fib_ok w -> calls w t = Some (cur :: next :: rest) -> s <> RUNNING -> s <> READY -> rsp_ok w cur rsp ->
  swap_fiber t rsp cur next (leaving s t cur next rest w) = (Ret r, w') -> moved cur next s t (next :: rest) rsp w w'.
Proof.
  intros Hok Ec Hs Hrd Hrsp H.
  destruct (leaving_ready s t rsp cur next rest w) as (x & y & Hok1 & Ey & Ex & Ey1 & Ex1 & Hne & Hoc1 & Hrsp1 & Hen & Sy & Sx); try done.
  apply fstate_lookup in Ey as Hcur. apply fstate_lookup in Ex as Hnext. rewrite Sy in Hcur. rewrite Sx in Hnext.
  destruct (leaving_mem_ok s t cur next rest w) as (_ & Hv1 & Ho1); try done.
  pose proof (leaving_state s t cur next rest w Hne ltac:(by eexists) ltac:(by eexists)) as Hst.
  pose proof (leaving_calls s t cur next rest w) as Hcs. pose proof (leaving_fiber s t cur next rest w) as Hfb.
  assert (mems (leaving s t cur next rest w) = mems w) as Hms by done.
  set (w1 := leaving s t cur next rest w) in *. assert (is_Some (fibers w1 !! cur)) as Hold by (by eexists).
  assert (swapped rsp cur next (with_state RUNNING x) w1 w') as Hsw
    by (by apply (swap_fiber_spec t rsp cur next _ (with_state s y) w1 r w')).
  pose proof (s_skel _ _ _ _ _ _ Hsw) as Hsk. split.
  - apply (switch_ok rsp cur next (with_state RUNNING x) w1); [done| | |].
    + apply (calls_pop t cur next rest s w); try done; [apply Hok|]. intros t'. apply Hcs. by rewrite Ec.
    + intros g Hg Hgf. apply Ho1, (f_run _ Hok). rewrite Hst in Hg. case_decide; [done|]. case_decide; [congruence|done].
    + intros g z Hz. rewrite Hfb in Hz by done. destruct (decide (next = g)) as [<-|].
      * rewrite Ex in Hz. injection Hz as <-. split; [done|by intros []].
      * destruct (decide (cur = g)) as [<-|]; [rewrite Ey in Hz; injection Hz as <-; by split|].
        destruct (f_ctx _ Hok g z Hz) as [? Hp]. split; [done|]. by intros Hpk _; apply Hp.
  - intros g. by rewrite (skel_fstate w1 w'), Hst.
  - intros t'. destruct Hsk as (_ & Hc' & _). rewrite Hc'. apply Hcs. by rewrite Ec.
  - intros g z Hg Hz Hp. rewrite (s_view _ _ _ _ _ _ Hsw); [apply Hv1|done|]. intros ->. rewrite Ex in Hz.
    injection Hz as <-. by apply (f_ctx _ Hok next x Ex).
  - intros y0 m mem Hy0 Hm Em. apply (s_left _ _ _ _ _ _ Hsw (with_state s y0) m mem); [|done|by rewrite Hms].
    by rewrite Hfb, decide_False, decide_True, Hy0 by done.
  - intros g z' Hz'. destruct (skel_fiber' _ _ _ _ Hsk Hz') as (z1 & Hz1 & Ez). rewrite Hfb in Hz1 by done.
    unfold skel in Ez. destruct (decide (next = g)); [|destruct (decide (cur = g))]; [| |by exists z1; split; [|split_and!; congruence]];
      (destruct (fibers w !! g) as [z|]; [|done]); exists z; (split; [done|]); injection Hz1 as <-; by injection Ez.
  - intros m mem' Hm'. rewrite <- Hms. by apply (swap_occupiers t rsp cur next w1 r w' Hok1 Hold Hoc1 Hrsp1 H m mem').
Qed.

(** ** Runs *)

(** The steps of a process.  Callers resume a fiber only where its environment is
    ([set_env]), leave fibers on a call stack alone, stay within the stack and within
    the depth of the call stack, and delete a fiber only when it occupies no shared
    stack.  A running fiber may write to its own stack. *)
Inductive fiber_step : World -> World -> Prop :=
| FThread t w w' : envs w !! t = None -> FiberEnvironment_new t w = (Ret tt, w') -> fiber_step w w'
| FPool count size p w w' : 0 <= size -> FiberSharedStackPool_new count size w = (Ret p, w') -> fiber_step w w'
| FNew t func args pool size f w w' : 0 <= size < 2 ^ 64 -> Fiber_new t func args pool size w = (Ret f, w') -> fiber_step w w'
| FSetEnv t f w w' : is_Some (envs w !! t) -> ~ on_stack w f -> set_env t f w = (Ret tt, w') -> fiber_step w w'
| FResume t rsp f x cur rest w w' : fibers w !! f = Some x -> env_ x = t -> ~ on_stack w f ->
    calls w t = Some (cur :: rest) -> (length (cur :: rest) < 128)%nat -> rsp_ok w cur rsp ->
    fiber_resume t rsp f w = (Ret tt, w') -> fiber_step w w'
| FYield t rsp cur rest w w' : calls w t = Some (cur :: rest) -> rsp_ok w cur rsp ->
    fiber_yield t rsp w = (Ret tt, w') -> fiber_step w w'
| FSleep t rsp cur rest w w' : calls w t = Some (cur :: rest) -> rsp_ok w cur rsp ->
    fiber_sleep t rsp w = (Ret tt, w') -> fiber_step w w'
| FFinish threw t rsp cur rest w w' : calls w t = Some (cur :: rest) -> rsp_ok w cur rsp ->
    fiber_finish threw t rsp w = (Ret tt, w') -> fiber_step w w'
| FWakeup f w w' : fiber_wakeup f w = (Ret tt, w') -> fiber_step w w'
| FReset f func args b w w' : ~ on_stack w f -> Fiber_reset f func args w = (Ret b, w') -> fiber_step w w'
| FDelete f w : ~ on_stack w f -> (forall m mem, mems w !! m = Some mem -> occupier_ mem <> Some f) ->
    fiber_step w (Fiber_delete f w).2
| FWrite t cur rest x m mem l w : calls w t = Some (cur :: rest) -> fibers w !! cur = Some x -> running_mem_ x = Some m ->
    mems w !! m = Some mem -> length l = length (stack_buffer_ mem) -> fiber_step w (alter_mem (with_buffer l) m w).
Definition fibers_reachable : World -> Prop := rtc fiber_step World_new.

Lemma fib_ok_new : fib_ok World_new.
Proof.
  split; [split; try done|split; try done|done|done]. by split; intros ? [].
Qed.

(** *** Steps that switch *)

(** Below a single fiber there is nothing to return to. *)
Lemma leave_bottom left_as t rsp top w : calls w t = Some [top] -> (leave left_as t rsp w).1 = Fault Abort.
Proof.
  intros Ec. unfold leave. erewrite bind_Ret by (by eapply current_eq). cbv beta.
  unfold calls in Ec. destruct (envs w !! t) as [e|] eqn:Ee; [|done]. injection Ec as Ec.
  erewrite bind_Ret by (unfold pop_fiber; erewrite bind_Ret by (by apply the_eq); reflexivity). cbv beta.
  erewrite bind_Fault; [done|]. unfold get_current_fiber. erewrite bind_Ret.
  2:{ apply the_eq. cbn. by rewrite lookup_alter_eq, Ee. }
  cbn. by rewrite Ec.
Qed.

Lemma leave_spec left_as t rsp cur rest w w' :
  fib_ok w -> calls w t = Some (cur :: rest) -> left_as <> RUNNING -> left_as <> READY -> rsp_ok w cur rsp ->
  leave left_as t rsp w = (Ret tt, w') ->
  exists next rest', rest = next :: rest' /\ moved cur next left_as t (next :: rest') rsp w w'.
Proof.
  intros Hok Ec Hl Hrd Hrsp H. destruct rest as [|next rest].
  { pose proof (leave_bottom left_as t rsp cur w Ec) as Hb. by rewrite H in Hb. }
  exists next, rest. split; [done|]. destruct (c_stack _ (f_calls _ Hok) _ _ Ec) as (Hnd & _ & top & r' & E & Hcur & Hrest).
  injection E as <- <-. apply NoDup_cons in Hnd as [Hn _]. pose proof (fstate_some _ _ _ Hcur) as [y Ey].
  erewrite (leave_eq left_as t rsp cur next rest y) in H; [| |set_solver| |apply Hrest; by left]; [|done..].
  apply fstate_lookup in Ey as Es. rewrite Hcur in Es. injection Es as Es. rewrite decide_True in H by done.
  by eapply leaving_spec.
Qed.

Lemma finish_spec threw t rsp cur rest w w' :
  fib_ok w -> calls w t = Some (cur :: rest) -> rsp_ok w cur rsp -> fiber_finish threw t rsp w = (Ret tt, w') ->
  exists next rest', rest = next :: rest' /\
    moved cur next (if threw then EXCEPTION else TERMINATED) t (next :: rest') rsp w w'.
Proof.
  intros Hok Ec Hrsp H. unfold fiber_finish in H. set (s := if threw then EXCEPTION else TERMINATED) in *.
  destruct (c_stack _ (f_calls _ Hok) _ _ Ec) as (Hnd & _ & top & r' & E & Hcur & Hrest). injection E as <- <-.
  pose proof (fstate_some _ _ _ Hcur) as [y Ey].
  erewrite bind_Ret in H by (by eapply current_eq). cbv beta in H.
  erewrite bind_Ret in H by (apply set_state_eq; by eexists). cbv beta in H. unfold fiber_yield in H.
  set (w1 := alter_fiber (with_state s) cur w) in *. assert (calls w1 t = Some (cur :: rest)) as Ec1 by done.
  destruct rest as [|next rest].
  { pose proof (leave_bottom SUSPENDED t rsp cur w1 Ec1) as Hb. by rewrite H in Hb. }
  exists next, rest. split; [done|]. apply NoDup_cons in Hnd as [Hn _]. assert (cur <> next) as Hne by set_solver.
  erewrite (leave_eq SUSPENDED t rsp cur next rest (with_state s y)) in H; [|done|done| |].
  2:{ unfold w1. cbn. by rewrite lookup_alter_eq, Ey. }
  2:{ unfold w1. rewrite fstate_set, decide_False by done. apply Hrest. by left. }
  assert (s <> RUNNING /\ s <> READY) as [Hs1 Hs2] by (unfold s; by destruct threw). cbn [state_ with_state] in H.
  rewrite decide_False in H by done. unfold w1 in H. rewrite leaving_absorb in H. by eapply leaving_spec.
Qed.

(** *** Steps that do not switch *)

(** A new fiber. *)
Lemma new_fiber_ok x w :
  mem_ok w -> (use_shared_stack_ x = true -> kept x = false) ->
  (if is_main_fiber_ x then running_mem_ x = None /\ use_shared_stack_ x = false
   else exists m mem, running_mem_ x = Some m /\ mems w !! m = Some mem /\ 0 <= stack_buffer_top_ x <= stack_size_ mem) ->
  (forall m g y, running_mem_ x = Some m -> fibers w !! g = Some y -> running_mem_ y = Some m ->
     use_shared_stack_ x = true /\ use_shared_stack_ y = true) ->
  (forall m p pool, running_mem_ x = Some m -> pools w !! p = Some pool -> m ∈ stack_array_ pool -> use_shared_stack_ x = true) ->
  mem_ok (alloc_fiber x w).2 /\ fibers (alloc_fiber x w).2 = <[next_addr w := x]> (fibers w) /\
  fibers w !! next_addr w = None.
Proof.
  intros [H1 H2 H3 H4 H5 H6 H7] Hk Hx Hown Hpool. cbn.
  assert (fibers w !! next_addr w = None) as Hn.
  { destruct (fibers w !! next_addr w) eqn:E; [|done]. pose proof (proj1 H7 (next_addr w)) as H. rewrite E in H.
    specialize (H ltac:(by eexists)). lia. }
  split_and!; [|done|done]. split; cbn.
  - intros f y. rewrite lookup_insert_Some. intros [[<- <-]|[_ Hy]]; [done|by apply H1 in Hy].
  - apply H2.
  - intros f g y z m Hne. rewrite !lookup_insert_Some. intros [[<- <-]|[_ Hy]] [[<- <-]|[_ Hz]] Hmy Hmz; [done| | |by eapply H3].
    + by apply (Hown m g z).
    + by apply (Hown m f y).
  - intros p pool m Hp Hm. destruct (H4 p pool m Hp Hm) as [? Hf]. split; [done|].
    intros f y. rewrite lookup_insert_Some. intros [[<- <-]|[_ Hy]] Hmy; [by eapply Hpool|by eapply Hf].
  - intros m mem o Hm Ho. destruct (H5 m mem o Hm Ho) as (y & Hy & ?). exists y. rewrite lookup_insert_ne; [done|congruence].
  - intros f y m mem. rewrite lookup_insert_Some. intros [[<- <-]|[_ Hy]] Hs; [|by apply H6]. rewrite (Hk Hs). congruence.
  - split; intros f Hf; [|apply H7 in Hf; lia]. rewrite lookup_insert_is_Some' in Hf. destruct Hf as [<-|Hf%H7]; lia.
Qed.

(** The rest of the invariant does not care for a fiber that is not on a call stack. *)
Lemma aside_ok f w w' :
  fib_ok w -> mem_ok w' -> ~ on_stack w f ->
  (forall g, g <> f -> fibers w' !! g = fibers w !! g) -> (forall t, calls w' t = calls w t) ->
  (forall m, occupier_ <$> mems w' !! m = occupier_ <$> mems w !! m \/ mems w !! m = None) ->
  (forall x, fibers w' !! f = Some x -> state_ x <> RUNNING /\ state_ x <> READY /\ (parked (state_ x) -> fresh_context x = false)) ->
  fib_ok w'.
Proof.
  intros Hok Hm Hnot Hf Hc Hoc Hx.
  assert (forall g, g <> f -> fstate w' g = fstate w g) as Hst by (intros g Hg; unfold fstate; by rewrite Hf).
  assert (forall g t l, calls w t = Some l -> g ∈ l -> fstate w' g = fstate w g) as Hcs.
  { intros g t l El Hg. apply Hst. intros ->. apply Hnot. by exists t, l. }
  assert (fstate w' f <> Some RUNNING) as Hfr.
  { unfold fstate. destruct (fibers w' !! f) as [x|] eqn:Ex; [|done]. cbn. destruct (Hx x eq_refl). congruence. }
  destruct (f_calls _ Hok) as [H1 H2 H3]. split; [split|done| |].
  - intros t l. rewrite Hc. intros El. destruct (H1 t l El) as (? & ? & top & rest & -> & ? & Hrest). split_and!; [done..|].
    exists top, rest. split_and!; [done|rewrite (Hcs top t (top :: rest)) by (done || by left); done|].
    intros g Hg. rewrite (Hcs g t (top :: rest)) by (done || by right). auto.
  - intros t t' l l' g. rewrite !Hc. apply H2.
  - intros g Hg. destruct (decide (g = f)) as [->|]; [done|]. rewrite Hst in Hg by done. destruct (H3 g Hg) as (t & r & E).
    exists t, r. by rewrite Hc.
  - intros g Hg. destruct (decide (g = f)) as [->|]; [done|]. rewrite Hst in Hg by done.
    intros x m mem Ex Hs Hmx Em. rewrite Hf in Ex by done. pose proof (m_fiber _ (f_mem _ Hok) _ _ Ex) as Hxm.
    destruct (is_main_fiber_ x); [destruct Hxm; congruence|]. destruct Hxm as (m' & mem' & Hm' & Em' & _).
    rewrite Hmx in Hm'. injection Hm' as <-. pose proof (f_run _ Hok g Hg x m mem' Ex Hs Hmx Em') as Ho.
    destruct (Hoc m) as [Ho'|]; [|congruence]. rewrite Em, Em' in Ho'. cbn in Ho'. congruence.
  - intros g x Ex. destruct (decide (g = f)) as [->|]; [by apply Hx|]. rewrite Hf in Ex by done. by apply (f_ctx _ Hok g).
Qed.

Lemma not_called w f : fib_ok w -> fibers w !! f = None -> ~ on_stack w f.
Proof.
  intros Hok Hf (t & l & El & Hin). destruct (c_stack _ (f_calls _ Hok) t l El) as (_ & _ & top & rest & -> & Htop & Hrest).
  apply elem_of_cons in Hin as [->|Hin]; [apply fstate_some in Htop as [x Hx]|apply Hrest, fstate_some in Hin as [x Hx]]; congruence.
Qed.

Lemma view_eq w w' g x :
  fibers w !! g = Some x -> fibers w' !! g = Some x -> (forall m, running_mem_ x = Some m -> mems w' !! m = mems w !! m) ->
  view w' g = view w g.
Proof. intros E E' Hm. unfold view. rewrite E, E'. cbn. destruct (running_mem_ x) as [m|]; [|done]. cbn. by rewrite Hm. Qed.

(** A step leaves the bytes of every fiber that waits, and of one that it resumes. *)
Definition keeps_views (w w' : World) : Prop :=
  forall g z z', fibers w !! g = Some z -> parked (state_ z) -> fibers w' !! g = Some z' ->
    parked (state_ z') \/ state_ z' = RUNNING -> view w' g = view w g.
(** A fiber that leaves has the bytes above its stack pointer kept. *)
Definition stack_of (w : World) (f : nat) : option (list Z) :=
  x ← fibers w !! f; m ← running_mem_ x; stack_buffer_ <$> mems w !! m.
Definition leaves_view (w w' : World) : Prop :=
  forall g z' l, fstate w g = Some RUNNING -> fibers w' !! g = Some z' -> parked (state_ z') -> stack_of w g = Some l ->
    view w' g = Some (stack_buffer_top_ z', drop (Z.to_nat (stack_buffer_top_ z')) l).
Definition good_step (w w' : World) : Prop := fib_ok w' /\ keeps_views w w' /\ leaves_view w w'.

Lemma leaves_none w w' :
  (forall g, fstate w g = Some RUNNING -> fstate w' g = Some RUNNING \/ fstate w' g = None) -> leaves_view w w'.
Proof.
  intros H g z' l Hg Hz' Hp _. apply fstate_lookup in Hz'. destruct (H g Hg) as [H'|H']; rewrite Hz' in H'; [|done].
  injection H' as H'. rewrite H' in Hp. by destruct Hp.
Qed.

Lemma view_top w f x : fibers w !! f = Some x -> forall p, view w f = Some p -> p.1 = stack_buffer_top_ x.
Proof.
  intros Hx p. unfold view. rewrite Hx. cbn. destruct (running_mem_ x) as [m|]; [|done]. cbn.
  destruct (mems w !! m); [|done]. cbn. by intros [= <-].
Qed.

Lemma moved_good cur f s t l rsp w w' :
  fib_ok w -> fstate w cur = Some RUNNING -> moved cur f s t l rsp w w' -> good_step w w'.
Proof.
  intros Hok Hcur [H1 H2 _ H4 H5 _ _]. split_and!; [done| |].
  - intros g z z' Hz Hp _ _. apply (H4 g z); [|done|done]. intros ->.
    apply fstate_lookup in Hz. rewrite Hcur in Hz. injection Hz as Hz. rewrite <- Hz in Hp. by destruct Hp.
  - intros g z' b Hg Hz' Hp Hl. pose proof (fstate_lookup _ _ _ Hz') as Hst. rewrite H2 in Hst.
    destruct (decide (f = g)) as [<-|]; [injection Hst as Hst; rewrite <- Hst in Hp; by destruct Hp|].
    destruct (decide (cur = g)) as [<-|]; [|rewrite Hg in Hst; injection Hst as Hst; rewrite <- Hst in Hp; by destruct Hp].
    unfold stack_of in Hl. destruct (fibers w !! cur) as [y|] eqn:Ey; [|done]. cbn in Hl.
    destruct (running_mem_ y) as [m|] eqn:Em; [|done]. cbn in Hl. destruct (mems w !! m) as [mem|] eqn:Emem; [|done].
    injection Hl as <-. pose proof (H5 y m mem eq_refl Em Emem) as Hv. pose proof (view_top _ _ _ Hz' _ Hv) as Ht.
    cbn in Ht. by rewrite <- Ht.
Qed.

(** A step that touches a fiber which is not on a call stack. *)
Lemma aside_good f w w' :
  fib_ok w -> mem_ok w' -> ~ on_stack w f ->
  (forall g, g <> f -> fibers w' !! g = fibers w !! g) -> (forall t, calls w' t = calls w t) ->
  (forall m, mems w' !! m = mems w !! m \/ mems w !! m = None) ->
  (forall x, fibers w' !! f = Some x -> state_ x <> RUNNING /\ state_ x <> READY /\ (parked (state_ x) -> fresh_context x = false)) ->
  (forall x x', fibers w !! f = Some x -> fibers w' !! f = Some x' -> parked (state_ x) -> parked (state_ x') ->
     view w' f = view w f) -> good_step w w'.
Proof.
  intros Hok Hm Hnot Hf Hc Hms Hx Hv. split_and!.
  - apply (aside_ok f w); try done. intros m. destruct (Hms m) as [->|]; by auto.
  - intros g z z' Hz Hp Hz' Hp'. destruct (decide (g = f)) as [->|].
    { apply (Hv z z'); try done. destruct Hp' as [?|?]; [done|]. by destruct (Hx z' Hz'). }
    rewrite Hf in Hz' by done. apply (view_eq w w' g z Hz); [by rewrite Hf|]. intros m Hmz.
    destruct (Hms m) as [|Hn]; [done|]. pose proof (m_fiber _ (f_mem _ Hok) _ _ Hz) as H.
    destruct (is_main_fiber_ z); [destruct H; congruence|]. destruct H as (m' & mem & ? & ? & _). congruence.
  - apply leaves_none. intros g Hg. left. unfold fstate. rewrite Hf; [done|]. intros ->. apply Hnot.
    destruct (c_running _ (f_calls _ Hok) _ Hg) as (t & r & E). exists t, (f :: r). split; [done|by left].
Qed.

Lemma good_refl w : fib_ok w -> good_step w w.
Proof.
  intros Hok. split_and!; [done|by intros g z z' Hz _ Hz'; simplify_eq|]. apply leaves_none. by auto.
Qed.

Lemma alter_aside_good g f x w :
  fib_ok w -> ~ on_stack w f -> fibers w !! f = Some x -> same_stack x (g x) ->
  stack_buffer_top_ (g x) = stack_buffer_top_ x -> (kept (g x) = true -> kept x = true) ->
  state_ (g x) <> RUNNING -> state_ (g x) <> READY -> (parked (state_ (g x)) -> fresh_context (g x) = false) ->
  (parked (state_ (g x)) -> save_buffer_ (g x) = save_buffer_ x) ->
  good_step w (alter_fiber g f w).
Proof.
  intros Hok Hnot Ex Hss Ht Hk Hr Hrd Hfr Hsv. apply (aside_good f); try done.
  - apply alter_fiber_ok; [|apply Hok]. intros z Hz. rewrite Ex in Hz. injection Hz as <-. split_and!; [done..|].
    intros Hkx. split; [by apply Hk|]. apply Hsv. unfold kept in Hkx. destruct (state_ (g x)); try done; [by left|by right].
  - intros h Hh. cbn. by rewrite lookup_alter_ne.
  - intros m. by left.
  - intros z (y & Hy & ->)%alter_Some. rewrite Ex in Hy. injection Hy as <-. by rewrite decide_True.
  - intros y z Hy (y' & Hy' & ->)%alter_Some _ Hp. rewrite decide_True in Hp by done. rewrite Ex in Hy, Hy'. simplify_eq.
    apply alter_fiber_view. intros z Hz. rewrite Ex in Hz. injection Hz as <-. by auto.
Qed.

(** A fiber whose state is neither of the two is on no call stack. *)
Lemma state_not_called w f s : fib_ok w -> fstate w f = Some s -> s <> RUNNING -> s <> SUSPENDED -> ~ on_stack w f.
Proof.
  intros Hok Hf Hr Hsu (t & l & El & Hin). destruct (c_stack _ (f_calls _ Hok) t l El) as (_ & _ & top & rest & -> & Htop & Hrest).
  apply elem_of_cons in Hin as [->|Hin]; [congruence|]. apply Hrest in Hin. congruence.
Qed.

Lemma off_stack_state w f x : fib_ok w -> ~ on_stack w f -> fibers w !! f = Some x -> state_ x <> RUNNING.
Proof.
  intros Hok Hnot Hx Hr. destruct (c_running _ (f_calls _ Hok) f) as (t & r & E); [by rewrite (fstate_lookup _ _ _ Hx), Hr|].
  apply Hnot. exists t, (f :: r). split; [done|by left].
Qed.

Lemma set_env_good t f w w' : fib_ok w -> ~ on_stack w f -> set_env t f w = (Ret tt, w') -> good_step w w'.
Proof.
  intros Hok Hnot H. unfold set_env in H. parts H. apply get_state_inv in E as [Es ->].
  unfold sylar_assert in E0. destruct (negb _); [|done]. injection E0 as _ <-. injection H as <-.
  apply fstate_some in Es as [y Hy]. destruct (f_ctx _ Hok _ _ Hy).
  apply (alter_aside_good _ f y); try done. by apply (off_stack_state w f y).
Qed.

Lemma wakeup_good f w w' : fib_ok w -> fiber_wakeup f w = (Ret tt, w') -> good_step w w'.
Proof.
  intros Hok H. unfold fiber_wakeup in H. parts H. apply get_state_inv in E as [Es ->].
  case_bool_decide as Hs; [|injection H as <-; by apply good_refl]. subst.
  apply set_state_inv in H as [[y Hy] ->]. pose proof (fstate_lookup _ _ _ Hy) as Es'. rewrite Es in Es'. injection Es' as Es'.
  destruct (f_ctx _ Hok _ _ Hy) as [_ Hp].
  apply (alter_aside_good _ f y); try done; [by apply (state_not_called w f SLEEPING)|unfold kept; by rewrite <- Es'|].
  intros _. apply Hp. by right.
Qed.

Lemma reset_good f func args b w w' : fib_ok w -> ~ on_stack w f -> Fiber_reset f func args w = (Ret b, w') -> good_step w w'.
Proof.
  intros Hok Hnot H. unfold Fiber_reset in H. parts H. apply the_inv in E as [Ex ->]. rename x into y.
  pose proof (good_refl w Hok).
  destruct (is_main_fiber_ y) eqn:Hmain; [by injection H as _ <-|]. destruct (running_mem_ y) as [m|] eqn:Hm; [|by injection H as _ <-].
  parts H. apply the_inv in E as [Em ->]. injection E0 as _ <-. injection H as _ <-.
  apply (alter_aside_good _ f y); try done; by intros [].
Qed.

Lemma delete_good f w :
  fib_ok w -> ~ on_stack w f -> (forall m mem, mems w !! m = Some mem -> occupier_ mem <> Some f) ->
  good_step w (Fiber_delete f w).2.
Proof.
  intros Hok Hnot Ho. apply (aside_good f); cbn; try done.
  - destruct (f_mem _ Hok) as [H1 H2 H3 H4 H5 H6 H7].
    split; cbn.
    + intros g y [_ Hy]%lookup_delete_Some. by apply H1 in Hy.
    + apply H2.
    + intros g h y z m Hne [_ Hy]%lookup_delete_Some [_ Hz]%lookup_delete_Some. by eapply H3.
    + intros p pool m Hp Hm. destruct (H4 p pool m Hp Hm) as [? Hf]. split; [done|].
      intros g y [_ Hy]%lookup_delete_Some. by eapply Hf.
    + intros m mem o Hm Hmo. destruct (H5 m mem o Hm Hmo) as (y & Hy & ?). exists y. rewrite lookup_delete_ne; [done|].
      intros ->. by eapply Ho.
    + intros g y m mem [_ Hy]%lookup_delete_Some. by apply H6.
    + split; [|apply H7]. intros g [y [_ Hy]%lookup_delete_Some]. apply (proj1 H7). by eexists.
  - intros g Hg. by rewrite lookup_delete_ne.
  - intros m. by left.
  - intros x. by rewrite lookup_delete_eq.
  - intros x x'. by rewrite lookup_delete_eq.
Qed.

(** New objects have new addresses. *)
Lemma alloc_mem_ok size w :
  mem_ok w -> 0 <= size ->
  mem_ok (alloc_mem size w).2 /\ mems w !! next_addr w = None /\
  forall f x, fibers w !! f = Some x -> running_mem_ x <> Some (next_addr w).
Proof.
  intros [H1 H2 H3 H4 H5 H6 H7] Hsize.
  assert (mems w !! next_addr w = None) as Hn.
  { destruct (mems w !! next_addr w) eqn:E; [|done]. pose proof (proj2 H7 (next_addr w)) as H. rewrite E in H.
    specialize (H ltac:(by eexists)). lia. }
  assert (forall f x, fibers w !! f = Some x -> running_mem_ x <> Some (next_addr w)) as Hnf.
  { intros f x Hx Hm. pose proof (H1 f x Hx) as H. destruct (is_main_fiber_ x); [destruct H; congruence|].
    destruct H as (m & mem & ? & ? & _). congruence. }
  split_and!; [|done|done]. cbn. split; cbn.
  - intros f x Hx. pose proof (H1 f x Hx) as H. destruct (is_main_fiber_ x); [done|]. destruct H as (m & mem & ? & ? & ?).
    exists m, mem. rewrite lookup_insert_ne by congruence. done.
  - intros m mem. rewrite lookup_insert_Some. intros [[<- <-]|[_ Hm]]; [cbn; rewrite length_replicate; lia|by apply H2 in Hm].
  - apply H3.
  - intros p pool m Hp Hm. destruct (H4 p pool m Hp Hm) as [[mem E] ?]. split; [|done]. rewrite lookup_insert_ne; [by eexists|congruence].
  - intros m mem o. rewrite lookup_insert_Some. intros [[<- <-]|[_ Hm]]; [done|by apply H5].
  - intros f x m mem Hx Hs Hm. rewrite lookup_insert_Some. intros [[<- <-]|[_ Hmem]]; [by apply Hnf in Hx|by eapply H6].
  - split; intros f Hf; [apply H7 in Hf; lia|]. rewrite lookup_insert_is_Some' in Hf. destruct Hf as [<-|Hf%H7]; lia.
Qed.

Lemma pool_ok f w :
  mem_ok w -> (forall p pool, f (pools w) !! p = Some pool -> forall m, m ∈ stack_array_ pool ->
    exists p' pool', pools w !! p' = Some pool' /\ m ∈ stack_array_ pool') -> mem_ok (with_pools (f (pools w)) w).
Proof.
  intros [H1 H2 H3 H4 H5 H6 H7] Hf. split; try done. intros p pool m Hp Hm.
  destruct (Hf p pool Hp m Hm) as (p' & pool' & Hp' & Hm'). by apply (H4 p' pool').
Qed.

Lemma get_fiber_stack_inv p w m w' :
  get_fiber_stack p w = (Ret m, w') -> exists pool i, pools w !! p = Some pool /\ m ∈ stack_array_ pool /\
    w' = with_pools (<[p := mkPool i (stack_count_ pool) (stack_array_ pool)]> (pools w)) w.
Proof.
  intros H. unfold get_fiber_stack in H. parts H. apply the_inv in E as [E ->].
  destruct (stack_array_ x !! alloc_idx_ x) as [m'|] eqn:Em; [|done]. parts H. injection E0 as _ <-. injection H as <- <-.
  exists x, ((alloc_idx_ x + 1) mod stack_count_ x)%nat. split_and!; [done|by eapply list_elem_of_lookup_2|done].
Qed.

(** The stack of a new fiber: one of its own, or one of the pool. *)
Lemma new_stack stack_poll size w m w' :
  mem_ok w -> 0 <= size < 2 ^ 64 ->
  match stack_poll with Some p => get_fiber_stack p | None => alloc_mem (stack_size_for size) end w = (Ret m, w') ->
  mem_ok w' /\ fibers w' = fibers w /\ envs w' = envs w /\ is_Some (mems w' !! m) /\
  (forall m', mems w' !! m' = mems w !! m' \/ mems w !! m' = None) /\
  (forall g y, fibers w' !! g = Some y -> running_mem_ y = Some m -> is_Some stack_poll /\ use_shared_stack_ y = true) /\
  (forall p pool, pools w' !! p = Some pool -> m ∈ stack_array_ pool -> is_Some stack_poll).
Proof.
  intros Hok Hsize H. destruct stack_poll as [p|].
  - apply get_fiber_stack_inv in H as (pool & i & Ep & Hm & ->). destruct (m_pool _ Hok p pool m Ep Hm) as [Hmem Hsh].
    split_and!; try done.
    + apply pool_ok; [done|]. intros p' pool'. rewrite lookup_insert_Some. intros [[<- <-]|[_ Hp]]; by eauto.
    + intros m'. by left.
    + intros g y Hy Hmy. split; [by eexists|by apply (Hsh g)].
  - pose proof (stack_size_rounded size Hsize) as (_ & [Hs _] & _).
    destruct (alloc_mem_ok (stack_size_for size) w Hok) as (Hok' & Hn & Hnf); [lia|]. injection H as <- <-. cbn in Hok'.
    split_and!; try done; cbn.
    + rewrite lookup_insert_eq. by eexists.
    + intros m'. destruct (decide (next_addr w = m')) as [<-|]; [by right|left; by rewrite lookup_insert_ne].
    + intros g y Hy Hmy. by apply Hnf in Hy.
    + intros p pool Hp Hm. destruct (m_pool _ Hok p pool _ Hp Hm) as [[] _]. congruence.
Qed.

Lemma new_good t func args pool size f w w' :
  fib_ok w -> 0 <= size < 2 ^ 64 -> Fiber_new t func args pool size w = (Ret f, w') -> good_step w w'.
Proof.
  intros Hok Hsize H. unfold Fiber_new in H. parts H.
  unfold next_id in E. parts E. apply the_inv in E2 as [Ee ->]. injection E3 as _ <-. injection E as _ <-.
  set (w1 := alter_env _ t w) in *. assert (mem_ok w1) as Hok1 by apply alter_env_mem_ok, Hok.
  destruct (new_stack pool size w1 x1 _ Hok1 Hsize E0) as (Hok2 & Hf2 & He2 & [mem Em] & Hms & Hsh & Hpl). rename x2 into w2.
  apply the_inv in E1 as [E1 ->]. rewrite Em in E1. injection E1 as <-.
  set (nf := mkFiber _ _ _ _ _ _ _ _ _ _ _ _) in H.
  assert (0 <= stack_size_ mem) as Hsz by (pose proof (m_len _ Hok2 _ _ Em); lia).
  destruct (new_fiber_ok nf w2) as (Hok3 & Hf3 & Hn3); [done|done| | | |].
  { exists x1, mem. split_and!; [done|done|done|exact Hsz]. }
  { intros m g y [= <-] Hy Hmy. destruct (Hsh g y Hy Hmy). split; [by apply bool_decide_eq_true_2|done]. }
  { intros m p pl [= <-] Hp Hm. apply bool_decide_eq_true_2. by eapply Hpl. }
  assert (w' = (alloc_fiber nf w2).2) as -> by (by rewrite H). rewrite Hf2 in Hn3, Hf3.
  apply (aside_good (next_addr w2)); try done.
  - by apply not_called.
  - intros g Hg. rewrite Hf3. by rewrite lookup_insert_ne.
  - intros t'. pose proof (skel_alter_env _ t w : _ -> same_skel w w1) as [_ [Hc _]]; [done|].
    rewrite <- Hc. unfold calls. cbn [alloc_fiber snd envs with_next with_fibers]. by rewrite He2.
  - intros z. rewrite Hf3, lookup_insert_eq. intros [= <-]. split_and!; [done|done|by intros []].
  - intros z z' Hz. change (fibers w1 !! next_addr w2 = Some z) in Hz. congruence.
Qed.

Lemma pool_good count size p w w' :
  fib_ok w -> 0 <= size -> FiberSharedStackPool_new count size w = (Ret p, w') -> good_step w w'.
Proof.
  intros Hok Hsize H. unfold FiberSharedStackPool_new in H. parts H.
  destruct (alloc_mem_ok size w (f_mem _ Hok) Hsize) as (Hok1 & Hn & Hnf).
  assert (x0 = (alloc_mem size w).2) as -> by (by rewrite E). injection E as <-. injection H as _ <-.
  assert (fibers w !! S (next_addr w) = None) as Hfn.
  { destruct (fibers w !! S (next_addr w)) eqn:Ef; [|done]. pose proof (proj1 (m_addr _ (f_mem _ Hok)) (S (next_addr w))) as H.
    rewrite Ef in H. specialize (H ltac:(by eexists)). lia. }
  apply (aside_good (S (next_addr w))); try done; cbn.
  - destruct Hok1 as [H1 H2 H3 H4 H5 H6 H7]. split; try done; cbn in *.
    + intros q pool m. rewrite lookup_insert_Some. intros [[<- <-]|[_ Hq]] Hm; [|by apply (H4 q pool)]. cbn in Hm.
      apply elem_of_replicate in Hm as [-> _]. rewrite lookup_insert_eq. split; [by eexists|]. intros f x Hx Hmx. by apply Hnf in Hx.
    + split; intros g Hg; apply H7 in Hg; lia.
  - by apply not_called.
  - intros m. destruct (decide (next_addr w = m)) as [<-|]; [by right|left; by rewrite lookup_insert_ne].
  - intros x Hx. congruence.
  - intros x x' Hx. congruence.
Qed.

(** A thread that starts: its main fiber runs, alone on its call stack. *)
Lemma thread_eq t w :
  FiberEnvironment_new t w =
  (Ret tt, with_next (S (next_addr w))
     (with_fibers (<[next_addr w := mkFiber 0 t true RUNNING 0 0 false 0 false None 0 None]> (fibers w))
       (with_envs (<[t := mkEnv [next_addr w] None None 1]> (envs w)) w))).
Proof.
  unfold FiberEnvironment_new. erewrite bind_Ret by reflexivity. cbv beta. set (e := mkEnv [] None None 0).
  set (w1 := with_envs (<[t := e]> (envs w)) w).
  assert (envs w1 !! t = Some e) as E1 by apply lookup_insert_eq.
  erewrite bind_Ret; [|unfold Fiber_main, next_id; erewrite bind_Ret;
    [reflexivity|erewrite bind_Ret by (by apply the_eq); reflexivity]].
  cbv beta. unfold push_fiber. erewrite bind_Ret.
  2:{ apply the_eq. cbn. by rewrite lookup_alter_eq, lookup_insert_eq. }
  cbn. unfold modify. do 2 f_equal. unfold alter_env, with_envs, with_next, with_fibers. cbn. f_equal.
  apply map_eq. intros t'. destruct (decide (t = t')) as [<-|].
  - by rewrite !lookup_alter_eq, !lookup_insert_eq.
  - by rewrite !lookup_alter_ne, !lookup_insert_ne.
Qed.

Lemma thread_good t w w' :
  fib_ok w -> envs w !! t = None -> FiberEnvironment_new t w = (Ret tt, w') -> good_step w w'.
Proof.
  intros Hok Ht. rewrite thread_eq. intros [= <-]. set (x := mkFiber _ _ _ _ _ _ _ _ _ _ _ _). set (a := next_addr w).
  destruct (new_fiber_ok x w) as (Hm & _ & Hn); [apply Hok|done|done|done|done|].
  assert (~ on_stack w a) as Hnot by (by apply not_called). set (w' := with_next _ _).
  assert (forall g, fibers w' !! g = if decide (a = g) then Some x else fibers w !! g) as Hf.
  { intros g. unfold w'. cbn. destruct (decide (a = g)) as [<-|]; [by rewrite lookup_insert_eq|by rewrite lookup_insert_ne]. }
  assert (forall t', calls w' t' = if decide (t = t') then Some [a] else calls w t') as Hc.
  { intros t'. unfold calls, w'. cbn. destruct (decide (t = t')) as [<-|]; [by rewrite lookup_insert_eq|by rewrite lookup_insert_ne]. }
  assert (forall g, fstate w' g = if decide (a = g) then Some RUNNING else fstate w g) as Hst.
  { intros g. unfold fstate. rewrite Hf. by destruct (decide (a = g)). }
  assert (mem_ok w') as Hok' by (by destruct Hm).
  destruct (f_calls _ Hok) as [H1 H2 H3]. split_and!; [split; [split|done| |]| |].
  - intros t' l. rewrite Hc. destruct (decide (t = t')) as [<-|].
    + intros [= <-]. split_and!; [apply NoDup_singleton|cbn; unfold SYLAR_FIBER_MAX_CALL_STACK_DEPTH; lia|].
      exists a, []. split_and!; [done|by rewrite Hst, decide_True|]. by intros g ?%not_elem_of_nil.
    + intros El. destruct (H1 t' l El) as (? & ? & top & rest & -> & Htop & Hrest). split_and!; [done..|].
      assert (forall g, g ∈ top :: rest -> a <> g) as Hne by (intros g Hg <-; apply Hnot; by exists t', (top :: rest)).
      exists top, rest. split_and!; [done|rewrite Hst, decide_False; [done|apply Hne; by left]|].
      intros g Hg. rewrite Hst, decide_False; [auto|]. apply Hne. by right.
  - intros t1 t2 l1 l2 g. rewrite !Hc. destruct (decide (t = t1)) as [<-|], (decide (t = t2)) as [<-|]; [done| | |by apply H2].
    + intros [= <-] El ->%list_elem_of_singleton Hg. destruct Hnot. by exists t2, l2.
    + intros El [= <-] Hg ->%list_elem_of_singleton. destruct Hnot. by exists t1, l1.
  - intros g. rewrite Hst. destruct (decide (a = g)) as [<-|].
    + intros _. exists t, []. by rewrite Hc, decide_True.
    + intros Hg. destruct (H3 g Hg) as (t' & r & El). exists t', r. rewrite Hc, decide_False; [done|]. intros <-.
      unfold calls in El. by rewrite Ht in El.
  - intros g. rewrite Hst. intros Hg y m mem. rewrite Hf. destruct (decide (a = g)) as [<-|]; [by intros [= <-]|].
    by apply (f_run _ Hok g Hg y m mem).
  - intros g y. rewrite Hf. destruct (decide (a = g)) as [<-|]; [intros [= <-]; split; [done|by intros []]|]. apply (f_ctx _ Hok).
  - intros g z z' Hz Hp Hz' _. apply (view_eq w w' g z); [done| |done]. rewrite Hf, decide_False; [done|].
    intros <-. change (fibers w !! next_addr w = Some z) in Hz. congruence.
  - apply leaves_none. intros g Hg. left. rewrite Hst. by case_decide.
Qed.

(** A running fiber that writes to its stack. *)
Lemma write_good t cur rest x m mem l w :
  fib_ok w -> calls w t = Some (cur :: rest) -> fibers w !! cur = Some x -> running_mem_ x = Some m ->
  mems w !! m = Some mem -> length l = length (stack_buffer_ mem) -> good_step w (alter_mem (with_buffer l) m w).
Proof.
  intros Hok Ec Ex Hm Em Hl. destruct (c_stack _ (f_calls _ Hok) _ _ Ec) as (_ & _ & top & r & E & Hcur & _). injection E as <- <-.
  assert (forall m' mem', mems (alter_mem (with_buffer l) m w) !! m' = Some mem' -> exists mem0, mems w !! m' = Some mem0 /\
    occupier_ mem' = occupier_ mem0 /\ stack_size_ mem' = stack_size_ mem0 /\
    length (stack_buffer_ mem') = length (stack_buffer_ mem0)) as Hms.
  { intros m' mem' (z & Hz & ->)%alter_Some. exists z. destruct (decide (m = m')) as [<-|]; [|done].
    rewrite Em in Hz. by injection Hz as <-. }
  pose proof (skel_alter_mem (with_buffer l) m w) as Hsk. destruct (f_mem _ Hok) as [H1 H2 H3 H4 H5 H6 H7]. split_and!; [split| |].
  - by apply (calls_ok_skel w), Hok.
  - split; try done.
    + intros f y Hy. pose proof (H1 f y Hy) as H. destruct (is_main_fiber_ y); [done|]. destruct H as (m' & mem' & E1 & E2 & ? & ?).
      exists m', (if decide (m = m') then with_buffer l mem' else mem'). split_and!; [done| |done|by case_decide].
      cbn. destruct (decide (m = m')) as [<-|]; [by rewrite lookup_alter_eq, E2|by rewrite lookup_alter_ne].
    + intros m' mem' (mem0 & E0 & _ & -> & ->)%Hms. by apply (H2 m').
    + intros p pool m' Hp Hm'. destruct (H4 p pool m' Hp Hm'). split; [|done]. cbn. by rewrite lookup_alter_is_Some.
    + intros m' mem' o (mem0 & E0 & -> & _)%Hms. by apply H5.
    + intros f y m' mem' Hy Hs Hm' (mem0 & E0 & -> & -> & _)%Hms. by apply H6 with (m := m').
    + split; [apply H7|]. intros m'. cbn. rewrite lookup_alter_is_Some. apply H7.
  - intros g Hg y m' mem' Hy Hs Hm' (mem0 & E0 & -> & _)%Hms. by apply (f_run _ Hok g Hg y m').
  - apply (f_ctx _ Hok).
  - intros g z z' Hz Hp Hz' _. unfold view. cbn. rewrite Hz. cbn. destruct (running_mem_ z) as [m'|] eqn:Hmz; [|done]. cbn.
    destruct (decide (m = m')) as [<-|]; [|by rewrite lookup_alter_ne]. rewrite lookup_alter_eq, Em. cbn.
    assert (g <> cur) as Hne.
    { intros ->. apply fstate_lookup in Hz. rewrite Hcur in Hz. injection Hz as Hz. rewrite <- Hz in Hp. by destruct Hp. }
    rewrite (H3 g cur z x m), (f_run _ Hok cur Hcur x m mem) by (done || by apply (H3 cur g x z m)).
    by rewrite bool_decide_eq_false_2 by congruence.
  - apply leaves_none. by auto.
Qed.

Lemma top_running t cur rest w : fib_ok w -> calls w t = Some (cur :: rest) -> fstate w cur = Some RUNNING.
Proof. intros Hok Ec. destruct (c_stack _ (f_calls _ Hok) _ _ Ec) as (_ & _ & top & r & E & Hcur & _). by injection E as <- <-. Qed.

Lemma step_good w w' : fib_ok w -> fiber_step w w' -> good_step w w'.
Proof.
  intros Hok Hst. destruct Hst as [t ? ? Ht H|count size p ? ? Hs H|t func args pool size f ? ? Hs H|t f ? ? _ Hn H|
    t rsp f x cur rest ? ? Hx Ht Hn Ec Hlen Hrsp H|t rsp cur rest ? ? Ec Hrsp H|t rsp cur rest ? ? Ec Hrsp H|
    threw t rsp cur rest ? ? Ec Hrsp H|f ? ? H|f func args b ? ? Hn H|f ? Hn Ho|t cur rest x m mem l ? Ec Hx Hm Em Hl].
  - by eapply thread_good.
  - by eapply pool_good.
  - by eapply new_good.
  - by eapply set_env_good.
  - destruct (decide (state_ x = TERMINATED \/ state_ x = EXCEPTION)) as [Hend|Hend].
    + unfold fiber_resume in H. erewrite bind_Ret in H by (apply get_state_eq; by apply fstate_lookup). cbv beta in H.
      rewrite (proj2 (orb_true_iff _ _)) in H by (rewrite !bool_decide_eq_true; done). injection H as <-. by apply good_refl.
    + eapply moved_good; [done|by eapply top_running|]. eapply fiber_resume_spec; try done; tauto.
  - destruct (leave_spec SUSPENDED t rsp cur rest _ _ Hok Ec ltac:(done) ltac:(done) Hrsp H) as (next & rest' & -> & Hmv).
    eapply moved_good; [done| |exact Hmv]. by eapply top_running.
  - destruct (leave_spec SLEEPING t rsp cur rest _ _ Hok Ec ltac:(done) ltac:(done) Hrsp H) as (next & rest' & -> & Hmv).
    eapply moved_good; [done| |exact Hmv]. by eapply top_running.
  - destruct (finish_spec threw t rsp cur rest _ _ Hok Ec Hrsp H) as (next & rest' & -> & Hmv).
    eapply moved_good; [done| |exact Hmv]. by eapply top_running.
  - by eapply wakeup_good.
  - by eapply reset_good.
  - by eapply delete_good.
  - by eapply write_good.
Qed.

Lemma fibers_reachable_ok w : fibers_reachable w -> fib_ok w.
Proof.
  intros H. apply rtc_nsteps in H as [n H]. remember World_new as w0 eqn:E0.
  assert (fib_ok w0) as Hok by (subst; apply fib_ok_new). clear E0.
  induction H as [|n w1 w2 w3 Hs _ IH]; [done|]. apply IH. by apply (step_good w1 w2).
Qed.

(** ** Whether a fiber can be resumed *)

(** The stack of [f] is free for it when [cur] resumes it: nobody else has it, or one
    whose bytes [change_occupier] is ready to put aside. *)
Definition stack_free (w : World) (cur f : nat) : bool :=
  match x ← fibers w !! f; (if use_shared_stack_ x then running_mem_ x else None) ≫= λ m, mems w !! m ≫= occupier_ with
  | Some o => (o =? f)%nat || (o =? cur)%nat || bool_decide (fstate w o = Some SUSPENDED) || bool_decide (fstate w o = Some TERMINATED)
  | None => true
  end.

Lemma stack_free_take t cur f rest x w :
  cur <> f -> fstate w cur = Some RUNNING -> fibers w !! f = Some x -> stack_free w cur f = true ->
  can_take (entering t cur f rest w) f.
Proof.
  intros Hne Hcur Ex Hfree x1 m mem o Ex1 Hs Hm Em Ho Hof. rewrite entering_fiber, decide_False, decide_True, Ex in Ex1 by done.
  injection Ex1 as <-. destruct (prepared_rest f w) as (Hmems & _). unfold entering in Em. cbn in Em. rewrite Hmems in Em.
  assert (use_shared_stack_ x = true /\ running_mem_ x = Some m) as [Hs' Hm'] by (by destruct (decide (state_ x = INITING))).
  unfold stack_free in Hfree. rewrite Ex in Hfree. cbn in Hfree. rewrite Hs', Hm' in Hfree. cbn in Hfree.
  rewrite Em in Hfree. cbn in Hfree. rewrite Ho, (proj2 (Nat.eqb_neq o f)) in Hfree by done. cbn [orb] in Hfree.
  rewrite (entering_state t cur f rest x w) by done. destruct (decide (cur = o)) as [->|]; [by left|].
  rewrite decide_False by done. rewrite (proj2 (Nat.eqb_neq o cur)) in Hfree by done.
  apply orb_true_iff in Hfree as [H|H]; apply bool_decide_eq_true in H; by auto.
Qed.

(** Otherwise the assertion of [change_occupier] fails. *)
Lemma stack_taken_abort t rsp cur f rest x w :
  fib_ok w -> calls w t = Some (cur :: rest) -> cur <> f -> fibers w !! f = Some x -> stack_free w cur f = false ->
  (swap_fiber t rsp cur f (entering t cur f rest w)).1 = Fault Abort.
Proof.
  intros Hok Ec Hne Ex Hfree. pose proof (top_running _ _ _ _ Hok Ec) as Hcur. pose proof (fstate_some _ _ _ Hcur) as [y Ey].
  unfold stack_free in Hfree. rewrite Ex in Hfree. cbn in Hfree. destruct (use_shared_stack_ x) eqn:Hs; [|done].
  destruct (running_mem_ x) as [m|] eqn:Hm; [|done]. cbn in Hfree. destruct (mems w !! m) as [mem|] eqn:Em; [|done]. cbn in Hfree.
  destruct (occupier_ mem) as [o|] eqn:Ho; [|done]. rewrite !orb_false_iff, !Nat.eqb_neq, !bool_decide_eq_false in Hfree.
  destruct Hfree as (((Hof & Hoc) & Hsu) & Hte). destruct (m_occupier _ (f_mem _ Hok) _ _ _ Em Ho) as (z & Ez & _).
  set (w1 := entering t cur f rest w).
  assert (mems w1 = mems w) as Hmems by (unfold w1, entering; cbn; by destruct (prepared_rest f w)).
  set (x1 := with_state RUNNING (if decide (state_ x = INITING) then with_context true x else x)).
  assert (fibers w1 !! cur = Some (with_state SUSPENDED y) /\ fibers w1 !! f = Some x1 /\ fibers w1 !! o = Some z) as (Ey1 & Ex1 & Ez1).
  { unfold w1. split_and!; rewrite entering_fiber by done; [by rewrite decide_True, Ey|by rewrite decide_False, decide_True, Ex|].
    by rewrite !decide_False, Ez by done. }
  assert (use_shared_stack_ x1 = true /\ running_mem_ x1 = Some m) as [Hs1 Hm1] by (unfold x1; by destruct (decide (state_ x = INITING))).
  clearbody w1 x1. unfold swap_fiber. erewrite bind_Ret by (by apply the_eq). cbv beta.
  erewrite bind_Ret by reflexivity. cbv beta.
  erewrite (bind_Ret _ _ _ _ x1) by (apply the_eq; cbn; by rewrite lookup_alter_ne). cbv beta. rewrite Hs1.
  erewrite bind_Fault; [reflexivity|].
  erewrite bind_Ret by (apply (the_stack_eq _ _ m mem); [done|cbn; by rewrite Hmems]). cbv beta iota.
  erewrite bind_Ret by reflexivity. cbv beta. unfold change_occupier.
  erewrite bind_Ret by (apply (the_eq mems m _ mem); cbn; by rewrite Hmems). cbv beta zeta. rewrite Ho, (proj2 (Nat.eqb_neq o f)) by done.
  erewrite (bind_Ret _ _ _ _ (state_ z)) by (apply get_state_eq; unfold fstate; cbn; by rewrite lookup_alter_ne, Ez1).
  cbv beta. erewrite bind_Fault; [reflexivity|]. apply fstate_lookup in Ez. unfold sylar_assert.
  by rewrite !bool_decide_eq_false_2 by congruence.
Qed.


Lemma resume_total t rsp cur rest f x w :
  fib_ok w -> calls w t = Some (cur :: rest) -> (length (cur :: rest) < 128)%nat -> ~ on_stack w f ->
  fibers w !! f = Some x -> env_ x = t -> state_ x <> TERMINATED -> state_ x <> EXCEPTION -> rsp_ok w cur rsp ->
  if stack_free w cur f then exists w', fiber_resume t rsp f w = (Ret tt, w')
  else (fiber_resume t rsp f w).1 = Fault Abort.
Proof.
  intros Hok Ec Hlen Hnot Ex Et Ht He Hrsp.
  destruct (entering_ready t cur f rest rsp x w) as (y & Hok1 & Ey & Ex1 & Hne & Hoc & Hrsp1 & Hsy & Hen & Hcur & Hr); try done.
  rewrite (fiber_resume_eq t rsp cur rest f x) by (done || by eapply fstate_some).
  destruct (stack_free w cur f) eqn:Hfree; [|by apply (stack_taken_abort t rsp cur f rest x)].
  eapply swap_fiber_total; try done. by apply (stack_free_take t cur f rest x).
Qed.

Lemma yield_total t rsp cur next rest w :
  fib_ok w -> calls w t = Some (cur :: next :: rest) -> rsp_ok w cur rsp ->
  can_take (leaving SUSPENDED t cur next rest w) next -> exists w', fiber_yield t rsp w = (Ret tt, w').
Proof.
  intros Hok Ec Hrsp Hc.
  destruct (leaving_ready SUSPENDED t rsp cur next rest w) as (x & y & Hok1 & Ey & Ex & Ey1 & Ex1 & Hne & Hoc1 & Hrsp1 & Hen & Sy & Sx); try done.
  unfold fiber_yield. erewrite (leave_eq SUSPENDED t rsp cur next rest y); [|done|done|done|by rewrite (fstate_lookup _ _ _ Ex), Sx].
  rewrite decide_True by done. by eapply swap_fiber_total.
Qed.

(** The resumer finds its own stack, or one that only the fiber it resumed has had. *)
Lemma resumer_takes t cur f rest rsp w w1 :
  fib_ok w -> calls w t = Some (cur :: rest) -> moved cur f SUSPENDED t (f :: cur :: rest) rsp w w1 ->
  cur <> f -> can_take (leaving SUSPENDED t f cur rest w1) cur.
Proof.
  intros Hok Ec Hmv Hne z m mem o Hz Hs Hm Em Ho Hoc.
  rewrite leaving_fiber, decide_True in Hz by done. destruct (fibers w1 !! cur) as [z1|] eqn:Ez1; [|done]. injection Hz as <-.
  destruct (mv_stack _ _ _ _ _ _ _ _ Hmv _ _ Ez1) as (z0 & Ez0 & _ & Hs0 & Hm0). cbn in Hs, Hm. change (mems w1 !! m = Some mem) in Em.
  destruct (mv_occ _ _ _ _ _ _ _ _ Hmv _ _ Em) as (mem0 & Em0 & Hcase).
  pose proof (f_run _ Hok cur (top_running _ _ _ _ Hok Ec) z0 m mem0 Ez0 ltac:(congruence) ltac:(congruence) Em0) as Ho0.
  assert (o = f) as -> by (destruct Hcase; congruence). left.
  assert (fstate w1 f = Some RUNNING) as Ef by (by rewrite (mv_state _ _ _ _ _ _ _ _ Hmv), decide_True).
  apply fstate_some in Ef. rewrite leaving_state by (done || by eexists). by rewrite decide_False, decide_True.
Qed.

(** ** Claims *)

(** (C27) The call stacks of the threads, after any run: the innermost fiber of a
    thread is running, every other fiber on its stack is suspended, a fiber is on one
    stack at most, and every running fiber is the innermost of some thread.  Resuming
    a fiber that is on no stack and has not ended aborts exactly when its shared
    stack is occupied by another fiber than the resumer that is neither suspended
    nor terminated; else the fiber is running on top of the stack, and when it yields
    control is back with the resumer and nothing but its own state has changed. *)
Theorem fiber_call_stack (w : World) (t f : nat) (x : Fiber) (cur : nat) (rest : list nat) (rsp : Z) :
  fibers_reachable w -> calls w t = Some (cur :: rest) -> fibers w !! f = Some x -> env_ x = t -> ~ on_stack w f ->
  state_ x <> TERMINATED -> state_ x <> EXCEPTION -> (length (cur :: rest) < 128)%nat -> rsp_ok w cur rsp ->
  fstate w cur = Some RUNNING /\ (forall g, g ∈ rest -> fstate w g = Some SUSPENDED) /\
  (forall g, fstate w g = Some RUNNING -> exists t' r, calls w t' = Some (g :: r)) /\
  (forall g t' l, calls w t' = Some l -> g ∈ l -> g ∈ cur :: rest -> t' = t) /\
  if stack_free w cur f then
    exists w1, fiber_resume t rsp f w = (Ret tt, w1) /\ calls w1 t = Some (f :: cur :: rest) /\ fstate w1 f = Some RUNNING /\
      forall rsp', rsp_ok w1 f rsp' -> exists w2, fiber_yield t rsp' w1 = (Ret tt, w2) /\
        (forall t', calls w2 t' = calls w t') /\ fstate w2 f = Some SUSPENDED /\ (forall g, g <> f -> fstate w2 g = fstate w g)
  else (fiber_resume t rsp f w).1 = Fault Abort.
Proof.
  intros Hr Ec Ex Et Hnot Ht He Hlen Hrsp. pose proof (fibers_reachable_ok w Hr) as Hok.
  destruct (c_stack _ (f_calls _ Hok) _ _ Ec) as (_ & _ & top & r & E & Hcur & Hrest). injection E as <- <-.
  assert (cur <> f) as Hne by (intros ->; apply Hnot; exists t, (f :: rest); split; [done|by left]).
  split_and!; [done|done|apply Hok|by intros g t' l El Hg Hg'; apply (c_one _ (f_calls _ Hok) t' t l (cur :: rest) g)|].
  pose proof (resume_total t rsp cur rest f x w Hok Ec Hlen Hnot Ex Et Ht He Hrsp) as Hres.
  destruct (stack_free w cur f); [|done]. destruct Hres as [w1 H1]. exists w1.
  pose proof (fiber_resume_spec t rsp cur rest f x w tt w1 Hok Ec Hlen Hnot Ex Et Ht He Hrsp H1) as Hmv.
  pose proof (mv_ok _ _ _ _ _ _ _ _ Hmv) as Hok1.
  assert (calls w1 t = Some (f :: cur :: rest)) as Ec1 by (by rewrite (mv_calls _ _ _ _ _ _ _ _ Hmv), decide_True).
  split_and!; [done|done|by rewrite (mv_state _ _ _ _ _ _ _ _ Hmv), decide_True|]. intros rsp' Hrsp'.
  destruct (yield_total t rsp' f cur rest w1) as [w2 H2]; [done|done|done|by apply (resumer_takes t cur f rest rsp w)|].
  exists w2. split; [done|]. destruct (leave_spec SUSPENDED t rsp' f (cur :: rest) w1 w2) as (n & r & E & Hmv2); try done.
  injection E as <- <-. split_and!.
  - intros t'. rewrite (mv_calls _ _ _ _ _ _ _ _ Hmv2), (mv_calls _ _ _ _ _ _ _ _ Hmv). by destruct (decide (t = t')) as [<-|].
  - by rewrite (mv_state _ _ _ _ _ _ _ _ Hmv2), decide_False, decide_True.
  - intros g Hg. rewrite (mv_state _ _ _ _ _ _ _ _ Hmv2), (mv_state _ _ _ _ _ _ _ _ Hmv).
    destruct (decide (cur = g)) as [<-|]; [by rewrite Hcur|]. by rewrite !(decide_False (P := f = g)).
Qed.

(** Waiting to be resumed. *)
Definition waits (w : World) (f : nat) : Prop := exists x, fibers w !! f = Some x /\ parked (state_ x).
Definition steps_apart (f : nat) (w w' : World) : Prop := fiber_step w w' /\ waits w' f.

Lemma apart_kept f w w' :
  fib_ok w -> waits w f -> rtc (steps_apart f) w w' -> fib_ok w' /\ waits w' f /\ view w' f = view w f.
Proof.
  intros Hok Hw H. induction H as [w|w1 w2 w3 [Hs Hw2] _ IH]; [done|].
  destruct (step_good _ _ Hok Hs) as (Hok2 & Hv & _). destruct (IH Hok2 Hw2) as (Hok3 & Hw3 & Hv3). split_and!; [done|done|].
  rewrite Hv3. destruct Hw as (z & Hz & Hp), Hw2 as (z2 & Hz2 & Hp2). apply (Hv f z z2); by auto.
Qed.

(** The bytes of a running fiber are in its stack. *)
Lemma running_view w f x p l :
  fib_ok w -> fibers w !! f = Some x -> state_ x = RUNNING -> view w f = Some (p, l) ->
  exists b, stack_of w f = Some b /\ p = stack_buffer_top_ x /\ l = drop (Z.to_nat p) b /\ 0 <= p <= Z.of_nat (length b).
Proof.
  intros Hok Ex Hs Hv. pose proof (view_top _ _ _ Ex _ Hv) as Hp. cbn in Hp. subst p. unfold view in Hv. rewrite Ex in Hv. cbn in Hv.
  destruct (running_mem_ x) as [m|] eqn:Hm; [|done]. cbn in Hv. destruct (mems w !! m) as [mem|] eqn:Em; [|done]. cbn in Hv.
  exists (stack_buffer_ mem). unfold stack_of. rewrite Ex. cbn. rewrite Hm. cbn. rewrite Em.
  pose proof (top_range _ _ _ _ _ (f_mem _ Hok) Ex Hm Em). pose proof (m_len _ (f_mem _ Hok) _ _ Em). split_and!; try done; try lia.
  injection Hv as <-. destruct (use_shared_stack_ x) eqn:Hsh; [|done].
  rewrite (f_run _ Hok f) with (x := x) (m := m) (mem := mem) by (done || by rewrite (fstate_lookup _ _ _ Ex), Hs).
  by rewrite bool_decide_eq_true_2.
Qed.

(** (C3) The stack of a fiber is its own, also when it shares it.  A running fiber
    leaves (it resumes another, yields or sleeps), anything may happen while it waits,
    other fibers may run on the same stack and write to it, and when it runs again its
    stack pointer and every byte of its stack from there on are what they were. *)
Theorem fiber_stack_kept (f : nat) (l : list Z) (w w1 w2 w3 : World) :
  fibers_reachable w -> fstate w f = Some RUNNING -> stack_of w f = Some l ->
  fiber_step w w1 -> waits w1 f -> rtc (steps_apart f) w1 w2 -> fiber_step w2 w3 -> fstate w3 f = Some RUNNING ->
  exists x1 x3 l3, fibers w1 !! f = Some x1 /\ fibers w3 !! f = Some x3 /\ stack_of w3 f = Some l3 /\
    stack_buffer_top_ x3 = stack_buffer_top_ x1 /\ 0 <= stack_buffer_top_ x3 <= Z.of_nat (length l3) /\
    drop (Z.to_nat (stack_buffer_top_ x3)) l3 = drop (Z.to_nat (stack_buffer_top_ x1)) l.
Proof.
  intros Hr Hrun Hl H1 Hw1 H12 H3 Hrun3. pose proof (fibers_reachable_ok w Hr) as Hok.
  destruct (step_good _ _ Hok H1) as (Hok1 & _ & Hleft). pose proof Hw1 as (x1 & Ex1 & Hp1).
  pose proof (Hleft f x1 l Hrun Ex1 Hp1 Hl) as Hv1.
  destruct (apart_kept f w1 w2 Hok1 Hw1 H12) as (Hok2 & (x2 & Ex2 & Hp2) & Hv2).
  destruct (step_good _ _ Hok2 H3) as (Hok3 & Hkeep & _). pose proof (fstate_some _ _ _ Hrun3) as [x3 Ex3].
  pose proof (fstate_lookup _ _ _ Ex3) as Hs3. rewrite Hrun3 in Hs3. injection Hs3 as Hs3.
  assert (view w3 f = Some (stack_buffer_top_ x1, drop (Z.to_nat (stack_buffer_top_ x1)) l)) as Hv3
    by (rewrite (Hkeep f x2 x3), Hv2; auto).
  destruct (running_view w3 f x3 _ _ Hok3 Ex3 (eq_sym Hs3) Hv3) as (b & Hb & Hp & Hd & Hrange).
  exists x1, x3, b. rewrite <- Hp. destruct Hrange. by split_and!.
Qed.

(** *** Two fibers on one stack *)

Lemma off_stack w f : map_Forall (λ _ e, f ∉ call_stack e) (envs w) -> ~ on_stack w f.
Proof.
  intros H (t & l & El & Hin). unfold calls in El. destruct (envs w !! t) as [e|] eqn:Ee; [|done]. injection El as <-.
  by apply (H t e Ee).
Qed.
Lemma rsp_ok_in w f rsp :
  match x ← fibers w !! f; m ← running_mem_ x; mems w !! m with Some mem => 0 <= rsp <= stack_size_ mem | None => True end ->
  rsp_ok w f rsp.
Proof. intros H x m mem Ex Hm Em. rewrite Ex in H. cbn in H. rewrite Hm in H. cbn in H. by rewrite Em in H. Qed.

(** A thread and two fibers (at 3 and 4) of a pool (at 2) whose stack (at 1) has 8 bytes. *)
Definition shared_world : World :=
  (Fiber_new 0 2 0 (Some 2%nat) 0 (Fiber_new 0 1 0 (Some 2%nat) 0
    (FiberSharedStackPool_new 1 8 (FiberEnvironment_new 0 World_new).2).2).2).2.
Definition first_runs : World := alter_mem (with_buffer [1; 2; 3; 4; 5; 6; 7; 8]) 1 (fiber_resume 0 0 3 shared_world).2.
Definition first_waits : World := (fiber_yield 0 2 first_runs).2.
Definition second_ran : World :=
  (fiber_yield 0 5 (alter_mem (with_buffer [9; 9; 9; 9; 9; 9; 9; 9]) 1 (fiber_resume 0 0 4 first_waits).2)).2.

Ltac off := apply off_stack; apply (bool_decide_unpack _); vm_compute; reflexivity.
Ltac rsp := apply rsp_ok_in; vm_compute; try (intuition discriminate); exact I.
Ltac run := vm_compute; reflexivity.

Lemma shared_world_reachable : fibers_reachable shared_world.
Proof.
  eapply rtc_l; [eapply (FThread 0); run|]. eapply rtc_l; [eapply (FPool 1 8); [lia|run]|].
  eapply rtc_l; [eapply (FNew 0 1 0 (Some 2%nat) 0); [lia|run]|].
  eapply rtc_l; [eapply (FNew 0 2 0 (Some 2%nat) 0); [lia|run]|]. apply rtc_refl.
Qed.

Lemma fiber_call_stack_witness :
  exists w1, fiber_resume 0 0 3 shared_world = (Ret tt, w1) /\ calls w1 0 = Some [3; 0]%nat /\ fstate w1 3 = Some RUNNING /\
    forall rsp', rsp_ok w1 3 rsp' -> exists w2, fiber_yield 0 rsp' w1 = (Ret tt, w2) /\
      (forall t', calls w2 t' = calls shared_world t') /\ fstate w2 3 = Some SUSPENDED /\
      (forall g, g <> 3%nat -> fstate w2 g = fstate shared_world g).
Proof.
  edestruct (fiber_call_stack shared_world 0 3) as (_ & _ & _ & _ & H).
  - apply shared_world_reachable.
  - run.
  - run.
  - reflexivity.
  - off.
  - discriminate.
  - discriminate.
  - simpl. lia.
  - rsp.
  - exact H.
Defined.

Lemma first_runs_reachable : fibers_reachable first_runs.
Proof.
  eapply rtc_r; [eapply rtc_r; [apply shared_world_reachable|]|].
  - eapply (FResume 0 0 3); [run|run|off|run|simpl; lia|rsp|run].
  - eapply (FWrite 0 3); run.
Qed.

(** While the first fiber waits the second one runs and overwrites the stack. *)
Lemma second_ran_apart : rtc (steps_apart 3) first_waits second_ran.
Proof.
  eapply rtc_l; [split; [eapply (FResume 0 0 4); [run|run|off|run|simpl; lia|rsp|run]|eexists; split; [run|by left]]|].
  eapply rtc_l; [split; [eapply (FWrite 0 4); [run|run|run|run|instantiate (1 := replicate 8 9); run]|eexists; split; [run|by left]]|].
  eapply rtc_l; [split; [eapply (FYield 0 5); [run|rsp|run]|eexists; split; [run|by left]]|]. apply rtc_refl.
Qed.

Lemma fiber_stack_kept_witness :
  stack_of second_ran 3 = Some (replicate 8 9) /\
  exists x1 x3 l3, fibers first_waits !! 3%nat = Some x1 /\ fibers (fiber_resume 0 0 3 second_ran).2 !! 3%nat = Some x3 /\
    stack_of (fiber_resume 0 0 3 second_ran).2 3 = Some l3 /\
    stack_buffer_top_ x3 = stack_buffer_top_ x1 /\ 0 <= stack_buffer_top_ x3 <= Z.of_nat (length l3) /\
    drop (Z.to_nat (stack_buffer_top_ x3)) l3 = drop (Z.to_nat (stack_buffer_top_ x1)) [1; 2; 3; 4; 5; 6; 7; 8].
Proof.
  split; [run|]. apply (fiber_stack_kept 3 [1; 2; 3; 4; 5; 6; 7; 8] first_runs first_waits second_ran).
  - apply first_runs_reachable.
  - run.
  - run.
  - eapply (FYield 0 2); [run|rsp|run].
  - eexists. split; [run|by left].
  - apply second_ran_apart.
  - eapply (FResume 0 0 3); [run|run|off|run|simpl; lia|rsp|run].
  - run.
Defined.

(** ** The shared pool *)

(** The stacks of a pool, taken one after the other. *)
Fixpoint take_stacks (k : nat) (p : nat) : M World (list nat) :=
  match k with
  | O => mret []
  | S k => m ← get_fiber_stack p; ms ← take_stacks k p; mret (m :: ms)
  end.

Lemma take_stacks_alias m n k p w i :
  (i < n)%nat -> pools w !! p = Some (mkPool i n (replicate n m)) -> (take_stacks k p w).1 = Ret (replicate k m).
Proof.
  revert i w. induction k as [|k IH]; intros i w Hi Hp; [done|]. cbn [take_stacks replicate].
  set (w' := with_pools (<[p := mkPool ((i + 1) mod n) n (replicate n m)]> (pools w)) w).
  erewrite (bind_Ret _ _ _ w' m).
  2:{ unfold get_fiber_stack. erewrite bind_Ret by (by apply the_eq). cbn. by rewrite lookup_replicate_2. }
  cbv beta. specialize (IH ((i + 1) mod n)%nat w'). destruct (take_stacks k p w') as [r w2] eqn:E. cbn in IH.
  rewrite IH in E. { by erewrite bind_Ret by exact E. }
  - apply Nat.mod_upper_bound. lia.
  - apply lookup_insert_eq.
Qed.

(** A pool of shared stacks hands out one and the same stack however many it
    was made with, so all fibers made from it take turns on that stack. *)
Theorem shared_stacks_alias (stack_count : nat) (size : Z) (w : World) :
  (0 < stack_count)%nat ->
  exists m p w', FiberSharedStackPool_new stack_count size w = (Ret p, w') /\
    forall k, (take_stacks k p w').1 = Ret (replicate k m).
Proof.
  intros Hn. do 3 eexists. split; [reflexivity|]. intros k. apply (take_stacks_alias _ stack_count) with (i := 0%nat); [done|].
  apply lookup_insert_eq.
Qed.

Lemma shared_stacks_alias_witness : exists m p w', FiberSharedStackPool_new 8 131072 World_new = (Ret p, w') /\
  forall k, (take_stacks k p w').1 = Ret (replicate k m).
Proof. apply (shared_stacks_alias 8 131072). lia. Defined.

(** When a fiber of the pool sleeps, has thrown, or has been reset, the next one to be
    resumed aborts the program: the state of the occupier is neither suspended nor terminated. *)
Example occupier_blocks_stack :
  (fiber_resume 0 0 4 (fiber_sleep 0 2 first_runs).2).1 = Fault Abort /\
  (fiber_resume 0 0 4 (fiber_finish true 0 2 first_runs).2).1 = Fault Abort /\
  (fiber_resume 0 0 4 (Fiber_reset 3 1 0 (fiber_finish false 0 2 first_runs).2).2).1 = Fault Abort /\
  (fiber_resume 0 0 4 (fiber_finish false 0 2 first_runs).2).1 = Ret tt.
Proof. by vm_compute. Qed.

(** A fiber that ended still occupies its stack, and the stack points to it when it is gone. *)
Example deleted_occupier_dangles :
  (fiber_resume 0 0 4 (Fiber_delete 3 (fiber_finish false 0 2 first_runs).2).2).1 = Fault BadAccess.
Proof. by vm_compute. Qed.

(** The counter of the identifiers is one per thread: the main fibers of two threads are both number 0. *)
Example fiber_ids_repeat :
  let w := (FiberEnvironment_new 1 (FiberEnvironment_new 0 World_new).2).2 in
  id_ <$> fibers w !! 0%nat = Some 0 /\ id_ <$> fibers w !! 1%nat = Some 0.
Proof. by vm_compute. Qed.
