(* ===== verification/Scheduler.v ===== *)
(** * The scheduler: src/sylar/scheduler.{h,cpp}

    All threads of one scheduler over the state they share.  Each thread runs
    [schedule]; its program text is cut at the points where another thread can
    come in between: the section under [mutex_], the test of the fiber's state,
    the resumption, the switch of context out of the fiber, and what is done
    when the fiber has come back.  A fiber is its state; what its function does
    between two switches is any sequence of calls of the operations below.
    That a fiber that yields comes back to the thread that resumed it is shown
    in Fiber.v. *)

From S2P Require Import Prelude Fiber.

Module State.
Inductive t := INIT | RUNNING | STOPPING | STOPPED.
End State.
#[global] Instance State_eq_dec : EqDecision State.t.
Proof. solve_decision. Defined.

Record ScheduledTask := mkTask { thread_ : Z; fiber_ : nat }.

(** Where a thread is in [schedule]. *)
Inductive Pc :=
| Top                               (** before the section under the lock *)
| Got (task : option ScheduledTask) (** behind it: [have_task], [task] *)
| Resuming (f : nat)                (** [active_thread_count_] is raised *)
| Running (f : nat)                 (** inside the fiber *)
| Switching (f : nat)               (** the fiber has set its state, its context is not saved yet *)
| Back (f : nat)                    (** [fiber_resume] has returned *)
| Idling                            (** inside the idle fiber *)
| Done.                             (** the loop was left *)

Record ThreadState := mkThread { pc : Pc; idle_ended : bool }.

Record Sched := mkSched {
  state_ : State.t;
  thread_count_ : nat;
  threads_ : list Z;
  tasks_ : list ScheduledTask;
  active_thread_count_ : Z;
  idle_thread_count_ : Z;
  fibers : gmap nat FiberState;
  pcs : gmap Z ThreadState;
  tickles : nat;      (** calls of [tickle] *)
  aborted : bool;     (** a SYLAR_ASSERT failed *)
}.

Definition Scheduler_new (thread_count : nat) : Sched :=
  mkSched State.INIT thread_count [] [] 0 0 ∅ ∅ 0 false.

Definition set_state_ (v : State.t) (s : Sched) : Sched :=
  mkSched v (thread_count_ s) (threads_ s) (tasks_ s) (active_thread_count_ s) (idle_thread_count_ s)
    (fibers s) (pcs s) (tickles s) (aborted s).
Definition set_threads (v : list Z) (s : Sched) : Sched :=
  mkSched (state_ s) (thread_count_ s) v (tasks_ s) (active_thread_count_ s) (idle_thread_count_ s)
    (fibers s) (pcs s) (tickles s) (aborted s).
Definition set_tasks (v : list ScheduledTask) (s : Sched) : Sched :=
  mkSched (state_ s) (thread_count_ s) (threads_ s) v (active_thread_count_ s) (idle_thread_count_ s)
    (fibers s) (pcs s) (tickles s) (aborted s).
Definition add_active (d : Z) (s : Sched) : Sched :=
  mkSched (state_ s) (thread_count_ s) (threads_ s) (tasks_ s) (u64 (active_thread_count_ s + d))
    (idle_thread_count_ s) (fibers s) (pcs s) (tickles s) (aborted s).
Definition add_idle (d : Z) (s : Sched) : Sched :=
  mkSched (state_ s) (thread_count_ s) (threads_ s) (tasks_ s) (active_thread_count_ s)
    (u64 (idle_thread_count_ s + d)) (fibers s) (pcs s) (tickles s) (aborted s).
Definition set_fiber (f : nat) (v : FiberState) (s : Sched) : Sched :=
  mkSched (state_ s) (thread_count_ s) (threads_ s) (tasks_ s) (active_thread_count_ s)
    (idle_thread_count_ s) (<[f := v]> (fibers s)) (pcs s) (tickles s) (aborted s).
Definition goto (t : Z) (v : Pc) (s : Sched) : Sched :=
  mkSched (state_ s) (thread_count_ s) (threads_ s) (tasks_ s) (active_thread_count_ s)
    (idle_thread_count_ s) (fibers s) (alter (λ x, mkThread v (idle_ended x)) t (pcs s)) (tickles s) (aborted s).
Definition end_idle (t : Z) (s : Sched) : Sched :=
  mkSched (state_ s) (thread_count_ s) (threads_ s) (tasks_ s) (active_thread_count_ s)
    (idle_thread_count_ s) (fibers s) (alter (λ x, mkThread (pc x) true) t (pcs s)) (tickles s) (aborted s).
Definition add_tickles (n : nat) (s : Sched) : Sched :=
  mkSched (state_ s) (thread_count_ s) (threads_ s) (tasks_ s) (active_thread_count_ s)
    (idle_thread_count_ s) (fibers s) (pcs s) (tickles s + n) (aborted s).
Definition abort (s : Sched) : Sched :=
  mkSched (state_ s) (thread_count_ s) (threads_ s) (tasks_ s) (active_thread_count_ s)
    (idle_thread_count_ s) (fibers s) (pcs s) (tickles s) true.

(** ** Operations *)

Definition add_fiber (f : nat) (thread : Z) (s : Sched) : Sched :=
  set_tasks (tasks_ s ++ [mkTask thread f]) s.

Definition tickle (s : Sched) : Sched := add_tickles 1 s.

Definition can_stop (s : Sched) : bool :=
  bool_decide (state_ s = State.STOPPING) && bool_decide (threads_ s = []) &&
  (active_thread_count_ s =? 0) && bool_decide (tasks_ s = []).

(** Threads with the ids [ids] are created; each starts in [schedule]. *)
Definition start (ids : list Z) (s : Sched) : Sched :=
  if bool_decide (state_ s = State.INIT) then
    let s := set_threads ids (set_state_ State.RUNNING s) in
    mkSched (state_ s) (thread_count_ s) (threads_ s) (tasks_ s) (active_thread_count_ s)
      (idle_thread_count_ s) (fibers s) (foldr (λ t m, <[t := mkThread Top false]> m) (pcs s) ids)
      (tickles s) (aborted s)
  else s.

(** [stop], called from a thread of no scheduler: up to the lock, and the section
    under the lock.  The assertion and the joining of the threads are in
    Schedulers.v. *)
Definition stop (s : Sched) : Sched :=
  if bool_decide (state_ s = State.RUNNING)
  then add_tickles (thread_count_ s) (set_state_ State.STOPPING s) else s.
Definition stop_swap (s : Sched) : Sched := set_threads [] s.

(** The loop under the lock: the task taken, the tasks left, [tickle_others]. *)
Fixpoint pick_loop (id : Z) (tasks : list ScheduledTask) : option ScheduledTask * list ScheduledTask * bool :=
  match tasks with
  | [] => (None, [], false)
  | it :: rest =>
      if negb (thread_ it =? -1) && negb (thread_ it =? id) then
        let '(task, others, _) := pick_loop id rest in (task, it :: others, true)
      else (Some it, rest, negb (bool_decide (rest = [])))
  end.
Definition pick (t : Z) (s : Sched) : Sched :=
  let '(task, others, tickle_others) := pick_loop t (tasks_ s) in
  let s := goto t (Got task) (set_tasks others s) in
  if tickle_others then tickle s else s.

Definition run_idle (t : Z) (idle_ended : bool) (s : Sched) : Sched :=
  if idle_ended then goto t Done s else goto t Idling (add_idle 1 s).
Definition dead (st : FiberState) : bool :=
  match st with TERMINATED | EXCEPTION => true | _ => false end.
Definition waiting (st : FiberState) : bool :=
  match st with READY | SUSPENDED => true | _ => false end.

(** The branches on the state of the fiber that was taken. *)
Definition check (t : Z) (task : option ScheduledTask) (ended : bool) (s : Sched) : option Sched :=
  match task with
  | None => Some (run_idle t ended s)
  | Some task =>
      st ← fibers s !! fiber_ task;
      Some (if dead st then run_idle t ended s
            else if bool_decide (st = RUNNING) then goto t Top (add_fiber (fiber_ task) (-1) s)
            else goto t (Resuming (fiber_ task)) (add_active 1 s))
  end.

(** [set_env] and [fiber_resume]. *)
Definition resume (t : Z) (f : nat) (s : Sched) : option Sched :=
  st ← fibers s !! f;
  Some (if bool_decide (st = RUNNING) then abort s
        else if dead st then goto t (Back f) s
        else goto t (Running f) (set_fiber f RUNNING s)).

(** How a fiber gives up its thread. *)
Inductive Leave := Yields | Sleeps | Returns | Throws.
Definition left_state (l : Leave) : FiberState :=
  match l with Yields => SUSPENDED | Sleeps => SLEEPING | Returns => TERMINATED | Throws => EXCEPTION end.

(** Behind [fiber_resume]. *)
Definition back (t : Z) (f : nat) (s : Sched) : option Sched :=
  st ← fibers s !! f;
  let s := add_active (-1) s in
  Some (goto t Top (if waiting st then add_fiber f (-1) s else s)).

(** [idle]: one round of its loop. *)
Definition idle (t : Z) (s : Sched) : Sched :=
  goto t Top (add_idle (-1) (if can_stop s then end_idle t s else s)).

Definition wakeup (f : nat) (s : Sched) : option Sched :=
  st ← fibers s !! f; Some (if bool_decide (st = SLEEPING) then set_fiber f SUSPENDED s else s).

(** ** Interleavings *)

Inductive action :=
| AStart (ids : list Z)
| AStop
| AStopSwap
| ACreate (f : nat)                  (** [new Fiber] *)
| AAdd (f : nat) (thread : Z)
| AWakeup (f : nat)
| AStep (t : Z)                      (** the thread goes on in [schedule] *)
| ALeave (t : Z) (how : Leave).      (** the fiber of the thread gives it up *)

Definition thread_step (t : Z) (s : Sched) : option Sched :=
  x ← pcs s !! t;
  match pc x with
  | Top => Some (pick t s)
  | Got task => check t task (idle_ended x) s
  | Resuming f => resume t f s
  | Running _ => None
  | Switching f => Some (goto t (Back f) s)
  | Back f => back t f s
  | Idling => Some (idle t s)
  | Done => None
  end.

Definition step (a : action) (s : Sched) : option Sched :=
  if aborted s then None else
  match a with
  | AStart ids =>
      if (length ids =? thread_count_ s)%nat && bool_decide (NoDup ids) && negb (bool_decide (-1 ∈ ids))
      then Some (start ids s) else None
  | AStop => Some (stop s)
  | AStopSwap => if bool_decide (state_ s = State.STOPPING) then Some (stop_swap s) else None
  | ACreate f => match fibers s !! f with Some _ => None | None => Some (set_fiber f INITING s) end
  | AAdd f thread => match fibers s !! f with Some _ => Some (add_fiber f thread s) | None => None end
  | AWakeup f => wakeup f s
  | AStep t => thread_step t s
  | ALeave t how =>
      x ← pcs s !! t;
      match pc x with
      | Running f =>
          st ← fibers s !! f;
          Some (goto t (Switching f)
            (match how with
             | Yields | Sleeps => if bool_decide (st = RUNNING) then set_fiber f (left_state how) s else s
             | _ => set_fiber f (left_state how) s
             end))
      | _ => None
      end
  end.

Fixpoint run (l : list action) (s : Sched) : option Sched :=
  match l with [] => Some s | a :: l => step a s ≫= run l end.

(** ** Ownership

    The fiber a thread holds, from the moment it takes it out of the list to
    the moment it is back in the loop; the fibers that are in the list or held. *)

Definition holds (p : Pc) : option nat :=
  match p with
  | Got (Some task) => Some (fiber_ task)
  | Resuming f | Running f | Switching f | Back f => Some f
  | _ => None
  end.
Definition held (l : list (Z * ThreadState)) : list nat := omap (λ p, holds (pc p.2)) l.
Definition owned (s : Sched) : list nat := (fiber_ <$> tasks_ s) ++ held (map_to_list (pcs s)).

Definition busy (p : Pc) : bool :=
  match p with Resuming _ | Running _ | Switching _ | Back _ => true | _ => false end.
Definition idling (p : Pc) : bool := match p with Idling => true | _ => false end.
Definition counted (q : Pc -> bool) (l : list (Z * ThreadState)) : Z :=
  foldr Z.add 0 (map (λ p, Z.b2z (q (pc p.2))) l).

(** A fiber that can be resumed. *)
Definition startable (st : FiberState) : bool := negb (dead st) && negb (bool_decide (st = RUNNING)).
Definition pc_ok (p : Pc) (st : FiberState) : bool :=
  match p with
  | Got _ | Resuming _ => startable st
  | Running _ => bool_decide (st = RUNNING)
  | _ => negb (bool_decide (st = RUNNING)) && negb (bool_decide (st = INITING))
  end.

(** The caller's side: only a fiber that is neither in the list nor held by a
    thread is added, or woken. *)
Definition disciplined (a : action) (s : Sched) : Prop :=
  match a with
  | AAdd f _ => (f ∉ owned s) /\ (startable <$> fibers s !! f) = Some true
  | AWakeup f => f ∉ held (map_to_list (pcs s))
  | _ => True
  end.

#[global] Instance disciplined_dec a s : Decision (disciplined a s).
Proof. destruct a; cbn; apply _. Defined.

Definition dstep (s s' : Sched) : Prop := exists a, disciplined a s /\ step a s = Some s'.
Definition sched_reach (n : nat) : Sched -> Prop := rtc dstep (Scheduler_new n).

Record inv (s : Sched) : Prop := {
  inv_owned : NoDup (owned s);
  inv_queued : forall f, f ∈ (fiber_ <$> tasks_ s) -> exists st, fibers s !! f = Some st /\ startable st = true;
  inv_held : forall t x f, pcs s !! t = Some x -> holds (pc x) = Some f ->
    exists st, fibers s !! f = Some st /\ pc_ok (pc x) st = true;
  inv_active : active_thread_count_ s = counted busy (map_to_list (pcs s));
  inv_idle : idle_thread_count_ s = counted idling (map_to_list (pcs s));
  inv_size : (size (pcs s) <= thread_count_ s)%nat /\ Z.of_nat (thread_count_ s) < 2 ^ 64;
  inv_init : state_ s = State.INIT -> pcs s = ∅;
  inv_aborted : aborted s = false;
}.

(** ** One thread moves *)

Lemma pcs_split (m : gmap Z ThreadState) t x :
  m !! t = Some x ->
  map_to_list m ≡ₚ (t, x) :: map_to_list (delete t m) /\
  forall y, map_to_list (<[t := y]> m) ≡ₚ (t, y) :: map_to_list (delete t m).
Proof.
  intros E. split.
  - rewrite <- (insert_delete_id m t x E) at 1. apply map_to_list_insert, lookup_delete_eq.
  - intros y. rewrite <- insert_delete_eq. apply map_to_list_insert, lookup_delete_eq.
Qed.

#[global] Instance held_perm : Proper ((≡ₚ) ==> (≡ₚ)) held.
Proof. intros l k E. unfold held. by rewrite E. Qed.

#[global] Instance counted_perm q : Proper ((≡ₚ) ==> (=)) (counted q).
Proof. intros l k E. unfold counted. induction E; cbn; lia. Qed.

Lemma held_cons t x l : held ((t, x) :: l) = option_list (holds (pc x)) ++ held l.
Proof. unfold held. cbn. by destruct (holds (pc x)). Qed.

Lemma counted_cons q t x l : counted q ((t, x) :: l) = Z.b2z (q (pc x)) + counted q l.
Proof. done. Qed.

Lemma counted_range q l : 0 <= counted q l <= Z.of_nat (length l).
Proof. induction l as [|[t x] l IH]; [done|]. rewrite counted_cons. cbn [length]. destruct (q (pc x)); cbn; lia. Qed.

Lemma NoDup_submseteq_anti (l k : list nat) : l ⊆+ k -> NoDup k -> NoDup l.
Proof.
  intros Hs Hk. apply submseteq_sublist_r in Hs as (k' & E & Hs'). rewrite E. by eapply sublist_NoDup.
Qed.

(** What thread [t] owns before it moves, with the list. *)
Definition reach_of (x : ThreadState) (s : Sched) : list nat :=
  (fiber_ <$> tasks_ s) ++ option_list (holds (pc x)).

Lemma owned_split t x s :
  pcs s !! t = Some x -> owned s ≡ₚ reach_of x s ++ held (map_to_list (delete t (pcs s))).
Proof.
  intros E. unfold owned, reach_of. rewrite (proj1 (pcs_split _ _ _ E)), held_cons. by rewrite app_assoc.
Qed.

Lemma others_held t x s y t' f :
  inv s -> pcs s !! t = Some x -> pcs s !! t' = Some y -> t <> t' -> holds (pc y) = Some f ->
  f ∉ reach_of x s.
Proof.
  intros Hi E E' Hne Hh Hin. pose proof (inv_owned _ Hi) as Hnd. rewrite (owned_split _ _ _ E) in Hnd.
  apply NoDup_app in Hnd as (_ & Hd & _). apply (Hd f Hin). unfold held. apply list_elem_of_omap.
  exists (t', y). split; [|done]. apply elem_of_map_to_list. by rewrite lookup_delete_ne.
Qed.

Lemma inv_move t x x' s s' :
  inv s -> pcs s !! t = Some x -> pcs s' = <[t := x']> (pcs s) ->
  thread_count_ s' = thread_count_ s -> (state_ s' = State.INIT -> state_ s = State.INIT) -> aborted s' = false ->
  reach_of x' s' ⊆+ reach_of x s ->
  (forall f, f ∉ option_list (holds (pc x)) -> fibers s' !! f = fibers s !! f) ->
  (forall f, f ∈ (fiber_ <$> tasks_ s') -> exists st, fibers s' !! f = Some st /\ startable st = true) ->
  (forall f, holds (pc x') = Some f -> exists st, fibers s' !! f = Some st /\ pc_ok (pc x') st = true) ->
  active_thread_count_ s' = u64 (active_thread_count_ s + (Z.b2z (busy (pc x')) - Z.b2z (busy (pc x)))) ->
  idle_thread_count_ s' = u64 (idle_thread_count_ s + (Z.b2z (idling (pc x')) - Z.b2z (idling (pc x)))) ->
  inv s'.
Proof.
  intros Hi E E' Ec Es Ea Hsub Hf Hq Hp Hact Hidle.
  destruct (pcs_split _ _ _ E) as [P P']. specialize (P' x'). set (l := map_to_list (delete t (pcs s))) in *.
  assert (size (pcs s') = size (pcs s)) as Esz by (rewrite E'; apply map_size_insert_Some; by rewrite E).
  assert (Z.of_nat (S (length l)) < 2 ^ 64) as Hlen.
  { destruct (inv_size _ Hi) as [H1 H2]. apply Permutation_length in P. rewrite length_map_to_list in P.
    cbn in P. lia. }
  split.
  - eapply NoDup_submseteq_anti, (inv_owned _ Hi). rewrite (owned_split _ _ _ E).
    assert (pcs s' !! t = Some x') as E2 by (rewrite E'; by rewrite lookup_insert_eq).
    rewrite (owned_split _ _ _ E2), E', delete_insert_eq. by apply submseteq_skips_r.
  - done.
  - intros t' y f. rewrite E'. intros [[<- <-]|[Hne Ey]]%lookup_insert_Some Hh; [by apply Hp|].
    rewrite Hf; [by eapply (inv_held _ Hi)|]. intros Hin. eapply (others_held t x s); eauto.
    unfold reach_of. apply elem_of_app. by right.
  - rewrite Hact, (inv_active _ Hi), E', P, P', !counted_cons.
    pose proof (counted_range busy l). rewrite uint_small; destruct (busy (pc x)), (busy (pc x')); cbn [Z.b2z]; lia.
  - rewrite Hidle, (inv_idle _ Hi), E', P, P', !counted_cons.
    pose proof (counted_range idling l). rewrite uint_small; destruct (idling (pc x)), (idling (pc x')); cbn [Z.b2z]; lia.
  - rewrite Esz, Ec. apply (inv_size _ Hi).
  - intros H. apply Es, (inv_init _ Hi) in H. by rewrite H in E.
  - done.
Qed.

(** A task the thread may run. *)
Definition runnable (id : Z) (it : ScheduledTask) : Prop := thread_ it = -1 \/ thread_ it = id.

Lemma pick_loop_spec id tasks task others b :
  pick_loop id tasks = (task, others, b) ->
  (b = true <-> others <> []) /\
  match task with
  | Some it => runnable id it /\
      exists l r, tasks = l ++ it :: r /\ others = l ++ r /\ Forall (λ x, ~ runnable id x) l
  | None => others = tasks /\ Forall (λ x, ~ runnable id x) tasks
  end.
Proof.
  revert task others b. induction tasks as [|x tasks IH]; cbn; intros task others b.
  { intros [= <- <- <-]. done. }
  destruct (negb (thread_ x =? -1) && negb (thread_ x =? id)) eqn:Ex.
  - apply andb_true_iff in Ex as [E1%negb_true_iff E2%negb_true_iff].
    assert (~ runnable id x) as Hx by (unfold runnable; lia).
    destruct (pick_loop id tasks) as [[task' others'] b'] eqn:El. intros [= <- <- <-].
    split; [done|]. destruct (IH _ _ _ eq_refl) as [_ H]. destruct task' as [it|].
    + destruct H as (Hr & l & r & -> & -> & Hl). split; [done|]. exists (x :: l), r. auto.
    + destruct H as [-> H]. auto.
  - intros [= <- <- <-]. split.
    + by destruct tasks.
    + split; [|by exists [], tasks]. unfold runnable. apply andb_false_iff in Ex as [Ex|Ex];
        apply negb_false_iff in Ex; lia.
Qed.

Lemma alter_known {A} (m : gmap Z A) t x g : m !! t = Some x -> alter g t m = <[t := g x]> m.
Proof.
  intros E. apply map_eq. intros i. destruct (decide (t = i)) as [->|].
  - by rewrite lookup_alter_eq, lookup_insert_eq, E.
  - by rewrite lookup_alter_ne, lookup_insert_ne.
Qed.

Lemma goto_pcs t p x (m : gmap Z ThreadState) :
  m !! t = Some x -> alter (λ y, mkThread p (idle_ended y)) t m = <[t := mkThread p (idle_ended x)]> m.
Proof. intros E. by erewrite alter_known. Qed.

Lemma count_same z n : 0 <= z < 2 ^ 64 -> z = u64 (z + (n - n)).
Proof. intros. rewrite Z.sub_diag, Z.add_0_r. by rewrite uint_small. Qed.

Lemma inv_count_range s : inv s -> 0 <= active_thread_count_ s < 2 ^ 64 /\ 0 <= idle_thread_count_ s < 2 ^ 64.
Proof.
  intros Hi. destruct (inv_size _ Hi) as [H1 H2]. rewrite (inv_active _ Hi), (inv_idle _ Hi).
  pose proof (counted_range busy (map_to_list (pcs s))). pose proof (counted_range idling (map_to_list (pcs s))).
  rewrite length_map_to_list in *. lia.
Qed.

Lemma pick_ok t x s : inv s -> pcs s !! t = Some x -> pc x = Top -> inv (pick t s).
Proof.
  intros Hi E Ex. destruct (inv_count_range s Hi) as [Ha Hd]. unfold pick.
  destruct (pick_loop t (tasks_ s)) as [[task others] b] eqn:El. apply pick_loop_spec in El as [_ El].
  assert (fiber_ <$> tasks_ s ≡ₚ (fiber_ <$> others) ++ option_list (fiber_ <$> task)) as Hperm.
  { destruct task as [it|]; [|destruct El as [-> _]; cbn; by rewrite app_nil_r].
    destruct El as (_ & l & r & -> & -> & _). rewrite !fmap_app, fmap_cons. cbn. solve_Permutation. }
  assert (inv (goto t (Got task) (set_tasks others s))) as Hgo.
  { apply (inv_move t x (mkThread (Got task) (idle_ended x)) s); auto.
    - by apply goto_pcs.
    - apply (inv_aborted _ Hi).
    - unfold reach_of. cbn. rewrite Ex, Hperm. cbn. rewrite app_nil_r. destruct task; done.
    - intros f Hf. apply (inv_queued _ Hi). rewrite Hperm. apply elem_of_app. by left.
    - intros f Hf. destruct task as [it|]; [|done]. injection Hf as <-. apply (inv_queued _ Hi).
      rewrite Hperm. apply elem_of_app. right. cbn. by left.
    - rewrite Ex. by apply count_same.
    - rewrite Ex. by apply count_same. }
  destruct b; [|done]. by destruct Hgo.
Qed.

Lemma held_not_queued t x f s :
  inv s -> pcs s !! t = Some x -> holds (pc x) = Some f -> f ∉ (fiber_ <$> tasks_ s).
Proof.
  intros Hi E Ex Hin. pose proof (inv_owned _ Hi) as Hnd. rewrite (owned_split _ _ _ E) in Hnd.
  apply NoDup_app in Hnd as (Hnd & _). unfold reach_of in Hnd. rewrite Ex in Hnd.
  apply NoDup_app in Hnd as (_ & Hnd & _). apply (Hnd f Hin). cbn. by left.
Qed.

(** A thread that moves and touches nothing but its program counter and what the
    premises of [inv_move] speak of. *)
Ltac moves Hi E Ex x' :=
  let Ha := fresh "Ha" in let Hd := fresh "Hd" in
  destruct (inv_count_range _ Hi) as [Ha Hd];
  eapply (inv_move _ _ x' _ _ Hi E);
  [ try (by apply (goto_pcs _ _ _ _ E)) | try done | try done | try (by apply (inv_aborted _ Hi))
  | try (unfold reach_of; rewrite Ex; cbn; rewrite ?app_nil_r; try done)
  | try done | try (by apply (inv_queued _ Hi)) | try done
  | rewrite Ex; cbn; (by apply count_same) || (f_equal; lia)
  | rewrite Ex; cbn; (by apply count_same) || (f_equal; lia) ].

Lemma run_idle_ok t x s :
  inv s -> pcs s !! t = Some x -> pc x = Got None -> inv (run_idle t (idle_ended x) s).
Proof.
  intros Hi E Ex. unfold run_idle. destruct (idle_ended x) eqn:Ei.
  - moves Hi E Ex (mkThread Done (idle_ended x)).
  - moves Hi E Ex (mkThread Idling (idle_ended x)).
Qed.

Lemma check_ok t x task s s' :
  inv s -> pcs s !! t = Some x -> pc x = Got task -> check t task (idle_ended x) s = Some s' -> inv s'.
Proof.
  intros Hi E Ex. destruct task as [task|]; cbn; [|intros [= <-]; by apply run_idle_ok].
  destruct (inv_held _ Hi t x (fiber_ task) E) as (st & Est & Hok); [by rewrite Ex|].
  rewrite Ex in Hok. cbn in Hok. rewrite Est. cbn. unfold startable in Hok.
  destruct (dead st) eqn:Ed, (bool_decide (st = RUNNING)) eqn:Er; try done. intros [= <-].
  moves Hi E Ex (mkThread (Resuming (fiber_ task)) (idle_ended x)).
  intros f [= <-]. exists st. split; [done|]. cbn. unfold startable. by rewrite Ed, Er.
Qed.

Lemma resume_ok t x f s s' :
  inv s -> pcs s !! t = Some x -> pc x = Resuming f -> resume t f s = Some s' -> inv s'.
Proof.
  intros Hi E Ex. unfold resume.
  destruct (inv_held _ Hi t x f E) as (st & Est & Hok); [by rewrite Ex|].
  rewrite Ex in Hok. cbn in Hok. rewrite Est. cbn. unfold startable in Hok.
  destruct (dead st) eqn:Ed, (bool_decide (st = RUNNING)) eqn:Er; try done. intros [= <-].
  assert (f ∉ (fiber_ <$> tasks_ s)) as Hnq by (eapply held_not_queued; [done|done|by rewrite Ex]).
  moves Hi E Ex (mkThread (Running f) (idle_ended x)).
  - intros g. cbn. rewrite Ex. cbn. intros Hg. rewrite lookup_insert_ne; [done|]. intros ->. apply Hg. by left.
  - intros g Hg. cbn. rewrite lookup_insert_ne; [by apply (inv_queued _ Hi)|]. by intros ->.
  - intros g [= <-]. exists RUNNING. cbn. by rewrite lookup_insert_eq.
Qed.

(** The fiber gives up the thread, and its context is saved. *)
Lemma gives_up_ok t x f v s :
  inv s -> pcs s !! t = Some x -> pc x = Running f -> v <> RUNNING -> v <> INITING ->
  inv (goto t (Switching f) (set_fiber f v s)).
Proof.
  intros Hi E Ex Hv Hv'.
  assert (f ∉ (fiber_ <$> tasks_ s)) as Hnq by (eapply held_not_queued; [done|done|by rewrite Ex]).
  moves Hi E Ex (mkThread (Switching f) (idle_ended x)).
  - intros g. cbn. rewrite Ex. cbn. intros Hg. rewrite lookup_insert_ne; [done|]. intros ->. apply Hg. by left.
  - intros g Hg. cbn. rewrite lookup_insert_ne; [by apply (inv_queued _ Hi)|]. by intros ->.
  - intros g [= <-]. exists v. cbn. rewrite lookup_insert_eq. by rewrite !bool_decide_eq_false_2.
Qed.

Lemma switched_ok t x f s :
  inv s -> pcs s !! t = Some x -> pc x = Switching f -> inv (goto t (Back f) s).
Proof.
  intros Hi E Ex. destruct (inv_held _ Hi t x f E) as (st & Est & Hok); [by rewrite Ex|].
  moves Hi E Ex (mkThread (Back f) (idle_ended x)). intros g [= <-]. exists st. by rewrite Ex in Hok.
Qed.

Lemma back_ok t x f s s' :
  inv s -> pcs s !! t = Some x -> pc x = Back f -> back t f s = Some s' -> inv s'.
Proof.
  intros Hi E Ex. unfold back. destruct (inv_held _ Hi t x f E) as (st & Est & Hok); [by rewrite Ex|].
  rewrite Est. cbn. intros [= <-]. destruct (waiting st) eqn:Ew.
  - moves Hi E Ex (mkThread Top (idle_ended x)).
    + rewrite fmap_app. done.
    + intros g. cbn. rewrite fmap_app, elem_of_app. cbn. rewrite list_elem_of_singleton.
      intros [Hg| ->]; [by apply (inv_queued _ Hi)|]. exists st. by destruct st.
  - moves Hi E Ex (mkThread Top (idle_ended x)). by apply submseteq_inserts_r.
Qed.

Lemma idle_ok t x s : inv s -> pcs s !! t = Some x -> pc x = Idling -> inv (idle t s).
Proof.
  intros Hi E Ex. unfold idle. destruct (can_stop s).
  - moves Hi E Ex (mkThread Top true). cbn. rewrite (alter_known _ _ _ _ E).
    rewrite (goto_pcs _ _ _ _ (lookup_insert_eq _ _ _)). by rewrite insert_insert_eq.
  - moves Hi E Ex (mkThread Top (idle_ended x)).
Qed.

Lemma thread_step_ok t s s' : inv s -> thread_step t s = Some s' -> inv s'.
Proof.
  intros Hi. unfold thread_step. destruct (pcs s !! t) as [x|] eqn:E; [|done]. cbn.
  destruct (pc x) as [|task|f|f|f|f| |] eqn:Ex; try done.
  - intros [= <-]. by eapply pick_ok.
  - by eapply check_ok.
  - by eapply resume_ok.
  - intros [= <-]. by eapply switched_ok.
  - by eapply back_ok.
  - intros [= <-]. by eapply idle_ok.
Qed.

(** ** The other actions *)

Definition started (ids : list Z) : gmap Z ThreadState := foldr (λ t m, <[t := mkThread Top false]> m) ∅ ids.

Lemma started_lookup ids t x : started ids !! t = Some x -> t ∈ ids /\ x = mkThread Top false.
Proof.
  induction ids as [|i ids IH]; cbn; [by rewrite lookup_empty|].
  rewrite lookup_insert_Some. intros [[-> <-]|[_ H]]; [split; [by left|done]|].
  destruct (IH H). split; [by right|done].
Qed.

Lemma started_size ids : (size (started ids) <= length ids)%nat.
Proof.
  induction ids as [|i ids IH]; cbn [started foldr length]; [by rewrite map_size_empty|].
  fold (started ids). rewrite map_size_insert. destruct (started ids !! i); simpl; lia.
Qed.

Lemma held_none l : (forall t x, (t, x) ∈ l -> holds (pc x) = None) -> held l = [].
Proof.
  induction l as [|[t x] l IH]; [done|]. intros H. rewrite held_cons, (H t x) by (by left).
  apply IH. intros t' x' Hin. apply (H t' x'). by right.
Qed.

Lemma counted_none q l : (forall t x, (t, x) ∈ l -> q (pc x) = false) -> counted q l = 0.
Proof.
  induction l as [|[t x] l IH]; [done|]. intros H. rewrite counted_cons, (H t x) by (by left).
  rewrite IH; [done|]. intros t' x' Hin. apply (H t' x'). by right.
Qed.

Lemma start_ok ids s : inv s -> length ids = thread_count_ s -> inv (start ids s).
Proof.
  intros Hi Hlen. unfold start. case_bool_decide as Es; [|done].
  pose proof (inv_init _ Hi Es) as Ep. cbn. rewrite Ep. fold (started ids).
  assert (forall t x, (t, x) ∈ map_to_list (started ids) -> x = mkThread Top false) as Hall.
  { intros t x Hin%elem_of_map_to_list. by apply started_lookup in Hin as [_ ->]. }
  destruct Hi as [H1 H2 H3 H4 H5 [H6 H6'] H7 H8]. rewrite Ep, map_to_list_empty in *.
  split; cbn; try done.
  - unfold owned in *. cbn. rewrite Ep, map_to_list_empty in H1.
    rewrite held_none; [done|]. intros t x Hin. by rewrite (Hall _ _ Hin).
  - intros t x f Hx. apply started_lookup in Hx as [_ ->]. done.
  - rewrite H4, (counted_none busy (map_to_list (started ids))); [done|]. intros t x Hin. by rewrite (Hall _ _ Hin).
  - rewrite H5, (counted_none idling (map_to_list (started ids))); [done|]. intros t x Hin. by rewrite (Hall _ _ Hin).
  - split; [|done]. rewrite <- Hlen. apply started_size.
Qed.

(** Setting the state of a fiber no thread holds. *)
Lemma set_fiber_ok f v s :
  inv s -> f ∉ held (map_to_list (pcs s)) ->
  (f ∈ (fiber_ <$> tasks_ s) -> startable v = true) -> inv (set_fiber f v s).
Proof.
  intros Hi Hnot Hq. destruct Hi as [H1 H2 H3 H4 H5 H6 H7 H8]. split; try done; cbn.
  - intros g Hg. destruct (decide (f = g)) as [<-|].
    + rewrite lookup_insert_eq. eauto.
    + rewrite lookup_insert_ne by done. auto.
  - intros t x g Hx Hh. rewrite lookup_insert_ne; [eauto|]. intros <-. apply Hnot.
    unfold held. apply list_elem_of_omap. exists (t, x). split; [by apply elem_of_map_to_list|done].
Qed.

Lemma held_known f s : inv s -> f ∈ held (map_to_list (pcs s)) -> is_Some (fibers s !! f).
Proof.
  unfold held. intros Hi ([t x] & Hin%elem_of_map_to_list & Hh)%list_elem_of_omap.
  destruct (inv_held _ Hi t x f Hin Hh) as (st & -> & _). eauto.
Qed.

Lemma add_ok f th s :
  inv s -> f ∉ owned s -> (exists st, fibers s !! f = Some st /\ startable st = true) -> inv (add_fiber f th s).
Proof.
  intros Hi Hnot Hst. destruct Hi as [H1 H2 H3 H4 H5 H6 H7 H8]. split; try done; cbn.
  - unfold owned in *. cbn. rewrite fmap_app. cbn.
    rewrite (Permutation_app_comm (fiber_ <$> tasks_ s) [f]). cbn. by constructor.
  - intros g. rewrite fmap_app, elem_of_app. cbn. rewrite list_elem_of_singleton. intros [Hg| ->]; auto.
Qed.

Lemma dstep_ok s s' : dstep s s' -> inv s -> inv s'.
Proof.
  intros (a & Hd & Es) Hi. unfold step in Es. rewrite (inv_aborted _ Hi) in Es.
  destruct a as [ids| | |f|f th|f|t|t how]; cbn in Hd.
  - destruct (_ && _) eqn:Ec in Es; [|done]. injection Es as <-. apply start_ok; [done|].
    apply andb_true_iff in Ec as [[Ec%Nat.eqb_eq _]%andb_true_iff _]. done.
  - injection Es as <-. unfold stop. case_bool_decide; [|done]. by destruct Hi.
  - case_bool_decide; [|done]. injection Es as <-. by destruct Hi.
  - destruct (fibers s !! f) eqn:Ef; [done|]. injection Es as <-. apply set_fiber_ok; [done| |].
    + intros [? Hin]%held_known; [congruence|done].
    + intros (st & Est & _)%(inv_queued _ Hi). congruence.
  - destruct Hd as [Hnot Hst]. destruct (fibers s !! f) as [st|] eqn:Est; [|done]. injection Es as <-.
    injection Hst as Hst. apply add_ok; eauto.
  - unfold wakeup in Es. destruct (fibers s !! f) as [st|]; [|done]. cbn in Es. injection Es as <-.
    case_bool_decide; [|done]. by apply set_fiber_ok.
  - by eapply thread_step_ok.
  - destruct (pcs s !! t) as [x|] eqn:E; [|done]. cbn in Es. destruct (pc x) as [|?|?|f|?|?| |] eqn:Ex; try done.
    destruct (inv_held _ Hi t x f E) as (st & Est & Hok); [by rewrite Ex|]. rewrite Ex in Hok. cbn in Hok.
    rewrite Est in Es. cbn in Es. rewrite Hok in Es. injection Es as <-.
    destruct how; by eapply gives_up_ok.
Qed.

Lemma Scheduler_new_ok n : Z.of_nat n < 2 ^ 64 -> inv (Scheduler_new n).
Proof.
  intros Hn. split; cbn; try done.
  - constructor.
  - intros f Hf. by apply elem_of_nil in Hf.
  - split; [|done]. rewrite map_size_empty. lia.
Qed.

Lemma sched_reach_ok n s : Z.of_nat n < 2 ^ 64 -> sched_reach n s -> inv s.
Proof.
  intros Hn Hr. pose proof (Scheduler_new_ok n Hn) as H0. unfold sched_reach in Hr.
  induction Hr as [|? ? ? Hs _ IH]; [done|]. apply IH. by eapply dstep_ok.
Qed.

(** ** Coming to an end *)

(** The thread will leave its loop without another look at the list, or has left it. *)
Definition finished (x : ThreadState) : bool :=
  match pc x with Done => true | Got None => idle_ended x | _ => false end.
Definition all_finished (s : Sched) : Prop := map_Forall (λ _ x, finished x = true) (pcs s).

(** No fiber is added once all threads have had their last look at the list. *)
Definition inner (a : action) (s : Sched) : Prop :=
  match a with
  | AAdd _ _ => state_ s = State.INIT \/ exists t x, pcs s !! t = Some x /\ finished x = false
  | _ => True
  end.
Definition inner_step (s s' : Sched) : Prop := exists a, disciplined a s /\ inner a s /\ step a s = Some s'.

Definition drained (s : Sched) : Prop := all_finished s -> forall it, it ∈ tasks_ s -> thread_ it <> -1.

Lemma finished_move t x x' s s' :
  pcs s !! t = Some x -> pcs s' = <[t := x']> (pcs s) -> all_finished s' ->
  finished x' = true /\ (finished x = true -> all_finished s).
Proof.
  intros E E' H. unfold all_finished in H. rewrite E' in H. split; [eapply (map_Forall_insert_1_1 _ _ _ _ H)|].
  intros Hx u y Hu. destruct (decide (t = u)) as [<-|]; [congruence|]. apply (H u y). by rewrite lookup_insert_ne.
Qed.

Lemma thread_step_drains t s s' : inv s -> drained s -> thread_step t s = Some s' -> drained s'.
Proof.
  intros Hi Hdr. unfold thread_step. destruct (pcs s !! t) as [x|] eqn:E; [|done]. cbn.
  assert (forall f, holds (pc x) = Some f -> exists v, fibers s !! f = Some v /\ pc_ok (pc x) v = true) as Hh
    by (intros; by eapply (inv_held _ Hi)).
  assert (forall p e v, pcs v = <[t := mkThread p e]> (pcs s) -> finished (mkThread p e) = false -> drained v) as Hgo.
  { intros p e v Ev Hp Hall. destruct (finished_move _ _ _ _ _ E Ev Hall). congruence. }
  destruct (pc x) as [|task|g|g|g|g| |] eqn:Ex; try done.
  - intros [= <-]. unfold pick. destruct (pick_loop t (tasks_ s)) as [[task others] b] eqn:El.
    apply pick_loop_spec in El as [_ El].
    assert (drained (goto t (Got task) (set_tasks others s))) as Hp; [|by destruct b].
    destruct task as [it|]; [eapply Hgo; [by apply goto_pcs|done]|].
    intros _ it. cbn. destruct El as [-> El]. intros Hin. rewrite Forall_forall in El.
    specialize (El it Hin). unfold runnable in El. lia.
  - destruct task as [task|]; cbn.
    + destruct (Hh _ eq_refl) as (st & -> & Hok). cbn in *. unfold startable in Hok.
      destruct (dead st), (bool_decide (st = RUNNING)); try done. intros [= <-].
      eapply Hgo; [by apply goto_pcs|done].
    + intros [= <-]. unfold run_idle. destruct (idle_ended x) eqn:Ei;
        [|eapply Hgo; [by apply goto_pcs|done]].
      intros Hall. eapply finished_move in Hall as [_ Hall]; [|done|by apply goto_pcs].
      apply Hdr, Hall. unfold finished. by rewrite Ex.
  - unfold resume. destruct (Hh _ eq_refl) as (st & -> & Hok). cbn in *. unfold startable in Hok.
    destruct (dead st), (bool_decide (st = RUNNING)); try done. intros [= <-].
    eapply Hgo; [by apply goto_pcs|done].
  - intros [= <-]. eapply Hgo; [by apply goto_pcs|done].
  - unfold back. destruct (Hh _ eq_refl) as (st & -> & _). intros [= <-].
    destruct (waiting st); (eapply Hgo; [by apply goto_pcs|done]).
  - intros [= <-]. unfold idle. destruct (can_stop s).
    + eapply (Hgo Top true); [|done]. cbn. rewrite (alter_known _ _ _ _ E).
      rewrite (goto_pcs _ _ _ _ (lookup_insert_eq _ _ _)). by rewrite insert_insert_eq.
    + eapply Hgo; [by apply goto_pcs|done].
Qed.

Lemma thread_step_state t s s' : thread_step t s = Some s' -> state_ s' = state_ s /\ thread_count_ s' = thread_count_ s.
Proof.
  unfold thread_step. destruct (pcs s !! t) as [x|]; [|done]. cbn.
  destruct (pc x) as [|task|g|g|g|g| |]; try done; [intros [= <-]|destruct task as [task|]; cbn| | | |].
  - unfold pick. by destruct (pick_loop t (tasks_ s)) as [[? ?] []].
  - destruct (fibers s !! fiber_ task) as [st|]; [|done]. cbn. unfold run_idle. intros [= <-].
    by destruct (dead st), (bool_decide (st = RUNNING)), (idle_ended x).
  - intros [= <-]. unfold run_idle. by destruct (idle_ended x).
  - unfold resume. destruct (fibers s !! g) as [st|]; [|done]. cbn. intros [= <-].
    by destruct (dead st), (bool_decide (st = RUNNING)).
  - by intros [= <-].
  - unfold back. destruct (fibers s !! g) as [st|]; [|done]. cbn. intros [= <-]. by destruct (waiting st).
  - intros [= <-]. unfold idle. by destruct (can_stop s).
Qed.

Lemma started_top ids t : t ∈ ids -> started ids !! t = Some (mkThread Top false).
Proof.
  induction ids as [|i ids IH]; [by intros ?%elem_of_nil|]. cbn. intros [->|Hin]%elem_of_cons; [by rewrite lookup_insert_eq|].
  destruct (decide (i = t)) as [->|Hne]; [by rewrite lookup_insert_eq|]. rewrite lookup_insert_ne by done. by apply IH.
Qed.

Lemma inner_step_drains s s' :
  inv s -> (0 < thread_count_ s)%nat -> (state_ s <> State.INIT -> drained s) -> inner_step s s' ->
  (state_ s' <> State.INIT -> drained s') /\ thread_count_ s' = thread_count_ s.
Proof.
  intros Hi Hn Hdr (a & Hd & Hin & Es). unfold step in Es. rewrite (inv_aborted _ Hi) in Es.
  destruct a as [ids| | |f|f th|f|t|t how].
  - destruct (_ && _) eqn:Ec in Es; [|done]. injection Es as <-. apply andb_true_iff in Ec as [[Ec%Nat.eqb_eq _]%andb_true_iff _].
    unfold start. case_bool_decide as H; [|done]. split; [|done]. intros _ Hall. exfalso. destruct ids as [|t ids]; [cbn in Ec; lia|].
    specialize (Hall t (mkThread Top false)). cbn in Hall. rewrite (inv_init _ Hi H), lookup_insert_eq in Hall. by specialize (Hall eq_refl).
  - injection Es as <-. unfold stop. case_bool_decide as H; [|done]. split; [|done]. intros _. apply Hdr. by rewrite H.
  - case_bool_decide as H; [|done]. injection Es as <-. split; [|done]. intros _. apply Hdr. by rewrite H.
  - destruct (fibers s !! f); [done|]. by injection Es as <-.
  - destruct (fibers s !! f); [|done]. injection Es as <-. split; [|done]. intros Hst Hall. destruct Hin as [?|(t & x & E & Ex)]; [done|].
    specialize (Hall t x E). cbn in Hall. congruence.
  - unfold wakeup in Es. destruct (fibers s !! f); [|done]. cbn in Es. injection Es as <-. by case_bool_decide.
  - assert (state_ s <> State.INIT) as Hst.
    { intros H. unfold thread_step in Es. by rewrite (inv_init _ Hi H), lookup_empty in Es. }
    destruct (thread_step_state _ _ _ Es) as [_ Ecount]. split; [|exact Ecount]. intros _. eapply thread_step_drains; [done|by apply Hdr|done].
  - destruct (pcs s !! t) as [x|] eqn:E; [|done]. cbn in Es. destruct (pc x) as [|?|?|g|?|?| |] eqn:Ex; try done.
    destruct (fibers s !! g) as [st|]; [|done]. cbn in Es. injection Es as <-.
    split; [|destruct how; try case_bool_decide; done].
    intros _ Hall. eapply (finished_move _ _ (mkThread (Switching g) (idle_ended x))) in Hall as [Hall _]; [done|exact E|].
    destruct how; try case_bool_decide; by apply goto_pcs.
Qed.

Lemma inner_steps_drain s s' :
  rtc inner_step s s' -> inv s -> (0 < thread_count_ s)%nat -> (state_ s <> State.INIT -> drained s) -> state_ s' <> State.INIT -> drained s'.
Proof.
  induction 1 as [|s1 s2 s3 Hs _ IH]; [done|]. intros Hi Hn Hdr.
  destruct (inner_step_drains _ _ Hi Hn Hdr Hs) as [Hdr2 En]. apply IH; [|by rewrite En|done].
  destruct Hs as (a & Hd & _ & Es). eapply dstep_ok; [by exists a|done].
Qed.

(** A run all of whose actions are disciplined. *)
Fixpoint drun (l : list action) (s : Sched) : option Sched :=
  match l with
  | [] => Some s
  | a :: l => if decide (disciplined a s) then step a s ≫= drun l else None
  end.

Lemma drun_reach l s s' : drun l s = Some s' -> rtc dstep s s'.
Proof.
  revert s. induction l as [|a l IH]; intros s; cbn; [intros [= <-]; apply rtc_refl|].
  destruct (decide (disciplined a s)) as [Hd|]; [|done]. destruct (step a s) as [s1|] eqn:Es; [|done].
  intros H. eapply rtc_l; [|by apply IH]. by exists a.
Qed.

(** ** Claims *)

(** Two threads, fiber 7 listed for any of them, thread 1 inside it. *)
Definition in_fiber : list action := [AStart [1; 2]; ACreate 7; AAdd 7 (-1); AStep 1; AStep 1; AStep 1].
Definition after (n : nat) (l : list action) : Sched := default (Scheduler_new 0) (run l (Scheduler_new n)).

(** (C8) A scheduler that has ended leaves no task behind that any thread could have run.  In every
    run from the constructor on in which callers add only fibers that can be resumed and are
    neither listed nor held by a thread, wake only fibers no thread holds, and add nothing once
    every thread has had its last look at the list: when all threads have left [schedule], the
    tasks still listed are pinned to a thread. *)
Theorem stop_drains (n : nat) (s : Sched) :
  0 < Z.of_nat n < 2 ^ 64 -> rtc inner_step (Scheduler_new n) s -> state_ s <> State.INIT ->
  (forall u y, pcs s !! u = Some y -> pc y = Done) -> forall it, it ∈ tasks_ s -> thread_ it <> -1.
Proof.
  intros Hn Hsteps Hst Hdone. eapply (inner_steps_drain _ s Hsteps); [apply Scheduler_new_ok; lia|cbn; lia|done|done|].
  intros u y Hu. unfold finished. by rewrite (Hdone u y Hu).
Qed.

(** The fiber returns and the scheduler is stopped. *)
Definition shutdown : list action :=
  [AStart [1; 2]; ACreate 7; AAdd 7 (-1); AStep 1; AStep 1; AStep 1;
   ALeave 1 Returns; AStep 1; AStep 1; AStop; AStopSwap;
   AStep 1; AStep 1; AStep 1; AStep 1; AStep 1; AStep 2; AStep 2; AStep 2; AStep 2; AStep 2].

#[global] Instance inner_dec a s : Decision (inner a s).
Proof.
  destruct a; try (left; exact I). cbn. destruct (decide (state_ s = State.INIT)) as [|Hs]; [left; by left|].
  destruct (decide (map_Forall (λ _ x, finished x = true) (pcs s))) as [Hall|Hall].
  - right. intros [?|(t & x & E & Hx)]; [done|]. specialize (Hall t x E). cbn in Hall. congruence.
  - left. right. apply map_not_Forall in Hall as (t & x & E & Hx); [|apply _]. exists t, x. split; [done|]. by destruct (finished x).
Defined.
Lemma inner_run l : forall s s',
  foldl (λ o a, o ≫= λ s, if decide (disciplined a s /\ inner a s) then step a s else None) (Some s) l = Some s' -> rtc inner_step s s'.
Proof.
  induction l as [|a l IH]; intros s s'; cbn; [intros [= <-]; apply rtc_refl|].
  destruct (decide (disciplined a s /\ inner a s)) as [[Hd Hin]|]; cbn.
  - destruct (step a s) as [s1|] eqn:Es.
    + intros H. eapply rtc_l; [|by apply IH]. by exists a.
    + clear. induction l as [|b l IH]; [done|]. cbn. exact IH.
  - clear. induction l as [|b l IH]; [done|]. cbn. exact IH.
Qed.

Lemma stop_drains_witness :
  state_ (after 2 shutdown) = State.STOPPING /\ forall it, it ∈ tasks_ (after 2 shutdown) -> thread_ it <> -1.
Proof.
  split; [vm_compute; reflexivity|]. apply (stop_drains 2 (after 2 shutdown)).
  - lia.
  - apply (inner_run shutdown). vm_compute. reflexivity.
  - vm_compute. discriminate.
  - intros u y Hu. apply elem_of_map_to_list in Hu. vm_compute in Hu.
    repeat (apply elem_of_cons in Hu as [[= _ ->]|Hu]; [reflexivity|]). inversion Hu.
Defined.

(** A fiber that was added for one thread does not stay with it: once it has
    yielded it is listed for any thread, and another thread runs it. *)
Theorem pin_is_lost :
  exists s, drun [AStart [1; 2]; ACreate 7; AAdd 7 1; AStep 2; AStep 2; AStep 2;
                  AStep 1; AStep 1; AStep 1; ALeave 1 Yields; AStep 1; AStep 1;
                  AStep 2; AStep 2; AStep 2] (Scheduler_new 2) = Some s /\
    pc <$> pcs s !! 2 = Some (Running 7) /\ fibers s !! 7%nat = Some RUNNING.
Proof. eexists. split_and!; vm_compute; reflexivity. Qed.

(** The test for [RUNNING] does not close the gap between announcing a wait
    and giving up the thread.  A fiber that is added while it is still running
    is only put back; but when it is added after [fiber_sleep] has set its state
    and before its context is saved, a second thread resumes it while the first
    is still executing it. *)
Theorem fiber_on_two_threads :
  (exists s, run (in_fiber ++ [AAdd 7 (-1); AStep 2; AStep 2]) (Scheduler_new 2) = Some s /\
     pc <$> pcs s !! 2 = Some Top /\ tasks_ s = [mkTask (-1) 7]) /\
  exists s, run (in_fiber ++ [ALeave 1 Sleeps; AAdd 7 (-1); AStep 2; AStep 2; AStep 2]) (Scheduler_new 2) = Some s /\
     pc <$> pcs s !! 1 = Some (Switching 7) /\ pc <$> pcs s !! 2 = Some (Running 7).
Proof. split; eexists; split_and!; vm_compute; reflexivity. Qed.
