(* ===== verification/SchedulerRun.v ===== *)
(** * Every run of a scheduler: src/sylar/scheduler.cpp

    What holds of all interleavings of Scheduler.v, whatever the callers add and wake: the
    scheduler neither makes copies of a fiber nor drops one, and counts its threads. *)

From S2P Require Import Prelude Fiber Scheduler.

(** ** Where a fiber is, and how often *)

Definition copies (f : nat) (l : list nat) : nat := length (filter (λ g, g = f) l).

(** The fiber a step takes from the scheduler: one that was taken out of the list and has
    ended, and one that has come back neither ready nor suspended. *)
Definition lets_go (a : action) (s : Sched) : option nat :=
  match a with
  | AStep t =>
      match pc <$> pcs s !! t with
      | Some (Got (Some task)) => st ← fibers s !! fiber_ task; if dead st then Some (fiber_ task) else None
      | Some (Back f) => st ← fibers s !! f; if waiting st then None else Some f
      | _ => None
      end
  | _ => None
  end.
Definition one (b : bool) : nat := if b then 1 else 0.
(** The calls of [add_fiber] for [f] from outside in a run, and how often it was let go. *)
Definition added (f : nat) (a : action) : bool := match a with AAdd g _ => bool_decide (g = f) | _ => false end.
Definition gone (f : nat) (a : action) (s : Sched) : bool := bool_decide (lets_go a s = Some f).
Fixpoint adds (f : nat) (l : list action) : nat :=
  match l with [] => 0 | a :: l => one (added f a) + adds f l end.
Fixpoint gos (f : nat) (l : list action) (s : Sched) : nat :=
  match l with
  | [] => 0
  | a :: l => one (gone f a s) + from_option (gos f l) 0%nat (step a s)
  end.

Lemma copies_app f l k : copies f (l ++ k) = (copies f l + copies f k)%nat.
Proof. unfold copies. by rewrite filter_app, length_app. Qed.
Lemma copies_perm f l k : l ≡ₚ k -> copies f l = copies f k.
Proof. intros H. unfold copies. by rewrite H. Qed.
Lemma copies_one f g : copies f [g] = one (bool_decide (g = f)).
Proof. unfold copies, one. rewrite filter_cons. case_bool_decide; by rewrite ?decide_True, ?decide_False by done. Qed.
Lemma copies_held f o : copies f (option_list o) = one (bool_decide (o = Some f)).
Proof.
  destruct o as [g|]; [|by rewrite bool_decide_false by done]. change (option_list (Some g)) with [g]. rewrite copies_one. f_equal. apply bool_decide_ext. split; congruence.
Qed.
Lemma copies_pos f l : f ∈ l <-> (0 < copies f l)%nat.
Proof.
  unfold copies. split.
  - intros H. destruct (filter _ l) eqn:E; [|cbn; lia]. apply (filter_nil_not_elem_of _ _ f E) in H; done.
  - intros H. destruct (filter _ l) as [|g k] eqn:E; [cbn in H; lia|]. assert (g ∈ filter (λ g, g = f) l) as [<- Hg]%list_elem_of_filter by (rewrite E; by left). done.
Qed.

Lemma copies_move t x x' s s' f :
  pcs s !! t = Some x -> pcs s' = <[t := x']> (pcs s) ->
  (copies f (owned s') + copies f (reach_of x s) = copies f (owned s) + copies f (reach_of x' s'))%nat.
Proof.
  intros E E'. assert (pcs s' !! t = Some x') as E2 by (rewrite E'; by rewrite lookup_insert_eq).
  rewrite (copies_perm _ _ _ (owned_split _ _ _ E)), (copies_perm _ _ _ (owned_split _ _ _ E2)), E', delete_insert_eq, !copies_app. lia.
Qed.
(** A thread that goes on: what it had and what it has. *)
Lemma copies_goto t x p s s' f :
  pcs s !! t = Some x -> pcs s' = <[t := mkThread p (idle_ended x)]> (pcs s) ->
  (copies f (owned s') + (copies f (fiber_ <$> tasks_ s) + copies f (option_list (holds (pc x)))) =
   copies f (owned s) + (copies f (fiber_ <$> tasks_ s') + copies f (option_list (holds p))))%nat.
Proof.
  intros E E'. pose proof (copies_move t x _ s s' f E E') as H. unfold reach_of in H. rewrite !copies_app in H. cbn [pc] in H. lia.
Qed.

Lemma pick_copies t s task others b f :
  pick_loop t (tasks_ s) = (task, others, b) ->
  copies f (fiber_ <$> tasks_ s) = (copies f (fiber_ <$> others) + copies f (option_list (fiber_ <$> task)))%nat.
Proof.
  intros [_ El]%pick_loop_spec. destruct task as [it|]; [|destruct El as [-> _]; cbn; lia].
  destruct El as (_ & l & r & -> & -> & _). rewrite !fmap_app, fmap_cons. change (fiber_ it :: (fiber_ <$> r)) with ([fiber_ it] ++ (fiber_ <$> r)).
  change (option_list (fiber_ <$> Some it)) with [fiber_ it]. rewrite !copies_app. lia.
Qed.
(** Both sides count the same lists. *)
Ltac balance := unfold copies in *; cbn in *; lia.

(** [idle] sets the flag of the thread before it moves on. *)
Lemma idle_copies t x s f : pcs s !! t = Some x -> pc x = Idling -> copies f (owned (idle t s)) = copies f (owned s).
Proof.
  intros E Ex. assert (exists b, pcs (idle t s) = <[t := mkThread Top b]> (pcs s) /\ tasks_ (idle t s) = tasks_ s) as (b & Ep & Et).
  { unfold idle. destruct (can_stop s).
    - exists true. split; [|done]. cbn. rewrite (alter_known _ _ _ _ E), (goto_pcs _ _ _ _ (lookup_insert_eq _ _ _)). by rewrite insert_insert_eq.
    - exists (idle_ended x). split; [|done]. by apply goto_pcs. }
  pose proof (copies_move t x _ s _ f E Ep) as H. unfold reach_of in H. rewrite Ex, Et, !copies_app in H. balance.
Qed.

Lemma thread_step_copies t s s' f :
  thread_step t s = Some s' -> (copies f (owned s') + one (gone f (AStep t) s) = copies f (owned s))%nat.
Proof.
  unfold thread_step, gone, lets_go. destruct (pcs s !! t) as [x|] eqn:E; [|done]. cbn [mbind option_bind fmap option_fmap option_map].
  assert (forall p s1, pcs s1 = pcs s -> pcs (goto t p s1) = <[t := mkThread p (idle_ended x)]> (pcs s)) as Hg by (intros p s1 E1; cbn; rewrite E1; by apply goto_pcs).
  assert (forall b, holds (pc x) = None -> copies f (owned (run_idle t b s)) = copies f (owned s)) as Hidle.
  { intros b Hx. unfold run_idle. destruct b.
    - pose proof (copies_goto t x Done s (goto t Done s) f E (Hg _ _ eq_refl)) as H. rewrite Hx in H. balance.
    - pose proof (copies_goto t x Idling s (goto t Idling (add_idle 1 s)) f E (Hg _ _ eq_refl)) as H. rewrite Hx in H. balance. }
  destruct (pc x) as [|task|g|g|g|g| |] eqn:Ex; try done.
  - intros [= <-]. rewrite (bool_decide_false (None = Some f)) by done. unfold pick. destruct (pick_loop t (tasks_ s)) as [[task others] b] eqn:El.
    assert (copies f (owned (goto t (Got task) (set_tasks others s))) = copies f (owned s)) as H; [|destruct b; cbn [one]; change (owned (tickle ?z)) with (owned z); lia].
    pose proof (copies_goto t x (Got task) s (goto t (Got task) (set_tasks others s)) f E (Hg _ _ eq_refl)) as H. rewrite Ex in H. cbn [holds option_list tasks_ goto set_tasks] in H.
    rewrite (pick_copies t s task others b f El) in H. destruct task; balance.
  - destruct task as [task|]; cbn [check]; [|intros [= <-]; rewrite (bool_decide_false (None = Some f)) by done; cbn [one]; rewrite Hidle by done; lia].
    destruct (fibers s !! fiber_ task) as [st|]; [|done]. cbn [mbind option_bind]. intros [= <-]. destruct (dead st).
    + assert (forall p s1, pcs s1 = pcs s -> tasks_ s1 = tasks_ s -> holds p = None ->
        (copies f (owned (goto t p s1)) + one (bool_decide (Some (fiber_ task) = Some f)) = copies f (owned s))%nat) as H.
      { intros p s1 E1 E2 Hp. pose proof (copies_goto t x p s (goto t p s1) f E (Hg _ _ E1)) as H. rewrite Ex, Hp in H. cbn [holds option_list tasks_ goto] in H.
        rewrite E2, !copies_held, (bool_decide_false (None = Some f)) in H by done. cbn [one] in H. lia. }
      unfold run_idle. destruct (idle_ended x); by apply H.
    + rewrite (bool_decide_false (None = Some f)) by done. case_bool_decide.
      * pose proof (copies_goto t x Top s (goto t Top (add_fiber (fiber_ task) (-1) s)) f E (Hg _ _ eq_refl)) as H'. rewrite Ex in H'.
        cbn [holds option_list tasks_ goto add_fiber set_tasks] in H'. rewrite fmap_app, copies_app in H'. balance.
      * pose proof (copies_goto t x (Resuming (fiber_ task)) s (goto t (Resuming (fiber_ task)) (add_active 1 s)) f E (Hg _ _ eq_refl)) as H'. rewrite Ex in H'. balance.
  - unfold resume. destruct (fibers s !! g) as [st|]; [|done]. intros [= <-]. rewrite (bool_decide_false (None = Some f)) by done. case_bool_decide; [cbn [one]; change (owned (abort s)) with (owned s); lia|].
    destruct (dead st).
    + pose proof (copies_goto t x (Back g) s (goto t (Back g) s) f E (Hg _ _ eq_refl)) as H'. rewrite Ex in H'. balance.
    + pose proof (copies_goto t x (Running g) s (goto t (Running g) (set_fiber g RUNNING s)) f E (Hg _ _ eq_refl)) as H'. rewrite Ex in H'. balance.
  - intros [= <-]. rewrite (bool_decide_false (None = Some f)) by done. pose proof (copies_goto t x (Back g) s (goto t (Back g) s) f E (Hg _ _ eq_refl)) as H'. rewrite Ex in H'. balance.
  - unfold back. destruct (fibers s !! g) as [st|]; [|done]. cbn [mbind option_bind]. intros [= <-]. destruct (waiting st).
    + rewrite (bool_decide_false (None = Some f)) by done. pose proof (copies_goto t x Top s (goto t Top (add_fiber g (-1) (add_active (-1) s))) f E (Hg _ _ eq_refl)) as H'. rewrite Ex in H'.
      cbn [holds option_list tasks_ goto add_fiber set_tasks add_active] in H'. rewrite fmap_app, copies_app in H'. balance.
    + pose proof (copies_goto t x Top s (goto t Top (add_active (-1) s)) f E (Hg _ _ eq_refl)) as H'. rewrite Ex in H'. cbn [holds option_list tasks_ goto add_active] in H'.
      rewrite !copies_held, (bool_decide_false (None = Some f)) in H' by done. cbn [one] in H'. lia.
  - intros [= <-]. rewrite (bool_decide_false (None = Some f)) by done. cbn [one]. rewrite (idle_copies t x s f E Ex). lia.
Qed.

(** ** The invariant of every run *)

(** The fiber was resumed by the thread. *)
Definition used (p : Pc) : option nat := match p with Running f | Switching f | Back f => Some f | _ => None end.
Definition begun (f : nat) (s : Sched) : Prop := exists st, fibers s !! f = Some st /\ st <> INITING.

Record sched_inv (s : Sched) : Prop := {
  si_active : active_thread_count_ s = counted busy (map_to_list (pcs s));
  si_idle : idle_thread_count_ s = counted idling (map_to_list (pcs s));
  si_size : (size (pcs s) <= thread_count_ s)%nat /\ Z.of_nat (thread_count_ s) < 2 ^ 64;
  si_init : state_ s = State.INIT -> pcs s = ∅;
  si_running f : fibers s !! f = Some RUNNING -> exists t x, pcs s !! t = Some x /\ pc x = Running f;
  si_used t x f : pcs s !! t = Some x -> used (pc x) = Some f -> begun f s;
}.

Lemma sched_inv_move t x x' s s' :
  sched_inv s -> pcs s !! t = Some x -> pcs s' = <[t := x']> (pcs s) ->
  thread_count_ s' = thread_count_ s -> (state_ s' = State.INIT -> state_ s = State.INIT) ->
  (forall f, fibers s' !! f = Some RUNNING -> pc x' = Running f \/ (fibers s !! f = Some RUNNING /\ pc x <> Running f)) ->
  (forall f, begun f s -> begun f s') -> (forall f, used (pc x') = Some f -> begun f s') ->
  active_thread_count_ s' = u64 (active_thread_count_ s + (Z.b2z (busy (pc x')) - Z.b2z (busy (pc x)))) ->
  idle_thread_count_ s' = u64 (idle_thread_count_ s + (Z.b2z (idling (pc x')) - Z.b2z (idling (pc x)))) ->
  sched_inv s'.
Proof.
  intros Hi E E' Ec Es Hr Hb Hu Hact Hidle.
  destruct (pcs_split _ _ _ E) as [P P']. specialize (P' x'). set (l := map_to_list (delete t (pcs s))) in *.
  assert (size (pcs s') = size (pcs s)) as Esz by (rewrite E'; apply map_size_insert_Some; by rewrite E).
  assert (Z.of_nat (S (length l)) < 2 ^ 64) as Hlen.
  { destruct (si_size _ Hi) as [H1 H2]. apply Permutation_length in P. rewrite length_map_to_list in P. cbn in P. lia. }
  split.
  - rewrite Hact, (si_active _ Hi), E', P, P', !counted_cons.
    pose proof (counted_range busy l). rewrite uint_small; destruct (busy (pc x)), (busy (pc x')); cbn [Z.b2z]; lia.
  - rewrite Hidle, (si_idle _ Hi), E', P, P', !counted_cons.
    pose proof (counted_range idling l). rewrite uint_small; destruct (idling (pc x)), (idling (pc x')); cbn [Z.b2z]; lia.
  - rewrite Esz, Ec. apply (si_size _ Hi).
  - intros H. apply Es, (si_init _ Hi) in H. by rewrite H in E.
  - intros f [Hf|[Hf Hn]]%Hr; [exists t, x'; by rewrite E', lookup_insert_eq|]. destruct (si_running _ Hi f Hf) as (t1 & x1 & E1 & Ex1).
    exists t1, x1. rewrite E', lookup_insert_ne; [done|]. intros <-. rewrite E in E1. by injection E1 as <-.
  - intros t1 x1 f. rewrite E'. intros [[<- <-]|[_ E1]]%lookup_insert_Some Hx1; [by apply Hu|]. by eapply Hb, (si_used _ Hi).
Qed.

Lemma sched_count_range s : sched_inv s -> 0 <= active_thread_count_ s < 2 ^ 64 /\ 0 <= idle_thread_count_ s < 2 ^ 64.
Proof.
  intros Hi. destruct (si_size _ Hi) as [H1 H2]. rewrite (si_active _ Hi), (si_idle _ Hi).
  pose proof (counted_range busy (map_to_list (pcs s))). pose proof (counted_range idling (map_to_list (pcs s))).
  rewrite length_map_to_list in *. lia.
Qed.

(** A thread goes on to [p], and neither the fibers nor anything but the counters change. *)
Lemma sched_inv_goto t x p s s1 :
  sched_inv s -> pcs s !! t = Some x -> pcs s1 = pcs s -> thread_count_ s1 = thread_count_ s -> state_ s1 = state_ s -> fibers s1 = fibers s ->
  (forall f, pc x <> Running f) -> (forall f, used p = Some f -> begun f s) ->
  active_thread_count_ s1 = u64 (active_thread_count_ s + (Z.b2z (busy p) - Z.b2z (busy (pc x)))) ->
  idle_thread_count_ s1 = u64 (idle_thread_count_ s + (Z.b2z (idling p) - Z.b2z (idling (pc x)))) ->
  sched_inv (goto t p s1).
Proof.
  intros Hi E Ep Ec Es Ef Hn Hu Ha Hd. eapply (sched_inv_move t x (mkThread p (idle_ended x)) s); [exact Hi|exact E| |exact Ec|by rewrite <- Es| | | |exact Ha|exact Hd].
  - cbn. rewrite Ep. by apply goto_pcs.
  - intros f Hf. right. cbn in Hf. rewrite Ef in Hf. split; [done|apply Hn].
  - intros f (st & Hf & Hst). exists st. cbn. by rewrite Ef.
  - intros f (st & Hf & Hst)%Hu. exists st. cbn. by rewrite Ef.
Qed.

Ltac going Ex := first [done | rewrite Ex; cbn; first [done | by apply count_same | f_equal; lia]].
Lemma thread_step_inv t s s' : sched_inv s -> thread_step t s = Some s' -> sched_inv s'.
Proof.
  intros Hi. destruct (sched_count_range s Hi) as [Ha Hd]. unfold thread_step. destruct (pcs s !! t) as [x|] eqn:E; [|done]. cbn [mbind option_bind].
  assert (forall f, used (pc x) = Some f -> begun f s) as Hused by (intros f; exact (si_used _ Hi t x f E)).
  assert (forall b, pc x = Got None \/ (exists task, pc x = Got (Some task)) -> sched_inv (run_idle t b s)) as Hidle.
  { intros b Hx. unfold run_idle. destruct Hx as [Hx|[task Hx]], b; eapply (sched_inv_goto t x _ s); going Hx. }
  destruct (pc x) as [|task|g|g|g|g| |] eqn:Ex; try done.
  - intros [= <-]. unfold pick. destruct (pick_loop t (tasks_ s)) as [[task others] b].
    assert (sched_inv (goto t (Got task) (set_tasks others s))) as H; [|destruct b; [by destruct H|done]].
    eapply (sched_inv_goto t x _ s); going Ex.
  - destruct task as [task|]; cbn [check]; [|intros [= <-]; apply Hidle; by left].
    destruct (fibers s !! fiber_ task) as [st|] eqn:Est; [|done]. cbn [mbind option_bind]. intros [= <-]. destruct (dead st); [apply Hidle; right; by eexists|].
    case_bool_decide; eapply (sched_inv_goto t x _ s); going Ex.
  - unfold resume. destruct (fibers s !! g) as [st|] eqn:Est; [|done]. cbn [mbind option_bind]. intros [= <-]. case_bool_decide; [by destruct Hi|]. destruct (dead st) eqn:Edead.
    + eapply (sched_inv_goto t x _ s); try going Ex; cbn. intros f [= <-]. exists st. split; [done|]. by destruct st.
    + eapply (sched_inv_move t x (mkThread (Running g) (idle_ended x)) s); [exact Hi|exact E|cbn; by apply goto_pcs|done|done| | | | |]; cbn.
      * intros f [[<- _]|[_ Hf]]%lookup_insert_Some; [by left|]. right. split; [done|]. by rewrite Ex.
      * intros f (st' & Hf & Hst'). destruct (decide (g = f)) as [<-|Hne]; [exists RUNNING; cbn; by rewrite lookup_insert_eq|exists st'; cbn; by rewrite lookup_insert_ne].
      * intros f [= <-]. exists RUNNING. cbn. by rewrite lookup_insert_eq.
      * rewrite Ex. by apply count_same.
      * rewrite Ex. by apply count_same.
  - intros [= <-]. eapply (sched_inv_goto t x _ s); going Ex.
  - unfold back. destruct (fibers s !! g) as [st|]; [|done]. cbn [mbind option_bind]. intros [= <-].
    destruct (waiting st); eapply (sched_inv_goto t x _ s); going Ex.
  - intros [= <-]. unfold idle. destruct (can_stop s).
    + eapply (sched_inv_move t x (mkThread Top true) s); [exact Hi|exact E| |done|done| | |done| |]; cbn.
      * rewrite (alter_known _ _ _ _ E), (goto_pcs _ _ _ _ (lookup_insert_eq _ _ _)). by rewrite insert_insert_eq.
      * intros f Hf. right. split; [done|]. by rewrite Ex.
      * done.
      * rewrite Ex. by apply count_same.
      * rewrite Ex. cbn. by f_equal.
    + eapply (sched_inv_goto t x _ s); going Ex.
Qed.

Lemma start_inv ids s : sched_inv s -> length ids = thread_count_ s -> sched_inv (start ids s).
Proof.
  intros Hi Hlen. unfold start. case_bool_decide as Es; [|done].
  pose proof (si_init _ Hi Es) as Ep. cbn. rewrite Ep. fold (started ids).
  assert (forall t x, (t, x) ∈ map_to_list (started ids) -> x = mkThread Top false) as Hall.
  { intros t x Hin%elem_of_map_to_list. by apply started_lookup in Hin as [_ ->]. }
  destruct Hi as [H4 H5 [H6 H6'] H7 H8 H9]. rewrite Ep, map_to_list_empty in *. split; cbn; try done.
  - rewrite H4, (counted_none busy (map_to_list (started ids))); [done|]. intros t x Hin. by rewrite (Hall _ _ Hin).
  - rewrite H5, (counted_none idling (map_to_list (started ids))); [done|]. intros t x Hin. by rewrite (Hall _ _ Hin).
  - split; [|done]. rewrite <- Hlen. apply started_size.
  - intros f (t & x & Hx & _)%H8. by apply lookup_empty_Some in Hx.
  - intros t x f Hx. by apply started_lookup in Hx as [_ ->].
Qed.
(** Setting a state that is not [RUNNING], of a fiber that is not [INITING] or that no thread has used. *)
Lemma set_fiber_inv f v s :
  sched_inv s -> v <> RUNNING -> v <> INITING \/ fibers s !! f = None -> (fibers s !! f = Some RUNNING -> False) -> sched_inv (set_fiber f v s).
Proof.
  intros [H1 H2 H3 H4 H5 H6] Hv Hb Hr. split; try done; cbn.
  - intros g [[<- ?]|[_ Hg]]%lookup_insert_Some; [done|by apply H5].
  - intros t x g Hx Hu. destruct (H6 t x g Hx Hu) as (st & Hg & Hst). destruct (decide (f = g)) as [<-|Hne].
    + exists v. cbn. rewrite lookup_insert_eq. split; [done|]. destruct Hb as [?|Hn]; [done|congruence].
    + exists st. cbn. by rewrite lookup_insert_ne.
Qed.
Lemma leave_inv t x f v s :
  sched_inv s -> pcs s !! t = Some x -> pc x = Running f -> v <> RUNNING -> v <> INITING -> sched_inv (goto t (Switching f) (set_fiber f v s)).
Proof.
  intros Hi E Ex Hv Hv'. destruct (sched_count_range s Hi) as [Ha Hd].
  eapply (sched_inv_move t x (mkThread (Switching f) (idle_ended x)) s); [exact Hi|exact E|cbn; by apply goto_pcs|done|done| | | | |]; cbn.
  - intros g [[<- ?]|[Hne Hg]]%lookup_insert_Some; [done|]. right. split; [done|]. rewrite Ex. congruence.
  - intros g (st & Hg & Hst). destruct (decide (f = g)) as [<-|Hne]; [exists v; cbn; by rewrite lookup_insert_eq|exists st; cbn; by rewrite lookup_insert_ne].
  - intros g [= <-]. exists v. cbn. by rewrite lookup_insert_eq.
  - rewrite Ex. by apply count_same.
  - rewrite Ex. by apply count_same.
Qed.

Lemma step_inv a s s' : sched_inv s -> step a s = Some s' -> sched_inv s'.
Proof.
  intros Hi Es. unfold step in Es. destruct (aborted s); [done|].
  destruct a as [ids| | |f|f th|f|t|t how].
  - destruct (_ && _) eqn:Ec in Es; [|done]. injection Es as <-. apply start_inv; [done|].
    by apply andb_true_iff in Ec as [[Ec%Nat.eqb_eq _]%andb_true_iff _].
  - injection Es as <-. unfold stop. case_bool_decide; [|done]. by destruct Hi.
  - case_bool_decide; [|done]. injection Es as <-. by destruct Hi.
  - destruct (fibers s !! f) eqn:Ef; [done|]. injection Es as <-. apply set_fiber_inv; [done|done|by right|by rewrite Ef].
  - destruct (fibers s !! f); [|done]. injection Es as <-. by destruct Hi.
  - unfold wakeup in Es. destruct (fibers s !! f) as [st|] eqn:Ef; [|done]. cbn in Es. injection Es as <-.
    case_bool_decide as H; [|done]. apply set_fiber_inv; [done|done|by left|]. rewrite Ef, H. done.
  - by eapply thread_step_inv.
  - destruct (pcs s !! t) as [x|] eqn:E; [|done]. cbn in Es. destruct (pc x) as [|?|?|f|?|?| |] eqn:Ex; try done.
    destruct (fibers s !! f) as [st|] eqn:Ef; [|done]. cbn in Es. injection Es as <-.
    assert (st <> RUNNING -> sched_inv (goto t (Switching f) s)) as Hsame.
    { intros Hst. destruct (sched_count_range s Hi) as [Ha Hd].
      eapply (sched_inv_move t x (mkThread (Switching f) (idle_ended x)) s); [exact Hi|exact E|cbn; by apply goto_pcs|done|done| |done| | |]; cbn.
      - intros g Hg. right. split; [done|]. rewrite Ex. congruence.
      - intros g [= <-]. apply (si_used _ Hi t x f E). by rewrite Ex.
      - rewrite Ex. by apply count_same.
      - rewrite Ex. by apply count_same. }
    destruct how; try (by eapply leave_inv); (case_bool_decide; [by eapply leave_inv|by apply Hsame]).
Qed.

(** The law of every step, and of every run. *)
Lemma step_copies a s s' f :
  sched_inv s -> step a s = Some s' -> (copies f (owned s') + one (gone f a s) = copies f (owned s) + one (added f a))%nat.
Proof.
  intros Hi Es. assert (forall t, a = AStep t -> (copies f (owned s') + one (gone f a s) = copies f (owned s) + one (added f a))%nat) as Hstep.
  { intros t ->. unfold step in Es. destruct (aborted s); [done|]. rewrite (thread_step_copies t s s' f Es). cbn. lia. }
  unfold step in Es. destruct (aborted s); [done|].
  destruct a as [ids| | |g|g th|g|t|t how]; try (by eapply Hstep); unfold gone; cbn [lets_go added]; rewrite (bool_decide_false (None = Some f)) by done.
  - destruct (_ && _) in Es; [|done]. injection Es as <-. unfold start. case_bool_decide as H; [|done].
    unfold owned. cbn. rewrite (si_init _ Hi H), map_to_list_empty. fold (started ids). rewrite held_none; [reflexivity|].
    intros t x Hin%elem_of_map_to_list. by apply started_lookup in Hin as [_ ->].
  - injection Es as <-. unfold stop. by case_bool_decide.
  - case_bool_decide; [|done]. by injection Es as <-.
  - destruct (fibers s !! g); [done|]. by injection Es as <-.
  - destruct (fibers s !! g); [|done]. injection Es as <-. unfold owned. cbn [tasks_ add_fiber set_tasks pcs]. rewrite fmap_app, !copies_app.
    change (fiber_ <$> [mkTask th g]) with [g]. rewrite copies_one. cbn [one]. lia.
  - unfold wakeup in Es. destruct (fibers s !! g); [|done]. cbn in Es. injection Es as <-. by case_bool_decide.
  - destruct (pcs s !! t) as [x|] eqn:E; [|done]. cbn in Es. destruct (pc x) as [|?|?|g|?|?| |] eqn:Ex; try done.
    destruct (fibers s !! g) as [st|]; [|done]. cbn in Es. injection Es as <-.
    match goal with |- context [goto t ?p ?s1] => pose proof (copies_goto t x p s (goto t p s1) f E) as H end.
    rewrite Ex in H. destruct how; try case_bool_decide; cbn [tasks_ goto set_fiber holds one] in H |- *; specialize (H (goto_pcs _ _ _ _ E)); lia.
Qed.
Lemma run_copies l : forall s s' f, sched_inv s -> run l s = Some s' ->
  sched_inv s' /\ (copies f (owned s') + gos f l s = copies f (owned s) + adds f l)%nat.
Proof.
  induction l as [|a l IH]; intros s s' f Hi; cbn [run gos adds]; [intros [= <-]; split; [done|lia]|].
  destruct (step a s) as [s1|] eqn:Es; [|done]. cbn [mbind option_bind from_option]. intros Hr.
  destruct (IH s1 s' f (step_inv a s s1 Hi Es) Hr) as [Hi' H]. split; [done|]. pose proof (step_copies a s s1 f Hi Es). lia.
Qed.
Lemma Scheduler_new_inv n : Z.of_nat n < 2 ^ 64 -> sched_inv (Scheduler_new n).
Proof. intros Hn. split; cbn; try done. split; [|done]. rewrite map_size_empty. lia. Qed.

(** A fiber that two threads hold, or a thread and the list, is there twice. *)
Lemma held_twice s t t' x x' f :
  pcs s !! t = Some x -> pcs s !! t' = Some x' -> t <> t' -> holds (pc x) = Some f -> holds (pc x') = Some f -> (2 <= copies f (owned s))%nat.
Proof.
  intros E E' Hne Hh Hh'. rewrite (copies_perm _ _ _ (owned_split _ _ _ E)). unfold reach_of. rewrite !copies_app, Hh, copies_held, bool_decide_true by done. cbn [one].
  assert (0 < copies f (held (map_to_list (delete t (pcs s)))))%nat; [|lia]. apply copies_pos. unfold held. apply list_elem_of_omap. exists (t', x').
  split; [|done]. apply elem_of_map_to_list. by rewrite lookup_delete_ne.
Qed.
Lemma held_and_listed s t x f :
  pcs s !! t = Some x -> holds (pc x) = Some f -> f ∈ (fiber_ <$> tasks_ s) -> (2 <= copies f (owned s))%nat.
Proof.
  intros E Hh Hin%copies_pos. rewrite (copies_perm _ _ _ (owned_split _ _ _ E)). unfold reach_of. rewrite !copies_app, Hh, copies_held, bool_decide_true by done. cbn [one]. lia.
Qed.

(** The assertion in [fiber_resume] fails only for a fiber that is there twice. *)
Lemma abort_twice a s s' :
  sched_inv s -> aborted s = false -> step a s = Some s' -> aborted s' = true -> exists f, (2 <= copies f (owned s'))%nat.
Proof.
  intros Hi Ha Es Hab. unfold step in Es. rewrite Ha in Es.
  assert (forall f, aborted (set_fiber f RUNNING s) = false) as Hset by done.
  destruct a as [ids| | |f|f th|f|t|t how].
  - destruct (_ && _) in Es; [|done]. injection Es as <-. unfold start in Hab. case_bool_decide; cbn in Hab; congruence.
  - injection Es as <-. unfold stop in Hab. case_bool_decide; cbn in Hab; congruence.
  - case_bool_decide; [|done]. injection Es as <-. cbn in Hab. congruence.
  - destruct (fibers s !! f); [done|]. injection Es as <-. cbn in Hab. congruence.
  - destruct (fibers s !! f); [|done]. injection Es as <-. cbn in Hab. congruence.
  - unfold wakeup in Es. destruct (fibers s !! f); [|done]. cbn in Es. injection Es as <-. case_bool_decide; cbn in Hab; congruence.
  - unfold thread_step in Es. destruct (pcs s !! t) as [x|] eqn:E; [|done]. cbn [mbind option_bind] in Es. destruct (pc x) as [|task|g|g|g|g| |] eqn:Ex; try done.
    + injection Es as <-. unfold pick in Hab. destruct (pick_loop t (tasks_ s)) as [[? ?] []]; cbn in Hab; congruence.
    + destruct task as [task|]; cbn in Es; [|injection Es as <-; unfold run_idle in Hab; destruct (idle_ended x); cbn in Hab; congruence].
      destruct (fibers s !! fiber_ task) as [st|]; [|done]. cbn in Es. injection Es as <-. unfold run_idle in Hab.
      destruct (dead st), (idle_ended x), (bool_decide (st = RUNNING)); cbn in Hab; congruence.
    + unfold resume in Es. destruct (fibers s !! g) as [st|] eqn:Eg; [|done]. cbn in Es. injection Es as <-. case_bool_decide as Hst; [|destruct (dead st); cbn in Hab; congruence].
      exists g. subst st. destruct (si_running _ Hi g Eg) as (t' & x' & E' & Ex'). change (owned (abort s)) with (owned s).
      apply (held_twice s t t' x x' g E E'); [intros <-; congruence|by rewrite Ex|by rewrite Ex'].
    + injection Es as <-. cbn in Hab. congruence.
    + unfold back in Es. destruct (fibers s !! g) as [st|]; [|done]. cbn in Es. injection Es as <-. destruct (waiting st); cbn in Hab; congruence.
    + injection Es as <-. unfold idle in Hab. destruct (can_stop s); cbn in Hab; congruence.
  - destruct (pcs s !! t) as [x|] eqn:E; [|done]. cbn in Es. destruct (pc x) as [|?|?|g|?|?| |]; try done.
    destruct (fibers s !! g) as [st|]; [|done]. cbn in Es. injection Es as <-. destruct how; try case_bool_decide; cbn in Hab; congruence.
Qed.
Lemma run_abort l : forall s s', sched_inv s -> aborted s = false -> run l s = Some s' -> aborted s' = true -> exists f, (2 <= copies f (owned s'))%nat.
Proof.
  induction l as [|a l IH]; intros s s' Hi Ha; cbn [run]; [intros [= <-]; congruence|].
  destruct (step a s) as [s1|] eqn:Es; [|done]. cbn [mbind option_bind]. intros Hr Hab. destruct (aborted s1) eqn:Ha1.
  - destruct l as [|b l]; cbn in Hr; [injection Hr as <-; by eapply abort_twice|]. unfold step in Hr. by rewrite Ha1 in Hr.
  - eapply IH; [by eapply step_inv|exact Ha1|exact Hr|exact Hab].
Qed.

(** ** Claims *)

(** (C6) In every interleaving of the threads with any calls from outside, disciplined or not: a
    fiber is in the list and in the hands of threads exactly as often, taken together, as it was
    added from outside more often than it was let go.  So a fiber that is not added again before
    it was let go is in one place: listed once, or held by one thread.  The assertion that a fiber
    is not resumed twice can fail only for a fiber that was added again before it was let go.
    The two counters are the numbers of threads inside a fiber and inside the idle fiber. *)
Theorem one_thread_per_fiber (n : nat) (l : list action) (s : Sched) :
  Z.of_nat n < 2 ^ 64 -> run l (Scheduler_new n) = Some s ->
  (forall f, (copies f (owned s) + gos f l (Scheduler_new n) = adds f l)%nat) /\
  (forall f, (adds f l <= S (gos f l (Scheduler_new n)))%nat ->
     (copies f (fiber_ <$> tasks_ s) <= 1)%nat /\
     forall t x, pcs s !! t = Some x -> holds (pc x) = Some f ->
       f ∉ (fiber_ <$> tasks_ s) /\ forall t' x', pcs s !! t' = Some x' -> holds (pc x') = Some f -> t' = t) /\
  (aborted s = true -> exists f, (S (gos f l (Scheduler_new n)) < adds f l)%nat) /\
  active_thread_count_ s = counted busy (map_to_list (pcs s)) /\
  idle_thread_count_ s = counted idling (map_to_list (pcs s)).
Proof.
  intros Hn Hr. pose proof (Scheduler_new_inv n Hn) as Hi0.
  assert (forall f, (copies f (owned s) + gos f l (Scheduler_new n) = adds f l)%nat) as Hlaw by (intros f; destruct (run_copies l _ s f Hi0 Hr) as [_ H]; exact H).
  destruct (run_copies l _ s 0 Hi0 Hr) as [Hi _]. split_and!; [exact Hlaw| | |apply Hi|apply Hi].
  - intros f Hf. specialize (Hlaw f). split; [unfold owned in Hlaw; rewrite copies_app in Hlaw; lia|]. intros t x E Hh. split.
    + intros Hin. pose proof (held_and_listed s t x f E Hh Hin). lia.
    + intros t' x' E' Hh'. destruct (decide (t = t')) as [|Hne]; [done|]. pose proof (held_twice s t t' x x' f E E' Hne Hh Hh'). lia.
  - intros Hab. destruct (run_abort l _ s Hi0 eq_refl Hr Hab) as [f Hf]. exists f. specialize (Hlaw f). lia.
Qed.

(** Fiber 7 is added while thread 1 is inside it, as the comment in [schedule] has it. *)
Definition added_running : list action := in_fiber ++ [AAdd 7 (-1); AStep 2].
Lemma one_thread_per_fiber_witness :
  (copies 7 (owned (after 2 added_running)) + 0 = 2)%nat /\ active_thread_count_ (after 2 added_running) = 1.
Proof.
  destruct (one_thread_per_fiber 2 added_running (after 2 added_running)) as (H & _ & _ & E & _).
  - reflexivity.
  - vm_compute. reflexivity.
  - split; [exact (H 7%nat)|]. rewrite E. vm_compute. reflexivity.
Defined.

(** (C7) No fiber gets lost, in any interleaving: a step takes a fiber out of the list and the
    hands of the threads only when its thread finds that it has ended, or when it has come
    back to its thread asleep or ended. *)
Theorem no_fiber_lost (n : nat) (l : list action) (s s' : Sched) (a : action) (f : nat) :
  Z.of_nat n < 2 ^ 64 -> run l (Scheduler_new n) = Some s -> step a s = Some s' -> f ∈ owned s -> f ∉ owned s' ->
  exists t x st, a = AStep t /\ pcs s !! t = Some x /\ fibers s !! f = Some st /\
    ((exists task, pc x = Got (Some task) /\ fiber_ task = f /\ (st = TERMINATED \/ st = EXCEPTION)) \/
     (pc x = Back f /\ (st = SLEEPING \/ st = TERMINATED \/ st = EXCEPTION))).
Proof.
  intros Hn Hr Es Hin Hnot. destruct (run_copies l _ s f (Scheduler_new_inv n Hn) Hr) as [Hi _].
  pose proof (step_copies a s s' f Hi Es) as H. apply copies_pos in Hin. assert (copies f (owned s') = 0)%nat as E0 by (rewrite copies_pos in Hnot; lia).
  assert (lets_go a s = Some f) as Hgo by (unfold gone in H; destruct (bool_decide (lets_go a s = Some f)) eqn:E; [by apply bool_decide_eq_true in E|cbn in H; lia]).
  unfold lets_go in Hgo. destruct a as [| | | | | |t|]; try done. destruct (pcs s !! t) as [x|] eqn:E; [|done]. cbn in Hgo.
  destruct (pc x) as [|[task|]| | | |g| |] eqn:Ex; try done.
  - destruct (fibers s !! fiber_ task) as [st|] eqn:Est; [|done]. cbn in Hgo. destruct (dead st) eqn:Ed; [|done]. injection Hgo as <-.
    exists t, x, st. split_and!; [done..|]. left. exists task. split_and!; [done..|]. destruct st; auto; done.
  - destruct (fibers s !! g) as [st|] eqn:Est; [|done]. cbn in Hgo. destruct (waiting st) eqn:Ew; [done|]. injection Hgo as ->.
    exists t, x, st. split_and!; [done..|]. right. split; [done|].
    destruct (si_used _ Hi t x f E) as (st' & Est' & Hne); [by rewrite Ex|]. rewrite Est in Est'. injection Est' as <-.
    destruct st; try done; auto. exfalso. destruct (si_running _ Hi f Est) as (t' & x' & E' & Ex'). assert (t <> t') as Hne' by (intros <-; congruence).
    assert (f ∈ owned s'); [|by apply Hnot]. apply copies_pos.
    pose proof (held_twice s t t' x x' f E E' Hne' ltac:(by rewrite Ex) ltac:(by rewrite Ex')). unfold gone in H. cbn [added one] in H. destruct (bool_decide _); cbn [one] in H; lia.
Qed.

(** Fiber 7 has gone to sleep and comes back. *)
Definition asleep_back : list action := in_fiber ++ [ALeave 1 Sleeps; AStep 1].
Lemma no_fiber_lost_witness :
  exists t x st, AStep 1 = AStep t /\ pcs (after 2 asleep_back) !! t = Some x /\ fibers (after 2 asleep_back) !! 7%nat = Some st /\
    ((exists task, pc x = Got (Some task) /\ fiber_ task = 7%nat /\ (st = TERMINATED \/ st = EXCEPTION)) \/
     (pc x = Back 7 /\ (st = SLEEPING \/ st = TERMINATED \/ st = EXCEPTION))).
Proof.
  eapply (no_fiber_lost 2 asleep_back (after 2 asleep_back)).
  - reflexivity.
  - vm_compute. reflexivity.
  - vm_compute. reflexivity.
  - vm_compute. left.
  - vm_compute. intros H. inversion H.
Defined.
