(* ===== verification/Schedulers.v ===== *)
(** * The schedulers of a process: src/sylar/scheduler.cpp

    Scheduler.v has one scheduler; this file has all of them, with the thread-local
    variables of scheduler.cpp and hook.cpp: who is
    [GetThis], who may [stop], and when [stop] returns. *)

From S2P Require Import Prelude Fiber Scheduler.

Record Process := mkProcess {
  schedulers : gmap nat Sched;
  g_scheduler : gmap Z nat;          (** by thread; absent is the null pointer *)
  t_is_scheduler_thread : gset Z;    (** the threads in which it is set *)
  t_hook_enable : gset Z;            (** of hook.cpp: the threads with hooked calls *)
  assert_failed : bool;
}.
Definition Process_new : Process := mkProcess ∅ ∅ ∅ ∅ false.

Definition with_scheduler (p : nat) (s : Sched) (w : Process) : Process :=
  mkProcess (<[p := s]> (schedulers w)) (g_scheduler w) (t_is_scheduler_thread w) (t_hook_enable w) (assert_failed w).

(** ** Operations, called in thread [t] *)

Definition GetThis (t : Z) (w : Process) : option nat := g_scheduler w !! t.
Definition SetThis (t : Z) (p : option nat) (w : Process) : Process :=
  mkProcess (schedulers w) (partial_alter (λ _, p) t (g_scheduler w)) (t_is_scheduler_thread w) (t_hook_enable w) (assert_failed w).

(** The constructor and the destructor. *)
Definition construct (t : Z) (p thread_count : nat) (w : Process) : Process :=
  SetThis t (Some p) (with_scheduler p (Scheduler_new thread_count) w).
Definition destroy (t : Z) (p : nat) (w : Process) : Process :=
  SetThis t None (mkProcess (delete p (schedulers w)) (g_scheduler w) (t_is_scheduler_thread w) (t_hook_enable w) (assert_failed w)).

(** [schedule] up to its loop. *)
Definition enter_schedule (t : Z) (p : nat) (w : Process) : Process :=
  let w := SetThis t (Some p) w in
  mkProcess (schedulers w) (g_scheduler w) ({[t]} ∪ t_is_scheduler_thread w) ({[t]} ∪ t_hook_enable w) (assert_failed w).

(** [stop] up to the lock; the section under it is [stop_swap] of Scheduler.v.  Then the
    threads are joined: [stop] returns when all of them have left [schedule]. *)
Definition stop_from (t : Z) (p : nat) (w : Process) : option Process :=
  s ← schedulers w !! p;
  Some (if bool_decide (state_ s = State.RUNNING) then
          if bool_decide (t ∈ t_is_scheduler_thread w)
          then mkProcess (schedulers w) (g_scheduler w) (t_is_scheduler_thread w) (t_hook_enable w) true
          else with_scheduler p (stop s) w
        else w).
Definition joined (s : Sched) : bool := forallb (λ x, match pc x.2 with Done => true | _ => false end) (map_to_list (pcs s)).

(** ** Runs *)

Inductive process_action :=
| Construct (t : Z) (p thread_count : nat)
| Destroy (t : Z) (p : nat)
| Start (p : nat) (ids : list Z)          (** new threads; each begins with [Enter] *)
| Enter (t : Z) (p : nat)
| Stop (t : Z) (p : nat)
| Act (p : nat) (a : action).             (** anything else of scheduler [p] *)

(** The threads of all schedulers. *)
Definition is_thread_of (t : Z) (s : Sched) : bool := bool_decide (is_Some (pcs s !! t)).
Definition known_thread (t : Z) (w : Process) : bool := existsb (λ x, is_thread_of t x.2) (map_to_list (schedulers w)).

Definition process_step (a : process_action) (w : Process) : option Process :=
  if assert_failed w then None else
  match a with
  | Construct t p n => match schedulers w !! p with None => Some (construct t p n w) | Some _ => None end
  | Destroy t p => match schedulers w !! p with Some _ => Some (destroy t p w) | None => None end
  | Start p ids =>
      s ← schedulers w !! p; s' ← step (AStart ids) s;
      if forallb (λ t, negb (known_thread t w) && negb (bool_decide (t ∈ t_is_scheduler_thread w))) ids
      then Some (with_scheduler p s' w) else None
  | Enter t p =>
      s ← schedulers w !! p;
      if is_thread_of t s && negb (bool_decide (t ∈ t_is_scheduler_thread w)) then Some (enter_schedule t p w) else None
  | Stop t p => stop_from t p w
  | Act p a =>
      s ← schedulers w !! p;
      match a with
      | AStart _ | AStop => None
      | AStep t | ALeave t _ => if bool_decide (t ∈ t_is_scheduler_thread w) then s' ← step a s; Some (with_scheduler p s' w) else None
      | _ => s' ← step a s; Some (with_scheduler p s' w)
      end
  end.

(** Callers that construct and destroy schedulers outside the threads of schedulers, and
    destroy only what has been stopped. *)
Definition careful (a : process_action) (w : Process) : Prop :=
  match a with
  | Construct t _ _ => known_thread t w = false
  | Destroy t p => known_thread t w = false /\ (joined <$> schedulers w !! p) = Some true
  | _ => True
  end.
Definition process_move (w w' : Process) : Prop := exists a, careful a w /\ process_step a w = Some w'.

(** ** The threads of a scheduler know it *)

(** Of the threads only [t] has moved. *)
Definition only_moves (t : Z) (s s' : Sched) : Prop :=
  forall u, (u <> t -> pcs s' !! u = pcs s !! u) /\ (is_Some (pcs s' !! u) <-> is_Some (pcs s !! u)).
Lemma only_moves_same t s s' : pcs s' = pcs s -> only_moves t s s'.
Proof. intros E u. by rewrite E. Qed.
Lemma only_moves_trans t s1 s2 s3 : only_moves t s1 s2 -> only_moves t s2 s3 -> only_moves t s1 s3.
Proof.
  intros H12 H23 u. destruct (H12 u) as [E12 I12], (H23 u) as [E23 I23]. split; [|by rewrite I23].
  intros Hu. by rewrite E23, E12.
Qed.
Lemma alter_moves t f s s' : pcs s' = alter f t (pcs s) -> only_moves t s s'.
Proof.
  intros E u. rewrite E. destruct (decide (u = t)) as [->|Hu].
  - split; [done|]. rewrite lookup_alter_eq. apply fmap_is_Some.
  - by rewrite lookup_alter_ne by done.
Qed.
Lemma goto_moves t v s s' : only_moves t s s' -> only_moves t s (goto t v s').
Proof. intros H. eapply only_moves_trans; [exact H|]. by eapply alter_moves. Qed.
Lemma run_idle_moves t b s : only_moves t s (run_idle t b s).
Proof. destruct b; by apply goto_moves, only_moves_same. Qed.

Lemma thread_step_moves t s s' : thread_step t s = Some s' -> only_moves t s s'.
Proof.
  unfold thread_step. destruct (pcs s !! t) as [x|]; [|done]. cbn [mbind option_bind]. destruct (pc x) as [|task|f|f|f|f| |].
  - intros [= <-]. unfold pick. destruct (pick_loop t (tasks_ s)) as [[task others] b].
    assert (only_moves t s (goto t (Got task) (set_tasks others s))) as H by (by apply goto_moves, only_moves_same). by destruct b.
  - unfold check. destruct task as [it|]; [|intros [= <-]; apply run_idle_moves]. destruct (fibers s !! _) as [st|]; [|done]. intros [= <-].
    destruct (dead st); [apply run_idle_moves|]. case_bool_decide; by apply goto_moves, only_moves_same.
  - unfold resume. destruct (fibers s !! f) as [st|]; [|done]. intros [= <-].
    case_bool_decide; [by apply only_moves_same|]. destruct (dead st); by apply goto_moves, only_moves_same.
  - done.
  - intros [= <-]. by apply goto_moves, only_moves_same.
  - unfold back. destruct (fibers s !! f) as [st|]; [|done]. intros [= <-]. apply goto_moves. by destruct (waiting st); apply only_moves_same.
  - intros [= <-]. unfold idle. apply goto_moves. destruct (can_stop s); [by eapply alter_moves|by apply only_moves_same].
  - done.
Qed.

(** The thread that moves, if one does. *)
Definition mover (a : action) : option Z := match a with AStep t | ALeave t _ => Some t | _ => None end.
Lemma step_moves a s s' t :
  step a s = Some s' -> (forall ids, a <> AStart ids) -> (mover a <> Some t -> pcs s' !! t = pcs s !! t) /\ (is_Some (pcs s' !! t) <-> is_Some (pcs s !! t)).
Proof.
  unfold step. destruct (aborted s); [done|]. intros E Hs. destruct a as [ids| | |f|f th|f|u|u how]; cbn [mover].
  - by destruct (Hs ids).
  - injection E as <-. unfold stop. by case_bool_decide.
  - case_bool_decide; [|done]. by injection E as <-.
  - destruct (fibers s !! f); [done|]. by injection E as <-.
  - destruct (fibers s !! f); [|done]. by injection E as <-.
  - unfold wakeup in E. destruct (fibers s !! f); [|done]. injection E as <-. by case_bool_decide.
  - destruct (thread_step_moves u s s' E t) as [H1 H2]. split; [|done]. intros Hne. apply H1. congruence.
  - destruct (pcs s !! u) as [x|] eqn:Ex; [|done]. cbn in E. destruct (pc x) as [| | |f| | | |]; try done.
    destruct (fibers s !! f) as [st|]; [|done]. injection E as <-.
    match goal with |- context [goto u ?v ?s1] => assert (only_moves u s (goto u v s1)) as H end.
    { apply goto_moves, only_moves_same. destruct how; try case_bool_decide; done. }
    destruct (H t) as [H1 H2]. split; [|done]. intros Hne. apply H1. congruence.
Qed.
Lemma start_moves ids s s' t :
  step (AStart ids) s = Some s' -> (t ∉ ids -> pcs s' !! t = pcs s !! t) /\ (is_Some (pcs s' !! t) -> is_Some (pcs s !! t) \/ t ∈ ids) /\
    (is_Some (pcs s !! t) -> is_Some (pcs s' !! t)) /\ (t ∈ ids -> is_Some (pcs s !! t) \/ pcs s' !! t = None \/ pcs s' !! t = Some (mkThread Top false)).
Proof.
  unfold step. destruct (aborted s); [done|]. destruct (_ && _); [|done]. intros [= <-]. unfold start. case_bool_decide; cbn [pcs set_threads set_state_].
  - set (m := pcs s). clearbody m. induction ids as [|u ids (I1 & I2 & I3 & I4)]; cbn [foldr].
    + split_and!; [done|by left|done|by intros ?%elem_of_nil].
    + destruct (decide (t = u)) as [->|Hne].
      * rewrite lookup_insert_eq. split_and!; [|intros _; right; by left|by eexists|by right; right]. intros []. by left.
      * rewrite lookup_insert_ne by done. split_and!; [|intros Hx; destruct (I2 Hx); [by left|right; by right]|done|].
        { intros Hn. apply I1. intros Hin. apply Hn. by right. }
        intros [?|Hin]%elem_of_cons; [done|by apply I4].
  - split_and!; [done|by left|done|]. intros _. destruct (pcs s !! t); [left; by eexists|by right; left].
Qed.

Lemma known_thread_false t w :
  known_thread t w = false <-> forall p s, schedulers w !! p = Some s -> pcs s !! t = None.
Proof.
  unfold known_thread. split.
  - intros H p s E. destruct (pcs s !! t) as [x|] eqn:Ex; [|done]. enough (existsb (λ y, is_thread_of t y.2) (map_to_list (schedulers w)) = true) by congruence.
    apply existsb_exists. exists (p, s). split; [by apply list_elem_of_In, elem_of_map_to_list|]. apply bool_decide_eq_true. by exists x.
  - intros H. destruct (existsb _ _) eqn:E; [|done]. apply existsb_exists in E as ([p s] & Hin & Ht).
    apply list_elem_of_In, elem_of_map_to_list in Hin. apply bool_decide_eq_true in Ht as [x Hx]. cbn in Hx. by rewrite (H p s Hin) in Hx.
Qed.

Lemma with_scheduler_Some p s w q r :
  schedulers (with_scheduler p s w) !! q = Some r <-> (p = q /\ s = r) \/ (p <> q /\ schedulers w !! q = Some r).
Proof. apply lookup_insert_Some. Qed.

Record process_inv (w : Process) : Prop := {
  pi_entered p s t : schedulers w !! p = Some s -> is_Some (pcs s !! t) -> t ∈ t_is_scheduler_thread w -> GetThis t w = Some p;
  pi_waiting p s t x : schedulers w !! p = Some s -> pcs s !! t = Some x -> t ∉ t_is_scheduler_thread w -> x = mkThread Top false;
  pi_unique p p' s s' t : schedulers w !! p = Some s -> schedulers w !! p' = Some s' -> is_Some (pcs s !! t) -> is_Some (pcs s' !! t) -> p = p';
  pi_hooked : t_is_scheduler_thread w ⊆ t_hook_enable w;
}.

(** What an operation in an unknown thread does to [g_scheduler] is of no account. *)
Lemma set_this_inv t q w : known_thread t w = false -> process_inv w -> process_inv (SetThis t q w).
Proof.
  intros Hk [H1 H2 H3 H4]. rewrite known_thread_false in Hk. split; [|exact H2|exact H3|exact H4].
  intros p s u E Hu Hin. unfold GetThis, SetThis. cbn [g_scheduler]. destruct (decide (t = u)) as [<-|Hne].
  - rewrite (Hk p s E) in Hu. by destruct Hu.
  - rewrite lookup_partial_alter_ne by done. exact (H1 p s u E Hu Hin).
Qed.
(** A scheduler is exchanged for one with the same threads. *)
Lemma with_scheduler_inv p s s' w :
  process_inv w -> schedulers w !! p = Some s -> (forall t, is_Some (pcs s' !! t) <-> is_Some (pcs s !! t)) ->
  (forall t, t ∉ t_is_scheduler_thread w -> pcs s' !! t = pcs s !! t) -> process_inv (with_scheduler p s' w).
Proof.
  intros [H1 H2 H3 H4] Ep Hdom Hsame.
  assert (forall q r t, schedulers (with_scheduler p s' w) !! q = Some r -> is_Some (pcs r !! t) ->
    exists r0, schedulers w !! q = Some r0 /\ is_Some (pcs r0 !! t)) as Hback.
  { intros q r t [[<- <-]|[_ E]]%with_scheduler_Some Ht; [exists s|by exists r]. split; [done|by apply Hdom]. }
  split.
  - intros q r t E Ht Hin. destruct (Hback q r t E Ht) as (r0 & E0 & Ht0). exact (H1 q r0 t E0 Ht0 Hin).
  - intros q r t x [[<- <-]|[_ E]]%with_scheduler_Some Hx Hn; [|by eapply (H2 q r)]. rewrite (Hsame t Hn) in Hx. by eapply (H2 p s).
  - intros q q' r r' t E E' Ht Ht'. destruct (Hback q r t E Ht) as (r0 & E0 & Ht0), (Hback q' r' t E' Ht') as (r0' & E0' & Ht0').
    exact (H3 q q' r0 r0' t E0 E0' Ht0 Ht0').
  - exact H4.
Qed.

Lemma construct_inv t p n w : process_inv w -> known_thread t w = false -> process_inv (construct t p n w).
Proof.
  intros H Hk. apply set_this_inv.
  - rewrite known_thread_false in Hk |- *. intros q s [[<- <-]|[_ E]]%with_scheduler_Some; [done|exact (Hk q s E)].
  - destruct H as [H1 H2 H3 H4]. split.
    + intros q s u [[<- <-]|[_ E]]%with_scheduler_Some Hu; [by destruct Hu|exact (H1 q s u E Hu)].
    + intros q s u x [[<- <-]|[_ E]]%with_scheduler_Some Hx; [done|exact (H2 q s u x E Hx)].
    + intros q q' s s' u [[<- <-]|[_ E]]%with_scheduler_Some [[<- <-]|[_ E']]%with_scheduler_Some Hu Hu';
        [done|by destruct Hu|by destruct Hu'|exact (H3 q q' s s' u E E' Hu Hu')].
    + exact H4.
Qed.
Lemma destroyed_Some (p : nat) w q r g f h b :
  schedulers (mkProcess (delete p (schedulers w)) g f h b) !! q = Some r -> schedulers w !! q = Some r.
Proof. cbn [schedulers]. by intros [_ E]%lookup_delete_Some. Qed.
Lemma destroy_inv t p w : process_inv w -> known_thread t w = false -> process_inv (destroy t p w).
Proof.
  intros H Hk. apply set_this_inv.
  - rewrite known_thread_false in Hk |- *. intros q s E%destroyed_Some. exact (Hk q s E).
  - destruct H as [H1 H2 H3 H4]. split.
    + intros q s u E%destroyed_Some. exact (H1 q s u E).
    + intros q s u x E%destroyed_Some. exact (H2 q s u x E).
    + intros q q' s s' u E%destroyed_Some E'%destroyed_Some. exact (H3 q q' s s' u E E').
    + exact H4.
Qed.
Lemma enter_inv t p s w :
  process_inv w -> schedulers w !! p = Some s -> is_Some (pcs s !! t) -> process_inv (enter_schedule t p w).
Proof.
  intros [H1 H2 H3 H4] Ep Ht. split; [| |exact H3|cbn; set_solver].
  - intros q r u E Hu Hin. unfold GetThis, enter_schedule, SetThis. cbn [g_scheduler]. destruct (decide (t = u)) as [<-|Hne].
    + rewrite lookup_partial_alter_eq. f_equal. exact (H3 p q s r t Ep E Ht Hu).
    + rewrite lookup_partial_alter_ne by done. apply (H1 q r u E Hu). cbn in Hin. set_solver.
  - intros q r u x E Hx Hn. eapply (H2 q r); [exact E|exact Hx|]. cbn in Hn. set_solver.
Qed.
Lemma started_inv p s s' ids w :
  process_inv w -> schedulers w !! p = Some s -> step (AStart ids) s = Some s' ->
  forallb (λ t, negb (known_thread t w) && negb (bool_decide (t ∈ t_is_scheduler_thread w))) ids = true ->
  process_inv (with_scheduler p s' w).
Proof.
  intros [H1 H2 H3 H4] Ep Es Hf.
  assert (forall t, t ∈ ids -> (forall q r, schedulers w !! q = Some r -> pcs r !! t = None) /\ t ∉ t_is_scheduler_thread w) as Hnew.
  { intros t Hin. pose proof (forallb_elem _ _ _ Hf Hin) as [Hk Hb]%andb_true_iff. split.
    - apply known_thread_false. by destruct (known_thread t w).
    - by apply negb_true_iff, bool_decide_eq_false in Hb. }
  assert (forall q r t, schedulers (with_scheduler p s' w) !! q = Some r -> is_Some (pcs r !! t) ->
    (t ∈ ids /\ q = p) \/ exists r0, schedulers w !! q = Some r0 /\ is_Some (pcs r0 !! t)) as Hback.
  { intros q r t [[<- <-]|[_ E]]%with_scheduler_Some Ht; [|right; by exists r].
    destruct (start_moves ids s s' t Es) as (_ & M2 & _). destruct (M2 Ht) as [Hs|Hin]; [right; by exists s|by left]. }
  split.
  - intros q r t E Ht Hin. destruct (Hback q r t E Ht) as [[Hids _]|(r0 & E0 & Ht0)]; [by destruct (Hnew t Hids)|exact (H1 q r0 t E0 Ht0 Hin)].
  - intros q r t x [[<- <-]|[_ E]]%with_scheduler_Some Hx Hn; [|by eapply (H2 q r)].
    destruct (start_moves ids s s' t Es) as (M1 & _ & _ & M4). destruct (decide (t ∈ ids)) as [Hin|Hni]; [|rewrite M1 in Hx by done; by eapply (H2 p s)].
    destruct (M4 Hin) as [[y Hy]|[E|E]]; [by rewrite (proj1 (Hnew t Hin) p s Ep) in Hy|congruence|congruence].
  - intros q q' r r' t E E' Ht Ht'. destruct (Hback q r t E Ht) as [[Hids ->]|(r0 & E0 & Ht0)], (Hback q' r' t E' Ht') as [[Hids' ->]|(r0' & E0' & Ht0')].
    + done.
    + rewrite (proj1 (Hnew t Hids) _ _ E0') in Ht0'. by destruct Ht0'.
    + rewrite (proj1 (Hnew t Hids') _ _ E0) in Ht0. by destruct Ht0.
    + exact (H3 q q' r0 r0' t E0 E0' Ht0 Ht0').
  - exact H4.
Qed.

Lemma act_inv p s s' a w :
  process_inv w -> schedulers w !! p = Some s -> step a s = Some s' -> (forall ids, a <> AStart ids) ->
  (forall t, mover a = Some t -> t ∈ t_is_scheduler_thread w) -> process_inv (with_scheduler p s' w).
Proof.
  intros H Ep Es Ha Hm. eapply with_scheduler_inv; [exact H|exact Ep| |]; intros t.
  - exact (proj2 (step_moves a s s' t Es Ha)).
  - intros Hn. apply (proj1 (step_moves a s s' t Es Ha)). intros Ht. by apply Hn, Hm.
Qed.
Lemma process_step_inv w w' : process_inv w -> process_move w w' -> process_inv w'.
Proof.
  intros H (a & Hc & E). unfold process_step in E. destruct (assert_failed w); [done|]. destruct a as [t p n|t p|p ids|t p|t p|p a]; cbn [careful] in Hc.
  - destruct (schedulers w !! p); [done|]. injection E as <-. by apply construct_inv.
  - destruct (schedulers w !! p); [|done]. injection E as <-. apply destroy_inv; [exact H|apply Hc].
  - destruct (schedulers w !! p) as [s|] eqn:Ep; [|done]. cbn [mbind option_bind] in E. destruct (step (AStart ids) s) as [s'|] eqn:Es; [|done].
    cbn [mbind option_bind] in E. destruct (forallb _ ids) eqn:Hf; [|done]. injection E as <-. by eapply started_inv.
  - destruct (schedulers w !! p) as [s|] eqn:Ep; [|done]. cbn [mbind option_bind] in E. destruct (is_thread_of t s) eqn:Ht; [|done].
    apply bool_decide_eq_true in Ht. destruct (negb _); [|done]. injection E as <-. by eapply enter_inv.
  - unfold stop_from in E. destruct (schedulers w !! p) as [s|] eqn:Ep; [|done]. injection E as <-. case_bool_decide; [|done]. case_bool_decide.
    + by destruct H.
    + eapply with_scheduler_inv; [exact H|exact Ep| |]; intros u; unfold stop; by case_bool_decide.
  - destruct (schedulers w !! p) as [s|] eqn:Ep; [|done]. cbn [mbind option_bind] in E.
    assert (exists s', step a s = Some s' /\ w' = with_scheduler p s' w /\ (forall ids, a <> AStart ids) /\
      forall t, mover a = Some t -> t ∈ t_is_scheduler_thread w) as (s' & Es & -> & Ha & Hm); [|by eapply act_inv].
    destruct a as [ids| | |f|f th|f|u|u how]; cbn [mover]; try done; try (case_bool_decide as Hu; [|done]).
    all: apply bind_Some in E as (s' & Es & [= <-]); exists s'; split_and!; [done|done|done|]; by intros ? [= <-] || done.
Qed.

(** ** Theorems *)

(** In every run of careful callers a thread that is in the loop of [schedule] gets its own
    scheduler from [GetThis] and has its blocking calls hooked; a thread belongs to one
    scheduler. *)
Theorem this_scheduler w :
  rtc process_move Process_new w ->
  (forall p s t x, schedulers w !! p = Some s -> pcs s !! t = Some x ->
    GetThis t w = Some p /\ t ∈ t_hook_enable w \/ x = mkThread Top false /\ t ∉ t_is_scheduler_thread w) /\
  (forall p p' s s' t, schedulers w !! p = Some s -> schedulers w !! p' = Some s' -> is_Some (pcs s !! t) -> is_Some (pcs s' !! t) -> p = p').
Proof.
  intros Hr. assert (process_inv w) as [H1 H2 H3 H4].
  { assert (process_inv Process_new) as H0 by (by split). induction Hr as [|w1 w2 w3 Hs _ IH]; [done|]. apply IH. by eapply process_step_inv. }
  split; [|exact H3]. intros p s t x E Hx. destruct (decide (t ∈ t_is_scheduler_thread w)) as [Hin|Hn].
  - left. split; [apply (H1 p s t E); [by eexists|done]|by apply H4].
  - right. split; [exact (H2 p s t x E Hx Hn)|done].
Qed.

(** When [stop] has returned no thread of the scheduler is in its loop. *)
Lemma joined_done s : joined s = true -> forall t x, pcs s !! t = Some x -> pc x = Done.
Proof.
  intros H t x Hx. unfold joined in H. rewrite forallb_forall in H. specialize (H (t, x)). cbn in H.
  destruct (pc x); try (discriminate H; by apply list_elem_of_In, elem_of_map_to_list); done.
Qed.

Definition process_run (l : list process_action) : option Process := foldl (λ w a, w ≫= process_step a) (Some Process_new) l.

(** The assertion of [stop] is meant for the threads of the scheduler that is stopped, and
    fails in a thread of another one, too. *)
Lemma stop_from_other_scheduler :
  exists w, process_run [Construct 1 0 1; Construct 1 1 1; Start 0 [2]; Start 1 [3]; Enter 2 0; Enter 3 1; Stop 2 1] = Some w /\
    assert_failed w = true /\ exists s, schedulers w !! 1%nat = Some s /\ pcs s !! 2 = None.
Proof. eexists. split; [vm_compute; reflexivity|]. split; [reflexivity|]. eexists. split; vm_compute; reflexivity. Qed.
(** Behind a second scheduler the first one is forgotten: constructing it replaces
    [GetThis] of the thread, destroying it leaves none. *)
Lemma first_scheduler_forgotten :
  exists w1 w2, process_run [Construct 1 0 1; Construct 1 1 1] = Some w1 /\ GetThis 1 w1 = Some 1%nat /\
    process_step (Destroy 1 1) w1 = Some w2 /\ is_Some (schedulers w2 !! 0%nat) /\ GetThis 1 w2 = None.
Proof. eexists _, _. split_and!; [vm_compute; reflexivity..| |vm_compute; reflexivity]. vm_compute. by eexists. Qed.
