(* ===== verification/IOManager.v ===== *)
(** * The I/O manager: src/sylar/iomanager.{h,cpp}

    The scheduler and the timer manager it derives from, the table of the events
    that fibers wait for, and the epoll instance.  The kernel's side of epoll is
    the interface [Epoll]: what [epoll_ctl] answers and the interest list it
    keeps.  Every operation is one step; IOSections.v has the sections under locks
    apart.  The waiters of the semaphore are not modelled. *)

From S2P Require Import Prelude Fiber Timer Scheduler.

Definition EPOLLIN := 1.
Definition EPOLLOUT := 4.
Definition EPOLLERR := 8.
Definition EPOLLHUP := 16.
Definition EPOLLET := 2 ^ 31.
Definition SYLAR_IOMANAGER_TIMEOUT := 3000.

(** ** epoll *)

Inductive ctl_op := EPOLL_CTL_ADD | EPOLL_CTL_MOD | EPOLL_CTL_DEL.
#[global] Instance ctl_op_eq_dec : EqDecision ctl_op.
Proof. solve_decision. Defined.

(** [epoll_ctl(epfd, op, fd, event)] on the state of the kernel, and the mask it
    keeps for each descriptor of the interest list. *)
Class Epoll (K : Type) := {
  epoll_ctl : ctl_op -> Z -> Z -> K -> Z * K;
  interest : K -> gmap Z Z;
}.

(** epoll_ctl(2): adding a listed descriptor, or changing or removing one that is
    not listed, is an error; errors change nothing. *)
Class EpollLaws (K : Type) `{!Epoll K} := {
  ctl_fails : forall op fd m k rt k', epoll_ctl op fd m k = (rt, k') -> rt <> 0 -> interest k' = interest k;
  ctl_adds : forall fd m k k', epoll_ctl EPOLL_CTL_ADD fd m k = (0, k') ->
    interest k !! fd = None /\ interest k' = <[fd := m]> (interest k);
  ctl_mods : forall fd m k k', epoll_ctl EPOLL_CTL_MOD fd m k = (0, k') -> interest k' = <[fd := m]> (interest k);
  ctl_dels : forall fd m k k', epoll_ctl EPOLL_CTL_DEL fd m k = (0, k') -> interest k' = delete fd (interest k);
}.

(** A kernel that refuses to add or change the descriptors of a given set. *)
Record Kernel := mkKernel { refused : gset Z; listed : gmap Z Z }.
#[global] Instance Kernel_epoll : Epoll Kernel := {
  epoll_ctl op fd m k :=
    match op, listed k !! fd with
    | EPOLL_CTL_ADD, None =>
        if bool_decide (fd ∈ refused k) then (-1, k) else (0, mkKernel (refused k) (<[fd := m]> (listed k)))
    | EPOLL_CTL_MOD, Some _ => (0, mkKernel (refused k) (<[fd := m]> (listed k)))
    | EPOLL_CTL_DEL, Some _ => (0, mkKernel (refused k) (delete fd (listed k)))
    | _, _ => (-1, k)
    end;
  interest := listed;
}.

#[global] Instance Kernel_laws : EpollLaws Kernel.
Proof.
  split; cbn.
  - intros op fd m k rt k'. destruct op, (listed k !! fd); try case_bool_decide; by intros [= <- <-].
  - intros fd m k k'. destruct (listed k !! fd) eqn:E; [done|]. case_bool_decide; [done|]. by intros [= <-].
  - intros fd m k k'. destruct (listed k !! fd); [|done]. by intros [= <-].
  - intros fd m k k'. destruct (listed k !! fd); [|done]. by intros [= <-].
Qed.

(** ** The manager *)

(** [fiber_ = None] is the null pointer, [scheduler_] tells whether it is set. *)
Record EventContext := mkContext { scheduler_ : bool; fiber_ : option nat }.
Record IOEvent := mkIOEvent { fd_ : Z; events_ : Z; read_ : EventContext; write_ : EventContext }.
Definition IOEvent_new (fd : Z) : IOEvent := mkIOEvent fd 0 (mkContext false None) (mkContext false None).

Section manager.
Context {K : Type} `{!Epoll K}.

Record IOManager := mkIOManager {
  base : Sched;
  timers : TimerManager;
  fd_event_map_ : gmap Z IOEvent;
  pending_event_count_ : Z;
  sem_ : nat;                        (** posts of the semaphore *)
  next_fiber : nat;
  functions : gmap nat (callback * Z); (** what the fibers made here run *)
  kernel : K;
}.

Definition with_base (v : Sched) (s : IOManager) : IOManager :=
  mkIOManager v (timers s) (fd_event_map_ s) (pending_event_count_ s) (sem_ s) (next_fiber s) (functions s) (kernel s).
Definition with_timers (v : TimerManager) (s : IOManager) : IOManager :=
  mkIOManager (base s) v (fd_event_map_ s) (pending_event_count_ s) (sem_ s) (next_fiber s) (functions s) (kernel s).
Definition with_map (v : gmap Z IOEvent) (s : IOManager) : IOManager :=
  mkIOManager (base s) (timers s) v (pending_event_count_ s) (sem_ s) (next_fiber s) (functions s) (kernel s).
Definition count (d : Z) (s : IOManager) : IOManager :=
  mkIOManager (base s) (timers s) (fd_event_map_ s) (u64 (pending_event_count_ s + d)) (sem_ s) (next_fiber s)
    (functions s) (kernel s).
Definition with_sem (v : nat) (s : IOManager) : IOManager :=
  mkIOManager (base s) (timers s) (fd_event_map_ s) (pending_event_count_ s) v (next_fiber s) (functions s) (kernel s).
Definition with_kernel (v : K) (s : IOManager) : IOManager :=
  mkIOManager (base s) (timers s) (fd_event_map_ s) (pending_event_count_ s) (sem_ s) (next_fiber s) (functions s) v.

(** [std::make_shared<Fiber>(func, args)] *)
Definition make_fiber (func : callback) (args : Z) (s : IOManager) : nat * IOManager :=
  let f := next_fiber s in
  (f, mkIOManager (set_fiber f INITING (base s)) (timers s) (fd_event_map_ s) (pending_event_count_ s) (sem_ s)
        (S f) (<[f := (func, args)]> (functions s)) (kernel s)).

(** [Scheduler::add_fiber], both overloads. *)
Definition schedule_fiber (f : nat) (s : IOManager) : IOManager := with_base (add_fiber f (-1) (base s)) s.
Definition schedule_func (func : callback) (args : Z) (s : IOManager) : IOManager :=
  let '(f, s) := make_fiber func args s in schedule_fiber f s.

(** ** [EventContext] *)

Definition context_reset : EventContext := mkContext false None.
Definition context_trigger (c : EventContext) (s : IOManager) : EventContext * IOManager :=
  match scheduler_ c, fiber_ c with
  | true, Some f => (context_reset, schedule_fiber f s)
  | _, _ => (c, s)
  end.
Definition context_set (sched : bool) (f : nat) : EventContext := mkContext sched (Some f).

(** ** [IOEvent]

    [this_sched]: whether the calling thread has a scheduler; [make] gives the
    fiber for an event that is set. *)

Definition has (v event : Z) : bool := negb (Z.land v event =? 0).

Definition add_with (this_sched : bool) (make : IOManager -> nat * IOManager) (event : Z) (e : IOEvent)
    (s : IOManager) : bool * IOEvent * IOManager :=
  let old_events := events_ e in
  let op := if negb (events_ e =? 0) then EPOLL_CTL_MOD else EPOLL_CTL_ADD in
  let events := Z.lor (events_ e) event in
  let '(rd, s) := if has event EPOLLIN then let '(f, s) := make s in (context_set this_sched f, s) else (read_ e, s) in
  let '(wr, s) := if has event EPOLLOUT then let '(f, s) := make s in (context_set this_sched f, s) else (write_ e, s) in
  let '(rt, k) := epoll_ctl op (fd_ e) (Z.lor EPOLLET events) (kernel s) in
  let s := with_kernel k s in
  if negb (rt =? 0) then (false, mkIOEvent (fd_ e) old_events rd wr, s)
  else (true, mkIOEvent (fd_ e) events rd wr, s).
Definition IOEvent_add_func (this_sched : bool) (func : callback) (args : Z) :=
  add_with this_sched (make_fiber func args).
Definition IOEvent_add_fiber (this_sched : bool) (f : nat) := add_with this_sched (λ s, (f, s)).

Definition IOEvent_del_event (event : Z) (e : IOEvent) (s : IOManager) : bool * IOEvent * IOManager :=
  if Z.land (events_ e) event =? 0 then (false, e, s)
  else
    let events := Z.land (events_ e) (uint 32 (Z.lnot event)) in
    let rd := if has event EPOLLIN then context_reset else read_ e in
    let wr := if has event EPOLLOUT then context_reset else write_ e in
    let op := if negb (events =? 0) then EPOLL_CTL_MOD else EPOLL_CTL_DEL in
    let '(rt, k) := epoll_ctl op (fd_ e) (Z.lor EPOLLET events) (kernel s) in
    (rt =? 0, mkIOEvent (fd_ e) events rd wr, with_kernel k s).

Definition IOEvent_cancel_event (event : Z) (e : IOEvent) (s : IOManager) : bool * IOEvent * IOManager :=
  if Z.land (events_ e) event =? 0 then (false, e, s)
  else
    let '(rd, s) := if has event EPOLLIN then context_trigger (read_ e) s else (read_ e, s) in
    let '(wr, s) := if has event EPOLLOUT then context_trigger (write_ e) s else (write_ e, s) in
    IOEvent_del_event event (mkIOEvent (fd_ e) (events_ e) rd wr) s.

(** ** [IOManager] *)

Definition add_event_with (add : Z -> IOEvent -> IOManager -> bool * IOEvent * IOManager) (fd event : Z)
    (s : IOManager) : bool * IOManager :=
  let '(ret, e, s) := add event (default (IOEvent_new fd) (fd_event_map_ s !! fd)) s in
  let s := with_map (<[fd := e]> (fd_event_map_ s)) s in
  if ret then (true, count 1 s) else (false, s).
Definition add_event_func (this_sched : bool) (fd event : Z) (func : callback) (args : Z) :=
  add_event_with (IOEvent_add_func this_sched func args) fd event.
Definition add_event_fiber (this_sched : bool) (fd event : Z) (f : nat) :=
  add_event_with (IOEvent_add_fiber this_sched f) fd event.

(** An operation on the event of a descriptor that is in the table. *)
Definition on_event (op : IOEvent -> IOManager -> bool * IOEvent * IOManager) (fd : Z) (s : IOManager)
    : bool * IOManager :=
  match fd_event_map_ s !! fd with
  | Some e => let '(ret, e, s) := op e s in (ret, with_map (<[fd := e]> (fd_event_map_ s)) s)
  | None => (false, s)
  end.

Definition del_event (fd event : Z) (s : IOManager) : bool * IOManager :=
  let '(ret, s) := on_event (IOEvent_del_event event) fd s in
  if ret then (true, count (-1) s) else (false, s).
Definition cancel_event (fd event : Z) (s : IOManager) : bool * IOManager :=
  let '(ret, s) := on_event (IOEvent_cancel_event event) fd s in
  if ret then (true, count (-1) s) else (false, s).

Definition cancel_all (fd : Z) (s : IOManager) : bool * IOManager :=
  match fd_event_map_ s !! fd with
  | None => (false, s)
  | Some e =>
      let events := events_ e in
      let '(r1, s) := if has events EPOLLIN then cancel_event fd EPOLLIN s else (false, s) in
      let '(r2, s) := if has events EPOLLOUT then cancel_event fd EPOLLOUT s else (false, s) in
      (r1 || r2, s)
  end.

Definition tickle (s : IOManager) : IOManager :=
  if 0 <? idle_thread_count_ (base s) then with_sem (S (sem_ s)) s else s.
Definition can_stop (s : IOManager) : bool :=
  Scheduler.can_stop (base s) && (pending_event_count_ s =? 0) && Timer.empty (timers s).

(** The inner loop of [idle]: [get_next_timer] and [epoll_wait], again while the
    wait is interrupted; [times] are the moments of the calls.  The timeout of
    the last one. *)
Fixpoint wait_loop (times : list Z) (time_out : Z) (m : TimerManager) : Z * TimerManager :=
  match times with
  | [] => (time_out, m)
  | now :: times =>
      let '(next_timer, m) := get_next_timer now m in
      wait_loop times
        (sint 32 (if SYLAR_IOMANAGER_TIMEOUT <? next_timer then SYLAR_IOMANAGER_TIMEOUT else next_timer)) m
  end.

(** A timer's callback is handed to the scheduler. *)
Definition schedule_timer (t : nat) (s : IOManager) : IOManager :=
  match heap (timers s) !! t with Some tm => schedule_func (cb_ tm) (args_ tm) s | None => s end.

(** One event that [epoll_wait] returned. *)
Definition process_event (fd revents : Z) (s : IOManager) : IOManager :=
  let revents := if has revents (Z.lor EPOLLERR EPOLLHUP) then Z.lor revents (Z.lor EPOLLIN EPOLLOUT) else revents in
  let s := if has revents EPOLLIN then count (-1) (on_event (IOEvent_cancel_event EPOLLIN) fd s).2 else s in
  let s := if has revents EPOLLOUT then count (-1) (on_event (IOEvent_cancel_event EPOLLOUT) fd s).2 else s in
  tickle s.

(** [add_timer] of the base class, whose insertion at the front tickles. *)
Definition add_timer_tickle (now : Z) (recurring : bool) (ms : Z) (cb : callback) (args : Z) (s : IOManager)
    : option nat * IOManager :=
  let '(t, m) := add_timer now recurring ms cb args (timers s) in
  let front := negb (Timer.tickles m =? Timer.tickles (timers s))%nat in
  (t, if front then tickle (with_timers m s) else with_timers m s).

(** One round of [idle], up to [fiber_yield]: the wait returns [ready], and it is
    [now] when the timers are looked at. *)
Definition idle_round (times : list Z) (now : Z) (ready : list (Z * Z)) (s : IOManager) : IOManager :=
  let s := with_timers (wait_loop times 0 (timers s)).2 s in
  let '(expired, m) := get_expired_timers now (timers s) in
  let s := foldl (λ s t, schedule_timer t s) (with_timers m s) expired in
  foldl (λ s '(fd, revents), process_event fd revents s) s ready.

(** [idle] between two yields; [true] when its loop ends. *)
Definition idle (times : list Z) (now : Z) (ready : list (Z * Z)) (s : IOManager) : bool * IOManager :=
  if can_stop s then (true, s) else (false, idle_round times now ready s).

Definition IOManager_new (ids : list Z) (k : K) : IOManager :=
  mkIOManager (start ids (Scheduler_new (length ids))) TimerManager_new ∅ 0 0 0 ∅ k.

End manager.
Arguments IOManager K : clear implicits.

(** ** The invariant *)

(** The masks that occur are few. *)
Ltac masks :=
  repeat match goal with
    | H : _ ∈ [] |- _ => by apply elem_of_nil in H
    | H : _ ∈ _ :: _ |- _ => apply elem_of_cons in H as [->|H]
    end; try done; vm_compute; try done; auto.

Section invariant.
Context {K : Type} `{!Epoll K, !EpollLaws K}.
Implicit Types (s : IOManager K) (e : IOEvent).

(** The events waited for on a descriptor, and what the kernel is asked for. *)
Definition events_of (s : IOManager K) (fd : Z) : Z := from_option events_ 0 (fd_event_map_ s !! fd).
Definition mask (v : Z) : option Z := if v =? 0 then None else Some (Z.lor EPOLLET v).

Definition bits (v : Z) : Z := Z.b2z (has v EPOLLIN) + Z.b2z (has v EPOLLOUT).
Definition waits (m : gmap Z IOEvent) : Z := foldr Z.add 0 (map (λ p, bits (events_ p.2)) (map_to_list m)).

Definition armed (c : EventContext) : Prop := exists f, c = mkContext true (Some f).

Record event_ok (fd : Z) (e : IOEvent) : Prop := {
  eo_fd : fd_ e = fd;
  eo_events : events_ e ∈ [0; 1; 4; 5];
  eo_read : has (events_ e) EPOLLIN = true -> armed (read_ e);
  eo_write : has (events_ e) EPOLLOUT = true -> armed (write_ e);
}.

(** The kernel watches descriptor [fd] for [event]. *)
Definition watched (m : gmap Z Z) (fd event : Z) : Prop := exists v, m !! fd = Some v /\ has v event = true.

(** [d] is by how much the counter is off. *)
Record io_ok (d : Z) (s : IOManager K) : Prop := {
  io_events : map_Forall event_ok (fd_event_map_ s);
  io_watched : forall fd event, event ∈ [EPOLLIN; EPOLLOUT] -> has (events_of s fd) event = true -> watched (interest (kernel s)) fd event;
  io_pending : pending_event_count_ s = u64 (waits (fd_event_map_ s) + d);
}.

Lemma waits_perm (l k : list (Z * IOEvent)) :
  l ≡ₚ k -> foldr Z.add 0 (map (λ p, bits (events_ p.2)) l) = foldr Z.add 0 (map (λ p, bits (events_ p.2)) k).
Proof. induction 1; cbn; lia. Qed.

Lemma waits_insert fd e (m : gmap Z IOEvent) :
  waits (<[fd := e]> m) = waits m - bits (from_option events_ 0 (m !! fd)) + bits (events_ e).
Proof.
  unfold waits. rewrite <- insert_delete_eq.
  rewrite (waits_perm _ _ (map_to_list_insert _ _ e (lookup_delete_eq m fd))). cbn [map foldr snd].
  destruct (m !! fd) as [e0|] eqn:E; cbn [from_option].
  - rewrite <- (insert_delete_id m fd e0 E) at 2.
    rewrite (waits_perm _ _ (map_to_list_insert _ _ e0 (lookup_delete_eq m fd))). cbn [map foldr snd]. lia.
  - rewrite delete_id by done. change (bits 0) with 0. lia.
Qed.

Lemma u64_add a d : u64 (u64 a + d) = u64 (a + d).
Proof. unfold uint. apply Zplus_mod_idemp_l. Qed.

(** One entry of the table changes, and the kernel watches for what it has. *)
Lemma set_event_ok d d' fd e s s' :
  io_ok d s -> event_ok fd e -> fd_event_map_ s' = <[fd := e]> (fd_event_map_ s) ->
  (forall event, event ∈ [EPOLLIN; EPOLLOUT] -> has (events_ e) event = true -> watched (interest (kernel s')) fd event) ->
  (forall fd', fd' <> fd -> interest (kernel s') !! fd' = interest (kernel s) !! fd') ->
  pending_event_count_ s' = u64 (pending_event_count_ s + (bits (events_ e) - bits (events_of s fd)) + (d' - d)) ->
  io_ok d' s'.
Proof.
  intros [Ho Hs Hp] He Em Ew Ek Ep. split.
  - rewrite Em. by apply map_Forall_insert_2.
  - intros fd' event Hev. unfold events_of. rewrite Em. destruct (decide (fd = fd')) as [<-|Hne].
    + rewrite lookup_insert_eq. by apply Ew.
    + rewrite lookup_insert_ne by done. intros (v & Hv & Hh)%Hs; [|done]. exists v. split; [|done]. by rewrite Ek.
  - rewrite Ep, Hp, <- Z.add_assoc, u64_add, Em, waits_insert. f_equal. unfold events_of. lia.
Qed.

(** ** The operations on one event *)

(** [s'] differs from [s] in the scheduler, the timers, the semaphore and the
    fibers only. *)
Definition same_io (s s' : IOManager K) : Prop :=
  fd_event_map_ s' = fd_event_map_ s /\ pending_event_count_ s' = pending_event_count_ s /\ kernel s' = kernel s.

Lemma same_io_ok d s s' : same_io s s' -> io_ok d s -> io_ok d s'.
Proof.
  intros (E1 & E2 & E3) [Ho Hs Hp]. split.
  - by rewrite E1.
  - intros fd event. unfold events_of. rewrite E1, E3. apply Hs.
  - by rewrite E1, E2.
Qed.

(** A call of [epoll_ctl] leaves the other descriptors alone, whatever it answers. *)
Lemma ctl_other op fd m k rt k' fd' : epoll_ctl op fd m k = (rt, k') -> fd' <> fd -> interest k' !! fd' = interest k !! fd'.
Proof.
  intros E Hne. destruct (Z.eqb_spec rt 0) as [->|Hrt]; [|by rewrite (ctl_fails _ _ _ _ _ _ E Hrt)].
  destruct op; [destruct (ctl_adds _ _ _ _ E) as [_ ->]|rewrite (ctl_mods _ _ _ _ E)|rewrite (ctl_dels _ _ _ _ E)];
    by rewrite ?lookup_insert_ne, ?lookup_delete_ne.
Qed.
Lemma ctl_set op fd v k k' :
  op <> EPOLL_CTL_DEL -> epoll_ctl op fd (Z.lor EPOLLET v) k = (0, k') -> interest k' !! fd = Some (Z.lor EPOLLET v).
Proof.
  intros Hop E. destruct op; [destruct (ctl_adds _ _ _ _ E) as [_ ->]|rewrite (ctl_mods _ _ _ _ E)|done]; by rewrite lookup_insert_eq.
Qed.

Lemma default_event_ok d s fd : io_ok d s -> event_ok fd (default (IOEvent_new fd) (fd_event_map_ s !! fd)).
Proof.
  intros Hi. destruct (fd_event_map_ s !! fd) as [e|] eqn:E; [by apply (io_events _ _ Hi)|].
  split; cbn; [done|by left|done|done].
Qed.

Lemma default_events s fd : events_ (default (IOEvent_new fd) (fd_event_map_ s !! fd)) = events_of s fd.
Proof. unfold events_of. by destruct (fd_event_map_ s !! fd). Qed.

Lemma has_lor v w x : has (Z.lor v w) x = has v x || has w x.
Proof.
  unfold has. rewrite Z.land_lor_distr_l. destruct (Z.eqb_spec (Z.land v x) 0) as [->|Hv]; [done|].
  cbn [negb orb]. apply negb_true_iff, Z.eqb_neq. rewrite Z.lor_eq_0_iff. tauto.
Qed.

(** The contexts [add_event] leaves, and the call of [epoll_ctl]. *)
Lemma add_with_eq make event e s :
  (forall v, same_io v (make v).2) ->
  exists rd wr v, same_io s v /\
    (has event EPOLLIN = true -> armed rd) /\ (has event EPOLLIN = false -> rd = read_ e) /\
    (has event EPOLLOUT = true -> armed wr) /\ (has event EPOLLOUT = false -> wr = write_ e) /\
    add_with true make event e s =
      let '(rt, k) := epoll_ctl (if negb (events_ e =? 0) then EPOLL_CTL_MOD else EPOLL_CTL_ADD) (fd_ e)
        (Z.lor EPOLLET (Z.lor (events_ e) event)) (kernel v) in
      if negb (rt =? 0) then (false, mkIOEvent (fd_ e) (events_ e) rd wr, with_kernel k v)
      else (true, mkIOEvent (fd_ e) (Z.lor (events_ e) event) rd wr, with_kernel k v).
Proof.
  intros Hmake. unfold add_with.
  pose proof (Hmake s) as H1. destruct (make s) as [f v] eqn:Em. cbn in H1.
  pose proof (Hmake v) as H2. destruct (make v) as [g u] eqn:Eu. cbn in H2.
  unfold armed. destruct (has event EPOLLIN), (has event EPOLLOUT); rewrite ?Em, ?Eu.
  - exists (context_set true f), (context_set true g), u. unfold same_io in *. split_and!; naive_solver congruence.
  - exists (context_set true f), (write_ e), v. split_and!; naive_solver.
  - exists (read_ e), (context_set true f), v. split_and!; naive_solver.
  - exists (read_ e), (write_ e), s. split_and!; try done; naive_solver.
Qed.

Lemma add_mask v event :
  v ∈ [0; 1; 4; 5] -> event ∈ [EPOLLIN; EPOLLOUT] ->
  (Z.lor v event ∈ [0; 1; 4; 5]) /\ Z.lor v event <> 0 /\ bits (Z.lor v event) = bits v + 1 - Z.b2z (has v event).
Proof.
  intros Hv He. assert (bool_decide (Z.lor v event ∈ [0; 1; 4; 5]) = true /\
    Z.lor v event <> 0 /\ bits (Z.lor v event) = bits v + 1 - Z.b2z (has v event)) as [H%bool_decide_eq_true H']; [|auto]. masks.
Qed.

Definition without (v event : Z) : Z := Z.land v (uint 32 (Z.lnot event)).

Lemma del_mask v event :
  v ∈ [0; 1; 4; 5] -> event ∈ [EPOLLIN; EPOLLOUT] -> has v event = true ->
  (without v event ∈ [0; 1; 4; 5]) /\ v <> 0 /\ bits (without v event) = bits v - 1 /\
  forall x, x ∈ [EPOLLIN; EPOLLOUT] -> has (without v event) x = has v x && negb (has event x).
Proof.
  intros Hv He. assert (bool_decide (without v event ∈ [0; 1; 4; 5]) = true /\ (has v event = true ->
    v <> 0 /\ bits (without v event) = bits v - 1) /\ forallb (λ x,
      Bool.eqb (has (without v event) x) (has v x && negb (has event x))) [EPOLLIN; EPOLLOUT] = true)
    as (H%bool_decide_eq_true & H' & H''); [masks|].
  intros Hh. destruct (H' Hh). split_and!; auto. intros x Hx. rewrite forallb_forall in H''.
  apply Bool.eqb_prop, H''. by apply list_elem_of_In.
Qed.

(** [add_event]: when the kernel takes it a direction is waited for, counted once more
    if it was waited for already; else only the contexts may have changed. *)
Lemma add_event_ok d make fd event s :
  (forall v, same_io v (make v).2) -> io_ok d s -> event ∈ [EPOLLIN; EPOLLOUT] ->
  let r := add_event_with (add_with true make) fd event s in
  io_ok (if r.1 then d + Z.b2z (has (events_of s fd) event) else d) r.2.
Proof.
  intros Hmake Hi Hev. unfold add_event_with.
  pose proof (default_event_ok d s fd Hi) as He. pose proof (default_events s fd) as Ed. set (e := default _ _) in *.
  destruct (add_with_eq make event e s Hmake) as (rd & wr & v & Hsame & Hr1 & Hr2 & Hw1 & Hw2 & ->).
  destruct He as [Hfd Hin Hrd Hwr]. destruct Hsame as (Em & Ep & Ek).
  destruct (epoll_ctl _ _ _ _) as [rt k] eqn:Ec. rewrite Ek in Ec. rewrite Hfd in *.
  destruct (add_mask _ _ Hin Hev) as (Hin' & Hnz & Hb).
  assert (event_ok fd (mkIOEvent fd (Z.lor (events_ e) event) rd wr)) as Ho1.
  { split; cbn; try done; rewrite has_lor.
    - destruct (has event EPOLLIN); [auto|]. rewrite Hr2 by done. by rewrite orb_false_r.
    - destruct (has event EPOLLOUT); [auto|]. rewrite Hw2 by done. by rewrite orb_false_r. }
  assert (event_ok fd (mkIOEvent fd (events_ e) rd wr)) as Ho2.
  { split; cbn; try done; intros Hx.
    - apply (eo_read _ _ Ho1). cbn. by rewrite has_lor, Hx.
    - apply (eo_write _ _ Ho1). cbn. by rewrite has_lor, Hx. }
  destruct (Z.eqb_spec rt 0) as [->|Hrt]; cbn [negb fst].
  - eapply set_event_ok; [exact Hi|exact Ho1| | | |]; cbn.
    + by rewrite Em.
    + intros ev' Hev' Hh. eexists. split; [eapply ctl_set; [|exact Ec]; by destruct (negb (events_ e =? 0))|]. by rewrite has_lor, Hh, orb_true_r.
    + intros fd' Hne. by apply (ctl_other _ _ _ _ _ _ _ Ec).
    + rewrite Ep, Hb, Ed. f_equal. lia.
  - eapply set_event_ok; [exact Hi|exact Ho2| | | |]; cbn.
    + by rewrite Em.
    + intros ev' Hev' Hh. rewrite (ctl_fails _ _ _ _ _ _ Ec Hrt). apply (io_watched _ _ Hi); [done|]. by rewrite <- Ed.
    + intros fd' Hne. by apply (ctl_other _ _ _ _ _ _ _ Ec).
    + rewrite Ep, Ed, !Z.sub_diag, !Z.add_0_r, (io_pending _ _ Hi). unfold uint. by rewrite Zmod_mod.
Qed.

Definition context (e : IOEvent) (event : Z) : EventContext := if event =? EPOLLIN then read_ e else write_ e.

(** The event without one of its bits. *)
Definition dropped (event : Z) (e : IOEvent) : IOEvent :=
  mkIOEvent (fd_ e) (without (events_ e) event)
    (if has event EPOLLIN then context_reset else read_ e) (if has event EPOLLOUT then context_reset else write_ e).

Lemma dropped_ok fd event e :
  event_ok fd e -> event ∈ [EPOLLIN; EPOLLOUT] -> has (events_ e) event = true -> event_ok fd (dropped event e).
Proof.
  intros [Hfd Hin Hr Hw] Hev Hh. destruct (del_mask _ _ Hin Hev Hh) as (Hin' & _ & _ & Hx). split; cbn; try done.
  - rewrite Hx by (by left). destruct (has event EPOLLIN); [by rewrite andb_false_r|]. by rewrite andb_true_r.
  - rewrite Hx by (by right; left). destruct (has event EPOLLOUT); [by rewrite andb_false_r|]. by rewrite andb_true_r.
Qed.

(** Taking a direction away: the table and the contexts forget it, whatever the kernel answers. *)
Lemma IOEvent_del_eq fd event e s :
  fd_ e = fd -> has (events_ e) event = true ->
  exists rt k, IOEvent_del_event event e s = (rt =? 0, dropped event e, with_kernel k s) /\
    (rt = 0 -> interest k = partial_alter (λ _, mask (without (events_ e) event)) fd (interest (kernel s))) /\
    (rt <> 0 -> interest k = interest (kernel s)).
Proof.
  intros Hfd Hh. unfold IOEvent_del_event. unfold has in Hh. apply negb_true_iff in Hh. rewrite Hh, Hfd.
  fold (without (events_ e) event).
  destruct (epoll_ctl _ _ _ _) as [rt k] eqn:Ec. exists rt, k. split; [unfold dropped; by rewrite Hfd|]. split; [|by apply (ctl_fails _ _ _ _ _ _ Ec)].
  intros ->. unfold mask. destruct (without (events_ e) event =? 0); cbn in Ec; [by eapply ctl_dels|by eapply ctl_mods].
Qed.

(** Cancelling hands the waiting fiber to the scheduler. *)
Lemma IOEvent_cancel_eq fd event e s f :
  event_ok fd e -> event ∈ [EPOLLIN; EPOLLOUT] ->
  has (events_ e) event = true -> context e event = mkContext true (Some f) ->
  exists rt k, IOEvent_cancel_event event e s = (rt =? 0, dropped event e, with_kernel k (schedule_fiber f s)) /\
    (rt = 0 -> interest k = partial_alter (λ _, mask (without (events_ e) event)) fd (interest (kernel s))) /\
    (rt <> 0 -> interest k = interest (kernel s)).
Proof.
  intros [Hfd _ _ _] Hev Hh Hc.
  assert (exists rd wr, IOEvent_cancel_event event e s =
    IOEvent_del_event event (mkIOEvent fd (events_ e) rd wr) (schedule_fiber f s) /\
    dropped event (mkIOEvent fd (events_ e) rd wr) = dropped event e) as (rd & wr & -> & Ed).
  { unfold IOEvent_cancel_event. unfold has in Hh. apply negb_true_iff in Hh. rewrite Hh.
    destruct e as [fd0 v rd wr]. cbn in *. subst fd0.
    apply elem_of_cons in Hev as [->|Hev]; [|apply elem_of_cons in Hev as [->|Hev]; [|by apply elem_of_nil in Hev]];
      cbn in Hc; subst; cbn; eexists _, _; split; done. }
  destruct (IOEvent_del_eq fd event (mkIOEvent fd (events_ e) rd wr) (schedule_fiber f s)) as (rt & k & -> & Ek); [done..|].
  exists rt, k. by rewrite Ed.
Qed.

(** ** The operations of the manager *)

Lemma events_of_known s fd event :
  has (events_of s fd) event = true -> exists e, fd_event_map_ s !! fd = Some e /\ events_ e = events_of s fd.
Proof. unfold events_of. destruct (fd_event_map_ s !! fd) as [e|]; [|done]. by exists e. Qed.

Lemma waiting_context d fd event s e :
  io_ok d s -> event ∈ [EPOLLIN; EPOLLOUT] -> has (events_of s fd) event = true -> fd_event_map_ s !! fd = Some e ->
  exists f, context e event = mkContext true (Some f).
Proof.
  intros Hi Hev Hh E. pose proof (io_events _ _ Hi _ _ E) as He. assert (events_of s fd = events_ e) as Ee by (unfold events_of; by rewrite E).
  rewrite Ee in Hh. apply elem_of_cons in Hev as [->|Hev];
    [by apply (eo_read _ _ He)|apply elem_of_cons in Hev as [->|Hev]; [by apply (eo_write _ _ He)|by apply elem_of_nil in Hev]].
Qed.

(** What the operations do on an event that is waited for: the entry is dropped; [ok] tells
    whether the kernel has changed its list. *)
Definition forgets (fd event : Z) (ok : bool) (e : IOEvent) (s s1 : IOManager K) (k : K) : Prop :=
  s1 = with_map (<[fd := dropped event e]> (fd_event_map_ s)) (with_kernel k s) /\
  (ok = true -> interest k = partial_alter (λ _, mask (without (events_of s fd) event)) fd (interest (kernel s))) /\
  (ok = false -> interest k = interest (kernel s)).

Lemma cancel_event_eq d fd event s :
  io_ok d s -> event ∈ [EPOLLIN; EPOLLOUT] -> has (events_of s fd) event = true ->
  exists e f ok s1 k, fd_event_map_ s !! fd = Some e /\ context e event = mkContext true (Some f) /\
    on_event (IOEvent_cancel_event event) fd s = (ok, s1) /\ forgets fd event ok e (schedule_fiber f s) s1 k /\
    cancel_event fd event s = (ok, if ok then count (-1) s1 else s1).
Proof.
  intros Hi Hev Hh. destruct (events_of_known _ _ _ Hh) as (e & E & Ee). pose proof (io_events _ _ Hi _ _ E) as He.
  destruct (waiting_context d fd event s e Hi Hev Hh E) as [f Hc].
  destruct (IOEvent_cancel_eq fd event e s f) as (rt & k & Ec & Ek & Ek'); auto; [by rewrite Ee|].
  exists e, f, (rt =? 0), (with_map (<[fd := dropped event e]> (fd_event_map_ s)) (with_kernel k (schedule_fiber f s))), k.
  unfold cancel_event, on_event. rewrite E, Ec. split_and!; [done|done|done| |by destruct (rt =? 0)].
  split; [done|]. change (events_of (schedule_fiber f s) fd) with (events_of s fd). rewrite <- Ee. split; intros Hrt; [apply Ek|apply Ek']; lia.
Qed.

Lemma del_event_eq d fd event s :
  io_ok d s -> event ∈ [EPOLLIN; EPOLLOUT] -> has (events_of s fd) event = true ->
  exists e ok s1 k, fd_event_map_ s !! fd = Some e /\ forgets fd event ok e s s1 k /\
    del_event fd event s = (ok, if ok then count (-1) s1 else s1).
Proof.
  intros Hi Hev Hh. destruct (events_of_known _ _ _ Hh) as (e & E & Ee). pose proof (io_events _ _ Hi _ _ E) as He.
  destruct (IOEvent_del_eq fd event e s) as (rt & k & Ec & Ek & Ek'); [apply He|by rewrite Ee|].
  exists e, (rt =? 0), (with_map (<[fd := dropped event e]> (fd_event_map_ s)) (with_kernel k s)), k.
  unfold del_event, on_event. rewrite E, Ec. split_and!; [done| |by destruct (rt =? 0)].
  split; [done|]. rewrite <- Ee. split; intros Hrt; [apply Ek|apply Ek']; lia.
Qed.

Lemma mask_watched (m : gmap Z Z) fd v event : v <> 0 -> has v event = true -> watched (partial_alter (λ _, mask v) fd m) fd event.
Proof. intros Hv Hh. exists (Z.lor EPOLLET v). rewrite lookup_partial_alter_eq. unfold mask. rewrite (proj2 (Z.eqb_neq v 0) Hv). by rewrite has_lor, Hh, orb_true_r. Qed.

(** After forgetting a direction the counter is right when it was counted down. *)
Lemma forgets_ok d fd event ok e s0 s s1 k (down : bool) :
  io_ok d s0 -> same_io s0 s -> event ∈ [EPOLLIN; EPOLLOUT] -> has (events_of s0 fd) event = true -> fd_event_map_ s0 !! fd = Some e ->
  forgets fd event ok e s s1 k -> io_ok (d + (if down then 0 else 1)) (if down then count (-1) s1 else s1).
Proof.
  intros Hi0 Hsame Hev Hh E (-> & Ek & Ek'). pose proof (same_io_ok _ _ _ Hsame Hi0) as Hi. destruct Hsame as (Em & Ep & _).
  assert (events_of s fd = events_ e) as Ee by (unfold events_of; by rewrite Em, E).
  assert (events_of s0 fd = events_ e) as Ee0 by (unfold events_of; by rewrite E). rewrite Ee0 in Hh. rewrite <- Em in E.
  pose proof (io_events _ _ Hi _ _ E) as He. destruct (del_mask _ _ (eo_events _ _ He) Hev Hh) as (_ & _ & Hb & Hx).
  assert (io_ok (d + (if down then 0 else 1)) (if down then count (-1) (with_map (<[fd := dropped event e]> (fd_event_map_ s)) (with_kernel k s))
    else with_map (<[fd := dropped event e]> (fd_event_map_ s)) (with_kernel k s))) as H; [|by destruct down].
  eapply (set_event_ok d _ fd (dropped event e) s); [exact Hi|by apply dropped_ok|by destruct down| | |].
  - intros ev' Hev' Hh'. replace (kernel _) with k by (by destruct down). cbn in Hh'. destruct ok.
    + rewrite Ek, Ee by done. apply mask_watched; [|done]. intros E0. by rewrite E0 in Hh'.
    + rewrite Ek' by done. apply (io_watched _ _ Hi); [done|]. rewrite Ee. rewrite Hx in Hh' by done. by apply andb_true_iff in Hh' as [? _].
  - intros fd' Hne. replace (kernel _) with k by (by destruct down). destruct ok; [rewrite Ek, lookup_partial_alter_ne by done; done|by rewrite Ek'].
  - rewrite Ee. cbn [events_ dropped]. rewrite Hb. destruct down; cbn.
    + f_equal. lia.
    + replace (pending_event_count_ s + (bits (events_ e) - 1 - bits (events_ e)) + (d + 1 - d)) with (pending_event_count_ s + 0) by lia.
      rewrite Z.add_0_r, (io_pending _ _ Hi). unfold uint. by rewrite Zmod_mod.
Qed.

(** Nothing happens to an event nobody waits for. *)
Lemma not_waited fd event op s :
  (op = IOEvent_cancel_event \/ op = IOEvent_del_event) -> has (events_of s fd) event = false ->
  on_event (op event) fd s = (false, s).
Proof.
  intros Hop Hh. unfold on_event. unfold events_of in Hh. destruct (fd_event_map_ s !! fd) as [e|] eqn:E; [|done].
  cbn in Hh. unfold has in Hh. apply negb_false_iff in Hh.
  assert (op event e s = (false, e, s)) as -> by
    (destruct Hop as [-> | ->]; [unfold IOEvent_cancel_event|unfold IOEvent_del_event]; by rewrite Hh).
  rewrite insert_id by done. by destruct s.
Qed.

(** One too many is counted when the kernel refuses to take a direction out. *)
Definition refusal (s : IOManager K) (fd event : Z) (ok : bool) : Z := if has (events_of s fd) event && negb ok then 1 else 0.

Lemma cancel_event_ok d fd event s :
  io_ok d s -> event ∈ [EPOLLIN; EPOLLOUT] -> io_ok (d + refusal s fd event (cancel_event fd event s).1) (cancel_event fd event s).2.
Proof.
  intros Hi Hev. unfold refusal. destruct (has (events_of s fd) event) eqn:Hh.
  - destruct (cancel_event_eq d fd event s Hi Hev Hh) as (e & f & ok & s1 & k & E & _ & _ & Hf & ->). cbn [fst snd].
    pose proof (forgets_ok d fd event ok e s (schedule_fiber f s) s1 k ok Hi ltac:(done) Hev Hh E Hf) as H. by destruct ok.
  - unfold cancel_event. rewrite not_waited by auto. by rewrite Z.add_0_r.
Qed.

Lemma del_event_ok d fd event s :
  io_ok d s -> event ∈ [EPOLLIN; EPOLLOUT] -> io_ok (d + refusal s fd event (del_event fd event s).1) (del_event fd event s).2.
Proof.
  intros Hi Hev. unfold refusal. destruct (has (events_of s fd) event) eqn:Hh.
  - destruct (del_event_eq d fd event s Hi Hev Hh) as (e & ok & s1 & k & E & Hf & ->). cbn [fst snd].
    pose proof (forgets_ok d fd event ok e s s s1 k ok Hi ltac:(done) Hev Hh E Hf) as H. by destruct ok.
  - unfold del_event. rewrite not_waited by auto. by rewrite Z.add_0_r.
Qed.

(** The other directions keep waiting. *)
Lemma on_cancel_keeps d fd event other s :
  io_ok d s -> event ∈ [EPOLLIN; EPOLLOUT] -> other ∈ [EPOLLIN; EPOLLOUT] -> other <> event ->
  has (events_of (on_event (IOEvent_cancel_event event) fd s).2 fd) other = has (events_of s fd) other.
Proof.
  intros Hi Hev Hot Hne. destruct (has (events_of s fd) event) eqn:Hh.
  - destruct (cancel_event_eq d fd event s Hi Hev Hh) as (e & f & ok & s1 & k & E & _ & -> & (-> & _) & _).
    assert (events_of s fd = events_ e) as Ee by (unfold events_of; by rewrite E).
    unfold events_of at 1. cbn. rewrite lookup_insert_eq. cbn. rewrite Ee in *.
    destruct (del_mask _ _ (eo_events _ _ (io_events _ _ Hi _ _ E)) Hev Hh) as (_ & _ & _ & ->); [|done].
    assert (has event other = false) as ->; [|apply andb_true_r].
    clear -Hev Hot Hne. revert Hne. masks.
  - rewrite not_waited; auto.
Qed.
Lemma cancel_keeps d fd event other s :
  io_ok d s -> event ∈ [EPOLLIN; EPOLLOUT] -> other ∈ [EPOLLIN; EPOLLOUT] -> other <> event ->
  has (events_of (cancel_event fd event s).2 fd) other = has (events_of s fd) other.
Proof.
  intros Hi Hev Hot Hne. pose proof (on_cancel_keeps d fd event other s Hi Hev Hot Hne) as H. unfold cancel_event.
  by destruct (on_event (IOEvent_cancel_event event) fd s) as [[] s1].
Qed.

(** [cancel_all] is the two cancellations. *)
Lemma cancel_all_eq d fd s :
  io_ok d s -> let r := cancel_event fd EPOLLIN s in let r' := cancel_event fd EPOLLOUT r.2 in cancel_all fd s = (r.1 || r'.1, r'.2).
Proof.
  intros Hi r r'. unfold cancel_all. destruct (fd_event_map_ s !! fd) as [e|] eqn:E; cycle 1.
  { subst r' r. unfold cancel_event, on_event. by rewrite E; cbn; rewrite E. }
  assert (events_ e = events_of s fd) as -> by (unfold events_of; by rewrite E).
  assert ((if has (events_of s fd) EPOLLIN then cancel_event fd EPOLLIN s else (false, s)) = r) as ->.
  { destruct (has (events_of s fd) EPOLLIN) eqn:Hh; [done|]. subst r. unfold cancel_event. by rewrite not_waited by auto. }
  rewrite (surjective_pairing r).
  assert ((if has (events_of s fd) EPOLLOUT then cancel_event fd EPOLLOUT r.2 else (false, r.2)) = r') as ->.
  { destruct (has (events_of s fd) EPOLLOUT) eqn:Hh; [done|]. subst r'. unfold cancel_event at 1. rewrite not_waited; [done|by left|].
    subst r. rewrite (cancel_keeps d fd EPOLLIN EPOLLOUT s Hi); [done|by left|by right; left|done]. }
  by rewrite (surjective_pairing r').
Qed.

(** ** Runs *)

(** The mask [idle] acts on. *)
Definition widened (revents : Z) : Z :=
  if has revents (Z.lor EPOLLERR EPOLLHUP) then Z.lor revents (Z.lor EPOLLIN EPOLLOUT) else revents.
(** One too few is counted for a direction that is reported and nobody waits for. *)
Definition unawaited (s : IOManager K) (fd revents event : Z) : Z :=
  if has (widened revents) event && negb (has (events_of s fd) event) then -1 else 0.

(** A step and by how much it puts the counter off.  Callers in threads of the scheduler wait
    for a direction and stop waiting, epoll reports whatever it likes, and [epoll_ctl] may
    refuse any call; closing a descriptor that nobody waits for takes it out of the kernel's list;
    the scheduler and the timers may do anything in between. *)
Inductive io_step : Z -> IOManager K -> IOManager K -> Prop :=
| SAddFunc fd event func args s ret s' :
    event ∈ [EPOLLIN; EPOLLOUT] -> add_event_func true fd event func args s = (ret, s') ->
    io_step (if ret then Z.b2z (has (events_of s fd) event) else 0) s s'
| SAddFiber fd event f s ret s' :
    event ∈ [EPOLLIN; EPOLLOUT] -> add_event_fiber true fd event f s = (ret, s') ->
    io_step (if ret then Z.b2z (has (events_of s fd) event) else 0) s s'
| SDel fd event s ok s' :
    event ∈ [EPOLLIN; EPOLLOUT] -> del_event fd event s = (ok, s') -> io_step (refusal s fd event ok) s s'
| SCancel fd event s ok s' :
    event ∈ [EPOLLIN; EPOLLOUT] -> cancel_event fd event s = (ok, s') -> io_step (refusal s fd event ok) s s'
| SCancelAll fd s :
    let r := cancel_event fd EPOLLIN s in
    io_step (refusal s fd EPOLLIN r.1 + refusal r.2 fd EPOLLOUT (cancel_event fd EPOLLOUT r.2).1) s (cancel_all fd s).2
| SReady fd revents s :
    io_step (unawaited s fd revents EPOLLIN + unawaited s fd revents EPOLLOUT) s (process_event fd revents s)
| SClosed fd s k :
    (forall event, event ∈ [EPOLLIN; EPOLLOUT] -> has (events_of s fd) event = false) ->
    interest k = delete fd (interest (kernel s)) -> io_step 0 s (with_kernel k s)
| SOther s s' : same_io s s' -> io_step 0 s s'.

(** The runs of a manager, with what the counter is off in the end. *)
Inductive io_run : Z -> IOManager K -> Prop :=
| run_new ids k : interest k = ∅ -> io_run 0 (IOManager_new ids k)
| run_step d d' s s' : io_run d s -> io_step d' s s' -> io_run (d + d') s'.
Definition io_reachable (s : IOManager K) : Prop := exists d, io_run d s.

Lemma tickle_same s : same_io s (tickle s).
Proof. unfold tickle. by destruct (0 <? _). Qed.

(** What [idle] does with one direction that is reported. *)
Lemma report_ok d fd event s :
  io_ok d s -> event ∈ [EPOLLIN; EPOLLOUT] ->
  io_ok (d + (if has (events_of s fd) event then 0 else -1)) (count (-1) (on_event (IOEvent_cancel_event event) fd s).2).
Proof.
  intros Hi Hev. destruct (has (events_of s fd) event) eqn:Hh.
  - destruct (cancel_event_eq d fd event s Hi Hev Hh) as (e & f & ok & s1 & k & E & _ & -> & Hf & _). cbn [snd].
    exact (forgets_ok d fd event ok e s (schedule_fiber f s) s1 k true Hi ltac:(done) Hev Hh E Hf).
  - rewrite not_waited by auto. cbn [snd]. destruct Hi as [H1 H2 H3]. split; [done|done|]. cbn. rewrite H3, u64_add. f_equal. lia.
Qed.
Lemma process_event_ok d fd revents s :
  io_ok d s -> io_ok (d + (unawaited s fd revents EPOLLIN + unawaited s fd revents EPOLLOUT)) (process_event fd revents s).
Proof.
  intros Hi. unfold process_event, unawaited. fold (widened revents). set (r := widened revents) in *. eapply same_io_ok; [apply tickle_same|].
  assert (io_ok (d + (if has r EPOLLIN && negb (has (events_of s fd) EPOLLIN) then -1 else 0))
      (if has r EPOLLIN then count (-1) (on_event (IOEvent_cancel_event EPOLLIN) fd s).2 else s) /\
    has (events_of (if has r EPOLLIN then count (-1) (on_event (IOEvent_cancel_event EPOLLIN) fd s).2 else s) fd) EPOLLOUT
      = has (events_of s fd) EPOLLOUT) as [Hi1 Hout].
  { destruct (has r EPOLLIN) eqn:Er; cbn [andb]; [|by rewrite Z.add_0_r]. split.
    - pose proof (report_ok d fd EPOLLIN s Hi ltac:(by left)) as H. by destruct (has (events_of s fd) EPOLLIN).
    - exact (on_cancel_keeps d fd EPOLLIN EPOLLOUT s Hi ltac:(by left) ltac:(by right; left) ltac:(done)). }
  set (s1 := if has r EPOLLIN then _ else _) in *. rewrite Z.add_assoc.
  destruct (has r EPOLLOUT) eqn:Er; cbn [andb]; [|by rewrite Z.add_0_r].
  pose proof (report_ok _ fd EPOLLOUT s1 Hi1 ltac:(by right; left)) as H. rewrite Hout in H. by destruct (has (events_of s fd) EPOLLOUT).
Qed.

Lemma io_step_ok d d' s s' : io_step d' s s' -> io_ok d s -> io_ok (d + d') s'.
Proof.
  intros Hs Hi. destruct Hs as [fd event func args s ret s' Hev E|fd event f s ret s' Hev E|fd event s ok s' Hev E|fd event s ok s' Hev E|fd s r|fd revents s|fd s k Hno Ek|s s' H].
  - pose proof (add_event_ok d (make_fiber func args) fd event s ltac:(done) Hi Hev) as H. unfold add_event_func, IOEvent_add_func in E. cbv zeta in H. rewrite E in H. destruct ret; [done|by rewrite Z.add_0_r].
  - pose proof (add_event_ok d (λ v, (f, v)) fd event s ltac:(done) Hi Hev) as H. unfold add_event_fiber, IOEvent_add_fiber in E. cbv zeta in H. rewrite E in H. destruct ret; [done|by rewrite Z.add_0_r].
  - pose proof (del_event_ok d fd event s Hi Hev) as H. by rewrite E in H.
  - pose proof (cancel_event_ok d fd event s Hi Hev) as H. by rewrite E in H.
  - pose proof (cancel_event_ok d fd EPOLLIN s Hi ltac:(by left)) as H1.
    rewrite (cancel_all_eq d fd s Hi), Z.add_assoc. exact (cancel_event_ok _ fd EPOLLOUT r.2 H1 ltac:(by right; left)).
  - by apply process_event_ok.
  - rewrite Z.add_0_r. destruct Hi as [H1 H2 H3]. split; [done| |done]. intros fd' event Hev Hh. cbn. rewrite Ek.
    destruct (decide (fd' = fd)) as [->|Hne]; [by rewrite (Hno event Hev : has (events_of (with_kernel k s) fd) event = false) in Hh|].
    destruct (H2 fd' event Hev Hh) as (v & Ev & Hv). exists v. by rewrite lookup_delete_ne.
  - rewrite Z.add_0_r. by eapply same_io_ok.
Qed.

Lemma io_run_ok d s : io_run d s -> io_ok d s.
Proof.
  induction 1 as [ids k Ek|d d' s s' _ IH Hs]; [|by eapply io_step_ok]. split; cbn; [apply map_Forall_empty|done|done].
Qed.

(** ** Timers in the idle round *)

Definition cb_args (m : TimerManager) (t : nat) : option (callback * Z) := (λ tm, (cb_ tm, args_ tm)) <$> heap m !! t.

Lemma rearm_cb now ex m t : cb_args (rearm now ex m) t = cb_args m t.
Proof.
  revert m. induction ex as [|u ex IH]; intros m; [done|]. cbn. rewrite IH. unfold rearm_one, cb_args.
  destruct (heap m !! u) as [tm|] eqn:E; [|done]. destruct (is_recurring_ tm); [|done].
  destruct (set_insert _ _ _) as [[? ?] ?]. cbn. destruct (decide (u = t)) as [->|];
    [by rewrite lookup_insert_eq, E|by rewrite lookup_insert_ne].
Qed.

Lemma expired_cb now m t : cb_args (get_expired_timers now m).2 t = cb_args m t.
Proof.
  unfold get_expired_timers. destruct (upper_split _ _ _) as [[|u ex] rest]; [done|].
  cbn [snd]. by rewrite rearm_cb.
Qed.

(** Each timer of the list is given a new fiber, in order. *)
Lemma schedule_timers ex s :
  Forall (λ t, is_Some (heap (timers s) !! t)) ex ->
  let s' := foldl (λ s t, schedule_timer t s) s ex in
  timers s' = timers s /\ same_io s s' /\
  tasks_ (base s') = tasks_ (base s) ++ (mkTask (-1) <$> seq (next_fiber s) (length ex)) /\
  (forall f, (f < next_fiber s)%nat -> functions s' !! f = functions s !! f) /\
  forall i t, ex !! i = Some t -> functions s' !! (next_fiber s + i)%nat = cb_args (timers s) t.
Proof.
  revert s. induction ex as [|u ex IH]; intros s Hex s'; subst s'; cbn [foldl].
  { split_and!; [done|done|by rewrite app_nil_r|done|done]. }
  apply Forall_cons in Hex as [[tm E] Hex]. set (s1 := schedule_func (cb_ tm) (args_ tm) s).
  assert (schedule_timer u s = s1) as -> by (unfold schedule_timer; by rewrite E).
  destruct (IH s1 Hex) as (E1 & E2 & E3 & E4 & E5). split_and!.
  - by rewrite E1.
  - exact E2.
  - rewrite E3. cbn. by rewrite <- app_assoc.
  - intros f Hf. rewrite E4 by (cbn; lia). cbn. by rewrite lookup_insert_ne by lia.
  - intros [|i] t; cbn [lookup].
    + intros [= <-]. rewrite Nat.add_0_r, E4 by (cbn; lia). cbn. unfold cb_args. by rewrite lookup_insert_eq, E.
    + intros Hi. specialize (E5 i t Hi). by rewrite Nat.add_succ_r.
Qed.

Lemma wait_loop_spec times z (m : TimerManager) :
  heap (wait_loop times z m).2 = heap m /\ timers_ (wait_loop times z m).2 = timers_ m /\
  (tm_wf m -> tm_wf (wait_loop times z m).2).
Proof.
  revert z m. induction times as [|now times IH]; intros z m; cbn; [done|].
  destruct (get_next_timer_keeps now m) as (E1 & E2 & _). pose proof (tm_wf_next now m) as Hwf.
  destruct (get_next_timer now m) as [d m1]. cbn in *. destruct (IH (sint 32 (if SYLAR_IOMANAGER_TIMEOUT <? d then
    SYLAR_IOMANAGER_TIMEOUT else d)) m1) as (-> & -> & H). auto.
Qed.

Lemma wait_loop_timeout times last (m : TimerManager) :
  tm_wf m -> 0 <= last < 2 ^ 63 ->
  0 <= (wait_loop (times ++ [last]) 0 m).1 <= 3000 /\
  forall t, t ∈ timers_ m -> last + (wait_loop (times ++ [last]) 0 m).1 <= Z.max last (expiration m t).
Proof.
  intros Hwf Hlast. assert (forall z, exists m', wait_loop (times ++ [last]) z m = wait_loop [last] 0 m' /\
    tm_wf m' /\ timers_ m' = timers_ m /\ heap m' = heap m) as Hl.
  { revert m Hwf. induction times as [|now times IH]; intros m Hwf z; [by exists m|].
    cbn. destruct (get_next_timer_keeps now m) as (E1 & E2 & _). pose proof (tm_wf_next now m Hwf) as Hwf'.
    destruct (get_next_timer now m) as [d m1]. cbn in *. rewrite <- E1, <- E2. by apply IH. }
  destruct (Hl 0) as (m' & -> & Hwf' & Et & Eh). unfold expiration. rewrite <- Et, <- Eh.
  fold (expiration m'). clear Hl Et Eh Hwf m. cbn [wait_loop]. unfold get_next_timer, SYLAR_IOMANAGER_TIMEOUT.
  pose proof (wf_ordered _ Hwf') as Ho. destruct (timers_ m') as [|t ts]; cbn [fst].
  { vm_compute (sint 32 _). split; [lia|]. intros t Ht. by apply elem_of_nil in Ht. }
  apply ordered_cons in Ho as [_ Hts]. rewrite Forall_forall in Hts. pose proof (wf_range _ Hwf' t) as Hrange.
  assert (forall d, 0 <= d <= 3000 -> sint 32 d = d) as Hs.
  { intros d Hd. unfold sint. rewrite Z.mod_small by lia. destruct (Z.ltb_spec d (2 ^ (32 - 1))); lia. }
  set (d := if expiration m' t <=? last then 0 else u64 (expiration m' t - last)).
  assert (0 <= d /\ last + d <= Z.max last (expiration m' t)) as Hd.
  { unfold d. destruct (Z.leb_spec (expiration m' t) last); [lia|]. rewrite uint_small; lia. }
  rewrite Hs by (destruct (Z.ltb_spec 3000 d); lia).
  split; [destruct (Z.ltb_spec 3000 d); lia|].
  intros u Hu. assert (expiration m' t <= expiration m' u).
  { apply elem_of_cons in Hu as [->|Hu]; [lia|]. specialize (Hts u Hu). cbv beta in Hts. lia. }
  unfold expiration in *. destruct (Z.ltb_spec 3000 d); lia.
Qed.

(** A round of [idle] in which nothing is reported. *)
Lemma idle_round_timers times now s :
  let m := (wait_loop times 0 (timers s)).2 in
  let due := (get_expired_timers now m).1 in
  let s' := idle_round times now [] s in
  Forall (λ t, is_Some (heap m !! t)) due ->
  tasks_ (base s') = tasks_ (base s) ++ (mkTask (-1) <$> seq (next_fiber s) (length due)) /\
  (forall i t, due !! i = Some t -> functions s' !! (next_fiber s + i)%nat = cb_args m t) /\
  fd_event_map_ s' = fd_event_map_ s.
Proof.
  intros m due s' Hex. subst s'. unfold idle_round. cbn [foldl].
  change (timers (with_timers (wait_loop times 0 (timers s)).2 s)) with m.
  pose proof (expired_cb now m) as Hcb. unfold due in *. destruct (get_expired_timers now m) as [ex m'].
  cbn [fst snd] in *. destruct (schedule_timers ex (with_timers m' (with_timers m s))) as (_ & (Em & _) & E1 & _ & E2).
  { eapply Forall_impl; [exact Hex|]. intros t [tm E]. cbn. specialize (Hcb t). unfold cb_args in Hcb.
    rewrite E in Hcb. destruct (heap m' !! t); [eauto|done]. }
  split_and!; [exact E1| |exact Em]. intros i t Hi. rewrite <- Hcb. exact (E2 i t Hi).
Qed.

(** The reports of a round are processed after its timers. *)
Lemma idle_round_reports times now ready s :
  idle_round times now ready s = foldl (λ s '(fd, revents), process_event fd revents s) (idle_round times now [] s) ready.
Proof. unfold idle_round. by destruct (get_expired_timers _ _). Qed.

(** ** Reports in the idle round *)

(** Fiber [f] is in a context of descriptor [fd]. *)
Definition waiter (s : IOManager K) (fd : Z) (f : nat) : Prop :=
  exists e, fd_event_map_ s !! fd = Some e /\ (fiber_ (read_ e) = Some f \/ fiber_ (write_ e) = Some f).

(** Going from [s] to [s'] lists only fibers that waited for one of [fds], and nobody new waits. *)
Definition hands_over (fds : list Z) (s s' : IOManager K) : Prop :=
  functions s' = functions s /\ (forall fd f, waiter s' fd f -> waiter s fd f) /\
  exists more, tasks_ (base s') = tasks_ (base s) ++ (mkTask (-1) <$> more) /\
    forall f, f ∈ more -> exists fd, fd ∈ fds /\ waiter s fd f.

Lemma hands_over_refl fds s : hands_over fds s s.
Proof. split_and!; [done|done|]. exists []. split; [by rewrite app_nil_r|]. intros f Hf. by apply elem_of_nil in Hf. Qed.
Lemma hands_over_trans fds fds' s1 s2 s3 :
  hands_over fds s1 s2 -> hands_over fds' s2 s3 -> hands_over (fds ++ fds') s1 s3.
Proof.
  intros (E1 & W1 & m1 & T1 & F1) (E2 & W2 & m2 & T2 & F2). split_and!; [congruence|auto|].
  exists (m1 ++ m2). rewrite T2, T1, fmap_app, app_assoc. split; [done|]. intros f [Hf|Hf]%elem_of_app.
  - destruct (F1 f Hf) as (fd & Hfd & Hw). exists fd. by rewrite elem_of_app; auto.
  - destruct (F2 f Hf) as (fd & Hfd & Hw). exists fd. rewrite elem_of_app; auto.
Qed.

Lemma cancel_hands_over fd event s : hands_over [fd] s (on_event (IOEvent_cancel_event event) fd s).2.
Proof.
  unfold on_event. destruct (fd_event_map_ s !! fd) as [e|] eqn:E; [|apply hands_over_refl].
  assert (forall (rd wr : EventContext) v s', hands_over [fd] s s' -> fd_event_map_ s' = fd_event_map_ s ->
    (rd = read_ e \/ rd = context_reset) -> (wr = write_ e \/ wr = context_reset) ->
    hands_over [fd] s (with_map (<[fd := mkIOEvent (fd_ e) v rd wr]> (fd_event_map_ s')) s')) as Hset.
  { intros rd wr v s' (E1 & W & m & T & F) Em Hrd Hwr. split_and!; [done| |by exists m].
    intros fd' f (e' & He' & Hf). cbn in He'. rewrite Em in He'. destruct (decide (fd = fd')) as [<-|Hne].
    - rewrite lookup_insert_eq in He'. injection He' as <-. exists e. split; [done|]. cbn in Hf.
      destruct Hrd as [-> | ->], Hwr as [-> | ->]; cbn in Hf; naive_solver.
    - rewrite lookup_insert_ne in He' by done. by exists e'. }
  assert (forall c s', hands_over [fd] s s' -> fd_event_map_ s' = fd_event_map_ s -> (c = read_ e \/ c = write_ e) ->
    hands_over [fd] s (context_trigger c s').2 /\ fd_event_map_ (context_trigger c s').2 = fd_event_map_ s /\
    ((context_trigger c s').1 = c \/ (context_trigger c s').1 = context_reset)) as Htrig.
  { intros c s' (E1 & W & m & T & F) Em Hc. unfold context_trigger.
    destruct (scheduler_ c) eqn:Es, (fiber_ c) as [f|] eqn:Ef; [|split_and!; [by split_and!; [..|by exists m]|done|by left]..].
    split_and!; [split_and!; [done| |]|done|by right].
    - intros fd' g (e' & He' & Hg). apply W. by exists e'.
    - exists (m ++ [f]). cbn. rewrite T, fmap_app, app_assoc. split; [done|].
      intros g [Hg|Hg%list_elem_of_singleton]%elem_of_app; [by apply F|]. subst g. exists fd. split; [by left|].
      exists e. split; [done|]. destruct Hc as [-> | ->]; auto. }
  unfold IOEvent_cancel_event. destruct (Z.land (events_ e) event =? 0).
  { destruct e as [fd0 v rd wr]. cbn. apply Hset; auto using hands_over_refl. }
  destruct (if has event EPOLLIN then context_trigger (read_ e) s else (read_ e, s)) as [rd s1] eqn:E1.
  assert (hands_over [fd] s s1 /\ fd_event_map_ s1 = fd_event_map_ s /\ (rd = read_ e \/ rd = context_reset)) as (H1 & Em1 & Hrd).
  { destruct (has event EPOLLIN); [|injection E1 as <- <-; auto using hands_over_refl].
    destruct (Htrig (read_ e) s) as (Hh & Hm & Hc); [apply hands_over_refl|done|by left|]. rewrite E1 in Hh, Hm, Hc. auto. }
  destruct (if has event EPOLLOUT then context_trigger (write_ e) s1 else (write_ e, s1)) as [wr s2] eqn:E2.
  assert (hands_over [fd] s s2 /\ fd_event_map_ s2 = fd_event_map_ s /\ (wr = write_ e \/ wr = context_reset)) as (H2 & Em2 & Hwr).
  { destruct (has event EPOLLOUT); [|injection E2 as <- <-; auto].
    destruct (Htrig (write_ e) s1) as (Hh & Hm & Hc); [done|done|by right|]. rewrite E2 in Hh, Hm, Hc. auto. }
  unfold IOEvent_del_event. cbn [events_ fd_ read_ write_]. destruct (Z.land (events_ e) event =? 0); [by apply Hset|].
  destruct (epoll_ctl _ _ _ _) as [rt k]. cbn [snd]. apply (Hset _ _ _ (with_kernel k s2)); [done|done| |].
  - destruct (has event EPOLLIN); auto.
  - destruct (has event EPOLLOUT); auto.
Qed.

Lemma process_hands_over fd revents s : hands_over [fd] s (process_event fd revents s).
Proof.
  unfold process_event. fold (widened revents). set (r := widened revents).
  set (s1 := if has r EPOLLIN then _ else _). set (s2 := if has r EPOLLOUT then _ else _).
  assert (hands_over [fd] s s1) as H1 by (unfold s1; destruct (has r EPOLLIN); [exact (cancel_hands_over fd EPOLLIN s)|apply hands_over_refl]).
  assert (hands_over [fd] s1 s2) as H2 by (unfold s2; destruct (has r EPOLLOUT); [exact (cancel_hands_over fd EPOLLOUT s1)|apply hands_over_refl]).
  destruct (hands_over_trans _ _ _ _ _ H1 H2) as (E & W & m & T & F).
  unfold tickle. assert (hands_over [fd] s s2) as H.
  { split_and!; [done|done|]. exists m. split; [done|]. intros f (fd' & Hfd & Hw)%F. exists fd'. split; [set_solver|done]. }
  by destruct (0 <? _).
Qed.

Lemma reports_hand_over ready s : hands_over ready.*1 s (foldl (λ s '(fd, revents), process_event fd revents s) s ready).
Proof.
  revert s. induction ready as [|[fd revents] ready IH]; intros s; [apply hands_over_refl|]. cbn [foldl fmap list_fmap].
  exact (hands_over_trans [fd] _ _ _ _ (process_hands_over fd revents s) (IH _)).
Qed.

(** ** Claims *)



(** (C20) One round of [idle] gives every timer that is due a new fiber with the
    timer's callback and argument, in the order of expiration, behind the tasks
    already listed, whatever epoll reports in that round; behind them come only
    fibers that waited for a descriptor that is reported.  The time it waits
    before is at most three seconds and ends no later than the first timer. *)
Theorem idle_serves_timers (s : IOManager K) (times : list Z) (last now : Z) (ready : list (Z * Z)) :
  timers_reachable (timers s) -> 0 <= last < 2 ^ 63 ->
  let due := filter (λ t, expiration (timers s) t <= now) (timers_ (timers s)) in
  let s' := idle_round (times ++ [last]) now ready s in
  let time_out := (wait_loop (times ++ [last]) 0 (timers s)).1 in
  (exists more, tasks_ (base s') =
     tasks_ (base s) ++ (mkTask (-1) <$> seq (next_fiber s) (length due)) ++ (mkTask (-1) <$> more) /\
     forall f, f ∈ more -> exists fd, fd ∈ ready.*1 /\ waiter s fd f) /\
  (forall i t, due !! i = Some t ->
     exists tm, heap (timers s) !! t = Some tm /\ functions s' !! (next_fiber s + i)%nat = Some (cb_ tm, args_ tm)) /\
  0 <= time_out <= 3000 /\
  (forall t, t ∈ timers_ (timers s) -> last + time_out <= Z.max last (expiration (timers s) t)).
Proof.
  intros Hr Hlast due s' time_out. pose proof (reachable_wf _ Hr) as Hwf.
  destruct (wait_loop_spec (times ++ [last]) 0 (timers s)) as (Eh & Et & Hwf').
  specialize (Hwf' Hwf).
  assert (due = (get_expired_timers now (wait_loop (times ++ [last]) 0 (timers s)).2).1) as Edue.
  { destruct (get_expired_timers _ _) as [ex m'] eqn:Ex. apply get_expired_timers_spec in Ex as [-> _]; [|done].
    unfold due, expiration. cbn [fst]. by rewrite Eh, Et. }
  assert (forall t, t ∈ due -> exists tm, heap (timers s) !! t = Some tm) as Hdue.
  { intros t [_ Ht]%list_elem_of_filter. by apply (wf_queued _ Hwf). }
  destruct (idle_round_timers (times ++ [last]) now s) as (E1 & E2 & Em); [|rewrite <- Edue in E1, E2].
  { rewrite <- Edue. apply Forall_forall. intros t Ht. rewrite Eh. by apply Hdue. }
  destruct (reports_hand_over ready (idle_round (times ++ [last]) now [] s)) as (Ef & _ & more & Et' & Hm).
  rewrite <- idle_round_reports in Ef, Et'. fold s' in Ef, Et'.
  split_and!; [| |by apply wait_loop_timeout..].
  - exists more. rewrite Et', E1, app_assoc. split; [done|]. intros f (fd & Hfd & e & He & Hw)%Hm. exists fd. split; [done|].
    exists e. by rewrite <- Em.
  - intros i t Hi. destruct (Hdue t) as [tm Htm]; [by eapply list_elem_of_lookup_2|]. exists tm. split; [done|].
    rewrite Ef, (E2 i t Hi). unfold cb_args. by rewrite Eh, Htm.
Qed.
End invariant.

(** ** Examples *)

Definition fresh_manager : IOManager Kernel := IOManager_new [1; 2] (mkKernel {[9]} ∅).

(** A fiber waits to read from descriptor 5, another one to write to it. *)
Definition waiting_manager : IOManager Kernel :=
  (add_event_fiber true 5 EPOLLOUT 8 (add_event_fiber true 5 EPOLLIN 7 fresh_manager).2).2.

Lemma waiting_manager_run : io_run 0 waiting_manager.
Proof.
  eapply (run_step 0 0); [eapply (run_step 0 0); [apply (run_new [1; 2] (mkKernel {[9]} ∅)); reflexivity|]|].
  - exact (SAddFiber 5 EPOLLIN 7 fresh_manager true _ (list_elem_of_here _ _) eq_refl).
  - exact (SAddFiber 5 EPOLLOUT 8 (add_event_fiber true 5 EPOLLIN 7 fresh_manager).2 true _
      (list_elem_of_further _ _ _ (list_elem_of_here _ _)) eq_refl).
Defined.



(** A timer is due and a descriptor is reported in the same round. *)
Lemma idle_serves_timers_witness :
  exists more, tasks_ (base (idle_round [90; 100] 107 [(5, EPOLLIN)] (with_timers example_manager waiting_manager))) =
    [mkTask (-1) 0] ++ (mkTask (-1) <$> more) /\
    forall f, f ∈ more -> waiter (with_timers example_manager waiting_manager) 5 f.
Proof.
  destruct (idle_serves_timers (with_timers example_manager waiting_manager) [90] 100 107 [(5, EPOLLIN)]) as ((more & E & H) & _).
  - exact example_manager_reachable.
  - lia.
  - change ([90] ++ [100]) with [90; 100] in E. exists more. split; [rewrite E; vm_compute; reflexivity|].
    intros f (fd & Hfd%list_elem_of_singleton & Hw)%H. rewrite Hfd in Hw. exact Hw.
Defined.

(** The counter goes wrong in two ways.  When the peer of a descriptor on
    which a fiber waits to read hangs up, [idle] counts off both directions,
    the counter wraps around and the manager can never stop; and when a
    second fiber waits for a direction that is taken, the first one is
    forgotten, although both were counted: one report wakes the second fiber
    only, and one event stays counted with nothing to wait for. *)
Theorem pending_events_miscounted :
  (let s := process_event 5 EPOLLHUP (add_event_fiber true 5 EPOLLIN 7 fresh_manager).2 in
   tasks_ (base s) = [mkTask (-1) 7] /\ waits (fd_event_map_ s) = 0 /\ pending_event_count_ s = 2 ^ 64 - 1 /\
   forall b, can_stop (with_base b s) = false) /\
  (let s := process_event 5 EPOLLIN (add_event_fiber true 5 EPOLLIN 8 (add_event_fiber true 5 EPOLLIN 7 fresh_manager).2).2 in
   tasks_ (base s) = [mkTask (-1) 8] /\ waits (fd_event_map_ s) = 0 /\ pending_event_count_ s = 1 /\
   forall b, can_stop (with_base b s) = false).
Proof.
  split; cbv zeta; (split_and!; [vm_compute; reflexivity..|]); intros b; unfold can_stop;
    match goal with |- context [pending_event_count_ ?s =? 0] =>
      replace (pending_event_count_ s =? 0) with false by (vm_compute; reflexivity) end;
    by rewrite andb_false_r.
Qed.
