(* ===== verification/IOSections.v ===== *)
(** * The sections of the I/O manager: src/sylar/iomanager.cpp

    IOManager.v has every operation in one step.  [add_event] of the manager and
    [cancel_event] of an event are several sections under [rw_mutex_] and [mutex_]; here
    they are apart.  One after the other they are the operation; with an operation of
    another thread in between, a fiber can be left that nothing wakes.  And the
    destructor, which stops the scheduler and joins its threads. *)

From S2P Require Import Prelude Fiber Timer Scheduler Schedulers IOManager.

Section sections.
Context {K : Type} `{!Epoll K}.
Implicit Types (s : IOManager K) (e : IOEvent).

(** ** [IOEvent::cancel_event]: the fibers are handed over under the lock; then the lock is
    released, and [del_event] takes it again. *)
Definition cancel_trigger (event : Z) (e : IOEvent) (s : IOManager K) : bool * IOEvent * IOManager K :=
  if Z.land (events_ e) event =? 0 then (false, e, s)
  else
    let '(rd, s) := if has event EPOLLIN then context_trigger (read_ e) s else (read_ e, s) in
    let '(wr, s) := if has event EPOLLOUT then context_trigger (write_ e) s else (write_ e, s) in
    (true, mkIOEvent (fd_ e) (events_ e) rd wr, s).

Lemma cancel_event_sections event e s :
  IOEvent_cancel_event event e s =
    let '(ok, e, s) := cancel_trigger event e s in if (ok : bool) then IOEvent_del_event event e s else (false, e, s).
Proof.
  unfold IOEvent_cancel_event, cancel_trigger. destruct (Z.land (events_ e) event =? 0); [done|].
  destruct (has event EPOLLIN); [destruct (context_trigger (read_ e) s) as [rd s1]|];
    (destruct (has event EPOLLOUT); [destruct (context_trigger (write_ e) _) as [wr s2]|]); reflexivity.
Qed.

(** ** [IOManager::add_event] of a descriptor that is not in the table: looked up under the
    read lock, made and registered under no lock of the manager, entered under the write
    lock. *)
Definition add_lookup (fd : Z) (s : IOManager K) : option IOEvent := fd_event_map_ s !! fd.
Definition add_new (add : Z -> IOEvent -> IOManager K -> bool * IOEvent * IOManager K) (fd event : Z) (s : IOManager K) : bool * IOEvent * IOManager K :=
  add event (IOEvent_new fd) s.
Definition add_enter (fd : Z) (ret : bool) (e : IOEvent) (s : IOManager K) : bool * IOManager K :=
  let s := with_map (<[fd := e]> (fd_event_map_ s)) s in
  if ret then (true, count 1 s) else (false, s).

Lemma add_event_sections add fd event s :
  add_lookup fd s = None ->
  add_event_with add fd event s = let '(ret, e, s) := add_new add fd event s in add_enter fd ret e s.
Proof. unfold add_lookup, add_event_with, add_new, add_enter. intros ->. reflexivity. Qed.

(** ** The destructor: [stop] with the [tickle] of the manager; the threads are joined; the
    descriptor of epoll is closed. *)
Definition stop_manager (s : IOManager K) : IOManager K :=
  if bool_decide (state_ (base s) = State.RUNNING) then
    let s := Nat.iter (thread_count_ (base s)) tickle (with_base (set_state_ State.STOPPING (base s)) s) in
    with_base (stop_swap (base s)) s
  else s.
Definition close_manager (close_epoll : K -> K) (s : IOManager K) : option (IOManager K) :=
  if joined (base s) then Some (with_kernel (close_epoll (kernel s)) s) else None.

Lemma tickles_post n s :
  base (Nat.iter n tickle s) = base s /\
  sem_ (Nat.iter n tickle s) = (sem_ s + if (0 <? idle_thread_count_ (base s))%Z then n else 0)%nat.
Proof.
  induction n as [|n [IH1 IH2]].
  - split; [done|]. cbn. by destruct (0 <? _); rewrite Nat.add_0_r.
  - change (Nat.iter (S n) tickle s) with (tickle (Nat.iter n tickle s)). set (s1 := Nat.iter n tickle s) in *.
    unfold tickle. rewrite IH1. destruct (0 <? idle_thread_count_ (base s)); split; cbn; rewrite ?IH1, ?IH2; lia || done.
Qed.
(** Stopping leaves no thread registered and posts once for every thread when one is idle. *)
Lemma stop_manager_posts s :
  state_ (base s) = State.RUNNING ->
  state_ (base (stop_manager s)) = State.STOPPING /\ threads_ (base (stop_manager s)) = [] /\ pcs (base (stop_manager s)) = pcs (base s) /\
  sem_ (stop_manager s) = (sem_ s + if (0 <? idle_thread_count_ (base s))%Z then thread_count_ (base s) else 0)%nat.
Proof.
  intros E. unfold stop_manager. rewrite bool_decide_true by done.
  destruct (tickles_post (thread_count_ (base s)) (with_base (set_state_ State.STOPPING (base s)) s)) as [H1 H2].
  cbn [base with_base sem_ stop_swap set_threads]. rewrite H1. split_and!; [done..|]. exact H2.
Qed.
(** While an event is counted the threads do not leave: [idle] of none of them ends, so the
    destructor waits for them. *)
Lemma pending_never_idle_ends s times now ready :
  pending_event_count_ s <> 0 -> (idle times now ready s).1 = false.
Proof.
  intros Hp. unfold idle, can_stop. rewrite (proj2 (Z.eqb_neq _ _) Hp). by rewrite andb_false_r.
Qed.
End sections.

(** ** Two runs *)

(** The task list after another thread has taken the fibers out. *)
Definition taken_over (s : IOManager Kernel) : IOManager Kernel := with_base (set_tasks [] (base s)) s.

(** The thread in [idle] hands fiber 7 over, which waits for descriptor 5; another thread
    resumes the fiber, which waits for the same event again; now the thread in [idle] goes on
    and deletes that.  [add_event] has returned [true], but the fiber is in no context, the
    descriptor is not in epoll, and the event is counted for ever. *)
Theorem wakeup_lost :
  let s0 := (add_event_fiber true 5 EPOLLIN 7 fresh_manager).2 in
  let s1 := (on_event (cancel_trigger EPOLLIN) 5 s0).2 in
  let '(ok, s2) := add_event_fiber true 5 EPOLLIN 7 (taken_over s1) in
  let s3 := count (-1) (on_event (IOEvent_del_event EPOLLIN) 5 s2).2 in
  tasks_ (base s1) = [mkTask (-1) 7] /\ ok = true /\
  tasks_ (base s3) = [] /\ fd_event_map_ s3 !! 5 = Some (IOEvent_new 5) /\ listed (kernel s3) !! 5 = None /\
  pending_event_count_ s3 = 1.
Proof. vm_compute. split_and!; reflexivity. Qed.

(** Two threads wait for a descriptor that is new, one to read, one to write.  Both find no
    event and make one; the kernel refuses the second, which replaces the first in the table:
    the kernel still reports the descriptor, and the table knows of nobody who waits. *)
Theorem first_event_replaced :
  let s0 := fresh_manager in
  let '(r1, e1, s1) := add_new (IOEvent_add_fiber true 7) 5 EPOLLIN s0 in
  let '(ok1, s2) := add_enter 5 r1 e1 s1 in
  let '(r2, e2, s3) := add_new (IOEvent_add_fiber true 8) 5 EPOLLOUT s2 in
  let '(ok2, s4) := add_enter 5 r2 e2 s3 in
  add_lookup 5 s0 = None /\ ok1 = true /\ ok2 = false /\
  (events_ <$> fd_event_map_ s4 !! 5) = Some 0 /\ (read_ <$> fd_event_map_ s4 !! 5) = Some (mkContext false None) /\
  listed (kernel s4) !! 5 = Some (Z.lor EPOLLET EPOLLIN) /\ pending_event_count_ s4 = 1.
Proof. vm_compute. split_and!; reflexivity. Qed.
