(* ===== verification/Env.v ===== *)
(** * Program options: [Env] of src/sylar/env.{h,cpp}

    The table of the options given on the command line, the help texts and the
    paths of the program.  The target of the link /proc/<pid>/exe and the
    environment of the process are arguments. *)

From stdpp Require Import sorting.
From S2P Require Import Prelude Text.

Record Env := mkEnv {
  args_ : gmap (list Z) (list Z);
  helps_ : gmap (list Z) (list Z);
  exe_ : list Z;
  cwd_ : list Z;
  program_name_ : list Z;
}.
Definition Env_new : Env := mkEnv ∅ ∅ [] [] [].

Definition with_args (v : gmap (list Z) (list Z)) (e : Env) : Env :=
  mkEnv v (helps_ e) (exe_ e) (cwd_ e) (program_name_ e).
Definition with_helps (v : gmap (list Z) (list Z)) (e : Env) : Env :=
  mkEnv (args_ e) v (exe_ e) (cwd_ e) (program_name_ e).

(** The loop over [argv[1..]]. *)
Fixpoint init_args (argv : list (list Z)) (now_key : option (list Z)) (args : gmap (list Z) (list Z))
    : bool * gmap (list Z) (list Z) :=
  match argv with
  | [] => (true, args)
  | arg :: argv =>
      match arg with
      | 45 :: key =>
          if len arg <=? 1 then (false, args)
          else init_args argv (Some key)
                 (match now_key with Some k => <[k := []]> args | None => args end)
      | _ =>
          match now_key with
          | Some k => init_args argv None (<[k := arg]> args)
          | None => (false, args)
          end
      end
  end.

(** [init]: [link] is what [readlink] stores in the 1024 zeroed bytes of [path]. *)
Definition init (link : list Z) (argv : list (list Z)) : M Env bool := λ e,
  if 1024 <=? len link then (Fault BadAccess, e)
  else match argv with
       | [] => (Fault NullDeref, e)
       | program :: argv =>
           let exe := c_str link in
           let cwd := match find_last_of 47 exe with Some i => take i exe | None => exe end ++ str "/" in
           let '(ok, args) := init_args argv None (args_ e) in
           (Ret ok, mkEnv args (helps_ e) exe cwd program)
       end.

Definition set (key val : list Z) (e : Env) : Env := with_args (<[key := val]> (args_ e)) e.
Definition del (key : list Z) (e : Env) : bool * Env :=
  (bool_decide (is_Some (args_ e !! key)), with_args (delete key (args_ e)) e).
Definition has (key : list Z) (e : Env) : bool := bool_decide (is_Some (args_ e !! key)).
Definition get (key default_value : list Z) (e : Env) : list Z := default default_value (args_ e !! key).

Definition set_help (key desc : list Z) (e : Env) : Env := with_helps (<[key := desc]> (helps_ e)) e.
Definition remove_help (key : list Z) (e : Env) : Env := with_helps (delete key (helps_ e)) e.

(** The map is printed in the order of its keys. *)
Definition key_le (a b : list Z * list Z) : Prop := lex_lt b.1 a.1 = false.
#[global] Instance key_le_dec a b : Decision (key_le a b).
Proof. unfold key_le. apply _. Defined.
Definition print_help (e : Env) : list Z :=
  program_name_ e ++ str " Help Manual:" ++ [10] ++ str "[options] ------ usages" ++ [10] ++
  concat ((λ '(key, desc), str "    -" ++ key ++ str " : " ++ desc ++ [10]) <$>
            merge_sort key_le (map_to_list (helps_ e))).

(** [set_env] and [get_env] on the environment of the process. *)
Definition set_env (key value : list Z) (environ : gmap (list Z) (list Z)) : bool * gmap (list Z) (list Z) :=
  if bool_decide (c_str key = []) || bool_decide (61 ∈ c_str key) then (false, environ)
  else (true, <[c_str key := c_str value]> environ).
Definition get_env (key default_value : list Z) (environ : gmap (list Z) (list Z)) : list Z :=
  default default_value (environ !! c_str key).

Definition get_absolute_path (path : list Z) (e : Env) : list Z :=
  match path with
  | [] => str "/"
  | 47 :: _ => path
  | _ => cwd_ e ++ path
  end.

(** ** What a command line means *)

(** An option: its key and the value behind it, if any. *)
Definition option_ok (o : list Z * option (list Z)) : Prop :=
  o.1 <> [] /\ forall v, o.2 = Some v -> head v <> Some 45.
Definition render (opts : list (list Z * option (list Z))) : list (list Z) :=
  concat ((λ '(k, v), (45 :: k) :: option_list v) <$> opts).

(** The options that are entered: a last one without a value is not. *)
Fixpoint entered (opts : list (list Z * option (list Z))) : list (list Z * option (list Z)) :=
  match opts with
  | [] => []
  | [(k, None)] => []
  | o :: opts => o :: entered opts
  end.
Definition enter (args : gmap (list Z) (list Z)) (opts : list (list Z * option (list Z))) : gmap (list Z) (list Z) :=
  foldl (λ m '(k, v), <[k := default [] v]> m) args opts.

Lemma value_not_option arg key : head arg <> Some 45 -> arg <> 45 :: key.
Proof. by intros H ->. Qed.

Lemma init_args_key k argv now args :
  k <> [] -> init_args ((45 :: k) :: argv) now args =
    init_args argv (Some k) (match now with Some k' => <[k' := []]> args | None => args end).
Proof.
  intros Hk. cbn [init_args]. destruct (Z.leb_spec (len (45 :: k)) 1) as [H|]; [|done].
  destruct k; [done|]. cbn in H. lia.
Qed.

Lemma init_args_value v argv now args :
  head v <> Some 45 -> init_args (v :: argv) now args =
    match now with Some k => init_args argv None (<[k := v]> args) | None => (false, args) end.
Proof.
  intros Hv. destruct v as [|c v]; [done|]. cbn [init_args].
  destruct (decide (c = 45)) as [->|Hc]; [done|]. repeat (try done; case_match; try congruence).
Qed.

(** With a pending key, which is entered empty unless it is the last. *)
Lemma init_args_render opts now args :
  Forall option_ok opts ->
  init_args (render opts) now args =
    (true, match now, opts with
           | Some k, _ :: _ => enter (<[k := []]> args) (entered opts)
           | _, _ => enter args (entered opts)
           end).
Proof.
  revert now args. induction opts as [|[k v] opts IH]; intros now args Hok; [by destruct now|].
  apply Forall_cons in Hok as [[Hk Hv] Hok]. cbn [fst snd] in *. unfold render in *. cbn [fmap list_fmap concat].
  cbn [app]. rewrite init_args_key by done. destruct v as [v|].
  - change (option_list (Some v) ++ ?r) with (v :: r). rewrite init_args_value by auto. rewrite IH by done. cbn [entered enter foldl].
    destruct now; by destruct opts.
  - change (option_list None ++ ?r) with r. rewrite IH by done. destruct opts as [|o opts]; [by destruct now|].
    cbn [entered]. destruct now; done.
Qed.

Lemma init_args_sound argv now args args' :
  init_args argv now args = (true, args') ->
  match now with
  | None => exists opts, Forall option_ok opts /\ argv = render opts
  | Some _ => exists v opts, (v <> None \/ opts <> [] \/ argv = []) /\
                (forall w, v = Some w -> head w <> Some 45) /\ Forall option_ok opts /\
                argv = option_list v ++ render opts
  end.
Proof.
  revert now args. induction argv as [|arg argv IH]; intros now args.
  { intros _. destruct now; [exists None, []|exists []]; naive_solver. }
  destruct (decide (head arg = Some 45)) as [Ha|Ha].
  - destruct arg as [|c key]; [done|]. injection Ha as ->.
    destruct (decide (key = [])) as [->|Hk]; [done|]. rewrite init_args_key by done.
    intros H. apply IH in H as (v & opts & _ & Hv & Hok & ->).
    assert (Forall option_ok ((key, v) :: opts)) as Hok' by (constructor; [done|done]).
    destruct now; [exists None, ((key, v) :: opts)|exists ((key, v) :: opts)]; naive_solver.
  - rewrite init_args_value by done. destruct now as [k|]; [|done]. intros H.
    apply IH in H as (opts & Hok & ->). exists (Some arg), opts. split_and!; [by left|naive_solver|done|done].
Qed.

(** ** Claims *)

(** Which command lines are accepted and what they mean: exactly the sequences
    of options, each a key behind a dash with at most one value that does not
    begin with a dash; every option is entered in order, without a value as the
    empty string, later ones over earlier ones, except that an option without
    a value at the end of the line is not entered at all. *)
Theorem options_entered (args : gmap (list Z) (list Z)) (argv : list (list Z)) :
  ((init_args argv None args).1 = true <-> exists opts, Forall option_ok opts /\ argv = render opts) /\
  forall opts, Forall option_ok opts ->
    init_args (render opts) None args = (true, enter args (entered opts)) /\
    (forall k, opts = [(k, None)] -> (init_args (render opts) None args).2 = args).
Proof.
  split.
  - split.
    + destruct (init_args argv None args) as [ok args'] eqn:E. cbn. intros ->. by apply init_args_sound in E.
    + intros (opts & Hok & ->). by rewrite init_args_render.
  - intros opts Hok. rewrite init_args_render by done. split; [by destruct opts|].
    intros k ->. done.
Qed.

Lemma options_entered_witness :
  init_args [str "-c"; str "conf"; str "-d"; str "-v"] None ∅ =
    (true, <[str "d" := []]> (<[str "c" := str "conf"]> ∅)).
Proof.
  destruct (options_entered ∅ []) as [_ H].
  destruct (H [(str "c", Some (str "conf")); (str "d", None); (str "v", None)]) as [E _].
  - repeat constructor; cbn; try discriminate; intros v Hv; injection Hv as <-; discriminate.
  - exact E.
Defined.
