(* ===== verification/FSUtil.v ===== *)
(** * Files and directories: [namespace FSUtil] of src/sylar/util.cpp

    The kernel's side is the class [Files]: [access], [mkdir] and opening a file
    for writing.  [Tree], a set of directories and files, implements it. *)

From S2P Require Import Prelude Text.

Class Files (F : Type) := {
  access : list Z -> F -> bool;                    (** [access(path, F_OK) == 0] *)
  mkdir : list Z -> F -> bool * F;                 (** [mkdir(path, mode) == 0] *)
  open_out : list Z -> bool -> F -> bool * F;      (** [ofstream::open]; whether it appends *)
}.

Section fsutil.
Context {F : Type} `{!Files F}.

Definition get_directory (path : list Z) : list Z :=
  match path with
  | [] => str "."
  | _ =>
      match find_last_of 47 path with
      | None => str "."
      | Some O => str "/"
      | Some pos => take pos path
      end
  end.

Definition file_or_dir_exists (path : list Z) (k : F) : bool := access (c_str path) k.

(** The loop of [make_dir] over the slashes from [pos] on; [tmp] is [path] again
    after each turn. *)
Fixpoint make_dir_loop (fuel : nat) (path : list Z) (pos : option nat) : M F bool := λ k,
  match pos with
  | None => let '(ok, k) := mkdir (c_str path) k in (Ret ok, k)
  | Some i =>
      match fuel with
      | O => (Fault Diverges, k)
      | S fuel =>
          let tmp := <[i := 0]> path in
          if negb (file_or_dir_exists tmp k) then
            match mkdir (c_str tmp) k with
            | (false, k) => (Ret false, k)
            | (true, k) => make_dir_loop fuel path (find_from 47 (S i) path) k
            end
          else make_dir_loop fuel path (find_from 47 (S i) path) k
      end
  end.
Definition make_dir (path : list Z) : M F bool := λ k,
  if access (c_str path) k then (Ret true, k)
  else make_dir_loop (length path) path (find_from 47 1 path) k.

Definition open_for_write (file_name : list Z) (append : bool) : M F bool := λ k,
  let '(ok, k) := open_out file_name append k in
  if ok then (Ret true, k)
  else match make_dir (get_directory file_name) k with
       | (Ret _, k) => let '(ok, k) := open_out file_name append k in (Ret ok, k)
       | (Throw e, k) => (Throw e, k)
       | (Fault f, k) => (Fault f, k)
       end.

(** The loop ends on every path: the slash it looks at moves on. *)
Lemma make_dir_loop_total fuel path pos k :
  match pos with Some i => (i < length path <= fuel + i)%nat | None => True end ->
  exists b k', make_dir_loop fuel path pos k = (Ret b, k').
Proof.
  revert pos k. induction fuel as [|fuel IH]; intros [i|] k Hi; cbn [make_dir_loop].
  - lia.
  - destruct (mkdir (c_str path) k). by eauto.
  - assert (match find_from 47 (S i) path with Some j => (j < length path <= fuel + j)%nat | None => True end) as Hj.
    { destruct (find_from 47 (S i) path) eqn:E; [|done]. apply find_from_bound in E. lia. }
    destruct (negb _); [|by apply IH]. destruct (mkdir _ k) as [[] k']; [by apply IH|by eauto].
  - destruct (mkdir (c_str path) k). by eauto.
Qed.

Lemma make_dir_total path k : exists b k', make_dir path k = (Ret b, k').
Proof.
  unfold make_dir. destruct (access _ k); [by eauto|]. apply make_dir_loop_total.
  destruct (find_from 47 1 path) eqn:E; [|done]. apply find_from_bound in E. lia.
Qed.

Lemma open_for_write_total path append k : exists b k', open_for_write path append k = (Ret b, k').
Proof.
  unfold open_for_write. destruct (open_out path append k) as [[] k1]; [by eauto|].
  destruct (make_dir_total (get_directory path) k1) as (b & k2 & ->). destruct (open_out path append k2). by eauto.
Qed.

End fsutil.

(** ** Paths *)

Definition name_ok (c : list Z) : Prop := c <> [] /\ (47 ∉ c) /\ (0 ∉ c).
(** The names with a slash before each. *)
Definition slashed (cs : list (list Z)) : list Z := concat (cons 47 <$> cs).
(** A path of names without empty ones, from the root or from here. *)
Definition path_of (absolute : bool) (cs : list (list Z)) : list Z :=
  if absolute then slashed cs else drop 1 (slashed cs).
Definition plain (p : list Z) : Prop := exists a cs, cs <> [] /\ Forall name_ok cs /\ p = path_of a cs.

(** mkdir(2) on a tree without links: on success the directory is there and
    nothing else has changed; it succeeds for a path that is not there, in a
    directory that is. *)
Class FilesLaws (F : Type) `{!Files F} : Prop := {
  mkdir_makes : forall p k k', plain p -> mkdir p k = (true, k') ->
    access p k' = true /\ (forall q, access q k = true -> access q k' = true) /\
    forall q, plain q -> access q k' = true -> access q k = true \/ q = p;
  mkdir_works : forall p k, plain p -> access p k = false -> access (get_directory p) k = true ->
    (mkdir p k).1 = true;
  root_there : forall k, access (str ".") k = true /\ access (str "/") k = true;
}.

Lemma slashed_app cs c : slashed (cs ++ [c]) = slashed cs ++ 47 :: c.
Proof. unfold slashed. rewrite fmap_app, concat_app. cbn. by rewrite app_nil_r. Qed.

Lemma path_of_app a cs c : cs <> [] -> path_of a (cs ++ [c]) = path_of a cs ++ 47 :: c.
Proof.
  intros Hne. unfold path_of. rewrite slashed_app. destruct a; [done|].
  destruct cs as [|x cs]; [done|]. unfold slashed. cbn. by rewrite !drop_0.
Qed.

Lemma path_of_one a c : path_of a [c] = if a then 47 :: c else c.
Proof. unfold path_of, slashed. cbn. rewrite app_nil_r. by destruct a. Qed.

Lemma slashed_no_nul cs : Forall name_ok cs -> Forall (λ c, c <> 0) (slashed cs).
Proof.
  induction 1 as [|c cs (_ & _ & Hc) _ IH]; [constructor|]. unfold slashed in *. cbn. constructor; [done|].
  apply Forall_app. split; [|done]. apply Forall_forall. intros x Hx ->. done.
Qed.

Lemma path_of_no_nul a cs : Forall name_ok cs -> Forall (λ c, c <> 0) (path_of a cs).
Proof.
  intros H. apply slashed_no_nul in H. unfold path_of. destruct a; [done|]. by apply Forall_drop.
Qed.

Lemma path_of_nonempty a cs : cs <> [] -> Forall name_ok cs -> path_of a cs <> [].
Proof.
  destruct cs as [|c cs]; [done|]. intros _ [[Hc _] _]%Forall_cons. unfold path_of, slashed. cbn.
  destruct a; [done|]. rewrite drop_0. by destruct c.
Qed.

(** The directory of a path is what is left without its last name. *)
Lemma directory_of a cs c :
  Forall name_ok cs -> name_ok c ->
  get_directory (path_of a (cs ++ [c])) =
    match cs with [] => if a then str "/" else str "." | _ => path_of a cs end.
Proof.
  intros Hcs (Hne & Hs & _). destruct cs as [|x cs].
  - cbn [app]. rewrite path_of_one. unfold get_directory. destruct a; cbn.
    + by rewrite find_last_of_none.
    + destruct c; [done|]. by rewrite find_last_of_none.
  - rewrite path_of_app by done. set (p := path_of a (x :: cs)).
    assert (p <> []) as Hp by (by apply path_of_nonempty).
    unfold get_directory. rewrite find_last_of_app by done. destruct p as [|y p]; [done|].
    change (take (length (y :: p)) ((y :: p) ++ 47 :: c) = y :: p). by rewrite take_app_length.
Qed.

Section make_dir.
Context {F : Type} `{!Files F, !FilesLaws F}.

(** All directories on the way to a path. *)
Definition all_there (a : bool) (cs : list (list Z)) (k : F) : Prop :=
  forall i, (0 < i <= length cs)%nat -> access (path_of a (take i cs)) k = true.

Definition grows (k k' : F) : Prop := forall q, access q k = true -> access q k' = true.

Lemma directory_there a cs c k :
  Forall name_ok cs -> name_ok c -> all_there a cs k ->
  access (get_directory (path_of a (cs ++ [c]))) k = true.
Proof.
  intros Hcs Hc Hall. rewrite directory_of by done. destruct cs as [|x cs].
  - destruct (root_there k). by destruct a.
  - rewrite <- (firstn_all (x :: cs)). apply Hall. cbn. lia.
Qed.

Lemma all_there_snoc a cs c k :
  all_there a cs k -> access (path_of a (cs ++ [c])) k = true -> all_there a (cs ++ [c]) k.
Proof.
  intros Hall Hc i Hi. rewrite length_app in Hi. cbn in Hi. destruct (decide (i <= length cs)%nat).
  - rewrite take_app_le by done. apply Hall. lia.
  - by rewrite take_ge by (rewrite length_app; cbn; lia).
Qed.

Lemma all_there_grows a cs k k' : grows k k' -> all_there a cs k -> all_there a cs k'.
Proof. intros Hg H i Hi. auto. Qed.

Lemma make_one a ds d k :
  Forall name_ok (ds ++ [d]) -> all_there a ds k -> access (path_of a (ds ++ [d])) k = false ->
  exists k', mkdir (path_of a (ds ++ [d])) k = (true, k') /\ grows k k' /\ all_there a (ds ++ [d]) k' /\
    forall q, plain q -> q <> path_of a (ds ++ [d]) -> access q k = false -> access q k' = false.
Proof.
  intros Hok Hall Hno. pose proof Hok as [Hds [Hd _]%Forall_cons]%Forall_app.
  assert (plain (path_of a (ds ++ [d]))) as Hp by (exists a, (ds ++ [d]); split_and!; [by destruct ds|done|done]).
  pose proof (mkdir_works _ k Hp Hno (directory_there a ds d k Hds Hd Hall)) as E.
  destruct (mkdir _ k) as [ok k'] eqn:Em. cbn in E. subst ok.
  destruct (mkdir_makes _ _ _ Hp Em) as (H1 & H2 & H3). exists k'. split_and!; auto.
  - apply all_there_snoc; [by eapply all_there_grows|done].
  - intros q Hq Hne Hnq. destruct (access q k') eqn:Eq; [|done].
    destruct (H3 q Hq Eq); congruence.
Qed.

Lemma path_of_split a cs rest : cs <> [] -> path_of a (cs ++ rest) = path_of a cs ++ slashed rest.
Proof.
  intros Hne. unfold path_of, slashed. rewrite fmap_app, concat_app. destruct a; [done|].
  destruct cs as [|x cs]; [done|]. cbn. by rewrite !drop_0.
Qed.

(** The next slash behind [p ++ "/" ++ c]. *)
Lemma next_slash p c rest :
  47 ∉ c -> find_from 47 (S (length p)) (p ++ 47 :: c ++ slashed rest) =
    match rest with [] => None | _ => Some (length (p ++ 47 :: c)) end.
Proof.
  intros Hc. unfold find_from.
  replace (drop (S (length p)) (p ++ 47 :: c ++ slashed rest)) with (c ++ slashed rest).
  2:{ rewrite (cons_middle 47), app_assoc, drop_app_length'; [done|]. rewrite length_app. cbn. lia. }
  destruct rest as [|r rest].
  - unfold slashed. cbn. by rewrite app_nil_r, find_first_none.
  - unfold slashed. cbn. rewrite find_first_app by done. cbn. rewrite length_app. cbn. f_equal. lia.
Qed.

(** The loop when the names [ds] are there, [d] is next and [rest] still to come. *)
Lemma make_dir_loop_spec a rest fuel : forall ds d k,
  Forall name_ok (ds ++ [d] ++ rest) -> all_there a ds k ->
  access (path_of a (ds ++ [d] ++ rest)) k = false -> (length rest <= fuel)%nat ->
  exists k', make_dir_loop fuel (path_of a (ds ++ [d] ++ rest))
      (match rest with [] => None | _ => Some (length (path_of a (ds ++ [d]))) end) k = (Ret true, k') /\
    grows k k' /\ all_there a (ds ++ [d] ++ rest) k'.
Proof.
  revert fuel. induction rest as [|c rest IH]; intros fuel ds d k Hok Hall Hno Hfuel.
  - cbn [app] in *. destruct (make_one a ds d k Hok Hall Hno) as (k' & E & Hg & Ha & _).
    exists k'. split_and!; [|done|done]. rewrite <- (c_str_id (path_of a (ds ++ [d]))) in E by (by apply path_of_no_nul).
    destruct fuel; cbn [make_dir_loop]; by rewrite E.
  - destruct fuel as [|fuel]; [cbn in Hfuel; lia|]. cbn [length] in Hfuel.
    set (p := path_of a (ds ++ [d])).
    assert (Forall name_ok (ds ++ [d]) /\ name_ok c) as [Hd Hc].
    { rewrite app_assoc in Hok. apply Forall_app in Hok as [H1 H2]. by apply Forall_cons in H2 as [H2 _]. }
    assert (path_of a (ds ++ [d] ++ c :: rest) = p ++ 47 :: c ++ slashed rest) as Epath.
    { rewrite app_assoc, path_of_split by (by destruct ds). done. }
    assert (ds ++ [d] ++ c :: rest = (ds ++ [d]) ++ [c] ++ rest) as Eapp by (by rewrite <- app_assoc).
    assert (p ++ 47 :: c = path_of a ((ds ++ [d]) ++ [c])) as Enext by (rewrite path_of_app; [done|by destruct ds]).
    assert (c_str (<[length p := 0]> (path_of a (ds ++ [d] ++ c :: rest))) = p) as Ec.
    { rewrite Epath, insert_app_r_alt, Nat.sub_diag by lia. cbn. apply c_str_app. by apply path_of_no_nul. }
    cbn [make_dir_loop]. unfold file_or_dir_exists. rewrite !Ec, Epath, next_slash, Enext by apply Hc.
    rewrite <- Epath, Eapp. rewrite Eapp in Hok, Hno.
    destruct (access p k) eqn:Ep; cbn [negb].
    + apply IH; [done|by apply all_there_snoc|done|lia].
    + destruct (make_one a ds d k Hd Hall Ep) as (k1 & E1 & Hg & Ha & Hkeep). fold p in E1, Hkeep. rewrite E1.
      destruct (IH fuel (ds ++ [d]) c k1 Hok Ha) as (k' & E & Hg' & Ha'); [|lia|].
      { apply Hkeep; [|rewrite <- Eapp, Epath|done].
        - eexists a, _. split_and!; [|exact Hok|done]. by destruct ds.
        - intros E. apply (f_equal length) in E. rewrite length_app in E. cbn in E. lia. }
      exists k'. split_and!; [done| |done]. intros q Hq. auto.
Qed.

Lemma first_slash a c rest :
  name_ok c -> find_from 47 1 (path_of a ([c] ++ rest)) =
    match rest with [] => None | _ => Some (length (path_of a [c])) end.
Proof.
  intros (Hne & Hc & _). rewrite path_of_split by done. rewrite path_of_one. destruct a.
  - exact (next_slash [] c rest Hc).
  - destruct c as [|x c]; [done|]. apply not_elem_of_cons in Hc as [_ Hc]. unfold find_from. cbn [app drop].
    rewrite drop_0. destruct rest as [|r rest].
    + unfold slashed. cbn. by rewrite app_nil_r, find_first_none.
    + unfold slashed. cbn. by rewrite find_first_app.
Qed.

Lemma length_path_of a c rest : name_ok c -> (length rest <= length (path_of a ([c] ++ rest)))%nat.
Proof.
  intros _. rewrite path_of_split by done. rewrite length_app.
  assert (length rest <= length (slashed rest))%nat; [|lia].
  induction rest as [|r rest IH]; [done|]. unfold slashed in *. cbn. rewrite length_app. lia.
Qed.

Lemma make_dir_spec a cs k :
  cs <> [] -> Forall name_ok cs -> access (path_of a cs) k = false ->
  exists k', make_dir (path_of a cs) k = (Ret true, k') /\ grows k k' /\ all_there a cs k'.
Proof.
  intros Hne Hok Hno. destruct cs as [|c rest]; [done|]. pose proof Hok as [Hc _]%Forall_cons.
  unfold make_dir. rewrite c_str_id, Hno by (by apply path_of_no_nul).
  change (c :: rest) with ([c] ++ rest). rewrite first_slash by done.
  apply (make_dir_loop_spec a rest _ [] c); [done| |done|by apply length_path_of].
  intros i Hi. cbn in Hi. lia.
Qed.
End make_dir.

(** ** A file system *)

Record Tree := mkTree { dirs : gset (list Z); files : gset (list Z) }.

(** A path with slashes behind it names the same directory. *)
Fixpoint strip_slashes (p : list Z) : list Z :=
  match p with
  | [] => []
  | c :: p => match strip_slashes p with [] => if c =? 47 then [] else [c] | q => c :: q end
  end.
Definition tree_access (p : list Z) (k : Tree) : bool :=
  bool_decide (p = str ".") || bool_decide (p = str "/") || bool_decide (strip_slashes p ∈ dirs k) ||
  bool_decide (p ∈ files k).
#[global] Instance Tree_files : Files Tree := {
  access := tree_access;
  mkdir p k :=
    if tree_access p k || negb (tree_access (get_directory (strip_slashes p)) k) then (false, k)
    else (true, mkTree ({[strip_slashes p]} ∪ dirs k) (files k));
  open_out p _ k :=
    if tree_access (get_directory p) k then (true, mkTree (dirs k) ({[p]} ∪ files k)) else (false, k);
}.

Lemma strip_slashes_name p c : c <> [] -> 47 ∉ c -> strip_slashes (p ++ c) = p ++ c.
Proof.
  intros Hne Hc.
  assert (strip_slashes c = c) as E.
  { induction c as [|x c IH]; [done|]. apply not_elem_of_cons in Hc as [Hx Hc]. cbn.
    destruct c as [|y c]; [cbn; by rewrite (proj2 (Z.eqb_neq x 47)) by congruence|].
    by rewrite IH by done. }
  induction p as [|x p IH]; [done|]. cbn. rewrite IH. destruct (p ++ c) eqn:Ec; [|done].
  apply app_eq_nil in Ec as [_ ->]. done.
Qed.

Lemma strip_slashes_plain p : plain p -> strip_slashes p = p.
Proof.
  intros (a & cs & Hne & Hok & ->). destruct (exists_last Hne) as (ds & d & ->).
  apply Forall_app in Hok as [_ [(H1 & H2 & _) _]%Forall_cons]. destruct ds as [|x ds].
  - cbn [app]. rewrite path_of_one. destruct a; [by apply (strip_slashes_name [47])|by apply (strip_slashes_name [])].
  - rewrite path_of_app by done. rewrite cons_middle, app_assoc. by apply strip_slashes_name.
Qed.

#[global] Instance Tree_laws : FilesLaws Tree.
Proof.
  split.
  - intros p k k' Hp. cbn. rewrite (strip_slashes_plain p Hp).
    destruct (_ || _); [done|]. intros [= <-]. unfold tree_access. cbn. split_and!.
    + rewrite (strip_slashes_plain p Hp), (bool_decide_eq_true_2 (p ∈ _)) by set_solver. by rewrite !orb_true_r.
    + intros q. rewrite !orb_true_iff, !bool_decide_eq_true. set_solver.
    + intros q Hq. rewrite (strip_slashes_plain q Hq), !orb_true_iff, !bool_decide_eq_true. set_solver.
  - intros p k Hp Hno Hd. cbn in *. rewrite (strip_slashes_plain p Hp), Hno, Hd. done.
  - intros k. done.
Qed.

(** ** Claims *)

(** [make_dir] makes a directory that is not there together with all the
    directories above it, whichever of them exist already, and returns [true];
    one that is there is left alone.  A slash at the end of the path makes it
    return [false] although the directory has been made. *)
Theorem make_dir_makes_all :
  (forall (F : Type) (HF : Files F) (HL : FilesLaws F) (a : bool) (cs : list (list Z)) (k : F),
     cs <> [] -> Forall name_ok cs ->
     exists k', make_dir (path_of a cs) k = (Ret true, k') /\ access (path_of a cs) k' = true /\
       (access (path_of a cs) k = true -> k' = k) /\
       (access (path_of a cs) k = false -> forall i, (0 < i <= length cs)%nat -> access (path_of a (take i cs)) k' = true) /\
       forall q, access q k = true -> access q k' = true) /\
  exists k', make_dir (str "logs/web/") (mkTree ∅ ∅) = (Ret false, k') /\ access (str "logs/web") k' = true.
Proof.
  split.
  - intros F HF HL a cs k Hne Hok. destruct (access (path_of a cs) k) eqn:Ek.
    + exists k. unfold make_dir. rewrite c_str_id, Ek by (by apply path_of_no_nul). done.
    + destruct (make_dir_spec a cs k Hne Hok Ek) as (k' & E & Hg & Ha). exists k'. split_and!; auto; [|done].
      rewrite <- (firstn_all cs) at 1. apply Ha. destruct cs; [done|]. cbn. lia.
  - eexists. split; vm_compute; reflexivity.
Qed.

Lemma make_dir_makes_all_witness :
  exists k', make_dir (str "/var/log/web") (mkTree {[str "/var"]} ∅) = (Ret true, k') /\
    access (str "/var/log/web") k' = true.
Proof.
  destruct make_dir_makes_all as [H _].
  destruct (H Tree Tree_files Tree_laws true [str "var"; str "log"; str "web"] (mkTree {[str "/var"]} ∅))
    as (k' & E & Ha & _).
  - discriminate.
  - repeat constructor; try discriminate; intros Hx; vm_compute in Hx;
      repeat (apply elem_of_cons in Hx as [Hx|Hx]; [discriminate|]); inversion Hx.
  - exists k'. split; [exact E|exact Ha].
Defined.
