(* ===== verification/LogFormatter.v ===== *)
(** * Log levels, events and formatters: src/sylar/log.h and log.cpp

    [init_items] is the pattern parser with its index into the pattern; a
    one-character-at-a-time automaton says what it computes. *)

From S2P Require Import Prelude Text.

(** ** [LogLevel] *)

Inductive Level := UNKNOWN | DEBUG | INFO | WARN | ERROR | FATAL | UNUSED.
#[global] Instance Level_eq_dec : EqDecision Level.
Proof. solve_decision. Defined.

(** The values of the enumeration, which [<] and [<=] compare. *)
Definition level_value (l : Level) : Z :=
  match l with
  | UNKNOWN => 0 | DEBUG => 1 | INFO => 2 | WARN => 3 | ERROR => 4 | FATAL => 5 | UNUSED => 6
  end.
Definition level_lt (a b : Level) : bool := level_value a <? level_value b.

Definition to_string (l : Level) : list Z :=
  match l with
  | DEBUG => str "DEBUG" | INFO => str "INFO" | WARN => str "WARN" | ERROR => str "ERROR"
  | FATAL => str "FATAL" | UNUSED => str "UNUSED" | UNKNOWN => str "UNKNOWN"
  end.
Definition from_string (s : list Z) : Level :=
  let named u l := bool_decide (s = str u) || bool_decide (s = str l) in
  if named "DEBUG"%string "debug"%string then DEBUG
  else if named "INFO"%string "info"%string then INFO
  else if named "WARN"%string "warn"%string then WARN
  else if named "ERROR"%string "error"%string then ERROR
  else if named "FATAL"%string "fatal"%string then FATAL
  else if named "UNUSED"%string "unused"%string then UNUSED
  else UNKNOWN.

(** ** [LogEvent] *)

Record LogEvent := mkLogEvent {
  file_name_ : list Z;
  line_ : Z;
  elapse_ : Z;
  fiber_id_ : Z;
  thread_id_ : Z;
  time_ : Z;
  ss_ : list Z;
  thread_name_ : list Z;
}.
(** The constructor; the [fid_t] is an [int] and [fiber_id_] a [uint32_t]. *)
Definition LogEvent_new (file : list Z) (line elapse thread_id fiber_id time : Z) : LogEvent :=
  mkLogEvent file line elapse (fiber_id mod 2 ^ 32) thread_id time [] [].
Definition get_content (e : LogEvent) : list Z := ss_ e.
(** [get_ss() << s]. *)
Definition stream_in (s : list Z) (e : LogEvent) : LogEvent :=
  mkLogEvent (file_name_ e) (line_ e) (elapse_ e) (fiber_id_ e) (thread_id_ e) (time_ e) (ss_ e ++ s)
    (thread_name_ e).
(** [set_content]; [out] is what vasprintf(3) makes of its arguments, [None] for -1. *)
Definition set_content (out : option (list Z)) (e : LogEvent) : bool * LogEvent :=
  (true, match out with Some s => stream_in s e | None => e end).

(** ** [FormatterItem] and its subclasses *)

Inductive FormatterItem :=
  | StringItem (s : list Z) | MessageItem | LevelItem | ElapseItem | NameItem | ThreadIdItem | FiberIdItem
  | ThreadNameItem | FileNameItem | DateTimeItem (format : list Z) | LineItem | NewLineItem | TabItem.
#[global] Instance FormatterItem_eq_dec : EqDecision FormatterItem.
Proof. solve_decision. Defined.

Definition default_date : list Z := str "%Y-%m-%d %H:%M:%S".
(** The constructor of [DateTimeFormatterItem]. *)
Definition DateTimeItem_new (format : list Z) : FormatterItem :=
  DateTimeItem (if bool_decide (format = []) then default_date else format).

(** [<<] of an [int] and of a [std::thread::id]. *)
Definition show_int (n : Z) : list Z := if n <? 0 then 45 :: decimal (- n) else decimal n.
Definition show_thread_id (id : Z) : list Z :=
  if id =? 0 then str "thread::id of a non-executing thread" else decimal id.

Section item.
(** What localtime_r(3) and strftime(3) leave in the buffer. *)
Context (strftime : list Z -> Z -> list Z).

Definition item_format (name : list Z) (level : Level) (e : LogEvent) (i : FormatterItem) : list Z :=
  match i with
  | StringItem s => s
  | MessageItem => get_content e
  | LevelItem => to_string level
  | ElapseItem => decimal (elapse_ e)
  | NameItem => name
  | ThreadIdItem => show_thread_id (thread_id_ e)
  | FiberIdItem => decimal (fiber_id_ e)
  | ThreadNameItem => thread_name_ e
  | FileNameItem => file_name_ e
  | DateTimeItem f => strftime (c_str f) (time_ e)
  | LineItem => show_int (line_ e)
  | NewLineItem => [10]
  | TabItem => [9]
  end.
End item.

(** ** [LogFormatter] *)

Definition is_legal_item (c : Z) : bool := bool_decide (c ∈ str "mprctFfNdlnT").

(** The [switch] of [init_items]. *)
Definition make_item (c : Z) (format_str : list Z) : option FormatterItem :=
  if c =? 109 then Some MessageItem
  else if c =? 112 then Some LevelItem
  else if c =? 114 then Some ElapseItem
  else if c =? 99 then Some NameItem
  else if c =? 116 then Some ThreadIdItem
  else if c =? 70 then Some FiberIdItem
  else if c =? 102 then Some FileNameItem
  else if c =? 78 then Some ThreadNameItem
  else if c =? 100 then Some (DateTimeItem_new format_str)
  else if c =? 108 then Some LineItem
  else if c =? 110 then Some NewLineItem
  else if c =? 84 then Some TabItem
  else None.

(** [pattern_[idx]]; the terminating NUL at the end. *)
Definition at_ (p : list Z) (idx : nat) : Z := default 0 (p !! idx).

(** [while(++idx < len && pattern_[idx] != '}')]: the index it stops at and the
    format it has read.  [None] is a loop that has not stopped. *)
Fixpoint read_format (fuel : nat) (p : list Z) (idx : nat) (acc : list Z) : option (nat * list Z) :=
  match fuel with
  | O => None
  | S fuel =>
      let idx := S idx in
      if bool_decide (idx < length p)%nat && negb (at_ p idx =? 125)
      then read_format fuel p idx (acc ++ [at_ p idx])
      else Some (idx, acc)
  end.

(** The text read so far becomes an item. *)
Definition flush (normal : list Z) (items : list FormatterItem) : list FormatterItem :=
  if bool_decide (normal = []) then items else items ++ [StringItem normal].

(** The loop of [init_items]: [Some None] is an illegal pattern. *)
Fixpoint init_loop (fuel : nat) (p : list Z) (idx : nat) (normal : list Z) (items : list FormatterItem)
    : option (option (list FormatterItem)) :=
  if bool_decide (idx < length p)%nat then
    match fuel with
    | O => None
    | S fuel =>
        if negb (at_ p idx =? 37) then init_loop fuel p (S idx) (normal ++ [at_ p idx]) items
        else if bool_decide (S idx < length p)%nat && (at_ p (S idx) =? 37) then
          init_loop fuel p (S (S idx)) (normal ++ [37]) items
        else
          let idx := S idx in
          if bool_decide (length p <= idx)%nat || negb (is_legal_item (at_ p idx)) then Some None
          else
            let item_type := at_ p idx in
            let add (idx : nat) (format_str : list Z) :=
              init_loop fuel p (S idx) [] (flush normal items ++ option_list (make_item item_type format_str)) in
            if bool_decide (S idx < length p)%nat && (at_ p (S idx) =? 123) then
              match read_format (S (length p)) p (S idx) [] with
              | None => None
              | Some (idx, format_str) =>
                  if negb (at_ p idx =? 125) then Some None else add idx format_str
              end
            else add idx []
    end
  else Some (Some (flush normal items)).
Definition init_items (p : list Z) : option (option (list FormatterItem)) := init_loop (length p) p 0 [] [].

Record LogFormatter := mkLogFormatter {
  legal_pattern_ : bool;
  pattern_ : list Z;
  items_ : list FormatterItem;
}.
Definition default_pattern : list Z :=
  str "%d{%Y-%m-%d %H:%M:%S} [%p][%c] thread:%t %N fiber:%F %f:%l%T%m%n".
Definition LogFormatter_new (pattern : list Z) : option LogFormatter :=
  let pattern := if bool_decide (pattern = []) then default_pattern else pattern in
  match init_items pattern with
  | None => None
  | Some None => Some (mkLogFormatter false [] [])
  | Some (Some items) => Some (mkLogFormatter true pattern items)
  end.

(** What [format] writes to the stream. *)
Definition format (strftime : list Z -> Z -> list Z) (f : LogFormatter) (name : list Z) (level : Level)
    (e : LogEvent) : list Z :=
  concat (item_format strftime name level e <$> items_ f).

(** ** The parser as an automaton *)

(** Where one is in the pattern: in text, after a ['%'], after ['%c'], or inside
    the braces of ['%c{...}']. *)
Inductive scan :=
  | InText (normal : list Z) (items : list FormatterItem)
  | Percent (normal : list Z) (items : list FormatterItem)
  | InItem (c : Z) (items : list FormatterItem)
  | InBrace (c : Z) (fmt : list Z) (items : list FormatterItem)
  | Bad.

Definition scan_text (normal : list Z) (items : list FormatterItem) (x : Z) : scan :=
  if x =? 37 then Percent normal items else InText (normal ++ [x]) items.
Definition add_item (c : Z) (fmt : list Z) (items : list FormatterItem) : list FormatterItem :=
  items ++ option_list (make_item c fmt).
Definition scan_step (s : scan) (x : Z) : scan :=
  match s with
  | InText normal items => scan_text normal items x
  | Percent normal items =>
      if x =? 37 then InText (normal ++ [37]) items
      else if is_legal_item x then InItem x (flush normal items) else Bad
  | InItem c items => if x =? 123 then InBrace c [] items else scan_text [] (add_item c [] items) x
  | InBrace c fmt items => if x =? 125 then InText [] (add_item c fmt items) else InBrace c (fmt ++ [x]) items
  | Bad => Bad
  end.
Definition scan_end (s : scan) : option (list FormatterItem) :=
  match s with
  | InText normal items => Some (flush normal items)
  | InItem c items => Some (add_item c [] items)
  | _ => None
  end.
Definition scan_pattern (p : list Z) : option (list FormatterItem) := scan_end (foldl scan_step (InText [] []) p).

Lemma scan_bad p : foldl scan_step Bad p = Bad.
Proof. by induction p. Qed.

(** Past ['%c'] without braces the item is added and the text goes on. *)
Lemma scan_item c items p :
  head p <> Some 123 ->
  scan_end (foldl scan_step (InItem c items) p) = scan_end (foldl scan_step (InText [] (add_item c [] items)) p).
Proof.
  destruct p as [|x p]; [done|]. cbn. intros Hx. by destruct (Z.eqb_spec x 123) as [->|].
Qed.

Lemma drop_at p idx x s :
  drop idx p = x :: s -> at_ p idx = x /\ (idx < length p)%nat /\ drop (S idx) p = s.
Proof.
  intros E. assert (p !! idx = Some x) as El.
  { rewrite <- (Nat.add_0_r idx), <- lookup_drop, E. done. }
  unfold at_. rewrite El. split_and!; [done|by eapply lookup_lt_Some|].
  rewrite <- Nat.add_1_r, <- drop_drop, E. done.
Qed.

Lemma drop_end p idx : drop idx p = [] -> at_ p idx = 0 /\ (length p <= idx)%nat.
Proof.
  intros E. assert (length p <= idx)%nat as Hl.
  { pose proof (f_equal length E) as El. rewrite length_drop in El. cbn in El. lia. }
  unfold at_. by rewrite lookup_ge_None_2.
Qed.

(** Reading a format stops at the closing brace or at the end of the pattern. *)
Lemma read_format_scan fuel p idx acc c items :
  (length (drop (S idx) p) < fuel)%nat ->
  exists j fmt, read_format fuel p idx acc = Some (j, fmt) /\ (idx < j)%nat /\
  foldl scan_step (InBrace c acc items) (drop (S idx) p) =
    (if at_ p j =? 125 then foldl scan_step (InText [] (add_item c fmt items)) (drop (S j) p)
     else InBrace c fmt items).
Proof.
  revert idx acc. induction fuel as [|fuel IH]; intros idx acc Hf; [lia|]. cbn [read_format].
  destruct (drop (S idx) p) as [|x s] eqn:E.
  { destruct (drop_end _ _ E) as [Ea Hl]. rewrite bool_decide_eq_false_2 by lia. cbn.
    exists (S idx), acc. rewrite Ea. split_and!; [done|lia|done]. }
  destruct (drop_at _ _ _ _ E) as (Ea & Hl & Es). rewrite bool_decide_eq_true_2 by done. rewrite Ea. cbn [foldl scan_step andb].
  destruct (Z.eqb_spec x 125) as [->|Hx]; cbn [negb].
  - exists (S idx), acc. rewrite Ea, Es. split_and!; [done|lia|done].
  - destruct (IH (S idx) (acc ++ [x])) as (j & fmt & E1 & Hj & E2); [rewrite Es; cbn in Hf; lia|].
    exists j, fmt. rewrite Es in E2. split_and!; [done|lia|done].
Qed.

Lemma init_loop_scan fuel p idx normal items :
  (length (drop idx p) <= fuel)%nat ->
  init_loop fuel p idx normal items = Some (scan_end (foldl scan_step (InText normal items) (drop idx p))).
Proof.
  revert idx normal items. induction fuel as [|fuel IH]; intros idx normal items Hf; cbn [init_loop].
  { destruct (drop idx p) eqn:E; [|cbn in Hf; lia]. destruct (drop_end _ _ E). by rewrite bool_decide_eq_false_2 by lia. }
  destruct (drop idx p) as [|x s] eqn:E.
  { destruct (drop_end _ _ E). by rewrite bool_decide_eq_false_2 by lia. }
  destruct (drop_at _ _ _ _ E) as (Ea & Hl & Es). rewrite bool_decide_eq_true_2 by done. rewrite Ea.
  cbn [foldl scan_step]. unfold scan_text. cbn in Hf.
  destruct (Z.eqb_spec x 37) as [->|Hx]; cbn [negb]; [|rewrite IH, Es by (rewrite Es; lia); done].
  destruct s as [|y s].
  { destruct (drop_end _ _ Es). by rewrite bool_decide_eq_false_2, bool_decide_eq_true_2 by lia. }
  destruct (drop_at _ _ _ _ Es) as (Ey & Hy & Ess). rewrite bool_decide_eq_true_2, bool_decide_eq_false_2 by lia.
  rewrite Ey. cbn [foldl scan_step andb orb]. cbn in Hf.
  destruct (Z.eqb_spec y 37) as [->|Hy37]; [rewrite IH, Ess by (rewrite Ess; lia); done|].
  destruct (is_legal_item y); cbn [negb]; [|by rewrite scan_bad].
  destruct (bool_decide (S (S idx) < length p)%nat && (at_ p (S (S idx)) =? 123)) eqn:Eb.
  - apply andb_true_iff in Eb as [Hl2%bool_decide_eq_true Ez%Z.eqb_eq].
    destruct s as [|z s]; [destruct (drop_end _ _ Ess); lia|].
    destruct (drop_at _ _ _ _ Ess) as (Ez' & _ & Es3). rewrite Ez in Ez'. subst z. cbn [foldl scan_step].
    rewrite Z.eqb_refl. cbn in Hf.
    destruct (read_format_scan (S (length p)) p (S (S idx)) [] y (flush normal items)) as (j & fmt & -> & Hj & E2).
    { rewrite length_drop. lia. }
    rewrite Es3 in E2. rewrite E2. destruct (at_ p j =? 125); [|done]. cbn [negb].
    apply IH. rewrite length_drop. pose proof (f_equal length Es3) as El. rewrite length_drop in El. lia.
  - rewrite IH, Ess by (rewrite Ess; lia). rewrite scan_item; [done|]. intros Eh. destruct s as [|z s]; [done|].
    cbn in Eh. injection Eh as ->. destruct (drop_at _ _ _ _ Ess) as (Ez & Hz & _).
    by rewrite Ez, bool_decide_eq_true_2 in Eb by done.
Qed.

Lemma init_items_scan p : init_items p = Some (scan_pattern p).
Proof. unfold init_items, scan_pattern. by rewrite init_loop_scan by (rewrite length_drop; lia). Qed.

Lemma LogFormatter_new_total p : exists f, LogFormatter_new p = Some f.
Proof. unfold LogFormatter_new. rewrite init_items_scan. destruct (scan_pattern _); eauto. Qed.

(** (C14) The constructor terminates on every pattern, and its parser is the
    automaton that reads the pattern one character at a time: a pattern is illegal
    exactly when it has a ['%'] before a character that names no item, a ['%'] at
    its end, or an open brace that is never closed.  The formatter of an illegal
    pattern has no items and no pattern; an empty pattern is the default one. *)
Theorem formatter_of_pattern (pattern : list Z) :
  LogFormatter_new pattern = Some
    (let p := if bool_decide (pattern = []) then default_pattern else pattern in
     match scan_pattern p with
     | Some items => mkLogFormatter true p items
     | None => mkLogFormatter false [] []
     end).
Proof. unfold LogFormatter_new. rewrite init_items_scan. cbn zeta. by destruct (scan_pattern _). Qed.

(** ** Printing a formatter's items *)

Definition escape (s : list Z) : list Z := s ≫= λ c, if c =? 37 then [37; 37] else [c].
Definition item_pattern (i : FormatterItem) : list Z :=
  match i with
  | StringItem s => escape s
  | DateTimeItem f => [37; 100; 123] ++ f ++ [125]
  | MessageItem => str "%m{}" | LevelItem => str "%p{}" | ElapseItem => str "%r{}" | NameItem => str "%c{}"
  | ThreadIdItem => str "%t{}" | FiberIdItem => str "%F{}" | ThreadNameItem => str "%N{}"
  | FileNameItem => str "%f{}" | LineItem => str "%l{}" | NewLineItem => str "%n{}" | TabItem => str "%T{}"
  end.
Definition pattern_of (items : list FormatterItem) : list Z := concat (item_pattern <$> items).

Definition is_string (i : FormatterItem) : bool := match i with StringItem _ => true | _ => false end.
Definition item_ok (i : FormatterItem) : bool :=
  match i with
  | StringItem s => negb (bool_decide (s = []))
  | DateTimeItem f => negb (bool_decide (f = [])) && bool_decide (125 ∉ f)
  | _ => true
  end.
(** Texts are not empty and not next to each other; a date format can stand in braces. *)
Fixpoint normal_items (l : list FormatterItem) : bool :=
  match l with
  | [] => true
  | i :: l => item_ok i && negb (is_string i && from_option is_string false (head l)) && normal_items l
  end.

Lemma scan_escape n s items : foldl scan_step (InText n items) (escape s) = InText (n ++ s) items.
Proof.
  revert n. induction s as [|c s IH]; intros n; [cbn; by rewrite app_nil_r|].
  unfold escape in *. cbn. rewrite foldl_app.
  destruct (Z.eqb_spec c 37) as [->|Hc]; cbn; unfold scan_text; cbn.
  - rewrite IH. by rewrite <- app_assoc.
  - rewrite (proj2 (Z.eqb_neq c 37)) by done. rewrite IH. by rewrite <- app_assoc.
Qed.

Lemma scan_brace c fmt acc items :
  125 ∉ fmt -> foldl scan_step (InBrace c acc items) fmt = InBrace c (acc ++ fmt) items.
Proof.
  revert acc. induction fmt as [|x fmt IH]; intros acc Hn; cbn; [by rewrite app_nil_r|].
  apply not_elem_of_cons in Hn as [Hx Hn]. rewrite (proj2 (Z.eqb_neq x 125)) by congruence.
  rewrite IH by done. by rewrite <- app_assoc.
Qed.

Lemma scan_directive n i items :
  is_string i = false -> item_ok i = true ->
  foldl scan_step (InText n items) (item_pattern i) = InText [] (flush n items ++ [i]).
Proof.
  intros Hs Hok. destruct i as [| | | | | | | | |f| | |]; try done.
  cbn in Hok. apply andb_true_iff in Hok as [Hf Hb%bool_decide_eq_true].
  cbn [item_pattern]. rewrite !foldl_app.
  replace (foldl scan_step (InText n items) [37; 100; 123]) with (InBrace 100 [] (flush n items)) by done.
  rewrite scan_brace by done. cbn.
  unfold add_item, make_item, DateTimeItem_new. cbn. by destruct (bool_decide (f = [])).
Qed.

Lemma scan_items n items l :
  normal_items l = true -> (n = [] \/ from_option is_string false (head l) = false) ->
  scan_end (foldl scan_step (InText n items) (pattern_of l)) = Some (flush n items ++ l).
Proof.
  revert n items. induction l as [|i l IH]; intros n items Hl Hn.
  { cbn. by rewrite app_nil_r. }
  cbn in Hl. apply andb_true_iff in Hl as [[Hok Hadj]%andb_true_iff Hl].
  unfold pattern_of. cbn. rewrite foldl_app. fold (pattern_of l).
  destruct (is_string i) eqn:Ei.
  - destruct i as [s| | | | | | | | | | | |]; try done. cbn in Hn. destruct Hn as [->|]; [|done].
    cbn [item_pattern]. rewrite scan_escape. cbn [app]. cbn in Hadj.
    rewrite IH by (try done; right; by destruct (from_option is_string false (head l))).
    cbn in Hok. unfold flush. cbn. by destruct (bool_decide (s = [])); [|rewrite <- app_assoc].
  - rewrite scan_directive, IH by auto. unfold flush at 1. cbn. by rewrite <- app_assoc.
Qed.

Lemma normal_snoc l i :
  normal_items l = true -> item_ok i = true ->
  is_string i && from_option is_string false (last l) = false -> normal_items (l ++ [i]) = true.
Proof.
  induction l as [|j l IH]; intros Hl Hi Ha; cbn in *; [by rewrite Hi; cbn; rewrite andb_false_r|].
  apply andb_true_iff in Hl as [[Hj Hadj]%andb_true_iff Hl]. rewrite Hj. cbn. destruct l as [|k l].
  - cbn in *. rewrite Hi, andb_false_r. cbn. by rewrite (andb_comm (is_string j)), Ha.
  - cbn [head app] in *. rewrite Hadj. cbn. by apply IH.
Qed.

Lemma flush_normal n l :
  normal_items l = true -> from_option is_string false (last l) = false -> normal_items (flush n l) = true.
Proof.
  intros Hl Ha. unfold flush. destruct (bool_decide_reflect (n = [])); [done|].
  apply normal_snoc; [done| |by rewrite Ha, andb_false_r]. cbn. by rewrite bool_decide_eq_false_2.
Qed.

Lemma make_item_ok c fmt i :
  make_item c fmt = Some i -> 125 ∉ fmt -> is_string i = false /\ item_ok i = true.
Proof.
  unfold make_item. intros H Hn. repeat case_match; simplify_eq; try done.
  unfold DateTimeItem_new. cbn. destruct (bool_decide_reflect (fmt = [])) as [|Hf]; [done|].
  by rewrite bool_decide_eq_false_2, bool_decide_eq_true_2.
Qed.

Definition scan_inv (s : scan) : Prop :=
  match s with
  | InText n l | Percent n l => normal_items l = true /\ from_option is_string false (last l) = false
  | InItem c l => normal_items l = true /\ is_legal_item c = true
  | InBrace c fmt l => normal_items l = true /\ is_legal_item c = true /\ 125 ∉ fmt
  | Bad => True
  end.

Lemma legal_makes c fmt : is_legal_item c = true -> exists i, make_item c fmt = Some i.
Proof.
  unfold is_legal_item. rewrite bool_decide_eq_true. intros H.
  repeat (apply elem_of_cons in H as [->|H]; [eexists; reflexivity|]). by apply elem_of_nil in H.
Qed.

Lemma add_item_inv c fmt l :
  normal_items l = true -> is_legal_item c = true -> 125 ∉ fmt ->
  normal_items (add_item c fmt l) = true /\ from_option is_string false (last (add_item c fmt l)) = false.
Proof.
  intros Hl Hc Hn. unfold add_item. destruct (legal_makes c fmt Hc) as [i Ei]. rewrite Ei. cbn.
  destruct (make_item_ok _ _ _ Ei Hn) as [Hs Hok]. rewrite last_snoc. cbn.
  split; [apply normal_snoc; [done..|by rewrite Hs]|done].
Qed.

Lemma scan_step_inv s x : scan_inv s -> scan_inv (scan_step s x).
Proof.
  destruct s as [n l|n l|c l|c fmt l|]; cbn; unfold scan_text.
  - by intros [? ?]; destruct (x =? 37).
  - intros [? ?]. destruct (x =? 37); [done|]. destruct (is_legal_item x) eqn:E; cbn; [|done].
    split; [by apply flush_normal|done].
  - intros [? ?]. destruct (x =? 123); cbn; [split_and!; [done..|by apply not_elem_of_nil]|].
    assert (125 ∉ ([] : list Z)) as Hn by by apply not_elem_of_nil.
    destruct (add_item_inv c [] l ltac:(done) ltac:(done) Hn) as [? ?]. by destruct (x =? 37).
  - intros (? & ? & ?). destruct (Z.eqb_spec x 125); cbn; [by apply add_item_inv|].
    split_and!; [done..|]. rewrite not_elem_of_app, list_elem_of_singleton. by intuition.
  - done.
Qed.

Lemma scan_pattern_normal p l : scan_pattern p = Some l -> normal_items l = true.
Proof.
  unfold scan_pattern. intros E. assert (scan_inv (foldl scan_step (InText [] []) p)) as Hinv.
  { assert (scan_inv (InText [] [])) as H0 by done. revert H0. generalize (InText [] []). clear E.
    induction p as [|x p IH]; intros s Hs; [done|]. cbn. apply IH. by apply scan_step_inv. }
  destruct (foldl _ _ _) as [n l'|n l'|c l'|c fmt l'|]; cbn in E, Hinv; simplify_eq;
    destruct Hinv as [? ?].
  - by apply flush_normal.
  - apply add_item_inv; [done..|by apply not_elem_of_nil].
Qed.

(** (C15) A formatter's items can be printed as a pattern and read back: parsing
    the pattern printed for a list of items gives exactly those items, where texts
    are not empty and not adjacent and a date format fits in braces; and every
    legal pattern parses to such a list, so printing loses nothing. *)
Theorem pattern_round_trip :
  (forall l, normal_items l = true -> init_items (pattern_of l) = Some (Some l)) /\
  (forall p l, init_items p = Some (Some l) ->
     normal_items l = true /\ init_items (pattern_of l) = Some (Some l)).
Proof.
  assert (forall l, normal_items l = true -> init_items (pattern_of l) = Some (Some l)) as H.
  { intros l Hl. rewrite init_items_scan. unfold scan_pattern. rewrite scan_items by auto. done. }
  split; [done|]. intros p l Hp. rewrite init_items_scan in Hp. injection Hp as Hp.
  apply scan_pattern_normal in Hp. auto.
Qed.

Lemma pattern_round_trip_witness :
  init_items (str "%d{%H}{50%%%n") = Some (Some [DateTimeItem (str "%H"); StringItem (str "{50%"); NewLineItem]) /\
  init_items (pattern_of [DateTimeItem (str "%H"); StringItem (str "{50%"); NewLineItem]) =
    Some (Some [DateTimeItem (str "%H"); StringItem (str "{50%"); NewLineItem]).
Proof.
  split; [vm_compute; reflexivity|]. apply (proj1 pattern_round_trip). vm_compute. reflexivity.
Defined.

Lemma from_to_string l : from_string (to_string l) = l.
Proof. by destruct l. Qed.
