(* ===== verification/Yaml.v ===== *)
(** * YAML nodes and the converters of src/sylar/config.h

    yaml-cpp is the class [Yaml] over its data model, [Node]; a [Converter] is the
    pair [Converter<std::string, T>], [Converter<T, std::string>] of a type. *)

From Stdlib Require Import Sorted.
From S2P Require Import Prelude Text.

(** A node; a map's keys are what [it->first.Scalar()] shows of them. *)
Inductive Node :=
  | Null
  | Scalar (s : list Z)
  | Seq (l : list Node)
  | Map (l : list (list Z * Node)).

Class Yaml := {
  Load : list Z -> option Node;     (** [YAML::Load]; [None] when it throws *)
  emit : Node -> list Z;            (** [ss << node] *)
  index : Node -> nat -> Node;      (** [node[i]] *)
}.

(** [node.size()], and the pairs from [begin()] to [end()]; the elements of a
    sequence have no [first], and asking for one throws. *)
Definition size (n : Node) : nat :=
  match n with Null | Scalar _ => O | Seq l => length l | Map l => length l end.
Definition members (n : Node) : option (list (list Z * Node)) :=
  match n with
  | Null | Scalar _ | Seq [] => Some []
  | Seq _ => None
  | Map l => Some l
  end.

(** [None] is an exception. *)
Class Converter (T : Type) := {
  from_str : list Z -> option T;
  to_str : T -> option (list Z);
}.

Section converters.
Context {Y : Yaml} {T : Type} {Cv : Converter T}.

(** The loop [for(i = 0; i < node.size(); ++i)] from [i], [n] turns to go. *)
Fixpoint convert_loop (add : T -> list T -> list T) (node : Node) (i n : nat) (acc : list T) : option (list T) :=
  match n with
  | O => Some acc
  | S n => match from_str (emit (index node i)) with
           | Some x => convert_loop add node (S i) n (add x acc)
           | None => None
           end
  end.
Definition convert_seq (add : T -> list T -> list T) (v : list Z) : option (list T) :=
  match Load v with
  | Some node => convert_loop add node 0 (size node) []
  | None => None
  end.
(** The loop that pushes [YAML::Load(convert(i))] on a sequence node. *)
Fixpoint push_nodes (v : list T) (acc : list Node) : option (list Node) :=
  match v with
  | [] => Some acc
  | i :: v => match to_str i ≫= Load with
              | Some n => push_nodes v (acc ++ [n])
              | None => None
              end
  end.
Definition seq_to_string (v : list T) : option (list Z) := emit ∘ Seq <$> push_nodes v [].

Definition push_back (x : T) (l : list T) : list T := l ++ [x].
Definition vector_from_string : list Z -> option (list T) := convert_seq push_back.
Definition vector_to_string : list T -> option (list Z) := seq_to_string.
Definition list_from_string : list Z -> option (list T) := convert_seq push_back.
Definition list_to_string : list T -> option (list Z) := seq_to_string.

(** [std::set]: the elements in the order of [lt]; one that is equivalent to an
    element already there is not inserted. *)
Fixpoint set_insert (lt : T -> T -> bool) (x : T) (l : list T) : list T :=
  match l with
  | [] => [x]
  | y :: l' => if lt x y then x :: l else if lt y x then y :: set_insert lt x l' else l
  end.
Definition set_from_string (lt : T -> T -> bool) : list Z -> option (list T) := convert_seq (set_insert lt).
Definition set_to_string : list T -> option (list Z) := seq_to_string.

(** [std::unordered_set]: the elements in the order it iterates, where [place]
    puts a new one. *)
Definition unordered_insert `{!EqDecision T} (place : T -> list T -> list T) (x : T) (l : list T) : list T :=
  if bool_decide (x ∈ l) then l else place x l.
Definition unordered_set_from_string `{!EqDecision T} (place : T -> list T -> list T) : list Z -> option (list T) :=
  convert_seq (unordered_insert place).
Definition unordered_set_to_string : list T -> option (list Z) := seq_to_string.

(** The maps: keys and values in iteration order. *)
Fixpoint convert_members (add : list Z * T -> list (list Z * T) -> list (list Z * T)) (l : list (list Z * Node))
    (acc : list (list Z * T)) : option (list (list Z * T)) :=
  match l with
  | [] => Some acc
  | (k, n) :: l => match from_str (emit n) with
                   | Some x => convert_members add l (add (k, x) acc)
                   | None => None
                   end
  end.
Definition convert_map (add : list Z * T -> list (list Z * T) -> list (list Z * T)) (v : list Z)
    : option (list (list Z * T)) :=
  match Load v with
  | Some node => l ← members node; convert_members add l []
  | None => None
  end.
(** The loop [node[i.first] = YAML::Load(convert(i.second))]. *)
Fixpoint node_set (k : list Z) (n : Node) (l : list (list Z * Node)) : list (list Z * Node) :=
  match l with
  | [] => [(k, n)]
  | (k', n') :: l => if bool_decide (k = k') then (k', n) :: l else (k', n') :: node_set k n l
  end.
Fixpoint assign_nodes (v : list (list Z * T)) (acc : list (list Z * Node)) : option (list (list Z * Node)) :=
  match v with
  | [] => Some acc
  | (k, i) :: v => match to_str i ≫= Load with
                   | Some n => assign_nodes v (node_set k n acc)
                   | None => None
                   end
  end.
Definition assoc_to_string (v : list (list Z * T)) : option (list Z) := emit ∘ Map <$> assign_nodes v [].

(** [std::map::insert] and [std::unordered_map::insert]. *)
Fixpoint map_insert (p : list Z * T) (l : list (list Z * T)) : list (list Z * T) :=
  match l with
  | [] => [p]
  | q :: l' => if lex_lt p.1 q.1 then p :: l else if lex_lt q.1 p.1 then q :: map_insert p l' else l
  end.
Definition map_from_string : list Z -> option (list (list Z * T)) := convert_map map_insert.
Definition map_to_string : list (list Z * T) -> option (list Z) := assoc_to_string.
Definition unordered_map_insert (place : list Z * T -> list (list Z * T) -> list (list Z * T))
    (p : list Z * T) (l : list (list Z * T)) : list (list Z * T) :=
  if bool_decide (p.1 ∈ l.*1) then l else place p l.
Definition unordered_map_from_string (place : list Z * T -> list (list Z * T) -> list (list Z * T))
    : list Z -> option (list (list Z * T)) := convert_map (unordered_map_insert place).
Definition unordered_map_to_string : list (list Z * T) -> option (list Z) := assoc_to_string.

End converters.

(** ** What yaml-cpp promises *)

(** A scalar that needs no quotes and is not the null value. *)
Definition word_char (c : Z) : bool :=
  ((48 <=? c) && (c <=? 57)) || ((65 <=? c) && (c <=? 90)) || ((97 <=? c) && (c <=? 122)) || (c =? 95).
Definition word (s : list Z) : Prop :=
  s <> [] /\ Forall (λ c, word_char c = true) s /\ s ∉ [str "null"; str "Null"; str "NULL"].
#[global] Instance word_dec s : Decision (word s).
Proof. unfold word. apply _. Defined.

(** Words, and sequences and maps of such nodes. *)
Inductive plain : Node -> Prop :=
  | plain_word s : word s -> plain (Scalar s)
  | plain_seq l : Forall plain l -> plain (Seq l)
  | plain_map l : NoDup l.*1 -> Forall word l.*1 -> Forall plain l.*2 -> plain (Map l).

Class YamlLaws `{!Yaml} : Prop := {
  Load_emit : forall n, plain n -> Load (emit n) = Some n;
  emit_word : forall s, word s -> emit (Scalar s) = s;
  index_seq : forall l i n, l !! i = Some n -> index (Seq l) i = n;
}.

(** ** Through a string and back

    [to] writes [x] as a text that loads as a plain node; converting the text, or
    the node as a sequence or map around it emits it, gives [y]. *)
Definition carried `{!Yaml} {T} (to : T -> option (list Z)) (from : list Z -> option T) (x y : T) : Prop :=
  exists s n, to x = Some s /\ Load s = Some n /\ plain n /\ from s = Some y /\ from (emit n) = Some y.
Definition survives `{!Yaml} {T} `{!Converter T} (x : T) : Prop := carried to_str from_str x x.

Section round_trip.
Context {Y : Yaml} {L : YamlLaws} {T : Type} {Cv : Converter T}.

(** [n] is the node made of [x]. *)
Definition node_for (x : T) (n : Node) : Prop :=
  to_str x ≫= Load = Some n /\ plain n /\ from_str (emit n) = Some x.

Lemma survives_node (x : T) : survives x -> exists n, node_for x n.
Proof. intros (s & n & E1 & E2 & Hp & _ & E3). exists n. unfold node_for. rewrite E1. cbn. by rewrite E2. Qed.

Lemma survives_nodes (v : list T) : Forall survives v -> exists ns, Forall2 node_for v ns.
Proof.
  induction 1 as [|x v Hx _ (ns & IH)]; [by exists []|].
  destruct (survives_node x Hx) as [n Hn]. exists (n :: ns). by constructor.
Qed.

Lemma push_nodes_all v ns acc : Forall2 node_for v ns -> push_nodes v acc = Some (acc ++ ns).
Proof.
  intros H. revert acc. induction H as [|x n v ns (E & _ & _) _ IH]; intros acc; cbn; [by rewrite app_nil_r|].
  rewrite E, IH. by rewrite <- app_assoc.
Qed.

Lemma nodes_plain v ns : Forall2 node_for v ns -> plain (Seq ns).
Proof. intros H. constructor. induction H as [|x n v ns (_ & Hp & _) _ IH]; by constructor. Qed.

Lemma convert_loop_all add pre v ns acc :
  Forall2 node_for v ns ->
  convert_loop add (Seq (pre ++ ns)) (length pre) (length ns) acc = Some (foldl (λ a x, add x a) acc v).
Proof.
  intros H. revert pre acc. induction H as [|x n v ns (_ & _ & E) _ IH]; intros pre acc; cbn [convert_loop length foldl]; [done|].
  rewrite (index_seq _ _ n) by (by rewrite list_lookup_middle). rewrite E.
  replace (S (length pre)) with (length (pre ++ [n])) by (rewrite length_app; cbn; lia).
  rewrite (cons_middle n pre ns), app_assoc. apply IH.
Qed.

(** Every sequence converter at once: the text carries [v], rebuilt by [add]. *)
Lemma seq_carried add (v : list T) :
  Forall survives v -> carried seq_to_string (convert_seq add) v (foldl (λ a x, add x a) [] v).
Proof.
  intros (ns & H)%survives_nodes. pose proof (nodes_plain _ _ H) as Hp.
  assert (convert_seq add (emit (Seq ns)) = Some (foldl (λ a x, add x a) [] v)) as E.
  { unfold convert_seq. rewrite Load_emit by done. exact (convert_loop_all add [] v ns [] H). }
  exists (emit (Seq ns)), (Seq ns). unfold seq_to_string. rewrite (push_nodes_all _ _ _ H).
  split_and!; [done|by apply Load_emit|done..].
Qed.

Lemma foldl_push_back (v acc : list T) : foldl (λ a x, push_back x a) acc v = acc ++ v.
Proof.
  revert acc. induction v as [|x v IH]; intros acc; cbn; [by rewrite app_nil_r|].
  rewrite IH. unfold push_back. by rewrite <- app_assoc.
Qed.

(** Strictly ascending, as a [std::set] keeps its elements. *)
Definition ascending (lt : T -> T -> bool) (v : list T) : Prop :=
  StronglySorted (λ a b, lt a b = true /\ lt b a = false) v.

Lemma set_insert_last lt (x : T) l : Forall (λ y, lt y x = true /\ lt x y = false) l -> set_insert lt x l = l ++ [x].
Proof. induction 1 as [|y l [E1 E2] _ IH]; cbn; [done|]. by rewrite E2, E1, IH. Qed.

Lemma foldl_set_insert lt (v acc : list T) :
  ascending lt (acc ++ v) -> foldl (λ a x, set_insert lt x a) acc v = acc ++ v.
Proof.
  revert acc. induction v as [|x v IH]; intros acc Hs; cbn; [by rewrite app_nil_r|].
  rewrite set_insert_last, IH; rewrite <- ?app_assoc; try done.
  clear IH. induction acc as [|y acc IH]; [constructor|]. apply StronglySorted_inv in Hs as [Hs Hy].
  constructor; [|by apply IH]. apply Forall_app in Hy as [_ Hy]. by apply Forall_cons in Hy as [? _].
Qed.

Lemma foldl_unordered `{!EqDecision T} place (v acc : list T) :
  (forall x l, place x l ≡ₚ x :: l) -> NoDup (acc ++ v) ->
  foldl (λ a x, unordered_insert place x a) acc v ≡ₚ acc ++ v.
Proof.
  intros Hp. revert acc. induction v as [|x v IH]; intros acc Hnd; cbn; [by rewrite app_nil_r|].
  assert (x ∉ acc) as Hx.
  { apply NoDup_app in Hnd as (_ & Hd & _). intros Hin. apply (Hd x Hin). by apply elem_of_cons; left. }
  unfold unordered_insert at 2. rewrite bool_decide_eq_false_2 by done.
  rewrite IH by (by rewrite (Hp x acc), <- app_comm_cons, Permutation_middle).
  rewrite (Hp x acc). cbn. by rewrite Permutation_middle.
Qed.

(** The maps, the same way. *)
Lemma node_set_new k n l : k ∉ l.*1 -> node_set k n l = l ++ [(k, n)].
Proof.
  induction l as [|[k' n'] l IH]; cbn; intros Hk; [done|]. apply not_elem_of_cons in Hk as [Hne Hk].
  rewrite bool_decide_eq_false_2 by done. by rewrite IH.
Qed.

Definition pairs_for (v : list (list Z * T)) (l : list (list Z * Node)) : Prop :=
  Forall2 (λ p q, p.1 = q.1 /\ node_for p.2 q.2) v l.

Lemma survives_pairs (v : list (list Z * T)) : Forall survives v.*2 -> exists l, pairs_for v l.
Proof.
  induction v as [|[k x] v IH]; cbn; intros H; [by exists []; constructor|].
  apply Forall_cons in H as [Hx H]. destruct (IH H) as [l Hl], (survives_node x Hx) as [n Hn].
  exists ((k, n) :: l). by constructor.
Qed.

Lemma pairs_keys v l : pairs_for v l -> l.*1 = v.*1.
Proof. induction 1 as [|[k x] [k' n] v l [E _] _ IH]; cbn in *; by f_equal. Qed.

Lemma assign_nodes_all v l acc :
  pairs_for v l -> NoDup (acc.*1 ++ l.*1) -> assign_nodes v acc = Some (acc ++ l).
Proof.
  intros H. revert acc. induction H as [|[k x] [k' n] v l [Ek (E & _ & _)] _ IH]; intros acc Hnd; cbn;
    [by rewrite app_nil_r|]. cbn in *. subst k'. rewrite E. rewrite node_set_new.
  - rewrite IH; [by rewrite <- app_assoc|]. rewrite fmap_app. cbn. by rewrite <- app_assoc.
  - apply NoDup_app in Hnd as (_ & Hd & _). intros Hin. apply (Hd k Hin). by apply elem_of_cons; left.
Qed.

Lemma pairs_plain v l : pairs_for v l -> NoDup v.*1 -> Forall word v.*1 -> plain (Map l).
Proof.
  intros H Hnd Hw. rewrite <- (pairs_keys _ _ H) in Hnd, Hw. constructor; [done..|].
  clear Hnd Hw. induction H as [|[k x] [k' n] v l [_ (_ & Hp & _)] _ IH]; cbn in *; by constructor.
Qed.

Lemma convert_members_all add v l acc :
  pairs_for v l -> convert_members add l acc = Some (foldl (λ a p, add p a) acc v).
Proof.
  intros H. revert acc. induction H as [|[k x] [k' n] v l [Ek (_ & _ & E)] _ IH]; intros acc; cbn; [done|].
  cbn in *. subst k'. by rewrite E, IH.
Qed.

Lemma assoc_carried add (v : list (list Z * T)) :
  Forall survives v.*2 -> NoDup v.*1 -> Forall word v.*1 ->
  carried assoc_to_string (convert_map add) v (foldl (λ a p, add p a) [] v).
Proof.
  intros (l & H)%survives_pairs Hnd Hw. pose proof (pairs_plain _ _ H Hnd Hw) as Hp.
  assert (convert_map add (emit (Map l)) = Some (foldl (λ a p, add p a) [] v)) as E.
  { unfold convert_map. rewrite Load_emit by done. cbn. exact (convert_members_all add v l [] H). }
  exists (emit (Map l)), (Map l). unfold assoc_to_string.
  rewrite (assign_nodes_all v l []) by (try done; cbn; by rewrite (pairs_keys _ _ H)).
  split_and!; [done|by apply Load_emit|done..].
Qed.

Definition keys_ascending (v : list (list Z * T)) : Prop := StronglySorted (λ a b, lex_lt a b = true) v.*1.

Lemma lex_lt_asym a b : lex_lt a b = true -> lex_lt b a = false.
Proof.
  intros H. destruct (lex_lt b a) eqn:E; [|done]. pose proof (lex_lt_trans _ _ _ H E). by rewrite lex_lt_irrefl in *.
Qed.

Lemma map_insert_last (p : list Z * T) l : Forall (λ k, lex_lt k p.1 = true) l.*1 -> map_insert p l = l ++ [p].
Proof.
  induction l as [|q l IH]; cbn; [done|]. intros [E H]%Forall_cons.
  rewrite (lex_lt_asym _ _ E), E, IH by done. done.
Qed.

Lemma foldl_map_insert (v acc : list (list Z * T)) :
  keys_ascending (acc ++ v) -> foldl (λ a p, map_insert p a) acc v = acc ++ v.
Proof.
  revert acc. induction v as [|x v IH]; intros acc Hs; cbn; [by rewrite app_nil_r|].
  rewrite map_insert_last, IH; rewrite <- ?app_assoc; try done.
  clear IH. unfold keys_ascending in Hs. induction acc as [|y acc IH]; [constructor|]. cbn in Hs |- *.
  apply StronglySorted_inv in Hs as [Hs Hy]. constructor; [|by apply IH].
  rewrite fmap_app in Hy. apply Forall_app in Hy as [_ Hy]. by apply Forall_cons in Hy as [? _].
Qed.

Lemma foldl_unordered_map place (v acc : list (list Z * T)) :
  (forall x l, place x l ≡ₚ x :: l) -> NoDup (acc ++ v).*1 ->
  foldl (λ a p, unordered_map_insert place p a) acc v ≡ₚ acc ++ v.
Proof.
  intros Hp. revert acc. induction v as [|x v IH]; intros acc Hnd; cbn; [by rewrite app_nil_r|].
  assert (x.1 ∉ acc.*1) as Hx.
  { rewrite fmap_app in Hnd. apply NoDup_app in Hnd as (_ & Hd & _). intros Hin. apply (Hd _ Hin).
    cbn. by apply elem_of_cons; left. }
  unfold unordered_map_insert at 2. rewrite bool_decide_eq_false_2 by done.
  rewrite IH by (by rewrite (Hp x acc), <- app_comm_cons, Permutation_middle).
  rewrite (Hp x acc). cbn. by rewrite Permutation_middle.
Qed.

Lemma ascending_NoDup v : keys_ascending v -> NoDup v.*1.
Proof.
  unfold keys_ascending. induction 1 as [|k ks Hs IH Hf]; constructor; [|done].
  intros Hin. rewrite Forall_forall in Hf. pose proof (Hf k Hin). by rewrite lex_lt_irrefl in *.
Qed.

(** (C37) The six container converters carry their values: a vector, a list, a set
    and a map whose elements survive being written and read back come back
    unchanged, as a text and as part of a larger node (so containers nest); the
    unordered containers come back with the same elements. *)
Theorem containers_survive (v : list T) (m : list (list Z * T)) lt place place' `{!EqDecision T} :
  Forall survives v -> Forall survives m.*2 -> Forall word m.*1 ->
  (forall x l, place x l ≡ₚ x :: l) -> (forall x l, place' x l ≡ₚ x :: l) ->
  carried vector_to_string vector_from_string v v /\
  carried list_to_string list_from_string v v /\
  (ascending lt v -> carried set_to_string (set_from_string lt) v v) /\
  (NoDup v -> exists v', v' ≡ₚ v /\ carried unordered_set_to_string (unordered_set_from_string place) v v') /\
  (keys_ascending m -> carried map_to_string map_from_string m m) /\
  (NoDup m.*1 ->
     exists m', m' ≡ₚ m /\ carried unordered_map_to_string (unordered_map_from_string place') m m').
Proof.
  intros Hv Hm Hw Hp Hp'. split_and!.
  - pose proof (seq_carried push_back v Hv) as H. by rewrite foldl_push_back in H.
  - pose proof (seq_carried push_back v Hv) as H. by rewrite foldl_push_back in H.
  - intros Hs. pose proof (seq_carried (set_insert lt) v Hv) as H. by rewrite foldl_set_insert in H.
  - intros Hs. eexists. split; [|by apply seq_carried]. by apply (foldl_unordered place v []).
  - intros Hs. pose proof (assoc_carried map_insert m Hm (ascending_NoDup m Hs) Hw) as H.
    by rewrite foldl_map_insert in H.
  - intros Hs. eexists. split; [|by apply assoc_carried]. by apply (foldl_unordered_map place' m []).
Qed.

End round_trip.

(** ** An implementation of the interface

    Words stand for themselves; the text of another node is a bracket and its
    number. *)
Fixpoint node_tree (n : Node) : gen_tree (list Z) :=
  match n with
  | Null => GenNode 0 []
  | Scalar s => GenLeaf s
  | Seq l => GenNode 1 (map node_tree l)
  | Map l => GenNode 2 (map (λ p, GenNode 3 [GenLeaf p.1; node_tree p.2]) l)
  end.
Fixpoint tree_node (t : gen_tree (list Z)) : Node :=
  match t with
  | GenLeaf s => Scalar s
  | GenNode 1 l => Seq (map tree_node l)
  | GenNode 2 l => Map (map (λ t, match t with
                                  | GenNode 3 [GenLeaf k; t'] => (k, tree_node t')
                                  | _ => ([], Null)
                                  end) l)
  | GenNode _ _ => Null
  end.

Fixpoint tree_of_node (n : Node) : tree_node (node_tree n) = n.
Proof.
  destruct n as [|s|l|l]; cbn; [done|done| |]; f_equal.
  - induction l as [|n l IH]; cbn; [done|]. by rewrite tree_of_node, IH.
  - induction l as [|[k n] l IH]; cbn; [done|]. by rewrite tree_of_node, IH.
Qed.

Module Numbered.
Definition load (s : list Z) : option Node :=
  match s with
  | [91; Zpos p] => tree_node <$> decode p
  | _ => Some (Scalar s)
  end.
Definition emit (n : Node) : list Z :=
  match n with Scalar s => s | _ => [91; Zpos (encode (node_tree n))] end.
Definition index (n : Node) (i : nat) : Node :=
  match n with Seq l => default Null (l !! i) | _ => Null end.
#[export] Instance yaml : Yaml := { Load := load; Yaml.emit := emit; Yaml.index := index }.

Lemma load_word s : word s -> load s = Some (Scalar s).
Proof.
  intros (_ & Hw & _). destruct s as [|c [|d [|]]]; try done.
  - cbn. by repeat case_match.
  - apply Forall_cons in Hw as [Hc _]. cbn. repeat case_match; simplify_eq; done.
  - cbn. by repeat case_match.
Qed.

Lemma load_number n : load [91; Zpos (encode (node_tree n))] = Some n.
Proof.
  change (tree_node <$> decode (encode (node_tree n)) = Some n). rewrite decode_encode. cbn.
  by rewrite tree_of_node.
Qed.

#[export] Instance yaml_laws : YamlLaws.
Proof.
  split.
  - intros n Hp. destruct Hp as [s Hs|l _|l _ _ _]; [by apply load_word|apply load_number..].
  - done.
  - intros l i n E. cbn. by rewrite E.
Qed.
End Numbered.

(** [boost::lexical_cast] between strings. *)
#[export] Instance string_converter : Converter (list Z) := { from_str := Some; to_str := Some }.

Lemma word_survives {Y : Yaml} {L : YamlLaws} (s : list Z) : word s -> survives s.
Proof.
  intros Hs. exists s, (Scalar s). pose proof (Load_emit (Scalar s) (plain_word s Hs)) as E.
  rewrite emit_word in E by done. split_and!; [done|done|by constructor|done|]. by rewrite emit_word.
Qed.

#[local] Existing Instances Numbered.yaml Numbered.yaml_laws.

Lemma containers_survive_witness :
  carried vector_to_string vector_from_string [str "b"; str "a"] [str "b"; str "a"] /\
  carried map_to_string map_from_string [(str "k", str "v")] [(str "k", str "v")].
Proof.
  assert (Forall survives [str "b"; str "a"]) as Hv.
  { repeat constructor; apply word_survives; apply (bool_decide_unpack _); vm_compute; exact I. }
  assert (Forall survives [(str "k", str "v")].*2) as Hm.
  { repeat constructor; apply word_survives; apply (bool_decide_unpack _); vm_compute; exact I. }
  assert (Forall word [(str "k", str "v")].*1) as Hk.
  { repeat constructor; apply (bool_decide_unpack _); vm_compute; exact I. }
  pose proof (containers_survive [str "b"; str "a"] [(str "k", str "v")] lex_lt cons cons Hv Hm Hk
    (λ x l, Permutation_refl _) (λ x l, Permutation_refl _)) as (H1 & _ & _ & _ & H2 & _).
  split; [exact H1|]. apply H2. repeat constructor.
Defined.
