(* ===== verification/Config.v ===== *)
(** * Configuration variables: src/sylar/config.h and config.cpp

    The types a variable can have are the class [Types]; variables live in a heap
    and a [std::shared_ptr] to one is its place there.  A listener acts on the
    rest of the program, [W].  Logging is left out; [set_value] under
    its lock is in Locks.v. *)

From Stdlib Require Import Sorted.
From S2P Require Import Prelude Text Yaml.

(** The [T] of [ConfigVar<T>]: its converters and its [operator==]. *)
Class Types (K : Type) := {
  ty_eq_dec :: EqDecision K;
  type : K -> Type;
  ty_conv : forall t, Converter (type t);
  ty_eqb : forall t, type t -> type t -> bool;
}.

Section config.
Context {Y : Yaml} {K : Type} {Ts : Types K} {W : Type}.

Definition Listener (t : K) : Type := type t -> type t -> W -> outcome unit * W.

Record ConfigVar (t : K) := mkConfigVar {
  name_ : list Z;
  description_ : list Z;
  value_ : type t;
  cbs_ : list (Z * Listener t);       (** in the order of the keys *)
}.
Arguments mkConfigVar {t}.
Arguments name_ {t}.
Arguments description_ {t}.
Arguments value_ {t}.
Arguments cbs_ {t}.

(** The constructors of [ConfigVarBase] and [ConfigVar]. *)
Definition ConfigVar_new (t : K) (name description : list Z) (value : type t) : ConfigVar t :=
  mkConfigVar (tolower <$> name) description value [].
Definition with_value {t} (v : type t) (x : ConfigVar t) : ConfigVar t :=
  mkConfigVar (name_ x) (description_ x) v (cbs_ x).
Definition with_cbs {t} (l : list (Z * Listener t)) (x : ConfigVar t) : ConfigVar t :=
  mkConfigVar (name_ x) (description_ x) (value_ x) l.

Record Config := mkConfig {
  datas_ : gmap (list Z) nat;
  vars : list (sigT ConfigVar);
  s_fun_id : K -> Z;                  (** the [static] of [add_listener], one per type *)
  world : W;
}.
Definition Config_new (w : W) : Config := mkConfig ∅ [] (λ _, 0) w.
Definition with_var {t} (a : nat) (x : ConfigVar t) (σ : Config) : Config :=
  mkConfig (datas_ σ) (<[a := existT t x]> (vars σ)) (s_fun_id σ) (world σ).
Definition with_world (w : W) (σ : Config) : Config := mkConfig (datas_ σ) (vars σ) (s_fun_id σ) w.

(** The variable behind a pointer when it is a [ConfigVar<T>]. *)
Definition as_var (t : K) (a : nat) (σ : Config) : option (ConfigVar t) :=
  match vars σ !! a with
  | Some (existT t' x) =>
      match decide (t' = t) with
      | left e => Some (eq_rect t' ConfigVar x t e)
      | right _ => None
      end
  | None => None
  end.
Definition dynamic_pointer_cast (t : K) (a : nat) (σ : Config) : option nat :=
  match as_var t a σ with Some _ => Some a | None => None end.

(** ** [ConfigVar] *)

(** [for(auto& f : cbs_) f.second(value_, value);] *)
Fixpoint run_listeners {t} (old new : type t) (l : list (Z * Listener t)) (w : W) : outcome unit * W :=
  match l with
  | [] => (Ret tt, w)
  | (_, f) :: l => match f old new w with
                   | (Ret _, w) => run_listeners old new l w
                   | r => r
                   end
  end.
Definition get_value (t : K) (a : nat) : M Config (type t) := λ σ,
  match as_var t a σ with
  | Some x => (Ret (value_ x), σ)
  | None => (Fault NullDeref, σ)
  end.
Definition set_value (t : K) (a : nat) (v : type t) : M Config unit := λ σ,
  match as_var t a σ with
  | None => (Fault NullDeref, σ)
  | Some x =>
      if ty_eqb t v (value_ x) then (Ret tt, σ)
      else match run_listeners (value_ x) v (cbs_ x) (world σ) with
           | (Ret _, w) => (Ret tt, with_var a (with_value v x) (with_world w σ))
           | (Throw e, w) => (Throw e, with_world w σ)
           | (Fault f, w) => (Fault f, with_world w σ)
           end
  end.

(** The virtual [from_string] and [to_string] of the variable at [a]. *)
Definition from_string (a : nat) (s : list Z) : M Config bool := λ σ,
  match vars σ !! a with
  | None => (Fault NullDeref, σ)
  | Some (existT t _) =>
      match @from_str _ (ty_conv t) s with
      | None => (Ret false, σ)
      | Some v => match set_value t a v σ with
                  | (Ret _, σ) => (Ret true, σ)
                  | (Throw _, σ) => (Ret false, σ)
                  | (Fault f, σ) => (Fault f, σ)
                  end
      end
  end.
Definition to_string (a : nat) (σ : Config) : outcome (list Z) :=
  match vars σ !! a with
  | None => Fault NullDeref
  | Some (existT t x) => Ret (default [] (@to_str _ (ty_conv t) (value_ x)))
  end.

(** [cbs_[k] = cb]. *)
Fixpoint cbs_set {t} (k : Z) (cb : Listener t) (l : list (Z * Listener t)) : list (Z * Listener t) :=
  match l with
  | [] => [(k, cb)]
  | (k', cb') :: l' => if k <? k' then (k, cb) :: l
                       else if k =? k' then (k, cb) :: l' else (k', cb') :: cbs_set k cb l'
  end.
Definition add_listener (t : K) (a : nat) (cb : Listener t) : M Config Z := λ σ,
  match as_var t a σ with
  | None => (Fault NullDeref, σ)
  | Some x =>
      let k := u64 (s_fun_id σ t + 1) in
      (Ret k, with_var a (with_cbs (cbs_set k cb (cbs_ x)) x)
                (mkConfig (datas_ σ) (vars σ) (λ t', if decide (t' = t) then k else s_fun_id σ t') (world σ)))
  end.
Definition del_listener (t : K) (a : nat) (key : Z) : M Config unit := λ σ,
  match as_var t a σ with
  | None => (Fault NullDeref, σ)
  | Some x => (Ret tt, with_var a (with_cbs (filter (λ p, p.1 <> key) (cbs_ x)) x) σ)
  end.
Definition clear_listeners (t : K) (a : nat) : M Config unit := λ σ,
  match as_var t a σ with
  | None => (Fault NullDeref, σ)
  | Some x => (Ret tt, with_var a (with_cbs [] x) σ)
  end.
Definition get_listener (t : K) (a : nat) (key : Z) : M Config (option (Listener t)) := λ σ,
  match as_var t a σ with
  | None => (Fault NullDeref, σ)
  | Some x => (Ret (snd <$> List.find (λ p, p.1 =? key) (cbs_ x)), σ)
  end.

(** ** [Config] *)

(** [find_first_not_of("abc...z._0123456789") == npos]. *)
Definition name_char (c : Z) : bool :=
  ((97 <=? c) && (c <=? 122)) || (c =? 46) || (c =? 95) || ((48 <=? c) && (c <=? 57)).
Definition valid_name (s : list Z) : bool := forallb name_char s.

(** [look_up(name, default_value, description)], [look_up(name)], [look_up_base]. *)
Definition look_up (t : K) (name : list Z) (default_value : type t) (description : list Z)
    : M Config (option nat) := λ σ,
  if negb (valid_name name) then (Throw InvalidArgument, σ)
  else match datas_ σ !! name with
       | Some a => (Ret (dynamic_pointer_cast t a σ), σ)
       | None =>
           let a := length (vars σ) in
           (Ret (Some a),
            mkConfig (<[name := a]> (datas_ σ))
              (vars σ ++ [existT t (ConfigVar_new t name description default_value)]) (s_fun_id σ) (world σ))
       end.
Definition look_up_only (t : K) (name : list Z) : M Config (option nat) := λ σ,
  if negb (valid_name name) then (Throw InvalidArgument, σ)
  else match datas_ σ !! name with
       | Some a => (Ret (dynamic_pointer_cast t a σ), σ)
       | None => (Ret None, σ)
       end.
Definition look_up_base (name : list Z) (σ : Config) : option nat := datas_ σ !! name.

(** The name of a member: the prefix stays, the rest is put in lower case. *)
Definition child_name (prefix k : list Z) : list Z :=
  let cur := if bool_decide (prefix = []) then k else prefix ++ [46] ++ k in
  take (length prefix) cur ++ (tolower <$> drop (length prefix) cur).
Fixpoint load_all_member (node : Node) (prefix : list Z) (output : list (list Z * Node))
    : bool * list (list Z * Node) :=
  if negb (valid_name prefix) then (false, output)
  else
    let output := output ++ [(prefix, node)] in
    (true, match node with
           | Map l =>
               (fix loop (l : list (list Z * Node)) (output : list (list Z * Node)) :=
                  match l with
                  | [] => output
                  | (k, n) :: l => loop l (load_all_member n (child_name prefix k) output).2
                  end) l output
           | _ => output
           end).
Definition node_text (node : Node) : list Z := match node with Scalar s => s | _ => emit node end.
Fixpoint load_nodes (l : list (list Z * Node)) : M Config unit :=
  match l with
  | [] => mret tt
  | (prefix, node) :: l =>
      var ← gets (look_up_base prefix);
      match var with
      | Some a => _ ← from_string a (node_text node); load_nodes l
      | None => load_nodes l
      end
  end.
Definition load_from_yaml (root : Node) : M Config bool :=
  _ ← load_nodes (load_all_member root [] []).2; mret true.

(** [visit]: the callback on every variable, in the order of the names. *)
Definition visit_order (σ : Config) : list (list Z * nat) :=
  foldr (λ p l, map_insert p l) [] (map_to_list (datas_ σ)).
Fixpoint visit_loop (cb : nat -> M Config unit) (l : list (list Z * nat)) : M Config unit :=
  match l with
  | [] => mret tt
  | (_, a) :: l => _ ← cb a; visit_loop cb l
  end.
Definition visit (cb : nat -> M Config unit) : M Config unit := λ σ, visit_loop cb (visit_order σ) σ.

(** ** Variables keep their names and their types *)

Lemma as_var_Some t a σ x : as_var t a σ = Some x <-> vars σ !! a = Some (existT t x).
Proof.
  unfold as_var. split.
  - repeat case_match; intros; simplify_eq. done.
  - intros ->. destruct (decide (t = t)) as [e|]; [|done]. by rewrite (proof_irrel e eq_refl).
Qed.

Definition keeps (l l' : list (sigT ConfigVar)) : Prop :=
  forall a t x, l !! a = Some (existT t x) -> exists x', l' !! a = Some (existT t x') /\ name_ x' = name_ x.
(** The same names and, behind every pointer, a variable of the same type. *)
Definition same_vars (σ σ' : Config) : Prop := datas_ σ' = datas_ σ /\ keeps (vars σ) (vars σ').

#[local] Instance keeps_preorder : PreOrder keeps.
Proof.
  split; [intros l a t x; eauto|]. intros l1 l2 l3 H1 H2 a t x E.
  destruct (H1 a t x E) as (x' & E' & N). destruct (H2 a t x' E') as (x'' & ? & ?). exists x''. split; congruence.
Qed.
#[local] Instance same_vars_preorder : PreOrder same_vars.
Proof.
  split; [by split|]. intros ? ? ? [E1 H1] [E2 H2]. split; [congruence|by etrans].
Qed.

Lemma with_var_same {t} a (x x' : ConfigVar t) σ w f :
  vars σ !! a = Some (existT t x) -> name_ x' = name_ x ->
  same_vars σ (with_var a x' (mkConfig (datas_ σ) (vars σ) f w)).
Proof.
  intros E N. split; [done|]. cbn. intros b t' y Ey. destruct (decide (a = b)) as [<-|Hne].
  - rewrite E in Ey. simplify_eq. exists x'. by rewrite list_lookup_insert_eq by (by eapply lookup_lt_Some).
  - exists y. by rewrite list_lookup_insert_ne.
Qed.

Lemma set_value_same t a v σ : same_vars σ (set_value t a v σ).2.
Proof.
  unfold set_value. destruct (as_var t a σ) as [x|] eqn:E; [|done]. apply as_var_Some in E.
  destruct (ty_eqb _ _ _); [done|]. destruct (run_listeners _ _ _ _) as [[] w]; try done.
  by apply (with_var_same a x).
Qed.

Lemma from_string_same a s σ : same_vars σ (from_string a s σ).2.
Proof.
  unfold from_string. destruct (vars σ !! a) as [[t x]|]; [|done]. destruct (from_str s) as [v|]; [|done].
  pose proof (set_value_same t a v σ). by destruct (set_value t a v σ) as [[] ?].
Qed.

Lemma load_nodes_same l σ : same_vars σ (load_nodes l σ).2.
Proof.
  revert σ. induction l as [|[p n] l IH]; intros σ; [done|]. cbn [load_nodes]. erewrite bind_Ret by done.
  destruct (look_up_base p σ) as [a|]; [|apply IH]. pose proof (from_string_same a (node_text n) σ) as H.
  unfold mbind, M_bind. destruct (from_string a (node_text n) σ) as [[] σ']; [by etrans|done..].
Qed.

(** The calls that change the configuration. *)
Inductive op :=
  | OpLookUp (t : K) (name : list Z) (v : type t) (description : list Z)
  | OpSetValue (t : K) (a : nat) (v : type t)
  | OpFromString (a : nat) (s : list Z)
  | OpAddListener (t : K) (a : nat) (cb : Listener t)
  | OpDelListener (t : K) (a : nat) (key : Z)
  | OpClearListeners (t : K) (a : nat)
  | OpLoad (root : Node).
Definition exec (o : op) (σ : Config) : Config :=
  match o with
  | OpLookUp t name v d => (look_up t name v d σ).2
  | OpSetValue t a v => (set_value t a v σ).2
  | OpFromString a s => (from_string a s σ).2
  | OpAddListener t a cb => (add_listener t a cb σ).2
  | OpDelListener t a key => (del_listener t a key σ).2
  | OpClearListeners t a => (clear_listeners t a σ).2
  | OpLoad root => (load_from_yaml root σ).2
  end.
Definition run (ops : list op) (σ : Config) : Config := foldl (flip exec) σ ops.

Definition wf (σ : Config) : Prop :=
  forall name a, datas_ σ !! name = Some a ->
  exists t x, vars σ !! a = Some (existT t x) /\ name_ x = name.
Definition extends (σ σ' : Config) : Prop := datas_ σ ⊆ datas_ σ' /\ keeps (vars σ) (vars σ').

Lemma name_char_lower c : name_char c = true -> tolower c = c.
Proof.
  unfold name_char, tolower. rewrite !orb_true_iff, !andb_true_iff, !Z.leb_le, !Z.eqb_eq. intros H.
  destruct (Z.leb_spec 65 c), (Z.leb_spec c 90); cbn; lia.
Qed.

Lemma valid_name_lower s : valid_name s = true -> tolower <$> s = s.
Proof.
  unfold valid_name. induction s as [|c s IH]; cbn; [done|]. intros [Hc Hs]%andb_true_iff.
  rewrite (name_char_lower c Hc). f_equal. by apply IH.
Qed.

Lemma same_wf σ σ' : same_vars σ σ' -> wf σ -> wf σ' /\ extends σ σ'.
Proof.
  intros [E H] Hwf. split; [|split; [by rewrite E|done]]. intros name a Ea. rewrite E in Ea.
  destruct (Hwf name a Ea) as (t & x & Ex & N). destruct (H a t x Ex) as (x' & ? & ?). exists t, x'. split; congruence.
Qed.

Lemma exec_wf o σ : wf σ -> wf (exec o σ) /\ extends σ (exec o σ).
Proof.
  intros Hwf. destruct o as [t name v d|t a v|a s|t a cb|t a key|t a|root]; cbn [exec];
    [|apply same_wf; [|done]..].
  - unfold look_up. destruct (valid_name name) eqn:Hv; [|by apply same_wf]. cbn [negb].
    destruct (datas_ σ !! name) as [a|] eqn:E; [by apply same_wf|]. cbn. split.
    + intros name' a. cbn. destruct (decide (name = name')) as [<-|Hne].
      * rewrite lookup_insert_eq. intros [= <-]. exists t, (ConfigVar_new t name d v).
        rewrite list_lookup_middle by done. split; [done|]. by apply valid_name_lower.
      * rewrite lookup_insert_ne by done. intros Ea. destruct (Hwf name' a Ea) as (t' & x & Ex & N).
        exists t', x. by rewrite lookup_app_l_Some with (x := existT t' x).
    + split; cbn; [by apply insert_subseteq|]. intros b t' x Ex. exists x. split; [|done]. by apply lookup_app_l_Some.
  - apply set_value_same.
  - apply from_string_same.
  - unfold add_listener. destruct (as_var t a σ) as [x|] eqn:E; [|done]. apply as_var_Some in E.
    by apply (with_var_same a x).
  - unfold del_listener. destruct (as_var t a σ) as [x|] eqn:E; [|done]. apply as_var_Some in E.
    destruct σ. by apply (with_var_same a x).
  - unfold clear_listeners. destruct (as_var t a σ) as [x|] eqn:E; [|done]. apply as_var_Some in E.
    destruct σ. by apply (with_var_same a x).
  - unfold load_from_yaml, mbind, M_bind. pose proof (load_nodes_same (load_all_member root [] []).2 σ) as H.
    by destruct (load_nodes _ σ) as [[] ?].
Qed.

Lemma run_wf ops σ : wf σ -> wf (run ops σ) /\ extends σ (run ops σ).
Proof.
  unfold run. revert σ. induction ops as [|o ops IH]; intros σ Hwf; cbn; [split; [done|split; [done|by intros ?; eauto]]|].
  destruct (exec_wf o σ Hwf) as [Hw [Hd Hk]]. destruct (IH _ Hw) as [? [Hd' Hk']].
  split; [done|]. split; [by etrans|by etrans].
Qed.

(** Names are valid. *)
Lemma run_valid ops w name a : datas_ (run ops (Config_new w)) !! name = Some a -> valid_name name = true.
Proof.
  assert (forall n b, datas_ (Config_new w) !! n = Some b -> valid_name n = true) as H0 by done.
  unfold run. revert H0. generalize (Config_new w). induction ops as [|o ops IH]; intros σ H0; [apply H0|]. cbn. apply IH.
  intros n b. assert (datas_ (exec o σ) = datas_ σ \/ exists t m v d, o = OpLookUp t m v d) as [->|(t & m & v & d & ->)]; [|apply H0|].
  { destruct o as [t m v d|t c v|c s|t c cb|t c key|t c|root]; cbn [exec]; [right; by eexists _, _, _, _|left..].
    - apply set_value_same.
    - apply from_string_same.
    - unfold add_listener. by destruct (as_var t c σ).
    - unfold del_listener. by destruct (as_var t c σ).
    - unfold clear_listeners. by destruct (as_var t c σ).
    - unfold load_from_yaml, mbind, M_bind. pose proof (load_nodes_same (load_all_member root [] []).2 σ) as [H _].
      by destruct (load_nodes _ σ) as [[] ?]. }
  cbn [exec]. unfold look_up. destruct (valid_name m) eqn:Hv; cbn; [|apply H0]. destruct (datas_ σ !! m); cbn; [apply H0|].
  destruct (decide (m = n)) as [<-|Hne]; [done|]. rewrite lookup_insert_ne by done. apply H0.
Qed.

(** (C16) Configuration variables are typed for good: whatever was called before, a
    [look_up<T>] that returns a variable returns a [ConfigVar<T>] with the name asked
    for; and whatever is called after it, the same name gives the same variable to
    every [look_up<T>] and a null pointer to a [look_up] at any other type, neither
    changing anything. *)
Theorem look_up_typed (ops : list op) (w : W) t name v d a :
  let σ := run ops (Config_new w) in
  (look_up t name v d σ).1 = Ret (Some a) ->
  let σ1 := (look_up t name v d σ).2 in
  (exists x, as_var t a σ1 = Some x /\ name_ x = name) /\
  forall ops', let σ' := run ops' σ1 in
    (forall v' d', look_up t name v' d' σ' = (Ret (Some a), σ')) /\
    forall t' v' d', t' <> t -> look_up t' name v' d' σ' = (Ret None, σ').
Proof.
  intros σ Hr σ1. assert (wf σ) as Hwf by (by apply run_wf; intros ? ?).
  destruct (exec_wf (OpLookUp t name v d) σ Hwf) as [Hw1 _]. cbn [exec] in Hw1. fold σ1 in Hw1.
  assert (valid_name name = true /\ datas_ σ1 !! name = Some a /\ exists x, as_var t a σ1 = Some x) as (Hv & Ha & x & Ex).
  { unfold σ1, look_up in *. destruct (valid_name name); [|done]. cbn in *. split; [done|].
    destruct (datas_ σ !! name) as [b|] eqn:E; cbn in *.
    - unfold dynamic_pointer_cast in Hr. destruct (as_var t b σ) as [x|] eqn:Ex; [|done]. simplify_eq. eauto.
    - injection Hr as <-. rewrite lookup_insert_eq. split; [done|]. eexists. apply as_var_Some. by apply list_lookup_middle. }
  apply as_var_Some in Ex. split.
  { destruct (Hw1 name a Ha) as (t' & x' & Ex' & N). exists x. rewrite as_var_Some. rewrite Ex' in Ex. simplify_eq. done. }
  intros ops' σ'. destruct (run_wf ops' σ1 Hw1) as [_ [Hd Hk]]. fold σ' in Hd, Hk.
  pose proof (lookup_weaken _ _ _ _ Ha Hd) as Ha'. destruct (Hk a t x Ex) as (x' & Ex' & _).
  unfold look_up, dynamic_pointer_cast. rewrite Hv, Ha'. cbn. split.
  - intros _ _. by rewrite (proj2 (as_var_Some t a σ' x') Ex').
  - intros t' _ _ Hne. destruct (as_var t' a σ') as [y|] eqn:Ey; [|done]. apply as_var_Some in Ey.
    rewrite Ex' in Ey. by simplify_eq.
Qed.

(** ** Loading a document *)

(** The nodes of a document in the order they are written, a map before its members, each with the keys on the way to it. *)
Fixpoint members (path : list (list Z)) (node : Node) : list (list (list Z) * Node) :=
  (path, node) ::
  match node with
  | Map l => (fix all (l : list (list Z * Node)) :=
                match l with [] => [] | (k, n) :: l => members (path ++ [k]) n ++ all l end) l
  | _ => []
  end.
(** The keys in lower case with dots between them; empty keys at the front do not count. *)
Fixpoint join (ks : list (list Z)) : list Z :=
  match ks with [] => [] | [k] => k | k :: ks => k ++ [46] ++ join ks end.
Fixpoint strip (path : list (list Z)) : list (list Z) :=
  match path with [] :: path => strip path | _ => path end.
Definition dotted (path : list (list Z)) : list Z := join (map (map tolower) (strip path)).
(** A scalar as it is written, any other node as YAML. *)
Definition shown (node : Node) : list Z :=
  match node with Scalar s => s | Null => emit Null | Seq l => emit (Seq l) | Map l => emit (Map l) end.
(** The texts a document has for a name, in its order. *)
Definition texts (name : list Z) (root : Node) : list (list Z) :=
  omap (λ pn, if bool_decide (dotted pn.1 = name) then Some (shown pn.2) else None) (members [] root).

Lemma join_snoc ks k : ks <> [] -> join (ks ++ [k]) = join ks ++ [46] ++ k.
Proof.
  induction ks as [|k0 [|k1 ks] IH]; intros Hne; [done|done|]. cbn [app join] in *. rewrite IH by done. by rewrite <- !app_assoc.
Qed.
Lemma strip_snoc path k : strip (path ++ [k]) = match strip path with [] => strip [k] | ks => ks ++ [k] end.
Proof. induction path as [|[|c k0] path IH]; [done|exact IH|done]. Qed.
Lemma strip_head path : match strip path with [] => True | k :: _ => k <> [] end.
Proof. induction path as [|[|c k0] path IH]; [done|exact IH|done]. Qed.

Lemma dotted_snoc path k : dotted (path ++ [k]) = child_name (dotted path) k.
Proof.
  unfold dotted, child_name. rewrite strip_snoc. pose proof (strip_head path) as Hh. destruct (strip path) as [|k0 ks].
  - cbn. rewrite drop_0. by destruct k.
  - set (ks' := k0 :: ks) in *. rewrite map_app. cbn [map]. rewrite join_snoc by (by unfold ks').
    assert (join (map (map tolower) ks') <> []) as Hne by (unfold ks'; destruct k0; [done|]; by destruct ks).
    rewrite bool_decide_eq_false_2 by done. by rewrite take_app_length, drop_app_length.
Qed.
Lemma child_name_extends p k : exists q, child_name p k = p ++ q.
Proof.
  unfold child_name. case_bool_decide as E; [subst p; cbn; by eexists|]. rewrite take_app_length, drop_app_length. by eexists.
Qed.
Lemma dotted_extends path q : exists r, dotted (path ++ q) = dotted path ++ r.
Proof.
  induction q as [|k q IH] using rev_ind; [exists []; by rewrite !app_nil_r|]. destruct IH as [r E].
  rewrite app_assoc, dotted_snoc. destruct (child_name_extends (dotted (path ++ q)) k) as [r' ->]. exists (r ++ r'). by rewrite E, app_assoc.
Qed.
Lemma valid_name_app a b : valid_name (a ++ b) = valid_name a && valid_name b.
Proof. apply forallb_app. Qed.

Lemma members_below node : forall path p n, (p, n) ∈ members path node -> exists q, p = path ++ q.
Proof.
  revert node. fix IH 1. intros node path p n. destruct node as [|s|l|l]; cbn [members]; rewrite elem_of_cons.
  1-3: intros [[= -> ->]|[]%not_elem_of_nil]; exists []; by rewrite app_nil_r.
  intros [[= -> ->]|Hin]; [exists []; by rewrite app_nil_r|]. induction l as [|[k c] l IHl]; [by apply not_elem_of_nil in Hin|].
  apply elem_of_app in Hin as [Hin|Hin]; [|by apply IHl]. apply (IH c) in Hin as [q ->]. exists ([k] ++ q). by rewrite app_assoc.
Qed.

(** The members that have a valid name, under that name. *)
Definition named (l : list (list (list Z) * Node)) : list (list Z * Node) :=
  omap (λ pn, if valid_name (dotted pn.1) then Some (dotted pn.1, pn.2) else None) l.
Lemma named_cons p n l : named ((p, n) :: l) = (if valid_name (dotted p) then [(dotted p, n)] else []) ++ named l.
Proof. unfold named. cbn [omap list_omap fst snd]. by destruct (valid_name (dotted p)). Qed.
Lemma named_app l l' : named (l ++ l') = named l ++ named l'.
Proof. apply omap_app. Qed.

Lemma named_invalid path node : valid_name (dotted path) = false -> named (members path node) = [].
Proof.
  intros Hv. assert (forall p n, (p, n) ∈ members path node -> valid_name (dotted p) = false) as Hall.
  { intros p n [q ->]%members_below. destruct (dotted_extends path q) as [r ->]. by rewrite valid_name_app, Hv. }
  induction (members path node) as [|[p n] l IH]; [done|]. rewrite named_cons, (Hall p n) by (by left). apply IH.
  intros p' n' Hin. apply (Hall p' n'). by right.
Qed.

Lemma load_all_member_eq node : forall path output,
  (load_all_member node (dotted path) output).2 = output ++ named (members path node).
Proof.
  revert node. fix IH 1. intros node path output. destruct (valid_name (dotted path)) eqn:Hv; cycle 1.
  { rewrite named_invalid, app_nil_r by done. destruct node; cbn [load_all_member]; by rewrite Hv. }
  assert (forall rest, named ((path, node) :: rest) = (dotted path, node) :: named rest) as Hhead by (intros rest; by rewrite named_cons, Hv).
  destruct node as [|s|l|l]; cbn [load_all_member members]; rewrite Hv, Hhead; cbn [negb snd]; [done..|].
  rewrite (cons_middle _ output (named _)), app_assoc. generalize (output ++ [(dotted path, Map l)]). clear Hv Hhead.
  induction l as [|[k c] l IHl]; intros out; [symmetry; apply app_nil_r|].
  rewrite <- dotted_snoc, (IH c (path ++ [k]) out), IHl, named_app. by rewrite app_assoc.
Qed.

(** What [from_string] makes of a value when no listener objects. *)
Definition assign (t : K) (v : type t) (s : list Z) : type t :=
  match @from_str _ (ty_conv t) s with
  | Some v' => if ty_eqb t v' v then v else v'
  | None => v
  end.
(** The texts the loop hands to a name. *)
Definition handed (name : list Z) (l : list (list Z * Node)) : list (list Z) :=
  omap (λ pn, if bool_decide (pn.1 = name) then Some (node_text pn.2) else None) l.
Lemma handed_texts name root : valid_name name = true -> handed name (load_all_member root [] []).2 = texts name root.
Proof.
  intros Hv. change (load_all_member root []) with (load_all_member root (dotted [])). rewrite load_all_member_eq. cbn [app].
  unfold texts. induction (members [] root) as [|[p n] l IH]; [done|]. rewrite named_cons. unfold handed in *.
  cbn [omap list_omap fst snd]. destruct (valid_name (dotted p)) eqn:Hp; cbn [app omap list_omap fst snd].
  - rewrite IH. assert (node_text n = shown n) as -> by (by destruct n). by case_bool_decide.
  - rewrite bool_decide_eq_false_2 by congruence. exact IH.
Qed.
(** No listener throws. *)
Definition quiet (σ : Config) : Prop :=
  forall a t x k f, vars σ !! a = Some (existT t x) -> (k, f) ∈ cbs_ x ->
  forall old new w, (f old new w).1 = Ret tt.

Lemma run_listeners_quiet {t} (old new : type t) l w :
  (forall k f, (k, f) ∈ l -> forall old new w, (f old new w).1 = Ret tt) ->
  exists w', run_listeners old new l w = (Ret tt, w').
Proof.
  revert w. induction l as [|[k f] l IH]; intros w H; cbn; [eauto|].
  pose proof (H k f (list_elem_of_here _ _) old new w) as E. destruct (f old new w) as [r w']. cbn in E. subst r.
  apply IH. intros k' f' Hin. by eapply H, list_elem_of_further.
Qed.

Lemma with_value_id {t} (x : ConfigVar t) : with_value (value_ x) x = x.
Proof. by destruct x. Qed.

Lemma from_string_quiet a s σ t x :
  quiet σ -> vars σ !! a = Some (existT t x) ->
  exists b σ', from_string a s σ = (Ret b, σ') /\ datas_ σ' = datas_ σ /\
    vars σ' = <[a := existT t (with_value (assign t (value_ x) s) x)]> (vars σ).
Proof.
  intros Hq E. unfold from_string, assign. rewrite E. destruct (from_str s) as [v|].
  2: { exists false, σ. by rewrite with_value_id, list_insert_id. }
  unfold set_value. rewrite (proj2 (as_var_Some t a σ x) E). destruct (ty_eqb t v (value_ x)).
  { exists true, σ. by rewrite with_value_id, list_insert_id. }
  destruct (run_listeners_quiet (value_ x) v (cbs_ x) (world σ)) as [w ->]; [intros k f; by eapply Hq|].
  by eexists true, _.
Qed.

Lemma insert_quiet σ σ' a t x v :
  quiet σ -> vars σ !! a = Some (existT t x) -> vars σ' = <[a := existT t (with_value v x)]> (vars σ) -> quiet σ'.
Proof.
  intros Hq E Ev b t' x' k f Eb. rewrite Ev in Eb. destruct (decide (a = b)) as [<-|Hne].
  - rewrite list_lookup_insert_eq in Eb by (by eapply lookup_lt_Some). simplify_eq. exact (Hq _ _ _ k f E).
  - rewrite list_lookup_insert_ne in Eb by done. by apply (Hq b t' x').
Qed.

Lemma load_nodes_values l σ :
  wf σ -> quiet σ -> exists σ', load_nodes l σ = (Ret tt, σ') /\
  forall name a t x, datas_ σ !! name = Some a -> vars σ !! a = Some (existT t x) ->
    vars σ' !! a = Some (existT t (with_value (foldl (assign t) (value_ x) (handed name l)) x)).
Proof.
  revert σ. induction l as [|[p n] l IH]; intros σ Hwf Hq.
  { exists σ. split; [done|]. intros. cbn. by rewrite with_value_id. }
  cbn [load_nodes]. erewrite bind_Ret by done. unfold look_up_base.
  destruct (datas_ σ !! p) as [a|] eqn:Ea.
  2: { destruct (IH σ Hwf Hq) as (σ' & E & H). exists σ'. split; [done|]. intros name b t x Eb Ex. cbn.
       rewrite bool_decide_eq_false_2 by congruence. by apply (H name b t x). }
  destruct (Hwf p a Ea) as (t & x & Ex & N).
  destruct (from_string_quiet a (node_text n) σ t x Hq Ex) as (b & σ1 & E1 & D1 & V1).
  erewrite bind_Ret by exact E1. cbv beta.
  pose proof (from_string_same a (node_text n) σ) as Hs. rewrite E1 in Hs. destruct (same_wf _ _ Hs Hwf) as [Hwf1 _].
  destruct (IH σ1 Hwf1 (insert_quiet _ _ _ _ _ _ Hq Ex V1)) as (σ' & E & H). exists σ'. split; [done|].
  intros name c t' y Ec Ey. cbn. rewrite <- D1 in Ec. destruct (bool_decide_reflect (p = name)) as [<-|Hne]; cbn.
  - rewrite D1, Ea in Ec. injection Ec as <-. rewrite Ex in Ey. clear N. simplify_eq.
    refine (H p _ _ (with_value (assign _ (value_ _) (node_text n)) _) _ _); [by rewrite D1|].
    rewrite V1. by rewrite list_lookup_insert_eq by (by eapply lookup_lt_Some).
  - apply (H name c t' y Ec). rewrite V1, list_lookup_insert_ne; [done|]. intros <-. rewrite D1 in Ec.
    destruct (Hwf name a Ec) as (? & ? & ? & ?). simplify_eq.
Qed.

(** (C35) Loading a document never fails as a whole and sets exactly the variables it names, when no listener
    throws.  The texts a document has for a variable are those of the nodes, reached through maps, whose keys, in lower
    case and with dots between them, spell its name: a scalar as it is written, any other node as YAML.  They are
    assigned in the order of the document, so that a later one wins; a text that does not convert, or converts to what is
    equal to the value by the type's [==], leaves the variable as it is, and so does a document without a text for it. *)
Theorem load_from_yaml_sets (ops : list op) (w : W) (root : Node) :
  let σ := run ops (Config_new w) in
  quiet σ ->
  exists σ', load_from_yaml root σ = (Ret true, σ') /\
    forall name a t x, datas_ σ !! name = Some a -> as_var t a σ = Some x ->
      as_var t a σ' = Some (with_value (foldl (assign t) (value_ x) (texts name root)) x).
Proof.
  intros σ Hq. assert (wf σ) as Hwf by (by apply run_wf; intros ? ?).
  destruct (load_nodes_values (load_all_member root [] []).2 σ) as (σ' & E & H); [done|done|].
  exists σ'. split; [unfold load_from_yaml; by erewrite bind_Ret by exact E|].
  intros name a t x Ea Ex. rewrite <- handed_texts by (by eapply run_valid). apply as_var_Some, (H name a t x Ea). by apply as_var_Some.
Qed.

End config.
Arguments mkConfigVar {K Ts W t}.
Arguments name_ {K Ts W t}.
Arguments description_ {K Ts W t}.
Arguments value_ {K Ts W t}.
Arguments cbs_ {K Ts W t}.

(** ** An instance: variables that hold strings *)

Module Strings.
#[export] Instance types : Types unit := {
  type := λ _, list Z;
  ty_conv := λ _, string_converter;
  ty_eqb := λ _ a b, bool_decide (a = b);
}.
Definition document : Node := Map [(str "Server", Map [(str "Name", Scalar (str "x1"))]); (str "b d", Scalar (str "no"))].
End Strings.
#[local] Existing Instances Numbered.yaml Strings.types.

Definition string_ops : list (op (K := unit) (W := unit)) := [OpLookUp (K := unit) tt (str "server.name") (str "old") []].

Lemma look_up_typed_witness :
  exists x, as_var (W := unit) tt 0 (look_up (K := unit) tt (str "server.name") (str "new") []
                           (run string_ops (Config_new tt))).2 = Some x /\
    name_ x = str "server.name".
Proof.
  destruct (look_up_typed string_ops tt tt (str "server.name") (str "new") [] 0) as [H _]; [by vm_compute|].
  exact H.
Defined.

Lemma load_from_yaml_sets_witness :
  exists σ', load_from_yaml (W := unit) Strings.document (run string_ops (Config_new tt)) = (Ret true, σ') /\
    (value_ <$> as_var tt 0 σ') = Some (str "x1").
Proof.
  destruct (load_from_yaml_sets string_ops tt Strings.document) as (σ' & E & H).
  { intros [|a] t x k f E Hin; [|done]. destruct t. vm_compute in E. simplify_eq. by apply not_elem_of_nil in Hin. }
  exists σ'. split; [exact E|].
  rewrite (H (str "server.name") 0%nat tt (ConfigVar_new (Ts := Strings.types) tt (str "server.name") [] (str "old"))); vm_compute; reflexivity.
Defined.
