(* ===== verification/HttpSizes.v ===== *)
(** * The sizes of the HTTP parsers: src/sylar/http/http_parser.cpp

    Four configuration variables and four globals that follow them: the globals are set
    from the variables when the program starts, and by a listener of each variable from
    then on.  The sizes are the arguments [buff_size] and [max_size] of HttpSession.v. *)

From S2P Require Import Prelude Text Yaml Config.

Inductive size := request_buffer_size | request_max_body_size | response_buffer_size | response_max_body_size.
#[global] Instance size_eq_dec : EqDecision size.
Proof. solve_decision. Defined.
Definition sizes : list size := [request_buffer_size; request_max_body_size; response_buffer_size; response_max_body_size].

Definition size_name (i : size) : list Z :=
  match i with
  | request_buffer_size => str "http.request.buffer_size"
  | request_max_body_size => str "http.request.max_body_size"
  | response_buffer_size => str "http.response.buffer_size"
  | response_max_body_size => str "http.response.max_body_size"
  end.
Definition size_description (i : size) : list Z :=
  match i with
  | request_buffer_size => str "http request buffer size"
  | request_max_body_size => str "http request max body size"
  | response_buffer_size => str "http response buffer size"
  | response_max_body_size => str "http response max body size"
  end.
Definition size_default (i : size) : Z :=
  match i with
  | request_buffer_size | response_buffer_size => 4 * 1024
  | request_max_body_size | response_max_body_size => 64 * 1024 * 1024
  end.

(** The globals [t_http_...], among whatever else the program has. *)
Class HasSizes (W V : Type) := {
  t_http : size -> W -> V;
  set_t_http : size -> V -> W -> W;
  t_http_eq i v w : t_http i (set_t_http i v w) = v;
  t_http_ne i j v w : i <> j -> t_http j (set_t_http i v w) = t_http j w;
}.

Section sizes.
Context {Y : Yaml} {K : Type} {Ts : Types K} {W : Type} (uint64 : K) (num : Z -> type uint64) `{!HasSizes W (type uint64)}.

(** The initialisation of [g_http_...], in the order of the file. *)
Fixpoint look_up_sizes (l : list size) : M (Config (W := W)) (list (option nat)) :=
  match l with
  | [] => mret []
  | i :: l =>
      g ← look_up uint64 (size_name i) (num (size_default i)) (size_description i);
      gs ← look_up_sizes l;
      mret (g :: gs)
  end.

(** [_HttpRequestSizeIniter]: the globals first, then the listeners. *)
Definition size_listener (i : size) : Listener (W := W) uint64 := λ _ new_value w, (Ret tt, set_t_http i new_value w).
Fixpoint init_values (l : list (size * option nat)) : M (Config (W := W)) unit :=
  match l with
  | [] => mret tt
  | (i, Some g) :: l =>
      v ← get_value uint64 g;
      _ ← modify (λ σ, with_world (set_t_http i v (world σ)) σ);
      init_values l
  | (_, None) :: _ => λ σ, (Fault NullDeref, σ)
  end.
Fixpoint init_listeners (l : list (size * option nat)) : M (Config (W := W)) unit :=
  match l with
  | [] => mret tt
  | (i, Some g) :: l => _ ← add_listener uint64 g (size_listener i); init_listeners l
  | (_, None) :: _ => λ σ, (Fault NullDeref, σ)
  end.
Definition static_init : M (Config (W := W)) unit :=
  gs ← look_up_sizes sizes;
  _ ← init_values (zip sizes gs);
  init_listeners (zip sizes gs).

(** [get_request_buffer_size] and the other getters. *)
Definition get_http_size (i : size) (σ : Config (W := W)) : type uint64 := t_http i (world σ).

(** ** The globals follow the variables *)

(** Where the variables are when the program has started. *)
Definition place (i : size) : nat :=
  match i with request_buffer_size => 0 | request_max_body_size => 1 | response_buffer_size => 2 | response_max_body_size => 3 end%nat.

(** A listener that returns and sets no size, at most the size [i], and always [i]. *)
Definition benign {t} (f : Listener (W := W) t) : Prop := forall old new w, exists w', f old new w = (Ret tt, w') /\ forall j, t_http j w' = t_http j w.
Definition at_most (i : size) (f : Listener (W := W) uint64) : Prop := forall old new w, exists w', f old new w = (Ret tt, w') /\
  (forall j, j <> i -> t_http j w' = t_http j w) /\ (t_http i w' = t_http i w \/ t_http i w' = new).

(** The place belongs to no size. *)
Definition elsewhere (a : nat) : Prop := forall i, a <> place i.

Record follows (n : Z) (σ : Config (W := W)) : Prop := {
  f_var i : exists x : ConfigVar (W := W) uint64, vars σ !! place i = Some (existT uint64 x) /\ get_http_size i σ = value_ x /\
    Forall (λ p, at_most i p.2 /\ p.1 <= s_fun_id σ uint64) (cbs_ x) /\ exists k, (k, size_listener i) ∈ cbs_ x;
  f_others a t x : elsewhere a -> vars σ !! a = Some (existT t x) -> Forall (λ p, benign p.2) (cbs_ x);
  f_names i : datas_ σ !! size_name i = Some (place i);
  f_keys : 0 <= s_fun_id σ uint64 <= n;
}.

Lemma run_listeners_benign {t} (old new : type t) l w :
  Forall (λ p, benign p.2) l -> exists w', run_listeners old new l w = (Ret tt, w') /\ forall j, t_http j w' = t_http j w.
Proof.
  intros H. induction H as [|[k f] l Hf _ IH] in w |- *; cbn [run_listeners]; [by exists w|].
  cbn [snd] in Hf. destruct (Hf old new w) as (w1 & -> & H1). destruct (IH w1) as (w2 & -> & H2). exists w2. split; [done|]. intros j. by rewrite H2.
Qed.
Lemma run_listeners_at_most i (old new : type uint64) l w :
  Forall (λ p, at_most i p.2) l -> exists w', run_listeners old new l w = (Ret tt, w') /\
    (forall j, j <> i -> t_http j w' = t_http j w) /\ (t_http i w' = t_http i w \/ t_http i w' = new) /\
    ((exists k, (k, size_listener i) ∈ l) -> t_http i w' = new).
Proof.
  intros H. induction H as [|[k f] l Hf _ IH] in w |- *; cbn [run_listeners].
  { exists w. split_and!; [done|done|by left|]. by intros [? ?%elem_of_nil]. }
  cbn [snd] in Hf. destruct (Hf old new w) as (w1 & E1 & H1 & H1i). rewrite E1. destruct (IH w1) as (w2 & -> & H2 & H2i & H2s). exists w2. split_and!; [done| | |].
  - intros j Hj. by rewrite H2, H1.
  - destruct H2i as [-> | ->]; [done|by right].
  - intros [k' [[= <- <-]|Hin]%elem_of_cons]; [|apply H2s; by exists k']. injection E1 as <-. destruct H2i as [-> | ->]; [apply t_http_eq|done].
Qed.

Lemma place_or_elsewhere a : (exists i, a = place i) \/ elsewhere a.
Proof.
  destruct a as [|[|[|[|a]]]]; [left; by exists request_buffer_size|left; by exists request_max_body_size|left; by exists response_buffer_size|left; by exists response_max_body_size|].
  right. by intros [].
Qed.
Lemma place_inj i j : place i = place j -> i = j.
Proof. by destruct i, j. Qed.
Lemma var_at i (σ : Config (W := W)) t a x n :
  follows n σ -> vars σ !! a = Some (existT t x) -> a = place i -> t = uint64.
Proof. intros H E ->. destruct (f_var _ _ H i) as (y & Ey & _). rewrite E in Ey. by injection Ey. Qed.

(** The variable at [a] gets other contents, and the program another state. *)
Lemma with_var_follows n n' (σ σ' : Config (W := W)) i (x x' : ConfigVar (W := W) uint64) :
  follows n σ -> vars σ !! place i = Some (existT uint64 x) -> vars σ' = <[place i := existT uint64 x']> (vars σ) -> datas_ σ' = datas_ σ ->
  s_fun_id σ uint64 <= s_fun_id σ' uint64 <= n' -> (forall j, j <> i -> get_http_size j σ' = get_http_size j σ) -> get_http_size i σ' = value_ x' ->
  Forall (λ p, at_most i p.2 /\ p.1 <= s_fun_id σ' uint64) (cbs_ x') -> (exists k, (k, size_listener i) ∈ cbs_ x') -> follows n' σ'.
Proof.
  intros [H1 H2 H3 H4] Ex Ev Ed Hid Hne Heq Hcbs Hk. split.
  - intros j. destruct (decide (j = i)) as [->|Hj].
    + exists x'. split_and!; [|done..]. rewrite Ev. apply list_lookup_insert_eq. by eapply lookup_lt_Some.
    + destruct (H1 j) as (y & Ey & Hy & Hc & Hl). exists y. split_and!; [|by rewrite Hne| |done].
      * rewrite Ev, list_lookup_insert_ne; [done|]. intros E%place_inj. by destruct Hj.
      * eapply Forall_impl; [exact Hc|]. intros p [? ?]. split; [done|lia].
  - intros a t y Ha. rewrite Ev, list_lookup_insert_ne by (intros E; by apply (Ha i)). by apply H2.
  - rewrite Ed. exact H3.
  - lia.
Qed.
Lemma elsewhere_follows n n' (σ σ' : Config (W := W)) a t (x' : ConfigVar (W := W) t) :
  follows n σ -> elsewhere a -> vars σ' = <[a := existT t x']> (vars σ) -> datas_ σ' = datas_ σ ->
  s_fun_id σ uint64 <= s_fun_id σ' uint64 <= n' -> (forall j, get_http_size j σ' = get_http_size j σ) -> Forall (λ p, benign p.2) (cbs_ x') -> follows n' σ'.
Proof.
  intros [H1 H2 H3 H4] Ha Ev Ed Hid Hsame Hcbs. split.
  - intros j. destruct (H1 j) as (y & Ey & Hy & Hc & Hl). exists y. split_and!; [|by rewrite Hsame| |done].
    + rewrite Ev, list_lookup_insert_ne by apply Ha. done.
    + eapply Forall_impl; [exact Hc|]. intros p [? ?]. split; [done|lia].
  - intros b s y Hb Ey. rewrite Ev in Ey. apply list_lookup_insert_Some in Ey as [(<- & E & _)|[_ Ey]]; [|by eapply H2]. by simplify_eq.
  - rewrite Ed. exact H3.
  - lia.
Qed.

Lemma set_value_follows n (σ : Config (W := W)) t a v : follows n σ -> follows n (set_value t a v σ).2.
Proof.
  intros H. unfold set_value. destruct (as_var t a σ) as [x|] eqn:Ex; [|done]. apply as_var_Some in Ex. destruct (ty_eqb _ _ _); [done|].
  destruct (place_or_elsewhere a) as [[i Ei]|Ha].
  - pose proof (var_at i σ t a x n H Ex Ei) as ->. subst a. destruct (f_var _ _ H i) as (y & Ey & Hy & Hc & Hl). rewrite Ex in Ey. simplify_eq.
    destruct (run_listeners_at_most i (value_ y) v (cbs_ y) (world σ)) as (w & -> & Hw & _ & Hi); [eapply Forall_impl; [exact Hc|by intros p []]|].
    cbn [snd]. eapply (with_var_follows n n σ _ i y (with_value v y)); [exact H|done|reflexivity|done|cbn; pose proof (f_keys _ _ H); lia|exact Hw|exact (Hi Hl)|exact Hc|exact Hl].
  - destruct (run_listeners_benign (value_ x) v (cbs_ x) (world σ)) as (w & -> & Hw); [by eapply f_others|].
    cbn [snd]. eapply (elsewhere_follows n n σ _ a t (with_value v x)); [exact H|done|reflexivity|done|cbn; pose proof (f_keys _ _ H); lia|exact Hw|exact (f_others _ _ H a t x Ha Ex)].
Qed.
Lemma from_string_follows n (σ : Config (W := W)) a s : follows n σ -> follows n (from_string a s σ).2.
Proof.
  intros H. unfold from_string. destruct (vars σ !! a) as [[t x]|]; [|done]. destruct (from_str s) as [v|]; [|done].
  pose proof (set_value_follows n σ t a v H). by destruct (set_value t a v σ) as [[] ?].
Qed.
Lemma load_follows n l (σ : Config (W := W)) : follows n σ -> follows n (load_nodes l σ).2.
Proof.
  revert σ. induction l as [|[p nd] l IH]; intros σ H; [done|]. cbn [load_nodes]. erewrite bind_Ret by done.
  destruct (look_up_base p σ) as [a|]; [|by apply IH]. pose proof (from_string_follows n σ a (node_text nd) H) as H1.
  unfold mbind, M_bind. destruct (from_string a (node_text nd) σ) as [[] σ']; [by apply IH|done..].
Qed.

Lemma cbs_set_last {t} k (f : Listener (W := W) t) l : Forall (λ p, p.1 < k) l -> cbs_set k f l = l ++ [(k, f)].
Proof.
  induction 1 as [|[k' f'] l Hk _ IH]; [done|]. cbn [cbs_set fst] in *. rewrite (proj2 (Z.ltb_ge k k')), (proj2 (Z.eqb_neq k k')) by lia. by rewrite IH.
Qed.
Lemma cbs_set_in {t} k (f : Listener (W := W) t) l p : p ∈ cbs_set k f l -> p = (k, f) \/ p ∈ l.
Proof.
  induction l as [|[k' f'] l IH]; cbn [cbs_set]; [intros ?%list_elem_of_singleton; by left|].
  destruct (k <? k'); [intros [?|?]%elem_of_cons; auto|]. destruct (k =? k'); intros [->|Hin]%elem_of_cons.
  - by left.
  - right. by right.
  - right. by left.
  - destruct (IH Hin); [by left|right; by right].
Qed.
Lemma benign_at_most i (f : Listener (W := W) uint64) : benign f -> at_most i f.
Proof. intros H old new w. destruct (H old new w) as (w' & E & Hw). exists w'. split_and!; [done|intros j _; apply Hw|left; apply Hw]. Qed.

Lemma add_listener_follows n (σ : Config (W := W)) t a f : n + 1 < 2 ^ 64 -> follows n σ -> benign f -> follows (n + 1) (add_listener t a f σ).2.
Proof.
  intros Hn H Hf. pose proof (f_keys _ _ H) as Hk. unfold add_listener. destruct (as_var t a σ) as [x|] eqn:Ex.
  2: { destruct H as [H1 H2 H3 H4]. split; [exact H1|exact H2|exact H3|cbn; lia]. }
  apply as_var_Some in Ex. cbn [snd]. destruct (place_or_elsewhere a) as [[i Ei]|Ha].
  - pose proof (var_at i σ t a x n H Ex Ei) as ->. subst a. destruct (f_var _ _ H i) as (y & Ey & Hy & Hc & Hl). rewrite Ex in Ey. simplify_eq.
    rewrite (uint_small 64) by lia. eapply (with_var_follows n (n + 1) σ _ i y); [exact H|done|reflexivity|done|cbn; rewrite decide_True by done; lia|done|exact Hy| |].
    + cbn [cbs_ with_cbs]. rewrite cbs_set_last by (eapply Forall_impl; [exact Hc|intros p [_ ?]; lia]). cbn. rewrite decide_True by done.
      apply Forall_app. split; [eapply Forall_impl; [exact Hc|intros p [? ?]; split; [done|lia]]|]. constructor; [|constructor]. split; [by apply benign_at_most|cbn; lia].
    + destruct Hl as [k Hl]. exists k. cbn [cbs_ with_cbs]. rewrite cbs_set_last by (eapply Forall_impl; [exact Hc|intros p [_ ?]; lia]). apply elem_of_app. by left.
  - eapply (elsewhere_follows n (n + 1) σ _ a t); [exact H|done|reflexivity|done| |done|].
    + cbn. destruct (decide (uint64 = t)) as [<-|]; [|lia]. rewrite (uint_small 64) by lia. lia.
    + cbn [cbs_ with_cbs]. apply Forall_forall. intros p [->|Hin]%cbs_set_in; [exact Hf|]. pose proof (f_others _ _ H a t x Ha Ex) as Ho. rewrite Forall_forall in Ho. by apply Ho.
Qed.
Lemma look_up_follows n (σ : Config (W := W)) t name v d : follows n σ -> follows n (look_up t name v d σ).2.
Proof.
  intros H. unfold look_up. destruct (negb _); [done|]. destruct (datas_ σ !! name) as [a|] eqn:E; [done|]. destruct H as [H1 H2 H3 H4]. cbn [snd]. split.
  - intros i. destruct (H1 i) as (x & Ex & Hx). exists x. split; [by apply lookup_app_l_Some|exact Hx].
  - intros a s x Ha Ex. cbn [vars] in Ex. apply lookup_app_Some in Ex as [Ex|[_ Ex]]; [by eapply H2|]. apply list_lookup_singleton_Some in Ex as [_ Ex]. simplify_eq. constructor.
  - intros i. cbn [datas_]. rewrite lookup_insert_ne; [apply H3|]. intros ->. by rewrite H3 in E.
  - exact H4.
Qed.

(** ** The start of the program *)

Definition new_var (i : size) : ConfigVar (W := W) uint64 := ConfigVar_new uint64 (size_name i) (size_description i) (num (size_default i)).
Definition started_world (w : W) : W := foldl (λ w i, set_t_http i (num (size_default i)) w) w sizes.
Definition heard (i : size) : ConfigVar (W := W) uint64 := with_cbs [(Z.of_nat (place i) + 1, size_listener i)] (new_var i).

Lemma look_up_sizes_fresh (w : W) : exists datas,
  look_up_sizes sizes (Config_new w) =
    (Ret [Some 0%nat; Some 1%nat; Some 2%nat; Some 3%nat], mkConfig datas (existT uint64 ∘ new_var <$> sizes) (λ _, 0) w) /\
  forall i, datas !! size_name i = Some (place i).
Proof. eexists. split; [vm_compute; reflexivity|]. by intros []; vm_compute. Qed.

Lemma get_value_at (σ : Config (W := W)) a (x : ConfigVar (W := W) uint64) : vars σ !! a = Some (existT uint64 x) -> get_value uint64 a σ = (Ret (value_ x), σ).
Proof. intros E. unfold get_value. by rewrite (proj2 (as_var_Some uint64 a σ x) E). Qed.
Lemma add_listener_at (σ : Config (W := W)) a x f :
  vars σ !! a = Some (existT uint64 x) -> 0 <= s_fun_id σ uint64 < 2 ^ 64 - 1 ->
  exists ids, add_listener uint64 a f σ = (Ret (s_fun_id σ uint64 + 1),
    mkConfig (datas_ σ) (<[a := existT uint64 (with_cbs (cbs_set (s_fun_id σ uint64 + 1) f (cbs_ x)) x)]> (vars σ)) ids (world σ)) /\
  ids uint64 = s_fun_id σ uint64 + 1.
Proof.
  intros E Hk. unfold add_listener. rewrite (proj2 (as_var_Some uint64 a σ x) E), (uint_small 64) by lia. eexists. split; [reflexivity|].
  cbn [s_fun_id]. by destruct (decide (uint64 = uint64)).
Qed.

Lemma static_init_follows (w : W) : exists σ, static_init (Config_new w) = (Ret tt, σ) /\ follows 4 σ /\ forall i, get_http_size i σ = num (size_default i).
Proof.
  destruct (look_up_sizes_fresh w) as (datas & E & Hd). unfold static_init. erewrite bind_Ret by exact E. cbn [zip zip_with sizes].
  set (σ1 := mkConfig datas _ _ w) in *.
  assert (init_values [(request_buffer_size, Some 0%nat); (request_max_body_size, Some 1%nat); (response_buffer_size, Some 2%nat); (response_max_body_size, Some 3%nat)] σ1 =
    (Ret tt, with_world (started_world w) σ1)) as E2.
  { cbn [init_values]. do 4 (erewrite bind_Ret by (apply get_value_at; reflexivity); erewrite bind_Ret by reflexivity). reflexivity. }
  erewrite bind_Ret by exact E2. cbn [init_listeners].
  destruct (add_listener_at (with_world (started_world w) σ1) 0 (new_var request_buffer_size) (size_listener request_buffer_size) eq_refl) as (ids1 & L1 & K1); [cbn; lia|].
  erewrite bind_Ret by exact L1. set (σ2 := mkConfig _ _ ids1 _).
  destruct (add_listener_at σ2 1 (new_var request_max_body_size) (size_listener request_max_body_size) eq_refl) as (ids2 & L2 & K2); [cbn; rewrite K1; cbn; lia|].
  erewrite bind_Ret by exact L2. set (σ3 := mkConfig _ _ ids2 _).
  destruct (add_listener_at σ3 2 (new_var response_buffer_size) (size_listener response_buffer_size) eq_refl) as (ids3 & L3 & K3); [cbn; rewrite K2; cbn; rewrite K1; cbn; lia|].
  erewrite bind_Ret by exact L3. set (σ4 := mkConfig _ _ ids3 _).
  destruct (add_listener_at σ4 3 (new_var response_max_body_size) (size_listener response_max_body_size) eq_refl) as (ids4 & L4 & K4); [cbn; rewrite K3; cbn; rewrite K2; cbn; rewrite K1; cbn; lia|].
  erewrite bind_Ret by exact L4. eexists. split; [reflexivity|]. cbn in K1, K2, K3, K4. rewrite K1 in K2. rewrite K2 in K3. rewrite K3 in K4.
  assert (forall i, t_http i (started_world w) = num (size_default i)) as Hw.
  { intros []; unfold started_world; cbn [foldl sizes]; repeat (rewrite t_http_ne by done); apply t_http_eq. }
  split; [|exact Hw]. split; cbn [datas_ vars s_fun_id world].
  - intros i. exists (heard i). split_and!; [|exact (Hw i)| |].
    + cbn. rewrite K1, K2, K3. by destruct i.
    + cbn. rewrite K4. repeat constructor; [|destruct i; cbn; lia]. intros old new w'. eexists. split; [reflexivity|]. split; [intros j Hj; by apply t_http_ne|right; apply t_http_eq].
    + eexists. cbn. by left.
  - intros a t x Ha Ex. exfalso. destruct a as [|[|[|[|a]]]]; [by apply (Ha request_buffer_size)|by apply (Ha request_max_body_size)|by apply (Ha response_buffer_size)|by apply (Ha response_max_body_size)|].
    cbn in Ex. done.
  - exact Hd.
  - rewrite K4. lia.
Qed.

(** ** What is called later *)

Definition size_safe (o : op (W := W)) : Prop :=
  match o with
  | OpAddListener _ _ f => benign f
  | OpDelListener _ a _ | OpClearListeners _ a => elsewhere a
  | _ => True
  end.
Lemma exec_follows n (σ : Config (W := W)) o : n + 1 < 2 ^ 64 -> follows n σ -> size_safe o -> follows (n + 1) (exec o σ).
Proof.
  intros Hn H Ho. assert (forall σ', follows n σ' -> follows (n + 1) σ') as Hmono by (intros σ' [H1 H2 H3 H4]; split; [exact H1|exact H2|exact H3|lia]).
  destruct o as [t name v d|t a v|a s|t a f|t a key|t a|root]; cbn [exec size_safe] in *.
  - by apply Hmono, look_up_follows.
  - by apply Hmono, set_value_follows.
  - by apply Hmono, from_string_follows.
  - by apply add_listener_follows.
  - apply Hmono. unfold del_listener. destruct (as_var t a σ) as [x|] eqn:Ex; [|done]. apply as_var_Some in Ex.
    eapply (elsewhere_follows n n σ _ a t); [exact H|done|reflexivity|done|cbn; pose proof (f_keys _ _ H); lia|done|]. cbn. apply Forall_forall.
    intros p [_ Hp]%list_elem_of_filter. pose proof (f_others _ _ H a t x Ho Ex) as Hf. rewrite Forall_forall in Hf. by apply Hf.
  - apply Hmono. unfold clear_listeners. destruct (as_var t a σ) as [x|] eqn:Ex; [|done]. apply as_var_Some in Ex.
    eapply (elsewhere_follows n n σ _ a t); [exact H|done|reflexivity|done|cbn; pose proof (f_keys _ _ H); lia|done|]. constructor.
  - apply Hmono. unfold load_from_yaml, mbind, M_bind. pose proof (load_follows n (load_all_member root [] []).2 σ H) as Hl. by destruct (load_nodes _ σ) as [[] ?].
Qed.
Lemma run_follows ops : forall n (σ : Config (W := W)), n + Z.of_nat (length ops) < 2 ^ 64 -> follows n σ -> Forall size_safe ops -> follows (n + Z.of_nat (length ops)) (run ops σ).
Proof.
  induction ops as [|o ops IH]; intros n σ Hn H Hs; cbn [length] in *; [by rewrite Z.add_0_r|]. apply Forall_cons in Hs as [Ho Hs].
  replace (n + Z.of_nat (S (length ops))) with ((n + 1) + Z.of_nat (length ops)) by lia. change (run (o :: ops) σ) with (run ops (exec o σ)).
  apply IH; [lia|apply exec_follows; [lia|done|done]|done].
Qed.

(** (C36) When the program has started, the size each getter returns is the default of its configuration
    variable.  From then on it is the value of that variable, whatever variables are looked up, values set or
    loaded and listeners added, when no listener is taken from the four variables, and a listener
    that is added neither throws nor sets the sizes itself. *)
Theorem sizes_follow (w : W) (ops : list (op (W := W))) :
  Forall size_safe ops -> Z.of_nat (length ops) < 2 ^ 63 ->
  exists σ0, static_init (Config_new w) = (Ret tt, σ0) /\ (forall i, get_http_size i σ0 = num (size_default i)) /\
  forall i, exists a x, look_up_base (size_name i) (run ops σ0) = Some a /\ as_var uint64 a (run ops σ0) = Some x /\ get_http_size i (run ops σ0) = value_ x.
Proof.
  intros Hs Hlen. destruct (static_init_follows w) as (σ0 & E & H & H0). exists σ0. split_and!; [done|done|]. intros i.
  pose proof (run_follows ops 4 σ0 ltac:(lia) H Hs) as Hf. destruct (f_var _ _ Hf i) as (x & Ex & Hv & _). exists (place i), x.
  split_and!; [exact (f_names _ _ Hf i)|by apply as_var_Some|exact Hv].
Qed.
End sizes.

(** ** An instance: one type, of numbers, and a program with nothing but the four globals *)

Module Plain.
#[export] Instance types : Types unit := {
  type := λ _, Z;
  ty_conv := λ _, {| from_str := λ s, match s with [c] => Some (c - 48) | _ => None end; to_str := λ v, Some [v + 48] |};
  ty_eqb := λ _, Z.eqb;
}.
#[export] Instance globals : HasSizes (size -> Z) Z.
Proof.
  refine {| t_http := λ i w, w i; set_t_http := λ i v w j, if decide (i = j) then v else w j |}.
  - intros i v w. by rewrite decide_True.
  - intros i j v w Hij. by rewrite decide_False.
Defined.
End Plain.
#[local] Existing Instances Numbered.yaml Plain.types Plain.globals.

(** A value that is set, and a document with a text that converts and one that does not. *)
Definition plain_ops : list (op (K := unit) (W := size -> Z)) :=
  [OpSetValue (K := unit) tt 1 100;
   OpLoad (Map [(str "http", Map [(str "Request", Map [(str "buffer_size", Scalar (str "7"))]);
                                  (str "response", Map [(str "buffer_size", Scalar (str "many"))])])])].

Definition plain_start : Config (W := size -> Z) := (static_init (Ts := Plain.types) (W := size -> Z) tt id (Config_new (λ _, 0))).2.

Lemma sizes_follow_witness :
  exists σ0, static_init (Ts := Plain.types) (W := size -> Z) tt id (Config_new (λ _, 0)) = (Ret tt, σ0) /\
    (λ i, get_http_size tt i (run plain_ops σ0)) <$> sizes = [7; 100; 4096; 67108864] /\
    exists a x, look_up_base (size_name request_buffer_size) (run plain_ops σ0) = Some a /\
      as_var tt a (run plain_ops σ0) = Some x /\ value_ x = 7.
Proof.
  destruct (sizes_follow (Ts := Plain.types) (W := size -> Z) tt id (λ _, 0) plain_ops) as (σ0 & E & _ & H); [by repeat constructor|vm_compute; reflexivity|].
  exists σ0. split; [exact E|]. destruct (H request_buffer_size) as (a & x & Ea & Ex & Ev). 
  assert (σ0 = plain_start) as -> by (unfold plain_start; by rewrite E).
  split; [vm_compute; reflexivity|]. exists a, x. split_and!; [exact Ea|exact Ex|]. rewrite <- Ev. vm_compute. reflexivity.
Defined.
