(* ===== verification/Log.v ===== *)
(** * Loggers, appenders and the logger manager: src/sylar/log.h and log.cpp

    Loggers and appenders live in heaps, a [std::shared_ptr] is a place there, and
    what reaches a stream is recorded with the appender that wrote it.  Files are
    those of FSUtil.v; locks are left out. *)

From S2P Require Import Prelude Text FSUtil LogFormatter Yaml.

(** Where an appender writes: [std::cout], or the [ofstream_] on a file. *)
Inductive Sink :=
  | StdoutLogAppender
  | FileLogAppender (path : list Z) (good : bool) (last_time : Z).

Record LogAppender := mkLogAppender {
  sink : Sink;
  appender_level : Level;
  formatter_ : LogFormatter;
}.
Record Logger := mkLogger {
  name_ : list Z;
  level_ : Level;
  appenders_ : list nat;
}.

Section log.
Context {F : Type} {Fs : Files F} (strftime : list Z -> Z -> list Z).

Record Logs := mkLogs {
  loggers : list Logger;
  appenders : list LogAppender;
  root_ : nat;
  root_appender_ : nat;
  loggers_ : gmap (list Z) nat;
  written : list (nat * list Z);
  files : F;
}.
Definition with_loggers (l : list Logger) (σ : Logs) : Logs :=
  mkLogs l (appenders σ) (root_ σ) (root_appender_ σ) (loggers_ σ) (written σ) (files σ).
Definition with_appenders (l : list LogAppender) (σ : Logs) : Logs :=
  mkLogs (loggers σ) l (root_ σ) (root_appender_ σ) (loggers_ σ) (written σ) (files σ).
Definition with_names (m : gmap (list Z) nat) (σ : Logs) : Logs :=
  mkLogs (loggers σ) (appenders σ) (root_ σ) (root_appender_ σ) m (written σ) (files σ).
Definition with_files (k : F) (σ : Logs) : Logs :=
  mkLogs (loggers σ) (appenders σ) (root_ σ) (root_appender_ σ) (loggers_ σ) (written σ) k.
Definition write (a : nat) (s : list Z) (σ : Logs) : Logs :=
  mkLogs (loggers σ) (appenders σ) (root_ σ) (root_appender_ σ) (loggers_ σ) (written σ ++ [(a, s)]) (files σ).

Definition the_logger (l : nat) : M Logs Logger := λ σ,
  match loggers σ !! l with Some x => (Ret x, σ) | None => (Fault NullDeref, σ) end.
Definition the_appender (a : nat) : M Logs LogAppender := λ σ,
  match appenders σ !! a with Some x => (Ret x, σ) | None => (Fault NullDeref, σ) end.
Definition alter_logger (f : Logger -> Logger) (l : nat) : M Logs unit := λ σ,
  (Ret tt, with_loggers (alter f l (loggers σ)) σ).
Definition alter_appender (f : LogAppender -> LogAppender) (a : nat) : M Logs unit := λ σ,
  (Ret tt, with_appenders (alter f a (appenders σ)) σ).

(** ** [LogAppender] *)

(** [new LogFormatter(pattern)]. *)
Definition formatter (pattern : list Z) : M Logs LogFormatter := λ σ,
  match LogFormatter_new pattern with Some f => (Ret f, σ) | None => (Fault Diverges, σ) end.

Definition set_formatter (f : LogFormatter) (a : nat) : M Logs bool :=
  if legal_pattern_ f
  then _ ← alter_appender (λ x, mkLogAppender (sink x) (appender_level x) f) a; mret true
  else mret false.
Definition set_formatter_pattern (pattern : list Z) (a : nat) : M Logs bool :=
  f ← formatter pattern; set_formatter f a.
Definition get_formatter (a : nat) : M Logs LogFormatter := x ← the_appender a; mret (formatter_ x).
Definition set_appender_level (v : Level) (a : nat) : M Logs unit :=
  alter_appender (λ x, mkLogAppender (sink x) v (formatter_ x)) a.

(** An allocated appender. *)
Definition new_appender (x : LogAppender) : M Logs nat := λ σ,
  (Ret (length (appenders σ)), with_appenders (appenders σ ++ [x]) σ).
(** [new StdoutLogAppender(level, pattern)].  Without arguments the level is not
    initialised: [level] is then what the memory holds, the pattern the default. *)
Definition StdoutLogAppender_new (level : Level) (pattern : list Z) : M Logs nat :=
  f ← formatter pattern; new_appender (mkLogAppender StdoutLogAppender level f).
(** A call of FSUtil. *)
Definition on_files {A} (m : M F A) : M Logs A := λ σ,
  let '(r, k) := m (files σ) in (r, with_files k σ).
Definition FileLogAppender_new (path : list Z) (level : Level) (pattern : list Z) : M Logs nat :=
  f ← formatter pattern;
  ok ← on_files (open_for_write path false);
  new_appender (mkLogAppender (FileLogAppender path ok 0) level f).

Definition set_sink (s : Sink) (a : nat) : M Logs unit :=
  alter_appender (λ x, mkLogAppender s (appender_level x) (formatter_ x)) a.
Definition reopen (path : list Z) (last_time : Z) (a : nat) : M Logs bool :=
  ok ← on_files (open_for_write path true);
  _ ← set_sink (FileLogAppender path ok last_time) a;
  mret ok.

(** [StdoutLogAppender::log] and [FileLogAppender::log]; a stream that is not good
    takes nothing. *)
Definition appender_log (a : nat) (name : list Z) (level : Level) (e : LogEvent) : M Logs unit :=
  x ← the_appender a;
  if level_lt level (appender_level x) then mret tt
  else
    match sink x with
    | StdoutLogAppender => modify (write a (format strftime (formatter_ x) name level e))
    | FileLogAppender path good last_time =>
        let now := time_ e in
        k ← gets files;
        ok ← (if (100 <? u64 (now - last_time)) && negb (file_or_dir_exists path k)
              then reopen path last_time a else mret true);
        if negb ok then mret tt
        else
          x ← the_appender a;
          match sink x with
          | FileLogAppender path good _ =>
              _ ← set_sink (FileLogAppender path good now) a;
              if good then modify (write a (format strftime (formatter_ x) name level e)) else mret tt
          | StdoutLogAppender => mret tt
          end
    end.

(** ** [Logger] *)

Definition new_logger (name : list Z) (level : Level) : M Logs nat := λ σ,
  (Ret (length (loggers σ)), with_loggers (loggers σ ++ [mkLogger name level []]) σ).
Definition set_level (v : Level) (l : nat) : M Logs unit :=
  alter_logger (λ x, mkLogger (name_ x) v (appenders_ x)) l.
Definition add_appender (a : nat) (l : nat) : M Logs unit :=
  alter_logger (λ x, mkLogger (name_ x) (level_ x) (appenders_ x ++ [a])) l.
Definition clear_appenders (l : nat) : M Logs unit :=
  alter_logger (λ x, mkLogger (name_ x) (level_ x) []) l.
(** The first occurrence goes. *)
Fixpoint erase_first (a : nat) (l : list nat) : bool * list nat :=
  match l with
  | [] => (false, [])
  | b :: l => if decide (b = a) then (true, l) else let '(r, l) := erase_first a l in (r, b :: l)
  end.
Definition del_appender (a : nat) (l : nat) : M Logs bool :=
  x ← the_logger l;
  let '(r, as_) := erase_first a (appenders_ x) in
  _ ← alter_logger (λ x, mkLogger (name_ x) (level_ x) as_) l;
  mret r.

Fixpoint log_all (as_ : list nat) (name : list Z) (level : Level) (e : LogEvent) : M Logs unit :=
  match as_ with
  | [] => mret tt
  | a :: as_ => _ ← appender_log a name level e; log_all as_ name level e
  end.
Definition log (l : nat) (level : Level) (e : LogEvent) : M Logs unit :=
  x ← the_logger l;
  if level_lt level (level_ x) then mret tt
  else match appenders_ x with
       | [] => r ← gets root_appender_; appender_log r (name_ x) level e
       | as_ => log_all as_ (name_ x) level e
       end.
Definition debug (l : nat) (e : LogEvent) : M Logs unit := log l DEBUG e.
Definition info (l : nat) (e : LogEvent) : M Logs unit := log l INFO e.
Definition warn (l : nat) (e : LogEvent) : M Logs unit := log l WARN e.
Definition error (l : nat) (e : LogEvent) : M Logs unit := log l ERROR e.
Definition fatal (l : nat) (e : LogEvent) : M Logs unit := log l FATAL e.

(** [SYLAR_LOG(logger, level) << s]: the event is wrapped, and the wrap logs it
    when it goes. *)
Definition sylar_log (l : nat) (level : Level) (e : LogEvent) (s : list Z) : M Logs unit :=
  x ← the_logger l;
  if level_lt level (level_ x) then mret tt else log l level (stream_in s e).

(** ** [LoggerManager] *)

Definition ROOT_LEVEL : Level := DEBUG.
Definition root_name : list Z := str "root".
(** The constructor, on the files as they are. *)
Definition LoggerManager_new (k : F) : outcome nat * Logs :=
  (l ← new_logger root_name ROOT_LEVEL;
   a ← StdoutLogAppender_new ROOT_LEVEL [];
   _ ← add_appender a l;
   _ ← modify (λ σ, mkLogs (loggers σ) (appenders σ) l a (<[root_name := l]> (loggers_ σ)) (written σ) (files σ));
   mret l) (mkLogs [] [] 0 0 ∅ [] k).

Definition get_logger (name : list Z) : M Logs nat :=
  m ← gets loggers_;
  match m !! name with
  | Some l => mret l
  | None => l ← new_logger name DEBUG; _ ← modify (λ σ, with_names (<[name := l]> (loggers_ σ)) σ); mret l
  end.
Definition add_logger (name : list Z) (level : Level) : M Logs bool :=
  m ← gets loggers_;
  match m !! name with
  | Some l => mret false
  | None => l ← new_logger name level; _ ← modify (λ σ, with_names (<[name := l]> (loggers_ σ)) σ); mret true
  end.
Definition del_logger (name : list Z) : M Logs bool :=
  if decide (name = root_name) then mret false
  else
    l ← get_logger name;
    _ ← set_level UNUSED l;
    _ ← clear_appenders l;
    m ← gets loggers_;
    _ ← modify (with_names (delete name m));
    mret (bool_decide (is_Some (m !! name))).

(** ** [to_YAML_string] *)

Section yaml.
Context {Y : Yaml}.

Definition appender_to_YAML_string (x : LogAppender) : list Z :=
  emit (Map (match sink x with
             | StdoutLogAppender => [(str "type", Scalar (str "StdoutLogAppender"))]
             | FileLogAppender path _ _ =>
                 [(str "type", Scalar (str "FileLogAppender")); (str "file", Scalar path)]
             end ++ [(str "level", Scalar (to_string (appender_level x)));
                     (str "formatter", Scalar (pattern_ (formatter_ x)))])).
(** [None] is an exception of [YAML::Load]. *)
Definition logger_to_YAML_string (σ : Logs) (x : Logger) : option (list Z) :=
  nas ← mapM (λ a, x ← appenders σ !! a; Load (appender_to_YAML_string x)) (appenders_ x);
  Some (emit (Map ([(str "name", Scalar (name_ x)); (str "level", Scalar (to_string (level_ x)))] ++
                   match nas with [] => [] | _ => [(str "appenders", Seq nas)] end))).
Definition manager_to_YAML_string (σ : Logs) : option (list Z) :=
  ns ← mapM (λ p : list Z * nat, x ← loggers σ !! p.2; s ← logger_to_YAML_string σ x; Load s)
         (foldr (λ p l, map_insert p l) [] (map_to_list (loggers_ σ)));
  Some (emit (match ns with [] => Null | _ => Seq ns end)).
End yaml.

(** ** What a logged event writes *)

(** The stream of an appender is replaced. *)
Definition with_sink (s : Sink) (a : nat) (σ : Logs) : Logs :=
  with_appenders (alter (λ x, mkLogAppender s (appender_level x) (formatter_ x)) a (appenders σ)) σ.

(** An appender's turn with an event, and what it writes.  It looks after its file when its last event is more than 100
    seconds old: a file that has vanished is opened again, and without it the event is dropped, as it is when the stream has failed. *)
Inductive turn (name : list Z) (level : Level) (e : LogEvent) (a : nat) (σ : Logs) : list (nat * list Z) -> Logs -> Prop :=
| turn_below x : appenders σ !! a = Some x -> level_lt level (appender_level x) = true -> turn name level e a σ [] σ
| turn_stdout x : appenders σ !! a = Some x -> level_lt level (appender_level x) = false -> sink x = StdoutLogAppender ->
    let out := format strftime (formatter_ x) name level e in
    turn name level e a σ [(a, out)] (write a out σ)
| turn_open x path good last : appenders σ !! a = Some x -> level_lt level (appender_level x) = false ->
    sink x = FileLogAppender path good last ->
    u64 (time_ e - last) <= 100 \/ file_or_dir_exists path (files σ) = true ->
    let out := format strftime (formatter_ x) name level e in
    let σ' := with_sink (FileLogAppender path good (time_ e)) a σ in
    turn name level e a σ (if good then [(a, out)] else []) (if good then write a out σ' else σ')
| turn_reopened x path good last k : appenders σ !! a = Some x -> level_lt level (appender_level x) = false ->
    sink x = FileLogAppender path good last ->
    100 < u64 (time_ e - last) -> file_or_dir_exists path (files σ) = false ->
    open_for_write path true (files σ) = (Ret true, k) ->
    let out := format strftime (formatter_ x) name level e in
    turn name level e a σ [(a, out)] (write a out (with_sink (FileLogAppender path true (time_ e)) a (with_files k σ)))
| turn_lost x path good last k : appenders σ !! a = Some x -> level_lt level (appender_level x) = false ->
    sink x = FileLogAppender path good last ->
    100 < u64 (time_ e - last) -> file_or_dir_exists path (files σ) = false ->
    open_for_write path true (files σ) = (Ret false, k) ->
    turn name level e a σ [] (with_sink (FileLogAppender path false last) a (with_files k σ)).

(** The appenders in turn. *)
Inductive turns (name : list Z) (level : Level) (e : LogEvent) : list nat -> Logs -> list (nat * list Z) -> Logs -> Prop :=
| turns_nil σ : turns name level e [] σ [] σ
| turns_cons a as_ σ out σ1 outs σ' :
    turn name level e a σ out σ1 -> turns name level e as_ σ1 outs σ' -> turns name level e (a :: as_) σ (out ++ outs) σ'.

Lemma with_sink_twice s s' a σ k : with_sink s a (with_sink s' a (with_files k σ)) = with_sink s a (with_files k σ).
Proof.
  unfold with_sink, with_appenders. cbn. f_equal. apply list_eq. intros i. rewrite !list_lookup_alter. case_decide; [|done].
  rewrite decide_True by done. by destruct (appenders σ !! a).
Qed.

Lemma appender_log_turn a name level e σ x :
  appenders σ !! a = Some x -> exists out σ', appender_log a name level e σ = (Ret tt, σ') /\ turn name level e a σ out σ'.
Proof.
  intros Ex. unfold appender_log. erewrite bind_Ret by (unfold the_appender; by rewrite Ex). cbv beta.
  destruct (level_lt level (appender_level x)) eqn:El; [eexists [], σ; split; [done|by eapply turn_below]|].
  destruct (sink x) as [|path good last] eqn:Es; [eexists _, _; split; [reflexivity|by eapply turn_stdout]|].
  erewrite bind_Ret by done. cbv beta.
  destruct ((100 <? u64 (time_ e - last)) && negb (file_or_dir_exists path (files σ))) eqn:Ec.
  - apply andb_true_iff in Ec as [Ht%Z.ltb_lt Hf%negb_true_iff].
    destruct (open_for_write_total path true (files σ)) as (ok & k & Eo).
    assert (reopen path last a σ = (Ret ok, with_sink (FileLogAppender path ok last) a (with_files k σ))) as Er.
    { unfold reopen. erewrite bind_Ret by (unfold on_files; rewrite Eo; reflexivity). cbv beta. by erewrite bind_Ret by done. }
    erewrite bind_Ret by exact Er. cbv beta. destruct ok; cbn [negb].
    + erewrite bind_Ret by (unfold the_appender; cbn; rewrite list_lookup_alter, decide_True, Ex by done; reflexivity). cbv beta. cbn [sink].
      eexists _, _. split; [|by eapply turn_reopened]. erewrite bind_Ret by done. cbv beta iota.
      change (with_appenders _ (with_sink (FileLogAppender path true last) a (with_files k σ)))
        with (with_sink (FileLogAppender path true (time_ e)) a (with_sink (FileLogAppender path true last) a (with_files k σ))).
      by rewrite with_sink_twice.
    + eexists _, _. split; [reflexivity|]. by eapply turn_lost.
  - erewrite bind_Ret by done. cbv beta. cbn [negb]. erewrite bind_Ret by (unfold the_appender; by rewrite Ex). cbv beta. rewrite Es.
    eexists _, _. split; [|eapply turn_open; [done|done|done|]].
    + erewrite bind_Ret by done. cbv beta. by destruct good.
    + apply andb_false_iff in Ec as [Ec%Z.ltb_ge|Ec%negb_false_iff]; auto.
Qed.

Lemma turn_appends name level e a σ out σ' :
  turn name level e a σ out σ' -> written σ' = written σ ++ out /\ length (appenders σ') = length (appenders σ) /\
    loggers σ' = loggers σ /\ loggers_ σ' = loggers_ σ /\ root_appender_ σ' = root_appender_ σ.
Proof.
  destruct 1 as [| |x path good last| |]; try destruct good; cbn; rewrite ?app_nil_r, ?length_alter; done.
Qed.

Lemma log_all_turns as_ name level e σ :
  Forall (λ a, (a < length (appenders σ))%nat) as_ ->
  exists outs σ', log_all as_ name level e σ = (Ret tt, σ') /\ turns name level e as_ σ outs σ'.
Proof.
  revert σ. induction as_ as [|a as_ IH]; intros σ Ha.
  { exists [], σ. split; [done|constructor]. }
  apply Forall_cons in Ha as [[x Ex]%lookup_lt_is_Some_2 Has]. cbn [log_all].
  destruct (appender_log_turn a name level e σ x Ex) as (out & σ1 & E1 & Ht). erewrite bind_Ret by exact E1. cbv beta.
  destruct (turn_appends _ _ _ _ _ _ _ Ht) as (_ & Hl & _).
  destruct (IH σ1) as (outs & σ2 & E2 & Hts); [by rewrite Hl|]. exists (out ++ outs), σ2. split; [done|]. by econstructor.
Qed.
Lemma turns_append name level e as_ σ outs σ' :
  turns name level e as_ σ outs σ' -> written σ' = written σ ++ outs /\ loggers σ' = loggers σ /\ loggers_ σ' = loggers_ σ.
Proof.
  induction 1 as [σ|a as_ σ out σ1 outs σ' Ht _ (W & L & N)]; [by rewrite app_nil_r|].
  destruct (turn_appends _ _ _ _ _ _ _ Ht) as (W1 & _ & L1 & N1 & _). rewrite W, W1, <- app_assoc. split_and!; congruence.
Qed.

(** (C31) An event logged at a level below the logger's writes nothing and changes nothing.  At any other level the logger's appenders, or
    the root's appender when it has none, take their turns in the order they were added, and what they write is all
    that is written: an appender whose own level the event reaches writes it once, in its own format, to the
    standard output or to its file; a file appender whose last event is more than 100 seconds old and whose file has vanished
    opens it again first, and writes nothing when that fails, nor does one whose stream has failed. *)
Theorem log_delivers l x level e σ :
  loggers σ !! l = Some x ->
  let targets := match appenders_ x with [] => [root_appender_ σ] | as_ => as_ end in
  Forall (λ a, (a < length (appenders σ))%nat) targets ->
  exists outs σ', log l level e σ = (Ret tt, σ') /\
    (if level_lt level (level_ x) then outs = [] /\ σ' = σ else turns (name_ x) level e targets σ outs σ') /\
    written σ' = written σ ++ outs /\ loggers σ' = loggers σ /\ loggers_ σ' = loggers_ σ.
Proof.
  intros El targets Ht. unfold log. erewrite bind_Ret by (unfold the_logger; by rewrite El). cbv beta.
  destruct (level_lt level (level_ x)); [exists [], σ; by rewrite app_nil_r|].
  destruct (log_all_turns targets (name_ x) level e σ Ht) as (outs & σ' & E & Hts).
  exists outs, σ'. split; [|split; [done|by eapply turns_append]]. unfold targets in E. destruct (appenders_ x) as [|a as_]; [|exact E].
  erewrite bind_Ret by done. cbv beta. cbn [log_all] in E. revert E. unfold mbind, M_bind.
  by destruct (appender_log _ _ _ _ _) as [[[]| |] ?].
Qed.

(** Logging leaves the loggers and their names alone. *)
Definition same_loggers (σ σ' : Logs) : Prop := loggers σ' = loggers σ /\ loggers_ σ' = loggers_ σ /\ root_ σ' = root_ σ.

Lemma same_loggers_bind {A B} (m : M Logs A) (k : A -> M Logs B) σ :
  same_loggers σ (m σ).2 -> (forall r σ', same_loggers σ' (k r σ').2) -> same_loggers σ ((m ≫= k) σ).2.
Proof.
  unfold mbind, M_bind. destruct (m σ) as [[r| |] σ1]; cbn; intros (E1 & E2 & E3) Hk; try done.
  destruct (Hk r σ1) as (E4 & E5 & E6). split_and!; congruence.
Qed.

Lemma appender_log_frame a name level e σ : same_loggers σ (appender_log a name level e σ).2.
Proof.
  unfold appender_log. assert (forall b σ, same_loggers σ (the_appender b σ).2) as Ht.
  { intros b τ. unfold the_appender. by destruct (appenders τ !! b). }
  apply same_loggers_bind; [apply Ht|]. intros x σ1.
  destruct (level_lt _ _); [done|]. destruct (sink x) as [|path good last]; [done|].
  apply same_loggers_bind; [done|]. intros k σ2. apply same_loggers_bind.
  { destruct (_ && _); [|done]. apply same_loggers_bind.
    - unfold on_files. by destruct (open_for_write path true (files σ2)).
    - intros ok σ3. by apply same_loggers_bind. }
  intros ok σ3. destruct (negb ok); [done|]. apply same_loggers_bind; [apply Ht|]. intros y σ4.
  destruct (sink y) as [|p' g' l']; [done|]. apply same_loggers_bind; [done|]. intros _ σ5. by destruct g'.
Qed.

Lemma log_frame l level e σ : same_loggers σ (log l level e σ).2.
Proof.
  unfold log. apply same_loggers_bind; [unfold the_logger; by destruct (loggers σ !! l)|]. intros x σ1.
  destruct (level_lt _ _); [done|]. destruct (appenders_ x) as [|a as_].
  - apply same_loggers_bind; [done|]. intros. apply appender_log_frame.
  - generalize (a :: as_). intros bs. revert σ1. induction bs as [|b bs IH]; intros σ1; [done|].
    cbn [log_all]. apply same_loggers_bind; [apply appender_log_frame|]. intros. apply IH.
Qed.

(** ** The manager's invariant *)

(** The root is registered, every registered logger has its name, and no logger
    holds a pointer to nowhere. *)
Definition managed (ls : list Logger) (n r ra : nat) (m : gmap (list Z) nat) : Prop :=
  m !! root_name = Some r /\
  (forall name l, m !! name = Some l -> exists x, ls !! l = Some x /\ name_ x = name) /\
  (forall l x, ls !! l = Some x -> Forall (λ a, (a < n)%nat) (appenders_ x)) /\ (ra < n)%nat.
Definition inv (σ : Logs) : Prop :=
  managed (loggers σ) (length (appenders σ)) (root_ σ) (root_appender_ σ) (loggers_ σ).
(** What no call touches. *)
Definition kept (σ σ' : Logs) : Prop :=
  root_ σ' = root_ σ /\ root_appender_ σ' = root_appender_ σ /\
  (length (appenders σ) <= length (appenders σ'))%nat /\ (length (loggers σ) <= length (loggers σ'))%nat.

Lemma managed_grow ls n n' r ra m : (n <= n')%nat -> managed ls n r ra m -> managed ls n' r ra m.
Proof.
  intros Hle (? & ? & H & ?). split_and!; [done..| |lia]. intros l x Ex. eapply Forall_impl; [by eapply H|].
  cbn. lia.
Qed.

Lemma managed_alter f ls n r ra m l :
  (forall x, name_ (f x) = name_ x) ->
  (forall x, Forall (λ a, (a < n)%nat) (appenders_ x) -> Forall (λ a, (a < n)%nat) (appenders_ (f x))) ->
  managed ls n r ra m -> managed (alter f l ls) n r ra m.
Proof.
  intros Hn Hf (? & H1 & H2 & ?). split_and!; [done| | |done].
  - intros name l' E. destruct (H1 name l' E) as (x & Ex & N). rewrite list_lookup_alter.
    case_decide; [subst l'|by eauto]. exists (f x). by rewrite Ex, Hn.
  - intros l' x. rewrite list_lookup_alter. case_decide; [|apply H2].
    destruct (ls !! l) as [y|] eqn:Ey; [|done]. cbn. intros [= <-]. apply Hf. by eapply H2.
Qed.

Lemma managed_new ls n r ra m name lv :
  m !! name = None -> managed ls n r ra m ->
  managed (ls ++ [mkLogger name lv []]) n r ra (<[name := length ls]> m).
Proof.
  intros Hm (Hr & H1 & H2 & ?). split_and!; [| | |done].
  - rewrite lookup_insert_ne by congruence. done.
  - intros name' l. destruct (decide (name = name')) as [<-|Hne].
    + rewrite lookup_insert_eq. intros [= <-]. eexists. by rewrite list_lookup_middle.
    + rewrite lookup_insert_ne by done. intros E. destruct (H1 name' l E) as (x & Ex & N). exists x.
      split; [|done]. by apply lookup_app_l_Some.
  - intros l x [E|[_ E]]%lookup_app_Some; [by eapply H2|]. apply list_lookup_singleton_Some in E as [_ <-]. constructor.
Qed.

Lemma managed_delete ls n r ra m name :
  name <> root_name -> managed ls n r ra m -> managed ls n r ra (delete name m).
Proof.
  intros Hne (Hr & H1 & ?). split_and!; [by rewrite lookup_delete_ne| |by intuition..].
  intros name' l [_ E]%lookup_delete_Some. by apply H1.
Qed.

(** [m] returns and keeps the invariant. *)
Definition sound {A} (m : M Logs A) (σ : Logs) : Prop :=
  exists r σ', m σ = (Ret r, σ') /\ inv σ' /\ kept σ σ'.

Lemma kept_refl σ : kept σ σ.
Proof. by repeat split. Qed.
Lemma kept_trans σ1 σ2 σ3 : kept σ1 σ2 -> kept σ2 σ3 -> kept σ1 σ3.
Proof. intros (? & ? & ? & ?) (? & ? & ? & ?). split_and!; congruence || lia. Qed.

Lemma sound_ret {A} (r : A) σ : inv σ -> sound (mret r) σ.
Proof. intros Hi. exists r, σ. split_and!; [done..|apply kept_refl]. Qed.

Lemma sound_bind {A B} (m : M Logs A) (k : A -> M Logs B) σ :
  sound m σ -> (forall r σ', m σ = (Ret r, σ') -> inv σ' -> kept σ σ' -> sound (k r) σ') -> sound (m ≫= k) σ.
Proof.
  intros (r & σ1 & E & Hi & Hk) H. destruct (H r σ1 E Hi Hk) as (r' & σ2 & E2 & Hi2 & Hk2).
  exists r', σ2. erewrite bind_Ret by exact E. split_and!; [done..|by eapply kept_trans].
Qed.

Lemma sound_gets {A} (f : Logs -> A) σ : inv σ -> sound (gets f) σ.
Proof. intros Hi. exists (f σ), σ. split_and!; [done..|apply kept_refl]. Qed.

Lemma sound_alter_logger f l σ :
  (forall x, name_ (f x) = name_ x) ->
  (forall x, Forall (λ a, (a < length (appenders σ))%nat) (appenders_ x) ->
             Forall (λ a, (a < length (appenders σ))%nat) (appenders_ (f x))) ->
  inv σ -> sound (alter_logger f l) σ.
Proof.
  intros Hn Hf Hi. eexists _, _. split; [reflexivity|]. split; [by apply managed_alter|].
  split_and!; cbn; rewrite ?length_alter; done.
Qed.

Lemma sound_alter_appender f a σ : inv σ -> sound (alter_appender f a) σ.
Proof.
  intros Hi. eexists _, _. split; [reflexivity|]. unfold inv, kept. cbn. rewrite length_alter. by split_and!.
Qed.

Lemma sound_formatter p σ : inv σ -> sound (formatter p) σ.
Proof.
  intros Hi. destruct (LogFormatter_new_total p) as [f Ef]. exists f, σ. unfold formatter. rewrite Ef.
  split_and!; [done..|apply kept_refl].
Qed.

Lemma sound_files (path : list Z) app σ : inv σ -> sound (on_files (open_for_write path app)) σ.
Proof.
  intros Hi. destruct (open_for_write_total path app (files σ)) as (b & k & E). exists b, (with_files k σ).
  unfold on_files. rewrite E. by split_and!.
Qed.

Lemma sound_new_appender x σ : inv σ -> sound (new_appender x) σ.
Proof.
  intros Hi. eexists _, _. split; [reflexivity|]. unfold inv, kept. cbn. rewrite length_app. cbn.
  split; [eapply managed_grow; [|exact Hi]; lia|]. split_and!; try done; lia.
Qed.

Lemma sound_the_appender a σ : inv σ -> (a < length (appenders σ))%nat -> sound (the_appender a) σ.
Proof.
  intros Hi [x Ex]%lookup_lt_is_Some_2. exists x, σ. unfold the_appender. rewrite Ex. split_and!; [done..|apply kept_refl].
Qed.

Lemma sound_write a s σ : inv σ -> sound (modify (write a s)) σ.
Proof. intros Hi. eexists _, _. split; [reflexivity|]. by split_and!. Qed.

Lemma sound_appender_log a name level e σ :
  inv σ -> (a < length (appenders σ))%nat -> sound (appender_log a name level e) σ.
Proof.
  intros Hi Ha. unfold appender_log. apply sound_bind; [by apply sound_the_appender|]. intros x σ1 E1 Hi1 Hk1.
  destruct (level_lt _ _); [by apply sound_ret|]. destruct (sink x) as [|path good last]; [by apply sound_write|].
  apply sound_bind; [by apply sound_gets|]. intros k σ2 E2 Hi2 Hk2. apply sound_bind.
  { destruct (_ && _); [|by apply sound_ret]. unfold reopen.
    apply sound_bind; [by apply sound_files|]. intros ok σ3 E3 Hi3 Hk3.
    apply sound_bind; [by apply sound_alter_appender|]. intros ? σ4 E4 Hi4 Hk4. by apply sound_ret. }
  intros ok σ3 E3 Hi3 Hk3. destruct (negb ok); [by apply sound_ret|].
  apply sound_bind.
  { apply sound_the_appender; [done|]. destruct Hk1 as (_ & _ & ? & _), Hk2 as (_ & _ & ? & _), Hk3 as (_ & _ & ? & _). lia. }
  intros y σ4 E4 Hi4 Hk4. destruct (sink y) as [|path' good' last']; [by apply sound_ret|].
  apply sound_bind; [by apply sound_alter_appender|]. intros ? σ5 E5 Hi5 Hk5.
  destruct good'; [by apply sound_write|by apply sound_ret].
Qed.

Lemma sound_log_all as_ name level e σ :
  inv σ -> Forall (λ a, (a < length (appenders σ))%nat) as_ -> sound (log_all as_ name level e) σ.
Proof.
  revert σ. induction as_ as [|a as_ IH]; intros σ Hi Ha; [by apply sound_ret|]. apply Forall_cons in Ha as [Ha Has].
  cbn [log_all]. apply sound_bind; [by apply sound_appender_log|]. intros ? σ1 E1 Hi1 (_ & _ & Hl & _). apply IH; [done|].
  eapply Forall_impl; [exact Has|]. cbn. lia.
Qed.

Lemma sound_log l level e σ : inv σ -> (l < length (loggers σ))%nat -> sound (log l level e) σ.
Proof.
  intros Hi [x Ex]%lookup_lt_is_Some_2. pose proof Hi as (_ & _ & Ha & Hra). specialize (Ha l x Ex).
  unfold log. apply sound_bind.
  { exists x, σ. unfold the_logger. rewrite Ex. split_and!; [done..|apply kept_refl]. }
  intros y σ1 E1 Hi1 Hk1. unfold the_logger in E1. rewrite Ex in E1. simplify_eq.
  destruct (level_lt _ _); [by apply sound_ret|]. destruct (appenders_ y) as [|a as_] eqn:Ea.
  - apply sound_bind; [by apply sound_gets|]. intros r σ2 E2 Hi2 Hk2. unfold gets in E2. simplify_eq.
    by apply sound_appender_log.
  - by apply sound_log_all.
Qed.

Lemma sound_new_logger {A} name lv (r : nat -> A) σ :
  inv σ -> loggers_ σ !! name = None ->
  sound (l ← new_logger name lv; _ ← modify (λ σ, with_names (<[name := l]> (loggers_ σ)) σ); mret (r l)) σ.
Proof.
  intros Hi Hm. eexists _, _. split; [reflexivity|]. split; [by apply managed_new|].
  split_and!; cbn; rewrite ?length_app; cbn; done || lia.
Qed.

(** The calls of the interface, with pointers to what there is. *)
Inductive op :=
  | OpGetLogger (name : list Z) | OpAddLogger (name : list Z) (v : Level) | OpDelLogger (name : list Z)
  | OpSetLevel (v : Level) (l : nat) | OpAddAppender (a l : nat) | OpDelAppender (a l : nat) | OpClearAppenders (l : nat)
  | OpStdout (v : Level) (pattern : list Z) | OpFile (path : list Z) (v : Level) (pattern : list Z)
  | OpSetFormatter (pattern : list Z) (a : nat) | OpSetAppenderLevel (v : Level) (a : nat)
  | OpLog (l : nat) (level : Level) (e : LogEvent).
Definition op_ok (o : op) (σ : Logs) : Prop :=
  match o with
  | OpSetLevel _ l | OpDelAppender _ l | OpClearAppenders l | OpLog l _ _ => (l < length (loggers σ))%nat
  | OpAddAppender a l => (a < length (appenders σ))%nat /\ (l < length (loggers σ))%nat
  | OpSetFormatter _ a | OpSetAppenderLevel _ a => (a < length (appenders σ))%nat
  | _ => True
  end.
Definition exec (o : op) (σ : Logs) : Logs :=
  match o with
  | OpGetLogger name => (get_logger name σ).2
  | OpAddLogger name v => (add_logger name v σ).2
  | OpDelLogger name => (del_logger name σ).2
  | OpSetLevel v l => (set_level v l σ).2
  | OpAddAppender a l => (add_appender a l σ).2
  | OpDelAppender a l => (del_appender a l σ).2
  | OpClearAppenders l => (clear_appenders l σ).2
  | OpStdout v p => (StdoutLogAppender_new v p σ).2
  | OpFile path v p => (FileLogAppender_new path v p σ).2
  | OpSetFormatter p a => (set_formatter_pattern p a σ).2
  | OpSetAppenderLevel v a => (set_appender_level v a σ).2
  | OpLog l v e => (log l v e σ).2
  end.
Inductive reachable (k : F) : Logs -> Prop :=
  | reachable_new : reachable k (LoggerManager_new k).2
  | reachable_call o σ : reachable k σ -> op_ok o σ -> reachable k (exec o σ).

Lemma sound_get_logger name σ : inv σ -> sound (get_logger name) σ.
Proof.
  intros Hi. unfold get_logger. apply sound_bind; [by apply sound_gets|]. intros m σ1 E1 Hi1 Hk1.
  unfold gets in E1. simplify_eq. destruct (loggers_ σ1 !! name) eqn:E; [by apply sound_ret|by apply (sound_new_logger _ _ id)].
Qed.

Lemma del_logger_eq name σ :
  name <> root_name ->
  let l := default (length (loggers σ)) (loggers_ σ !! name) in
  let σ1 := (get_logger name σ).2 in
  del_logger name σ =
    (Ret true, with_names (delete name (loggers_ σ1))
                 (with_loggers (alter (λ x, mkLogger (name_ x) UNUSED []) l (loggers σ1)) σ1)).
Proof.
  intros Hne l σ1. unfold del_logger. rewrite decide_False by done.
  assert (get_logger name σ = (Ret l, σ1) /\ is_Some (loggers_ σ1 !! name)) as [E Hs].
  { unfold l, σ1, get_logger, mbind, M_bind, gets. destruct (loggers_ σ !! name) eqn:E; cbn; [by rewrite E|].
    by rewrite lookup_insert_eq. }
  erewrite bind_Ret by exact E. unfold set_level, clear_appenders, alter_logger, mbind, M_bind, gets, modify.
  cbv beta iota. cbn [loggers_ with_loggers]. rewrite bool_decide_eq_true_2 by done.
  unfold with_names, with_loggers. cbn. f_equal. f_equal.
  apply list_eq. intros i. rewrite !list_lookup_alter. repeat case_decide; try done. by destruct (loggers σ1 !! l).
Qed.

Lemma sound_del_logger name σ : inv σ -> sound (del_logger name) σ.
Proof.
  intros Hi. destruct (decide (name = root_name)) as [->|Hne].
  { unfold del_logger. rewrite decide_True by done. by apply sound_ret. }
  destruct (sound_get_logger name σ Hi) as (l & σ1 & E1 & Hi1 & Hk1). eexists _, _.
  split; [by apply del_logger_eq|]. rewrite E1. cbn [snd]. split.
  - apply managed_delete; [done|]. apply managed_alter; [done|by intros; constructor|done].
  - eapply kept_trans; [exact Hk1|]. split_and!; cbn; rewrite ?length_alter; done.
Qed.

Lemma erase_first_Forall P a l : Forall P l -> Forall P (erase_first a l).2.
Proof.
  induction 1 as [|b l Hb Hl IH]; cbn; [constructor|]. destruct (decide _); [done|].
  destruct (erase_first a l) as [r l']. cbn in *. by constructor.
Qed.

Lemma exec_inv o σ : inv σ -> op_ok o σ -> inv (exec o σ) /\ kept σ (exec o σ).
Proof.
  assert (forall A (m : M Logs A), sound m σ -> inv (m σ).2 /\ kept σ (m σ).2) as H.
  { intros A m (r & σ' & E & ? & ?). by rewrite E. }
  intros Hi Hok. destruct o as [name|name v|name|v l|a l|a l|l|v p|path v p|p a|v a|l v e]; cbn [exec op_ok] in *; apply H.
  - by apply sound_get_logger.
  - unfold add_logger. apply sound_bind; [by apply sound_gets|]. intros m σ1 E1 Hi1 _. unfold gets in E1. simplify_eq.
    destruct (loggers_ σ1 !! name) eqn:E; [by apply sound_ret|by apply (sound_new_logger _ _ (λ _, true))].
  - by apply sound_del_logger.
  - by apply sound_alter_logger.
  - apply sound_alter_logger; [done| |done]. intros x Hx. cbn. apply Forall_app. split; [done|].
    constructor; [by destruct Hok|constructor].
  - apply lookup_lt_is_Some_2 in Hok as [x Ex]. unfold del_appender. apply sound_bind.
    { exists x, σ. unfold the_logger. rewrite Ex. split_and!; [done..|apply kept_refl]. }
    intros y σ1 E1 Hi1 _. unfold the_logger in E1. rewrite Ex in E1. simplify_eq.
    pose proof (erase_first_Forall _ a _ (proj1 (proj2 (proj2 Hi1)) l y Ex)) as Hf.
    destruct (erase_first a (appenders_ y)) as [r as_]. cbn in Hf.
    apply sound_bind; [by apply sound_alter_logger|]. intros. by apply sound_ret.
  - apply sound_alter_logger; [done|by constructor|done].
  - apply sound_bind; [by apply sound_formatter|]. intros. by apply sound_new_appender.
  - apply sound_bind; [by apply sound_formatter|]. intros f σ1 _ Hi1 _.
    apply sound_bind; [by apply sound_files|]. intros. by apply sound_new_appender.
  - apply sound_bind; [by apply sound_formatter|]. intros f σ1 _ Hi1 _. unfold set_formatter.
    destruct (legal_pattern_ f); [|by apply sound_ret].
    apply sound_bind; [by apply sound_alter_appender|]. intros. by apply sound_ret.
  - by apply sound_alter_appender.
  - by apply sound_log.
Qed.

Lemma manager_new_inv k : inv (LoggerManager_new k).2 /\ root_ (LoggerManager_new k).2 = 0%nat.
Proof.
  unfold LoggerManager_new. erewrite bind_Ret by done. unfold StdoutLogAppender_new.
  destruct (LogFormatter_new_total []) as [f Ef]. unfold formatter, mbind, M_bind. rewrite Ef. cbn.
  split; [|done]. split_and!; cbn; [by rewrite lookup_insert_eq| | |lia].
  - intros name l [[<- <-]|[_ ?]]%lookup_insert_Some; [|by rewrite lookup_empty in *]. by eexists.
  - intros [|l] x; [|done]. cbn. intros [= <-]. cbn. repeat constructor.
Qed.

Lemma reachable_inv k σ : reachable k σ -> inv σ /\ root_ σ = 0%nat.
Proof.
  induction 1 as [|o σ _ [Hi Hr] Hok]; [apply manager_new_inv|].
  destruct (exec_inv o σ Hi Hok) as [Hi' (E & _)]. split; [done|congruence].
Qed.

(** (C32) Whatever is called, with whatever logger or appender there is: the root
    logger stays registered under its name and is what [get_logger] gives for it,
    every registered logger has the name it is registered under, and logging to any
    logger, deleted ones too, returns without following a pointer to nowhere.
    [del_logger] of another name always unregisters it, and what its logger is asked
    to log from then on, at any level in use, goes nowhere. *)
Theorem manager_invariant (k : F) (σ : Logs) :
  reachable k σ ->
  get_logger root_name σ = (Ret 0%nat, σ) /\
  (forall name l, loggers_ σ !! name = Some l -> exists x, loggers σ !! l = Some x /\ name_ x = name) /\
  (forall l level e, (l < length (loggers σ))%nat -> exists σ', log l level e σ = (Ret tt, σ')) /\
  forall name l, name <> root_name -> loggers_ σ !! name = Some l ->
    exists σ', del_logger name σ = (Ret true, σ') /\ loggers_ σ' !! name = None /\
      forall level e, level <> UNUSED -> log l level e σ' = (Ret tt, σ').
Proof.
  intros [Hi Hr]%reachable_inv. pose proof Hi as (H1 & H2 & _ & _). split_and!.
  - rewrite Hr in H1. unfold get_logger, mbind, M_bind, gets. by rewrite H1.
  - done.
  - intros l level e Hl. destruct (sound_log l level e σ Hi Hl) as ([] & σ' & E & _). eauto.
  - intros name l Hne El. destruct (H2 name l El) as (x & Ex & _).
    assert (get_logger name σ = (Ret l, σ)) as Eg by (unfold get_logger, mbind, M_bind, gets; by rewrite El).
    eexists. split; [by apply del_logger_eq|]. rewrite Eg, El. cbn. split; [by rewrite lookup_delete_eq|].
    intros level e Hlv. unfold log, the_logger, mbind, M_bind. cbn.
    rewrite list_lookup_alter, decide_True, Ex by done. cbn. by destruct level.
Qed.

End log.

Section witnesses.
Context (strftime := λ (f : list Z) (t : Z), f).
Definition empty_tree : Tree := mkTree ∅ ∅.
Definition an_event : LogEvent := LogEvent_new (str "a.cc") 7 0 1 2 1000.

(** A logger with a file appender, whose stream has failed and whose file has vanished, and one for the standard output. *)
Definition two_appenders : Logs (F := Tree) :=
  with_loggers [mkLogger root_name DEBUG [1; 0]%nat]
    (with_appenders [mkLogAppender StdoutLogAppender DEBUG (mkLogFormatter true [] []);
                     mkLogAppender (FileLogAppender (str "/none/such/log") false 0) DEBUG (mkLogFormatter true [] [])]
      (LoggerManager_new empty_tree).2).
Lemma log_delivers_witness :
  exists outs σ', log strftime 0 INFO an_event two_appenders = (Ret tt, σ') /\
    turns strftime root_name INFO an_event [1; 0]%nat two_appenders outs σ' /\ written σ' = outs.
Proof.
  destruct (log_delivers strftime 0 (mkLogger root_name DEBUG [1; 0]%nat) INFO an_event two_appenders)
    as (outs & σ' & E & Ht & W & _); [vm_compute; reflexivity| |].
  - repeat constructor.
  - exists outs, σ'. split; [exact E|]. split; [exact Ht|]. rewrite W. vm_compute. reflexivity.
Defined.

Lemma manager_invariant_witness :
  get_logger root_name (LoggerManager_new empty_tree).2 = (Ret 0%nat, (LoggerManager_new empty_tree).2).
Proof. apply (manager_invariant strftime empty_tree), reachable_new. Defined.
End witnesses.
