(* ===== verification/LogConfig.v ===== *)
(** * The [logs] configuration variable: the first part of src/sylar/log.cpp

    The entries, their converters and the listener that [LogIniter] adds, which
    brings the loggers of Log.v in line with the variable of Config.v. *)

From S2P Require Import Prelude Text FSUtil LogFormatter Yaml Config Log.

Record LogAppenderEntry := mkLogAppenderEntry {
  type_ : Z;                          (** 0: stdout, 1: file *)
  file_ : list Z;
  appender_level_ : Level;
  appender_formatter_ : list Z;
}.
Record LoggerEntry := mkLoggerEntry {
  entry_name_ : list Z;
  entry_level_ : Level;
  entry_appenders_ : list LogAppenderEntry;
}.
(** [operator<] and [operator==]: the name alone. *)
Definition entry_lt (a b : LoggerEntry) : bool := lex_lt (entry_name_ a) (entry_name_ b).
Definition entry_eq (a b : LoggerEntry) : bool := bool_decide (entry_name_ a = entry_name_ b).

(** ** The converters *)

(** Looking into a node: [node[key]] ([None] when it throws, [Some None] when the
    result is not defined) and [as<std::string>()]. *)
Class YamlFields := {
  field : Node -> list Z -> option (option Node);
  as_string : Node -> option (list Z);
}.
Fixpoint assoc_find (k : list Z) (l : list (list Z * Node)) : option Node :=
  match l with
  | [] => None
  | (k', n) :: l => if bool_decide (k = k') then Some n else assoc_find k l
  end.
Class FieldsLaws `{!YamlFields} : Prop := {
  field_map : forall l k, field (Map l) k = Some (assoc_find k l);
  as_string_scalar : forall s, as_string (Scalar s) = Some s;
}.

Section converters.
Context {Y : Yaml} {Fd : YamlFields}.

(** One turn of the loop over the appenders; [Some None] is a [continue]. *)
Definition convert_appender (node_a : Node) : option (option LogAppenderEntry) :=
  t ← field node_a (str "type");
  match t with
  | None => Some None
  | Some t =>
      type ← as_string t;
      let finish (ty : Z) (file : list Z) :=
        f ← field node_a (str "formatter");
        match f with
        | None => Some (Some (mkLogAppenderEntry ty file DEBUG []))
        | Some f => s ← as_string f; Some (Some (mkLogAppenderEntry ty file DEBUG s))
        end in
      if bool_decide (type = str "FileLogAppender") then
        f ← field node_a (str "file");
        match f with
        | None => Some None
        | Some f => file ← as_string f; finish 1 file
        end
      else if bool_decide (type = str "StdoutLogAppender") then finish 0 []
      else Some None
  end.
Fixpoint convert_appenders (nodes : Node) (x n : nat) (acc : list LogAppenderEntry) : option (list LogAppenderEntry) :=
  match n with
  | O => Some acc
  | S n => a ← convert_appender (index nodes x); convert_appenders nodes (S x) n (acc ++ option_list a)
  end.
(** [Converter<std::string, LoggerEntry>]. *)
Definition entry_from_string (v : list Z) : option LoggerEntry :=
  node ← Load v;
  name ← field node (str "name");
  name ← name;
  name ← as_string name;
  level ← field node (str "level");
  level ← match level with None => Some DEBUG | Some n => LogFormatter.from_string <$> as_string n end;
  apps ← field node (str "appenders");
  apps ← match apps with None => Some [] | Some n => convert_appenders n 0 (size n) [] end;
  Some (mkLoggerEntry name level apps).

(** [Converter<LoggerEntry, std::string>]. *)
Definition appender_node (a : LogAppenderEntry) : Node :=
  Map ((if type_ a =? 1 then [(str "type", Scalar (str "FileLogAppender")); (str "file", Scalar (file_ a))]
        else if type_ a =? 0 then [(str "type", Scalar (str "StdoutLogAppender"))] else []) ++
       [(str "level", Scalar (LogFormatter.to_string (appender_level_ a)));
        (str "formatter", Scalar (appender_formatter_ a))]).
Definition entry_node (e : LoggerEntry) : Node :=
  Map ([(str "name", Scalar (entry_name_ e)); (str "level", Scalar (LogFormatter.to_string (entry_level_ e)))] ++
       match entry_appenders_ e with [] => [] | l => [(str "appenders", Seq (appender_node <$> l))] end).
Definition entry_to_string (e : LoggerEntry) : list Z := emit (entry_node e).

#[export] Instance entry_converter : Converter LoggerEntry :=
  { from_str := entry_from_string; to_str := λ e, Some (entry_to_string e) }.

(** [ConfigVar<std::set<LoggerEntry>>]; [==] of the sets compares element by element. *)
#[export] Instance logs_types : Types unit := {
  type := λ _, list LoggerEntry;
  ty_conv := λ _, {| from_str := set_from_string entry_lt; to_str := set_to_string |};
  ty_eqb := λ _ a b, bool_decide (length a = length b) && forallb (λ p, entry_eq p.1 p.2) (zip a b);
}.

End converters.

(** ** The listener *)

Section listener.
Context {F : Type} {Fs : Files F} (strftime : list Z -> Z -> list Z).
(** The event of the [SYLAR_LOG], and the level of an appender made without one. *)
Context (event : LogEvent) (no_level : Level).

Definition configure_appender (l : nat) (a : LogAppenderEntry) : M (Logs (F := F)) unit :=
  let finish (p : nat) :=
    _ ← set_appender_level (appender_level_ a) p;
    _ ← set_formatter_pattern (appender_formatter_ a) p;
    add_appender p l in
  if type_ a =? 0 then p ← StdoutLogAppender_new no_level []; finish p
  else if type_ a =? 1 then p ← FileLogAppender_new (file_ a) no_level []; finish p
  else mret tt.
Fixpoint configure_appenders (l : nat) (as_ : list LogAppenderEntry) : M (Logs (F := F)) unit :=
  match as_ with
  | [] => mret tt
  | a :: as_ => _ ← configure_appender l a; configure_appenders l as_
  end.
Definition configure_logger (i : LoggerEntry) : M (Logs (F := F)) unit :=
  l ← get_logger (entry_name_ i);
  _ ← set_level (entry_level_ i) l;
  _ ← clear_appenders l;
  configure_appenders l (entry_appenders_ i).
Fixpoint configure_loggers (new : list LoggerEntry) : M (Logs (F := F)) unit :=
  match new with
  | [] => mret tt
  | i :: new => _ ← configure_logger i; configure_loggers new
  end.
(** The second loop: the old entries that [new_value.find] finds. *)
Fixpoint delete_loggers (old new : list LoggerEntry) : M (Logs (F := F)) unit :=
  match old with
  | [] => mret tt
  | i :: old =>
      _ ← (if existsb (entry_eq i) new then del_logger (entry_name_ i) else mret false);
      delete_loggers old new
  end.
Definition on_logs_change (old new : list LoggerEntry) : M (Logs (F := F)) unit :=
  r ← gets root_;
  _ ← sylar_log strftime r INFO event (str "logs config changed");
  _ ← configure_loggers new;
  delete_loggers old new.

End listener.

(** ** Writing an entry and reading it back *)

(** An entry without its level; only a file appender has a file. *)
Definition forget (a : LogAppenderEntry) : LogAppenderEntry :=
  mkLogAppenderEntry (type_ a) (if type_ a =? 1 then file_ a else []) DEBUG (appender_formatter_ a).
Definition type_ok (a : LogAppenderEntry) : Prop := type_ a = 0 \/ type_ a = 1.

Section entries.
Context {Y : Yaml} {L : YamlLaws} {Fd : YamlFields} {FL : FieldsLaws}.

Lemma convert_appender_node a : type_ok a -> convert_appender (appender_node a) = Some (Some (forget a)).
Proof.
  destruct a as [ty f lv fm]. unfold type_ok, convert_appender, appender_node, forget. cbn [type_ file_ appender_level_ appender_formatter_].
  intros [-> | ->]; rewrite !field_map; cbv -[as_string]; rewrite !as_string_scalar; done.
Qed.

Lemma convert_appenders_all pre l acc :
  Forall type_ok l ->
  convert_appenders (Seq (pre ++ (appender_node <$> l))) (length pre) (length l) acc = Some (acc ++ (forget <$> l)).
Proof.
  intros H. revert pre acc. induction H as [|a l Ha _ IH]; intros pre acc; cbn; [by rewrite app_nil_r|].
  rewrite (index_seq _ _ (appender_node a)) by (by rewrite list_lookup_middle). rewrite convert_appender_node by done. cbn.
  replace (S (length pre)) with (length (pre ++ [appender_node a])) by (rewrite length_app; cbn; lia).
  rewrite (cons_middle (appender_node a) pre), app_assoc. rewrite IH. by rewrite <- app_assoc.
Qed.

(** An entry of the [logs] variable written as YAML and read back keeps its name,
    its level and its appenders with their types, files and formatters, but every
    appender's level comes back as [DEBUG]: the level that is written is not read. *)
Theorem entry_round_trip (e : LoggerEntry) :
  Forall type_ok (entry_appenders_ e) -> Load (entry_to_string e) = Some (entry_node e) ->
  entry_from_string (entry_to_string e) =
    Some (mkLoggerEntry (entry_name_ e) (entry_level_ e) (forget <$> entry_appenders_ e)).
Proof.
  destruct e as [name lv l]. intros Ht El. unfold entry_from_string. rewrite El. cbn [mbind option_bind].
  unfold entry_node. rewrite !field_map. cbn [entry_name_ entry_level_ entry_appenders_] in *.
  destruct l as [|a l].
  - cbv -[as_string LogFormatter.from_string LogFormatter.to_string]. rewrite !as_string_scalar. by rewrite from_to_string.
  - pose proof (convert_appenders_all [] (a :: l) [] Ht) as E. cbn [app] in E.
    change (length []) with 0%nat in E. rewrite <- (length_fmap appender_node (a :: l)) in E.
    change (length (appender_node <$> a :: l)) with (size (Seq (appender_node <$> a :: l))) in E.
    remember (Seq (appender_node <$> a :: l)) as nodes eqn:En.
    remember (forget <$> a :: l) as res eqn:Eres.
    cbv -[as_string LogFormatter.from_string LogFormatter.to_string convert_appenders size].
    rewrite !as_string_scalar. by rewrite from_to_string, E.
Qed.
End entries.

(** ** What the listener leaves behind *)

Section effect.
Context {F : Type} {Fs : Files F} (strftime : list Z -> Z -> list Z) (event : LogEvent) (no_level : Level).
#[local] Abbreviation Logs := (Logs (F := F)).

(** The formatter an appender gets: the one of the pattern, or the default one when
    the pattern is illegal. *)
Definition chosen (pattern : list Z) : option LogFormatter :=
  f ← LogFormatter_new pattern; if legal_pattern_ f then Some f else LogFormatter_new [].
Definition appender_for (a : LogAppenderEntry) (x : LogAppender) : Prop :=
  appender_level x = appender_level_ a /\ chosen (appender_formatter_ a) = Some (formatter_ x) /\
  if type_ a =? 0 then sink x = StdoutLogAppender else exists good, sink x = FileLogAppender (file_ a) good 0.
(** The logger of [i]'s name is as [i] says. *)
Definition configured (i : LoggerEntry) (σ : Logs) : Prop :=
  exists l as_, loggers_ σ !! entry_name_ i = Some l /\
    loggers σ !! l = Some (mkLogger (entry_name_ i) (entry_level_ i) as_) /\
    Forall2 (λ p a, exists x, appenders σ !! p = Some x /\ appender_for a x) as_ (entry_appenders_ i).
(** Nothing but the loggers of [names] has changed. *)
Definition leaves (names : list (list Z)) (σ σ' : Logs) : Prop :=
  (forall n, n ∉ names -> loggers_ σ' !! n = loggers_ σ !! n /\
     forall l, loggers_ σ !! n = Some l -> loggers σ' !! l = loggers σ !! l) /\
  forall p x, appenders σ !! p = Some x -> appenders σ' !! p = Some x.

Lemma leaves_trans names names' σ1 σ2 σ3 :
  leaves names σ1 σ2 -> leaves names' σ2 σ3 -> leaves (names ++ names') σ1 σ3.
Proof.
  intros [H1 A1] [H2 A2]. split; [|by auto]. intros n [Hn Hn']%not_elem_of_app.
  destruct (H1 n Hn) as [E1 L1], (H2 n Hn') as [E2 L2]. split; [congruence|]. intros l El.
  rewrite L2 by congruence. by apply L1.
Qed.

Lemma configured_stable i names σ σ' :
  configured i σ -> entry_name_ i ∉ names -> leaves names σ σ' -> configured i σ'.
Proof.
  intros (l & as_ & El & Ex & Ha) Hn [H A]. destruct (H _ Hn) as [E1 E2]. exists l, as_.
  rewrite E1, E2 by done. split_and!; [done..|]. eapply Forall2_impl; [exact Ha|]. intros p a (x & Ep & ?). eauto.
Qed.

Lemma sound_configure_appender l a (σ : Logs) :
  inv σ -> (l < length (loggers σ))%nat -> sound (configure_appender no_level l a) σ.
Proof.
  intros Hi Hl. assert (forall p (σ' : Logs), inv σ' -> (p < length (appenders σ'))%nat -> sound
    (_ ← set_appender_level (appender_level_ a) p; _ ← set_formatter_pattern (appender_formatter_ a) p; add_appender p l) σ') as Hf.
  { intros p σ' Hi' Hp. apply sound_bind; [by apply sound_alter_appender|]. intros _ σ1 _ Hi1 (_ & _ & Hk1 & _).
    apply sound_bind.
    - apply sound_bind; [by apply sound_formatter|]. intros f σ2 _ Hi2 _. unfold set_formatter.
      destruct (legal_pattern_ f); [|by apply sound_ret].
      apply sound_bind; [by apply sound_alter_appender|]. intros. by apply sound_ret.
    - intros _ σ2 _ Hi2 (_ & _ & Hk2 & _). apply sound_alter_logger; [done| |done]. intros x Hx. cbn.
      apply Forall_app. split; [done|]. constructor; [lia|constructor]. }
  assert (forall (x : LogAppender) (σ' : Logs), inv σ' -> sound (p ← new_appender x;
    _ ← set_appender_level (appender_level_ a) p; _ ← set_formatter_pattern (appender_formatter_ a) p; add_appender p l) σ') as Hn.
  { intros x σ' Hi'. apply sound_bind; [by apply sound_new_appender|]. intros p σ1 E Hi1 _. apply Hf; [done|].
    injection E as <- <-. cbn. rewrite length_app. cbn. lia. }
  unfold configure_appender, StdoutLogAppender_new, FileLogAppender_new.
  destruct (type_ a =? 0); [|destruct (type_ a =? 1); [|by apply sound_ret]].
  - unfold sound. setoid_rewrite bind_assoc. apply sound_bind; [by apply sound_formatter|]. intros. by apply Hn.
  - unfold sound. setoid_rewrite bind_assoc. apply sound_bind; [by apply sound_formatter|]. intros f σ1 _ Hi1 _.
    unfold sound. setoid_rewrite bind_assoc. apply sound_bind; [by apply sound_files|]. intros. by apply Hn.
Qed.

Lemma alter_snoc {A} (f : A -> A) l x : alter f (length l) (l ++ [x]) = l ++ [f x].
Proof. induction l as [|y l IH]; cbn; [done|]. f_equal. exact IH. Qed.

Lemma chosen_legal p f : LogFormatter_new p = Some f -> legal_pattern_ f = true -> chosen p = Some f.
Proof. unfold chosen. intros -> E. cbn. by rewrite E. Qed.
Lemma chosen_illegal p f : LogFormatter_new p = Some f -> legal_pattern_ f = false -> chosen p = LogFormatter_new [].
Proof. unfold chosen. intros -> E. cbn. by rewrite E. Qed.

(** The appender just made is set up and added. *)
Lemma finish_effect l a s (σ : Logs) f0 :
  LogFormatter_new [] = Some f0 ->
  exists σ' x,
    (p ← new_appender (mkLogAppender s no_level f0);
     _ ← set_appender_level (appender_level_ a) p; _ ← set_formatter_pattern (appender_formatter_ a) p;
     add_appender p l) σ = (Ret tt, σ') /\
    appenders σ' = appenders σ ++ [x] /\
    (sink x = s /\ appender_level x = appender_level_ a /\ chosen (appender_formatter_ a) = Some (formatter_ x)) /\
    loggers σ' = alter (λ y, mkLogger (name_ y) (level_ y) (appenders_ y ++ [length (appenders σ)])) l (loggers σ) /\
    loggers_ σ' = loggers_ σ.
Proof.
  intros E0. destruct (LogFormatter_new_total (appender_formatter_ a)) as [f Ef].
  unfold set_formatter_pattern, formatter, mbind, M_bind, new_appender, set_appender_level, alter_appender.
  cbn [with_appenders appenders]. rewrite alter_snoc, Ef. unfold set_formatter.
  destruct (legal_pattern_ f) eqn:El.
  - unfold mbind, M_bind, alter_appender. cbn [with_appenders appenders]. rewrite alter_snoc.
    eexists _, _. split; [reflexivity|]. split; [reflexivity|]. cbn. split_and!; try done. by apply chosen_legal.
  - eexists _, _. split; [reflexivity|]. split; [reflexivity|]. cbn. split_and!; try done.
    rewrite <- E0. by apply chosen_illegal with (f := f).
Qed.

Lemma bind_same {A B} (m m' : M Logs A) (k : A -> M Logs B) σ σ' :
  m σ = m' σ' -> (m ≫= k) σ = (m' ≫= k) σ'.
Proof. unfold mbind, M_bind. by intros ->. Qed.

Lemma configure_appender_effect l a (σ : Logs) :
  type_ok a -> exists σ' x, configure_appender no_level l a σ = (Ret tt, σ') /\
    appenders σ' = appenders σ ++ [x] /\ appender_for a x /\
    loggers σ' = alter (λ y, mkLogger (name_ y) (level_ y) (appenders_ y ++ [length (appenders σ)])) l (loggers σ) /\
    loggers_ σ' = loggers_ σ.
Proof.
  intros Ht. destruct (LogFormatter_new_total []) as [f0 E0]. unfold configure_appender, appender_for.
  assert (forall σ : Logs, formatter [] σ = (Ret f0, σ)) as Efm by (intros; unfold formatter; by rewrite E0).
  cbv zeta. destruct Ht as [-> | ->]; cbn [Z.eqb].
  - destruct (finish_effect l a StdoutLogAppender σ f0 E0) as (σ' & x & E & Ha & (? & ? & ?) & Hl & Hn).
    exists σ', x. split; [|by split_and!]. etransitivity; [|exact E]. apply bind_same.
    unfold StdoutLogAppender_new. by erewrite bind_Ret by apply Efm.
  - destruct (open_for_write_total (file_ a) false (files σ)) as (ok & k & Eo).
    destruct (finish_effect l a (FileLogAppender (file_ a) ok 0) (with_files k σ) f0 E0)
      as (σ' & x & E & Ha & (? & ? & ?) & Hl & Hn).
    exists σ', x. split; [|split_and!; try done; by exists ok]. etransitivity; [|exact E]. apply bind_same.
    unfold FileLogAppender_new. erewrite bind_Ret by apply Efm. cbv beta.
    erewrite bind_Ret by (unfold on_files; rewrite Eo; reflexivity). done.
Qed.

Lemma configure_appenders_effect l as_ (σ : Logs) y :
  inv σ -> loggers σ !! l = Some y -> Forall type_ok as_ ->
  exists σ' new, configure_appenders no_level l as_ σ = (Ret tt, σ') /\ inv σ' /\
    appenders σ' = appenders σ ++ new /\ Forall2 appender_for as_ new /\
    loggers σ' = <[l := mkLogger (name_ y) (level_ y) (appenders_ y ++ seq (length (appenders σ)) (length new))]> (loggers σ) /\
    loggers_ σ' = loggers_ σ.
Proof.
  intros Hi Ey Ht. revert σ y Hi Ey. induction Ht as [|a as_ Ha _ IH]; intros σ y Hi Ey.
  { exists σ, []. cbn. rewrite !app_nil_r. split_and!; try done. rewrite list_insert_id; [done|]. by destruct y. }
  cbn [configure_appenders].
  destruct (configure_appender_effect l a σ Ha) as (σ1 & x & E1 & A1 & X1 & L1 & N1).
  destruct (sound_configure_appender l a σ Hi) as (r & σ1' & E1' & Hi1 & _); [by eapply lookup_lt_Some|].
  rewrite E1 in E1'. simplify_eq. erewrite bind_Ret by exact E1. cbv beta.
  assert (loggers σ1' !! l = Some (mkLogger (name_ y) (level_ y) (appenders_ y ++ [length (appenders σ)]))) as Ey1.
  { by rewrite L1, list_lookup_alter, decide_True, Ey by done. }
  destruct (IH σ1' _ Hi1 Ey1) as (σ2 & new & E2 & Hi2 & A2 & X2 & L2 & N2).
  exists σ2, (x :: new). split_and!; [done|done|by rewrite A2, A1, <- app_assoc|by constructor| |congruence].
  rewrite L2, L1, A1. cbn [name_ level_ appenders_ length seq]. apply list_eq. intros i.
  destruct (decide (l = i)) as [<-|Hne].
  - rewrite !list_lookup_insert_eq by (rewrite ?length_alter; by eapply lookup_lt_Some).
    rewrite length_app, <- app_assoc. cbn. by rewrite Nat.add_1_r.
  - rewrite !list_lookup_insert_ne by done. rewrite list_lookup_alter, decide_False by done. done.
Qed.

Lemma get_logger_effect name (σ : Logs) :
  inv σ -> exists l σ1 x, get_logger name σ = (Ret l, σ1) /\ inv σ1 /\
    loggers_ σ1 !! name = Some l /\ loggers σ1 !! l = Some x /\ name_ x = name /\
    (forall n, n <> name -> loggers_ σ1 !! n = loggers_ σ !! n) /\
    (forall l' y, loggers σ !! l' = Some y -> loggers σ1 !! l' = Some y) /\ appenders σ1 = appenders σ.
Proof.
  intros Hi. destruct (sound_get_logger name σ Hi) as (l & σ1 & E & Hi1 & _).
  pose proof E as E'. unfold get_logger, mbind, M_bind, gets in E'. destruct (loggers_ σ !! name) as [l0|] eqn:El.
  - injection E' as -> ->. destruct (proj1 (proj2 Hi1) name l El) as (x & Ex & N). exists l, σ1, x. by split_and!.
  - injection E' as <- <-. eexists _, _, _. split; [exact E|]. split; [done|]. cbn.
    rewrite lookup_insert_eq, list_lookup_middle by done. split_and!; try done.
    + intros n Hn. by rewrite lookup_insert_ne.
    + intros l' y Ey. by apply lookup_app_l_Some.
Qed.

Lemma configure_logger_effect i (σ : Logs) :
  inv σ -> Forall type_ok (entry_appenders_ i) ->
  exists σ', configure_logger no_level i σ = (Ret tt, σ') /\ inv σ' /\ configured i σ' /\ leaves [entry_name_ i] σ σ'.
Proof.
  intros Hi Ht. unfold configure_logger.
  destruct (get_logger_effect (entry_name_ i) σ Hi) as (l & σ1 & x & E1 & Hi1 & Nl & Ex & Nx & Nk & Lk & Ak).
  erewrite bind_Ret by exact E1. cbv beta.
  destruct (sound_bind (set_level (entry_level_ i) l) (λ _, clear_appenders l) σ1) as ([] & σ2 & E2 & Hi2 & _).
  { by apply sound_alter_logger. }
  { intros _ τ _ Hτ _. apply sound_alter_logger; [done|by constructor|done]. }
  assert (loggers σ2 = <[l := mkLogger (entry_name_ i) (entry_level_ i) []]> (loggers σ1) /\
          loggers_ σ2 = loggers_ σ1 /\ appenders σ2 = appenders σ1) as (L2 & N2 & A2).
  { unfold set_level, clear_appenders, alter_logger, mbind, M_bind in E2. injection E2 as <-. cbn. split_and!; try done.
    apply list_eq. intros j. destruct (decide (l = j)) as [<-|Hne].
    - rewrite list_lookup_insert_eq by (by eapply lookup_lt_Some). rewrite !list_lookup_alter, !decide_True, Ex by done.
      cbn. by rewrite Nx.
    - by rewrite list_lookup_insert_ne, !list_lookup_alter, !decide_False by done. }
  assert (loggers σ2 !! l = Some (mkLogger (entry_name_ i) (entry_level_ i) [])) as Ey.
  { rewrite L2. by rewrite list_lookup_insert_eq by (by eapply lookup_lt_Some). }
  destruct (configure_appenders_effect l (entry_appenders_ i) σ2 _ Hi2 Ey Ht) as (σ3 & new & E3 & Hi3 & A3 & X3 & L3 & N3).
  exists σ3. split; [|split_and!; [done| |]].
  - rewrite <- E3. rewrite <- (bind_Ret _ (λ _, configure_appenders no_level l (entry_appenders_ i)) _ _ _ E2).
    by rewrite bind_assoc.
  - exists l, (seq (length (appenders σ2)) (length new)). rewrite N3, N2, L3, A3. split_and!; [done| |].
    + by rewrite list_lookup_insert_eq by (by eapply lookup_lt_Some).
    + apply Forall2_lookup. intros j. pose proof (proj1 (Forall2_lookup _ _ _) X3 j) as Hj.
      destruct (entry_appenders_ i !! j) as [a|], (new !! j) as [y|] eqn:Ej; inversion Hj; subst.
      * rewrite lookup_seq_lt by (by eapply lookup_lt_Some). constructor. exists y. split; [|done].
        rewrite lookup_app_r by lia. by replace (_ - _)%nat with j by lia.
      * rewrite lookup_seq_ge by (by eapply lookup_ge_None_1). constructor.
  - split.
    + intros n Hn%not_elem_of_cons. destruct Hn as [Hn _]. rewrite N3, N2. split; [by apply Nk|]. intros l' El'.
      destruct (proj1 (proj2 Hi) n l' El') as (y & Ey' & Ny). assert (l <> l') as Hne.
      { intros <-. rewrite (Lk _ _ Ey') in Ex. congruence. }
      rewrite L3, L2, !list_lookup_insert_ne by done. by rewrite (Lk _ _ Ey').
    + intros p y Ep. rewrite A3, A2, Ak. by apply lookup_app_l_Some.
Qed.

Definition names (l : list LoggerEntry) : list (list Z) := entry_name_ <$> l.
Definition entries_ok (l : list LoggerEntry) : Prop :=
  NoDup (names l) /\ Forall (λ i, Forall type_ok (entry_appenders_ i)) l.

Lemma configure_loggers_effect new (σ : Logs) :
  inv σ -> entries_ok new ->
  exists σ', configure_loggers no_level new σ = (Ret tt, σ') /\ inv σ' /\ Forall (λ i, configured i σ') new /\
    leaves (names new) σ σ'.
Proof.
  intros Hi [Hnd Ht]. revert σ Hi. induction new as [|i new IH]; intros σ Hi.
  { exists σ. split_and!; [done|done|constructor|]. by split. }
  apply Forall_cons in Ht as [Hti Ht]. apply NoDup_cons in Hnd as [Hni Hnd]. cbn [configure_loggers].
  destruct (configure_logger_effect i σ Hi Hti) as (σ1 & E1 & Hi1 & C1 & V1). erewrite bind_Ret by exact E1. cbv beta.
  destruct (IH Hnd Ht σ1 Hi1) as (σ2 & E2 & Hi2 & C2 & V2). exists σ2. split_and!; [done|done| |].
  - constructor; [|done]. by eapply configured_stable.
  - exact (leaves_trans [entry_name_ i] (names new) _ _ _ V1 V2).
Qed.

Lemma del_logger_effect name (σ : Logs) :
  inv σ -> name <> root_name -> exists σ', del_logger name σ = (Ret true, σ') /\ inv σ' /\ leaves [name] σ σ' /\
    loggers_ σ' !! name = None.
Proof.
  intros Hi Hne. destruct (sound_del_logger strftime name σ Hi) as (r & σ' & E & Hi' & _).
  destruct (get_logger_effect name σ Hi) as (l & σ1 & x & E1 & Hi1 & Nl & Ex & Nx & Nk & Lk & Ak).
  pose proof (del_logger_eq name σ Hne) as E2. cbn zeta in E2. rewrite E2 in E. injection E as <- <-. eexists. split; [exact E2|].
  assert (default (length (loggers σ)) (loggers_ σ !! name) = l) as El.
  { unfold get_logger, mbind, M_bind, gets in E1. destruct (loggers_ σ !! name); injection E1; by intros. }
  rewrite El, E1 in *. cbn [snd] in *. split_and!; [done| |cbn; by rewrite lookup_delete_eq]. split.
  - intros n Hn%not_elem_of_cons. destruct Hn as [Hn _]. cbn. rewrite lookup_delete_ne by done. split; [by apply Nk|].
    intros l' El'. destruct (proj1 (proj2 Hi) n l' El') as (y & Ey & Ny). rewrite list_lookup_alter, decide_False.
    + by rewrite (Lk _ _ Ey).
    + intros ->. rewrite (Lk _ _ Ey) in Ex. congruence.
  - intros p y Ep. cbn. by rewrite Ak.
Qed.

(** Of the old names, those that the loop deletes. *)
Definition doomed (old new : list LoggerEntry) : list (list Z) :=
  filter (λ n, n ∈ names new /\ n <> root_name) (names old).

Lemma existsb_names i new : existsb (entry_eq i) new = bool_decide (entry_name_ i ∈ names new).
Proof.
  apply eq_true_iff_eq. rewrite existsb_exists, bool_decide_eq_true. unfold names. rewrite list_elem_of_fmap. split.
  - intros (j & Hj & E%bool_decide_eq_true). exists j. split; [done|]. by apply list_elem_of_In.
  - intros (j & E & Hj). exists j. split; [by apply list_elem_of_In|]. by apply bool_decide_eq_true.
Qed.

Lemma delete_loggers_effect old new (σ : Logs) :
  inv σ -> NoDup (names old) ->
  exists σ', delete_loggers old new σ = (Ret tt, σ') /\ leaves (doomed old new) σ σ' /\
    forall n, n ∈ doomed old new -> loggers_ σ' !! n = None.
Proof.
  intros Hi Hnd. revert σ Hi. induction old as [|i old IH]; intros σ Hi.
  { exists σ. split_and!; [done|by split|]. intros n Hn. by apply not_elem_of_nil in Hn. }
  apply NoDup_cons in Hnd as [Hni Hnd]. cbn [delete_loggers]. rewrite existsb_names. unfold doomed. cbn [names fmap list_fmap].
  fold (names old). destruct (decide (entry_name_ i ∈ names new /\ entry_name_ i <> root_name)) as [[Hin Hr]|Hno].
  - rewrite filter_cons_True by done. fold (doomed old new). rewrite bool_decide_eq_true_2 by done.
    destruct (del_logger_effect (entry_name_ i) σ Hi Hr) as (σ1 & E1 & Hi1 & V1 & D1). erewrite bind_Ret by exact E1. cbv beta.
    destruct (IH Hnd σ1 Hi1) as (σ2 & E2 & V2 & D2). exists σ2. split_and!; [done|by apply (leaves_trans [_] _ _ _ _ V1 V2)|].
    intros n [->|Hn]%elem_of_cons; [|by apply D2]. rewrite <- D1. apply (proj1 V2).
    unfold doomed. rewrite list_elem_of_filter. by intros [_ ?].
  - rewrite filter_cons_False by done. fold (doomed old new).
    assert ((if bool_decide (entry_name_ i ∈ names new) then del_logger (entry_name_ i) else mret false) σ = (Ret false, σ)) as E1.
    { destruct (bool_decide_reflect (entry_name_ i ∈ names new)) as [Hin|]; [|done].
      destruct (decide (entry_name_ i = root_name)) as [Er|]; [|tauto]. rewrite Er. by vm_compute. }
    erewrite bind_Ret by exact E1. by apply IH.
Qed.

(** What a change of the [logs] variable does to the loggers: a name that is new
    in the variable gets a logger with exactly the level and the appenders its entry
    lists; but a name that was there before and still is (the root apart) loses its
    logger, which was just configured, and one that is no longer there keeps it: the
    second loop deletes the names it finds in the new value instead of those it does
    not find. *)
Theorem logs_change k (σ : Logs) old new :
  reachable strftime k σ -> NoDup (names old) -> entries_ok new ->
  exists σ', on_logs_change strftime event no_level old new σ = (Ret tt, σ') /\
    (forall i, i ∈ new -> entry_name_ i ∉ names old \/ entry_name_ i = root_name -> configured i σ') /\
    (forall n, n ∈ names old -> n ∈ names new -> n <> root_name -> loggers_ σ' !! n = None) /\
    (forall n, n ∉ names new -> loggers_ σ' !! n = loggers_ σ !! n /\
       forall l, loggers_ σ !! n = Some l -> loggers σ' !! l = loggers σ !! l).
Proof.
  intros [Hi Hr]%reachable_inv Ho Hok. pose proof Hi as (Er & Hn & _).
  destruct (Hn _ _ Er) as (x & Ex & _).
  assert (exists σ1, sylar_log strftime (root_ σ) INFO event (str "logs config changed") σ = (Ret tt, σ1) /\
            inv σ1 /\ same_loggers σ σ1) as (σ1 & E1 & Hi1 & (S1 & S2 & _)).
  { unfold sylar_log. erewrite bind_Ret by (unfold the_logger; by rewrite Ex). destruct (level_lt _ _); [by exists σ|].
    destruct (sound_log strftime (root_ σ) INFO (stream_in (str "logs config changed") event) σ Hi) as ([] & σ1 & E & Hi1 & _);
      [by eapply lookup_lt_Some|].
    exists σ1. split_and!; [done|done|]. pose proof (log_frame strftime (root_ σ) INFO (stream_in (str "logs config changed") event) σ) as Hf.
    by rewrite E in Hf. }
  destruct (configure_loggers_effect new σ1 Hi1 Hok) as (σ2 & E2 & Hi2 & C2 & V2).
  destruct (delete_loggers_effect old new σ2 Hi2 Ho) as (σ3 & E3 & V3 & D3).
  exists σ3. unfold on_logs_change. erewrite bind_Ret by done. erewrite bind_Ret by exact E1. erewrite bind_Ret by exact E2.
  split_and!; [done| | |].
  - intros i Hin Hcase. rewrite Forall_forall in C2. eapply configured_stable; [by apply C2| |exact V3].
    unfold doomed. rewrite list_elem_of_filter. by destruct Hcase as [?|?]; intros [[_ ?] ?].
  - intros n Hno Hnn Hroot. apply D3. unfold doomed. by rewrite list_elem_of_filter.
  - intros n Hnn. destruct (proj1 V2 n Hnn) as [N2 L2]. destruct (proj1 V3 n) as [N3 L3].
    { unfold doomed. rewrite list_elem_of_filter. by intros [[? _] _]. }
    rewrite <- S1, <- S2. split; [congruence|]. intros l El. rewrite L3 by congruence. by apply L2.
Qed.

End effect.

(** ** Loading the variable again *)

Section reload.
Context {Y : Yaml} {Fd : YamlFields} {W : Type}.

(** A document whose [logs] entries have the names the variable already has is
    accepted and ignored, whatever levels and appenders it gives them: entries are
    equal when their names are, so the value is not assigned and no listener runs. *)
Theorem reload_ignored (σ : Config (K := unit) (W := W)) a x s new :
  as_var tt a σ = Some x -> set_from_string entry_lt s = Some new ->
  names new = names (Config.value_ x) -> Config.from_string a s σ = (Ret true, σ).
Proof.
  intros Ex Es Hn. pose proof (proj1 (as_var_Some _ _ _ _) Ex) as Ev. unfold Config.from_string. rewrite Ev.
  cbn [ty_conv logs_types from_str]. rewrite Es. unfold set_value. rewrite Ex.
  assert (ty_eqb tt new (Config.value_ x) = true) as ->; [|done].
  cbn. apply andb_true_iff. split.
  - apply bool_decide_eq_true. pose proof (f_equal length Hn) as El. unfold names in El. by rewrite !length_fmap in El.
  - generalize dependent (Config.value_ x). cbn. clear. intros old. revert old.
    induction new as [|i new IH]; intros [|j old] Hn; try done. cbn in *. injection Hn as E1 E2.
    apply andb_true_iff. split; [by apply bool_decide_eq_true|by apply IH].
Qed.
End reload.

(** ** Examples *)

#[local] Instance tree_fields : YamlFields := {
  field := λ n k, match n with Map l => Some (assoc_find k l) | _ => None end;
  as_string := λ n, match n with Scalar s => Some s | _ => None end;
}.
#[local] Instance tree_fields_laws : FieldsLaws.
Proof. by split. Qed.
#[local] Existing Instances Numbered.yaml Numbered.yaml_laws.

Definition a_entry (v : Level) : LoggerEntry :=
  mkLoggerEntry (str "a") v [mkLogAppenderEntry 0 [] ERROR (str "%m%n")].
Definition b_entry : LoggerEntry := mkLoggerEntry (str "b") WARN [mkLogAppenderEntry 1 (str "x") FATAL []].

Lemma entry_round_trip_witness :
  entry_from_string (entry_to_string b_entry) =
    Some (mkLoggerEntry (str "b") WARN [mkLogAppenderEntry 1 (str "x") DEBUG []]).
Proof.
  apply (entry_round_trip b_entry).
  - constructor; [right; reflexivity|constructor].
  - apply Numbered.load_number.
Defined.

Lemma logs_change_witness :
  exists σ', on_logs_change (λ f t, f) an_event UNKNOWN [a_entry DEBUG] [a_entry ERROR; b_entry]
               (LoggerManager_new empty_tree).2 = (Ret tt, σ') /\
    configured b_entry σ' /\ loggers_ σ' !! str "a" = None.
Proof.
  destruct (logs_change (λ f t, f) an_event UNKNOWN empty_tree (LoggerManager_new empty_tree).2
              [a_entry DEBUG] [a_entry ERROR; b_entry]) as (σ' & E & H1 & H2 & _).
  - apply reachable_new.
  - apply (bool_decide_unpack _). vm_compute. exact I.
  - split; [apply (bool_decide_unpack _); vm_compute; exact I|].
    constructor; [constructor; [left; reflexivity|constructor]|].
    constructor; [constructor; [right; reflexivity|constructor]|constructor].
  - exists σ'. split; [exact E|]. split.
    + apply H1; [apply list_elem_of_further, list_elem_of_here|]. left. apply (bool_decide_unpack _). vm_compute. exact I.
    + apply H2; apply (bool_decide_unpack _); vm_compute; exact I.
Defined.

Definition logs_text : list Z := emit (Seq [entry_node (a_entry FATAL)]).
Definition logs_config : Config (K := unit) (W := unit) :=
  (look_up (Ts := logs_types) tt (str "logs") [a_entry DEBUG] [] (Config_new tt)).2.

Lemma reload_ignored_witness : Config.from_string 0 logs_text logs_config = (Ret true, logs_config).
Proof.
  apply (reload_ignored logs_config 0 (ConfigVar_new (Ts := logs_types) tt (str "logs") [] [a_entry DEBUG]) logs_text
           [mkLoggerEntry (str "a") FATAL [mkLogAppenderEntry 0 [] DEBUG (str "%m%n")]]).
  - vm_compute. reflexivity.
  - vm_compute. reflexivity.
  - reflexivity.
Defined.
