(* ===== verification/FdManager.v ===== *)
(** * Descriptor contexts: src/sylar/fdmanager.{h,cpp}

    The kernel's side is the class [Descriptors].  A [std::shared_ptr<FdCtx>] is a
    place in a heap, because a context can outlive its entry in the table. *)

From S2P Require Import Prelude.

Definition O_NONBLOCK := 2048.
Definition SO_RCVTIMEO := 20.
Definition SO_SNDTIMEO := 21.
Definition no_timeout := 2 ^ 64 - 1.

Class Descriptors (K : Type) := {
  fstat : Z -> K -> option bool;              (** [None]: it fails; [Some b]: a descriptor, a socket or not *)
  description : Z -> K -> option Z;           (** the open file description of a descriptor that is open *)
  getfl : Z -> K -> Z;                        (** [fcntl(fd, F_GETFL)] *)
  setfl : Z -> Z -> K -> Z * K;               (** [fcntl(fd, F_SETFL, flags)] *)
  fionbio : Z -> bool -> K -> Z * K;          (** [ioctl(fd, FIONBIO, &v)] *)
  fcntl_other : Z -> Z -> option Z -> K -> Z * K; (** [fcntl(fd, cmd, arg)] or [fcntl(fd, cmd)], other commands *)
  close_fd : Z -> K -> Z * K;                 (** [close(fd)] *)
}.

(** Whether the kernel's own flag of a descriptor is set. *)
Definition kernel_nonblock `{!Descriptors K} (fd : Z) (k : K) : bool := negb (Z.land (getfl fd k) O_NONBLOCK =? 0).

(** fcntl(2), ioctl(2), dup(2), close(2): the status flags belong to the open file
    description, so that setting them sets [O_NONBLOCK] as asked for every descriptor
    that refers to the same one and leaves the others alone; a call that fails changes
    nothing; other commands, and closing another descriptor, leave the flags of the
    descriptors that are open alone. *)
Class DescriptorsLaws (K : Type) `{!Descriptors K} : Prop := {
  fstat_open : forall fd k b, fstat fd k = Some b -> is_Some (description fd k);
  setfl_sets : forall fd v k k' fd', setfl fd v k = (0, k') -> description fd' k = description fd k ->
    kernel_nonblock fd' k' = negb (Z.land v O_NONBLOCK =? 0);
  setfl_other : forall fd v k k' fd', setfl fd v k = (0, k') -> description fd' k <> description fd k ->
    getfl fd' k' = getfl fd' k;
  setfl_same : forall fd v k fd', description fd' (setfl fd v k).2 = description fd' k;
  setfl_fails : forall fd v k rt k', setfl fd v k = (rt, k') -> rt <> 0 -> k' = k;
  fionbio_sets : forall fd v k k' fd', fionbio fd v k = (0, k') -> description fd' k = description fd k ->
    kernel_nonblock fd' k' = v;
  fionbio_other : forall fd v k k' fd', fionbio fd v k = (0, k') -> description fd' k <> description fd k ->
    getfl fd' k' = getfl fd' k;
  fionbio_same : forall fd v k fd', description fd' (fionbio fd v k).2 = description fd' k;
  fionbio_fails : forall fd v k rt k', fionbio fd v k = (rt, k') -> rt <> 0 -> k' = k;
  fcntl_keeps : forall fd cmd arg k fd' o, description fd' k = Some o ->
    getfl fd' (fcntl_other fd cmd arg k).2 = getfl fd' k /\ description fd' (fcntl_other fd cmd arg k).2 = Some o;
  close_other : forall fd k fd', fd' <> fd ->
    getfl fd' (close_fd fd k).2 = getfl fd' k /\ description fd' (close_fd fd k).2 = description fd' k;
}.

Record FdCtx := mkFdCtx {
  is_inited_ : bool;
  is_socket_ : bool;
  is_closed_ : bool;
  user_nonblock_ : bool;
  fd_ : Z;
  recv_timeout_ : Z;
  send_timeout_ : Z;
}.
Definition set_user_nonblock (v : bool) (c : FdCtx) : FdCtx :=
  mkFdCtx (is_inited_ c) (is_socket_ c) (is_closed_ c) v (fd_ c) (recv_timeout_ c) (send_timeout_ c).
Definition set_timeout (type timeout : Z) (c : FdCtx) : bool * FdCtx :=
  if type =? SO_RCVTIMEO then
    (true, mkFdCtx (is_inited_ c) (is_socket_ c) (is_closed_ c) (user_nonblock_ c) (fd_ c) timeout (send_timeout_ c))
  else if type =? SO_SNDTIMEO then
    (true, mkFdCtx (is_inited_ c) (is_socket_ c) (is_closed_ c) (user_nonblock_ c) (fd_ c) (recv_timeout_ c) timeout)
  else (false, c).
Definition get_timeout (type : Z) (c : FdCtx) : Z :=
  if type =? SO_RCVTIMEO then recv_timeout_ c
  else if type =? SO_SNDTIMEO then send_timeout_ c else no_timeout.

Section manager.
Context {K : Type} {D : Descriptors K}.

(** The constructor. *)
Definition FdCtx_new (fd : Z) (k : K) : FdCtx * K :=
  let '(inited, socket, closed) :=
    match fstat fd k with Some b => (true, b, false) | None => (false, false, true) end in
  let k :=
    if socket && negb closed then
      let flags := getfl fd k in
      if Z.land flags O_NONBLOCK =? 0 then (setfl fd (Z.lor flags O_NONBLOCK) k).2 else k
    else k in
  (mkFdCtx inited socket closed false fd no_timeout no_timeout, k).

Record FdManager := mkFdManager {
  fd_ctxs_ : gmap Z nat;
  ctxs : list FdCtx;
  descriptors : K;
}.
Definition FdManager_new (k : K) : FdManager := mkFdManager ∅ [] k.
Definition with_ctxs (l : list FdCtx) (m : FdManager) : FdManager := mkFdManager (fd_ctxs_ m) l (descriptors m).
Definition with_descriptors (k : K) (m : FdManager) : FdManager := mkFdManager (fd_ctxs_ m) (ctxs m) k.

Definition get_fdctx (fd : Z) (auto_create : bool) (m : FdManager) : option nat * FdManager :=
  match fd_ctxs_ m !! fd with
  | Some c => (Some c, m)
  | None =>
      if negb auto_create then (None, m)
      else
        let '(c, k) := FdCtx_new fd (descriptors m) in
        let a := length (ctxs m) in
        (Some a, mkFdManager (<[fd := a]> (fd_ctxs_ m)) (ctxs m ++ [c]) k)
  end.
Definition del_fdctx (fd : Z) (m : FdManager) : bool * FdManager :=
  (bool_decide (is_Some (fd_ctxs_ m !! fd)), mkFdManager (delete fd (fd_ctxs_ m)) (ctxs m) (descriptors m)).

(** The context of a descriptor that has one. *)
Definition the_ctx (fd : Z) (m : FdManager) : option FdCtx := a ← fd_ctxs_ m !! fd; ctxs m !! a.

(** ** The calls of hook.cpp that work on contexts

    [fcntl], [ioctl], [close], [getsockopt] and [setsockopt]; [socket] and [accept]
    make the context of a new descriptor. *)

Definition F_GETFL := 3.
Definition F_SETFL := 4.

(** A context that takes part: there, open and of a socket. *)
Definition hooked (c : option FdCtx) : bool :=
  match c with Some c => negb (is_closed_ c) && is_socket_ c | None => false end.
Definition update_ctx (f : FdCtx -> FdCtx) (fd : Z) (m : FdManager) : FdManager :=
  match fd_ctxs_ m !! fd with
  | Some a => with_ctxs (alter f a (ctxs m)) m
  | None => m
  end.
Definition fcntl_setfl (fd arg : Z) (m : FdManager) : Z * FdManager :=
  if hooked (the_ctx fd m) then
    let m := update_ctx (set_user_nonblock (negb (Z.land arg O_NONBLOCK =? 0))) fd m in
    let '(rt, k) := setfl fd (Z.lor arg O_NONBLOCK) (descriptors m) in (rt, with_descriptors k m)
  else let '(rt, k) := setfl fd arg (descriptors m) in (rt, with_descriptors k m).
Definition fcntl_getfl (fd : Z) (m : FdManager) : Z :=
  let arg := getfl fd (descriptors m) in
  match the_ctx fd m with
  | Some c => if hooked (Some c) then
                if user_nonblock_ c then Z.lor arg O_NONBLOCK else Z.land arg (Z.lnot O_NONBLOCK)
              else arg
  | None => arg
  end.
(** The commands whose argument [fcntl] fetches and passes on; any other is called
    without one. *)
Definition with_argument : list Z :=
  [0; 1030; 2; 8; 10; 1024; 1026; 1031; (* F_DUPFD ... F_SETPIPE_SZ *)
   6; 7; 5;                             (* F_SETLK F_SETLKW F_GETLK *)
   16; 15].                             (* F_GETOWN_EX F_SETOWN_EX *)
Definition fcntl (fd cmd arg : Z) (m : FdManager) : Z * FdManager :=
  if cmd =? F_SETFL then fcntl_setfl fd arg m
  else if cmd =? F_GETFL then (fcntl_getfl fd m, m)
  else let '(rt, k) := fcntl_other fd cmd (if bool_decide (cmd ∈ with_argument) then Some arg else None) (descriptors m) in
       (rt, with_descriptors k m).
(** [ioctl(d, FIONBIO, arg)], [v] the [int] that [arg] points to. *)
Definition ioctl_fionbio (fd v : Z) (m : FdManager) : Z * FdManager :=
  let user_nonblock := negb (v =? 0) in
  let m := if hooked (the_ctx fd m) then update_ctx (set_user_nonblock user_nonblock) fd m else m in
  let '(rt, k) := fionbio fd user_nonblock (descriptors m) in (rt, with_descriptors k m).

(** [getsockopt] and [setsockopt] of a timeout, as a [timeval]; [None] when the call
    goes to the kernel alone.  A [timeval] holds signed 64-bit numbers. *)
Record timeval := mkTimeval { tv_sec : Z; tv_usec : Z }.
Definition getsockopt_timeout (enable : bool) (fd optname : Z) (m : FdManager) : option timeval :=
  if negb enable then None
  else match the_ctx fd m with
       | Some c => let timeout := get_timeout optname c in
                   Some (mkTimeval (timeout / 1000) ((timeout mod 1000) * 1000))
       | None => None
       end.
Definition setsockopt_timeout (enable : bool) (fd optname : Z) (v : timeval) (m : FdManager) : FdManager :=
  if negb enable then m
  else update_ctx (λ c, (set_timeout optname (u64 (tv_sec v * 1000 + Z.quot (tv_usec v) 1000)) c).2) fd m.

(** [socket]: [fd] is what the kernel returned. *)
Definition socket (enable : bool) (fd : Z) (m : FdManager) : Z * FdManager :=
  if negb enable then (fd, m)
  else if negb (fd =? -1) then (fd, (get_fdctx fd true m).2) else (fd, m).
(** [accept] past [hook_iofunc], which returned [rt]. *)
Definition accepted (rt : Z) (m : FdManager) : Z * FdManager :=
  let fd := sint 32 rt in
  if negb (fd =? -1) then (fd, (get_fdctx fd true m).2) else (fd, m).

(** The end of [close]. *)
Definition close_ctx (enable : bool) (fd : Z) (m : FdManager) : Z * FdManager :=
  let m := if enable && bool_decide (is_Some (fd_ctxs_ m !! fd)) then (del_fdctx fd m).2 else m in
  let '(rt, k) := close_fd fd (descriptors m) in (rt, with_descriptors k m).

(** ** The flag the user sees and the flag the kernel has *)

Context {L : DescriptorsLaws K}.

(** Whether a flag word asks for non-blocking mode. *)
Definition nonblock (flags : Z) : bool := negb (Z.land flags O_NONBLOCK =? 0).

(** Contexts are their descriptors'; the kernel never blocks on their sockets, and they hold
    the mode in [asked]. *)
Definition fdm_ok (asked : gmap Z bool) (m : FdManager) : Prop :=
  forall fd a, fd_ctxs_ m !! fd = Some a -> exists c, ctxs m !! a = Some c /\ fd_ c = fd /\
    (hooked (Some c) = true -> is_Some (description fd (descriptors m)) /\
       kernel_nonblock fd (descriptors m) = true /\ asked !! fd = Some (user_nonblock_ c)).

(** The kernel takes the flags the constructor of a context gives it. *)
Definition takes_nonblock (fd : Z) (k : K) : Prop :=
  fstat fd k = Some true -> kernel_nonblock fd k = false -> (setfl fd (Z.lor (getfl fd k) O_NONBLOCK) k).1 = 0.
(** No socket with a context refers to the open file description of [fd]. *)
Definition unshared (fd : Z) (m : FdManager) : Prop :=
  forall fd', hooked (the_ctx fd' m) = true -> description fd' (descriptors m) <> description fd (descriptors m).

(** The runs, with the blocking mode the program asked for last: blocking for a new
    socket, then what [fcntl] and [ioctl] were given.  A new descriptor has no context and
    takes [O_NONBLOCK]; the kernel does anything that leaves the descriptors with a context
    alone (it opens and duplicates others, say).  [O_NONBLOCK] is not turned off with [ioctl], or with
    [fcntl] through a descriptor without a context, on a description that a socket with a context
    refers to. *)
Inductive fdm_run : gmap Z bool -> FdManager -> Prop :=
  | run_new k : fdm_run ∅ (FdManager_new k)
  | run_kernel asked m k : fdm_run asked m ->
      (forall fd, is_Some (fd_ctxs_ m !! fd) ->
         getfl fd k = getfl fd (descriptors m) /\ description fd k = description fd (descriptors m)) ->
      fdm_run asked (with_descriptors k m)
  | run_socket asked m fd : fdm_run asked m -> fd_ctxs_ m !! fd = None -> takes_nonblock fd (descriptors m) ->
      fdm_run (<[fd := false]> asked) (socket true fd m).2
  | run_accept asked m rt : fdm_run asked m -> fd_ctxs_ m !! sint 32 rt = None -> takes_nonblock (sint 32 rt) (descriptors m) ->
      fdm_run (<[sint 32 rt := false]> asked) (accepted rt m).2
  | run_setfl asked m fd arg : fdm_run asked m -> hooked (the_ctx fd m) = true \/ nonblock arg = true \/ unshared fd m ->
      fdm_run (<[fd := nonblock arg]> asked) (fcntl fd F_SETFL arg m).2
  | run_fcntl asked m fd cmd arg : fdm_run asked m -> cmd <> F_SETFL -> fdm_run asked (fcntl fd cmd arg m).2
  | run_ioctl asked m fd v : fdm_run asked m -> v <> 0 \/ unshared fd m ->
      fdm_run (<[fd := negb (v =? 0)]> asked) (ioctl_fionbio fd v m).2
  | run_setsockopt asked m enable fd optname v : fdm_run asked m -> fdm_run asked (setsockopt_timeout enable fd optname v m)
  | run_close asked m fd : fdm_run asked m -> fdm_run asked (close_ctx true fd m).2.

Lemma lor_nonblock v : nonblock (Z.lor v O_NONBLOCK) = true.
Proof.
  apply negb_true_iff, Z.eqb_neq. intros E. assert (Z.testbit (Z.land (Z.lor v O_NONBLOCK) O_NONBLOCK) 11 = true) as Hb.
  { rewrite Z.land_spec, Z.lor_spec. change (Z.testbit O_NONBLOCK 11) with true. by rewrite orb_true_r. }
  by rewrite E in Hb.
Qed.
Lemma land_lor_nonblock v : nonblock (Z.land v (Z.lnot O_NONBLOCK)) = false.
Proof.
  apply negb_false_iff, Z.eqb_eq. rewrite <- Z.land_assoc, (Z.land_comm (Z.lnot O_NONBLOCK)), Z.land_lnot_diag. apply Z.land_0_r.
Qed.

(** Descriptor [fd] refers to the same description in [k'] as in [k] and does not become
    blocking. *)
Definition stays (k k' : K) (fd : Z) : Prop :=
  description fd k' = description fd k /\ (kernel_nonblock fd k = true -> kernel_nonblock fd k' = true).

Lemma same_flags_stay k k' fd : getfl fd k' = getfl fd k -> description fd k' = description fd k -> stays k k' fd.
Proof. intros E1 E2. split; [done|]. unfold kernel_nonblock. by rewrite E1. Qed.

Lemma setfl_stays fd v k fd' : nonblock v = true \/ description fd' k <> description fd k -> stays k (setfl fd v k).2 fd'.
Proof.
  intros H. split; [apply setfl_same|]. destruct (setfl fd v k) as [rt k'] eqn:E. cbn [snd]. intros Hn.
  destruct (decide (rt = 0)) as [->|Hrt]; [|by rewrite (setfl_fails _ _ _ _ _ E Hrt)].
  destruct (decide (description fd' k = description fd k)) as [Ed|Ed].
  - rewrite (setfl_sets _ _ _ _ _ E Ed). by destruct H.
  - unfold kernel_nonblock. by rewrite (setfl_other _ _ _ _ _ E Ed).
Qed.
Lemma fionbio_stays fd v k fd' : v = true \/ description fd' k <> description fd k -> stays k (fionbio fd v k).2 fd'.
Proof.
  intros H. split; [apply fionbio_same|]. destruct (fionbio fd v k) as [rt k'] eqn:E. cbn [snd]. intros Hn.
  destruct (decide (rt = 0)) as [->|Hrt]; [|by rewrite (fionbio_fails _ _ _ _ _ E Hrt)].
  destruct (decide (description fd' k = description fd k)) as [Ed|Ed].
  - rewrite (fionbio_sets _ _ _ _ _ E Ed). by destruct H.
  - unfold kernel_nonblock. by rewrite (fionbio_other _ _ _ _ _ E Ed).
Qed.

(** The kernel changes, and every socket with a context stays non-blocking. *)
Lemma with_descriptors_ok asked k m :
  (forall fd, hooked (the_ctx fd m) = true -> is_Some (description fd (descriptors m)) -> stays (descriptors m) k fd) ->
  fdm_ok asked m -> fdm_ok asked (with_descriptors k m).
Proof.
  intros Hs Hok fd a Ea. cbn in *. destruct (Hok fd a Ea) as (c & Ec & Hf & Hn). exists c. split_and!; [done|done|].
  intros Hh. destruct (Hn Hh) as (Ho & Hk & Ha). destruct (Hs fd) as [E Hk']; [|done|].
  - unfold the_ctx. rewrite Ea. cbn. by rewrite Ec.
  - rewrite E. auto.
Qed.

Lemma FdCtx_new_ok fd k c k' :
  takes_nonblock fd k -> FdCtx_new fd k = (c, k') -> fd_ c = fd /\ user_nonblock_ c = false /\
  (hooked (Some c) = true -> is_Some (description fd k') /\ kernel_nonblock fd k' = true) /\
  forall fd', stays k k' fd'.
Proof.
  intros Ht. unfold FdCtx_new. destruct (fstat fd k) as [b|] eqn:Es; intros [= <- <-]; [|by split_and!]. cbn. rewrite andb_true_r.
  split_and!; [done|done| |].
  - intros ->. pose proof (fstat_open _ _ _ Es) as Ho. destruct (Z.land (getfl fd k) O_NONBLOCK =? 0) eqn:E.
    + rewrite setfl_same. split; [done|]. assert (kernel_nonblock fd k = false) as Hn by (unfold kernel_nonblock; by rewrite E).
      specialize (Ht Es Hn). destruct (setfl _ _ _) as [rt k'] eqn:Ek. cbn in *. subst rt. rewrite (setfl_sets _ _ _ _ fd Ek eq_refl).
      apply lor_nonblock.
    + split; [done|]. unfold kernel_nonblock. by rewrite E.
  - intros fd'. destruct b; [|done]. destruct (_ =? 0); [|done]. apply setfl_stays. left. apply lor_nonblock.
Qed.

Lemma get_fdctx_ok asked fd m :
  fdm_ok asked m -> fd_ctxs_ m !! fd = None -> takes_nonblock fd (descriptors m) ->
  fdm_ok (<[fd := false]> asked) (get_fdctx fd true m).2.
Proof.
  intros Hok Hn Ht. unfold get_fdctx. rewrite Hn. cbn. destruct (FdCtx_new fd (descriptors m)) as [c k] eqn:E.
  destruct (FdCtx_new_ok _ _ _ _ Ht E) as (Hfd & Hu & Hk & Hs). cbn. intros fd' a. cbn. destruct (decide (fd = fd')) as [<-|Hne].
  - rewrite lookup_insert_eq. intros [= <-]. exists c. rewrite list_lookup_middle, lookup_insert_eq, Hu by done. naive_solver.
  - rewrite !lookup_insert_ne by done. intros Ea. destruct (Hok fd' a Ea) as (c' & Ec & Hf & Hk').
    exists c'. split_and!; [by apply lookup_app_l_Some|done|]. intros Hh. destruct (Hk' Hh) as (Ho & Hb & Ha).
    destruct (Hs fd') as [Ed Hb']. rewrite Ed. auto.
Qed.

(** A socket without a context that takes part can be given any mode in [asked]. *)
Lemma asked_ok asked fd v m :
  hooked (the_ctx fd m) = false -> fdm_ok asked m -> fdm_ok (<[fd := v]> asked) m.
Proof.
  intros Hn Hok fd' a Ea. destruct (Hok fd' a Ea) as (c & Ec & Hf & Hk). exists c. split_and!; [done|done|]. intros Hh.
  destruct (decide (fd = fd')) as [<-|Hne]; [|by rewrite lookup_insert_ne; auto].
  unfold the_ctx in Hn. rewrite Ea in Hn. cbn in Hn. by rewrite Ec, Hh in Hn.
Qed.

Lemma update_ctx_ok asked asked' f fd m :
  (forall c, fd_ (f c) = fd_ c /\ hooked (Some (f c)) = hooked (Some c)) ->
  (forall fd', fd' <> fd -> asked' !! fd' = asked !! fd') ->
  (forall c, asked !! fd = Some (user_nonblock_ c) -> asked' !! fd = Some (user_nonblock_ (f c))) ->
  is_Some (fd_ctxs_ m !! fd) \/ asked' = asked ->
  fdm_ok asked m -> fdm_ok asked' (update_ctx f fd m).
Proof.
  intros Hf Hne Hfd Hin Hok. unfold update_ctx. destruct (fd_ctxs_ m !! fd) as [a|] eqn:Ea; cycle 1.
  { destruct Hin as [[? [=]]| ->]. done. }
  intros fd' b Eb. cbn in *. destruct (Hok fd' b Eb) as (c & Ec & Hc & Hk). rewrite list_lookup_alter.
  destruct (Hf c) as [E1 E2]. destruct (Hok fd a Ea) as (c0 & Ec0 & Hc0 & _). case_decide as Hab.
  - subst b. assert (fd' = fd) as -> by congruence. rewrite Ec. exists (f c). cbn [fmap option_fmap option_map]. rewrite E1, E2. naive_solver.
  - exists c. split_and!; [done|done|]. intros Hh. destruct (Hk Hh) as (Ho & Hb & Ha). rewrite Hne; [auto|]. intros ->. congruence.
Qed.

Lemma the_ctx_update f fd m c :
  the_ctx fd m = Some c -> the_ctx fd (update_ctx f fd m) = Some (f c).
Proof.
  unfold the_ctx, update_ctx. destruct (fd_ctxs_ m !! fd) as [a|] eqn:Ea; [|done]. cbn. rewrite Ea. cbn.
  intros Ec. by rewrite list_lookup_alter, decide_True, Ec by done.
Qed.

(** The mode of one context is set. *)
Lemma set_mode_ok asked fd v m :
  hooked (the_ctx fd m) = true -> fdm_ok asked m -> fdm_ok (<[fd := v]> asked) (update_ctx (set_user_nonblock v) fd m).
Proof.
  intros Hh Hok. apply update_ctx_ok with asked; [done| | | |done].
  - intros fd' Hne. by rewrite lookup_insert_ne.
  - intros c _. by rewrite lookup_insert_eq.
  - left. unfold the_ctx in Hh. destruct (fd_ctxs_ m !! fd); [eauto|done].
Qed.

Lemma update_ctx_descriptors f fd m : descriptors (update_ctx f fd m) = descriptors m.
Proof. unfold update_ctx. by destruct (fd_ctxs_ m !! fd). Qed.

Lemma set_timeout_same type v c : fd_ (set_timeout type v c).2 = fd_ c /\
  hooked (Some (set_timeout type v c).2) = hooked (Some c) /\ user_nonblock_ (set_timeout type v c).2 = user_nonblock_ c.
Proof. unfold set_timeout. by destruct (type =? SO_RCVTIMEO), (type =? SO_SNDTIMEO). Qed.

Lemma fcntl_setfl_ok asked fd arg m :
  hooked (the_ctx fd m) = true \/ nonblock arg = true \/ unshared fd m ->
  fdm_ok asked m -> fdm_ok (<[fd := nonblock arg]> asked) (fcntl_setfl fd arg m).2.
Proof.
  intros Hsafe Hok. unfold fcntl_setfl. destruct (hooked (the_ctx fd m)) eqn:Hh.
  - fold (nonblock arg). set (m1 := update_ctx _ fd m).
    destruct (setfl fd (Z.lor arg O_NONBLOCK) (descriptors m1)) as [rt k] eqn:Ek. cbn [snd].
    apply with_descriptors_ok; [|by apply set_mode_ok]. intros fd' _ _.
    replace k with (setfl fd (Z.lor arg O_NONBLOCK) (descriptors m1)).2 by (by rewrite Ek). apply setfl_stays. left. apply lor_nonblock.
  - destruct (setfl fd arg (descriptors m)) as [rt k] eqn:Ek. cbn [snd]. apply with_descriptors_ok; [|by apply asked_ok].
    intros fd' Hh' _. replace k with (setfl fd arg (descriptors m)).2 by (by rewrite Ek). apply setfl_stays.
    destruct Hsafe as [[=]|[Hn|Hun]]; [by left|right; by apply Hun].
Qed.

Lemma ioctl_ok asked fd v m :
  v <> 0 \/ unshared fd m -> fdm_ok asked m -> fdm_ok (<[fd := negb (v =? 0)]> asked) (ioctl_fionbio fd v m).2.
Proof.
  intros Hsafe Hok. unfold ioctl_fionbio. set (m1 := if hooked _ then _ else _).
  assert (fdm_ok (<[fd := negb (v =? 0)]> asked) m1 /\ descriptors m1 = descriptors m) as [Hok1 Ed].
  { unfold m1. destruct (hooked (the_ctx fd m)) eqn:Hh; [split; [by apply set_mode_ok|apply update_ctx_descriptors]|].
    split; [by apply asked_ok|done]. }
  destruct (fionbio fd (negb (v =? 0)) (descriptors m1)) as [rt k] eqn:Ek. cbn [snd]. apply with_descriptors_ok; [|done].
  intros fd' Hh' _. replace k with (fionbio fd (negb (v =? 0)) (descriptors m1)).2 by (by rewrite Ek). apply fionbio_stays.
  destruct Hsafe as [Hv|Hun]; [left; apply negb_true_iff; lia|]. right. rewrite Ed. apply Hun.
  unfold m1 in Hh'. destruct (hooked (the_ctx fd m)) eqn:Hh; [|done].
  destruct (decide (fd' = fd)) as [->|Hne]; [done|]. unfold the_ctx, update_ctx in *.
  destruct (fd_ctxs_ m !! fd) as [a|] eqn:Ea; [|done]. cbn in Hh'. destruct (fd_ctxs_ m !! fd') as [b|] eqn:Eb; [|done].
  cbn in *. rewrite list_lookup_alter in Hh'. case_decide as Hab; [|done]. subst b. by destruct (ctxs m !! a).
Qed.

Lemma close_ctx_ok asked fd m : fdm_ok asked m -> fdm_ok asked (close_ctx true fd m).2.
Proof.
  intros Hok. unfold close_ctx. cbn [andb]. set (m1 := if bool_decide _ then _ else _).
  assert (fdm_ok asked m1 /\ fd_ctxs_ m1 !! fd = None) as [Hok1 Hn].
  { unfold m1. destruct (bool_decide_reflect (is_Some (fd_ctxs_ m !! fd))) as [_|Hn].
    - split; [|cbn; by rewrite lookup_delete_eq]. intros fd' a Ea. cbn in Ea. apply lookup_delete_Some in Ea as [_ Ea]. by apply Hok.
    - split; [done|]. by apply eq_None_not_Some. }
  destruct (close_fd fd (descriptors m1)) as [rt k] eqn:Ek. cbn [snd]. apply with_descriptors_ok; [|done]. intros fd' Hh _.
  destruct (close_other fd (descriptors m1) fd') as [E1 E2]; [|rewrite Ek in E1, E2; by apply same_flags_stay].
  intros ->. unfold the_ctx in Hh. by rewrite Hn in Hh.
Qed.

Lemma fdm_run_ok asked m : fdm_run asked m -> fdm_ok asked m.
Proof.
  induction 1 as [k|asked m k _ IH Hk|asked m fd _ IH Hn Ht|asked m rt _ IH Hn Ht|asked m fd arg _ IH Hs|asked m fd cmd arg _ IH Hc
    |asked m fd v _ IH Hs|asked m enable fd optname v _ IH|asked m fd _ IH].
  - intros fd a. cbn. by rewrite lookup_empty.
  - apply with_descriptors_ok; [|done]. intros fd Hh _. unfold the_ctx in Hh. destruct (fd_ctxs_ m !! fd) eqn:E; [|done].
    destruct (Hk fd) as [E1 E2]; [by rewrite E|]. by apply same_flags_stay.
  - unfold socket. cbn. destruct (fd =? -1); [|by apply get_fdctx_ok]. apply asked_ok; [|done]. unfold the_ctx. cbn [negb snd]. by rewrite Hn.
  - unfold accepted. destruct (sint 32 rt =? -1); [|by apply get_fdctx_ok]. apply asked_ok; [|done]. unfold the_ctx. cbn [negb snd]. by rewrite Hn.
  - unfold fcntl. rewrite Z.eqb_refl. by apply fcntl_setfl_ok.
  - unfold fcntl. rewrite (proj2 (Z.eqb_neq cmd F_SETFL) Hc). destruct (cmd =? F_GETFL); [done|].
    set (arg' := if bool_decide _ then _ else _). pose proof (fcntl_keeps fd cmd arg' (descriptors m)) as Hkeep.
    destruct (fcntl_other fd cmd arg' (descriptors m)) as [rt k]. cbn [snd] in *. apply with_descriptors_ok; [|done].
    intros fd' _ [o Ho]. destruct (Hkeep fd' o Ho) as [E1 E2]. apply same_flags_stay; congruence.
  - by apply ioctl_ok.
  - unfold setsockopt_timeout. destruct enable; [|done]. cbn. apply update_ctx_ok with asked; [|done| |by right|done].
    + intros c. by destruct (set_timeout_same optname (u64 (tv_sec v * 1000 + Z.quot (tv_usec v) 1000)) c) as (? & ? & _).
    + intros c Ha. by destruct (set_timeout_same optname (u64 (tv_sec v * 1000 + Z.quot (tv_usec v) 1000)) c) as (_ & _ & ->).
  - by apply close_ctx_ok.
Qed.


(** [ioctl(fd, FIONBIO)] hands the program's wish to the kernel: after asking for
    blocking mode, the calls that are meant to switch fibers block the thread. *)
Theorem fionbio_not_hidden (m : FdManager) fd c :
  the_ctx fd m = Some c -> hooked (Some c) = true -> (ioctl_fionbio fd 0 m).1 = 0 ->
  let m' := (ioctl_fionbio fd 0 m).2 in
  (user_nonblock_ <$> the_ctx fd m') = Some false /\ kernel_nonblock fd (descriptors m') = false.
Proof.
  intros Ec Hh. unfold ioctl_fionbio. rewrite Ec, Hh. cbn [Z.eqb negb].
  set (m1 := update_ctx (set_user_nonblock false) fd m).
  destruct (fionbio fd false (descriptors m1)) as [rt k] eqn:Ek. cbn. intros ->. split.
  - apply (the_ctx_update (set_user_nonblock false)) in Ec. fold m1 in Ec. unfold the_ctx in *. cbn. by rewrite Ec.
  - by apply (fionbio_sets _ _ _ _ _ Ek).
Qed.

(** A timeout set with [setsockopt] is read back with [getsockopt], cut to
    milliseconds, and the other direction's timeout stays; a timeout never set reads
    as 2^64 - 1 milliseconds. *)
Theorem sockopt_round_trip (m : FdManager) fd c tv opt :
  the_ctx fd m = Some c -> opt ∈ [SO_RCVTIMEO; SO_SNDTIMEO] ->
  0 <= tv_usec tv < 1000000 -> 0 <= tv_sec tv -> tv_sec tv * 1000 + 1000 <= 2 ^ 64 ->
  let m' := setsockopt_timeout true fd opt tv m in
  getsockopt_timeout true fd opt m' = Some (mkTimeval (tv_sec tv) (tv_usec tv / 1000 * 1000)) /\
  (forall opt', opt' <> opt -> getsockopt_timeout true fd opt' m' = getsockopt_timeout true fd opt' m) /\
  (recv_timeout_ c = no_timeout ->
     getsockopt_timeout true fd SO_RCVTIMEO m = Some (mkTimeval 18446744073709551 615000)).
Proof.
  intros Ec Hopt Hu Hs Hb m'.
  assert (the_ctx fd m' = Some (set_timeout opt (u64 (tv_sec tv * 1000 + Z.quot (tv_usec tv) 1000)) c).2) as Ec'.
  { unfold m', setsockopt_timeout. cbn [negb]. by erewrite the_ctx_update. }
  rewrite Z.quot_div_nonneg in Ec' by lia. set (ms := tv_sec tv * 1000 + tv_usec tv / 1000) in *.
  assert (0 <= tv_usec tv / 1000 < 1000) as Hd.
  { split; [apply Z.div_pos; lia|apply Z.div_lt_upper_bound; lia]. }
  rewrite uint_small in Ec' by (unfold ms; lia).
  unfold getsockopt_timeout. rewrite Ec, Ec'. cbn [negb].
  assert (opt = SO_RCVTIMEO \/ opt = SO_SNDTIMEO) as Ho by (by rewrite !elem_of_cons, elem_of_nil in Hopt; intuition).
  split_and!.
  - assert (get_timeout opt (set_timeout opt ms c).2 = ms) as -> by (by destruct Ho as [-> | ->]).
    f_equal. unfold ms. f_equal; [|rewrite Z.add_comm, Z.mod_add, Z.mod_small by lia; done].
    rewrite Z.div_add_l by lia. rewrite (Z.div_small (tv_usec tv / 1000)) by lia. lia.
  - intros opt' Hne. f_equal. f_equal; [f_equal|f_equal; f_equal]; unfold get_timeout, set_timeout;
      destruct Ho as [-> | ->]; cbn; destruct (Z.eqb_spec opt' SO_RCVTIMEO), (Z.eqb_spec opt' SO_SNDTIMEO); done.
  - intros Hn. change (get_timeout SO_RCVTIMEO c) with (recv_timeout_ c). by rewrite Hn.
Qed.

End manager.
Arguments FdManager K : clear implicits.

(** ** A kernel *)

(** The descriptions the open descriptors refer to, and what these are with their flags. *)
Record Table := mkTable { fd_table : gmap Z Z; file_table : gmap Z (bool * Z) }.
Definition file (fd : Z) (k : Table) : option (bool * Z) := o ← fd_table k !! fd; file_table k !! o.
Definition change (f : Z -> Z) (fd : Z) (k : Table) : Z * Table :=
  match fd_table k !! fd with
  | Some o => match file_table k !! o with
              | Some (b, v) => (0, mkTable (fd_table k) (<[o := (b, f v)]> (file_table k)))
              | None => (-1, k)
              end
  | None => (-1, k)
  end.
#[global] Instance Table_descriptors : Descriptors Table := {
  fstat fd k := fst <$> file fd k;
  description fd k := fd_table k !! fd;
  getfl fd k := from_option snd (-1) (file fd k);
  setfl fd v k := change (λ _, v) fd k;
  fionbio fd v k := change (λ f, if v then Z.lor f O_NONBLOCK else Z.land f (Z.lnot O_NONBLOCK)) fd k;
  fcntl_other _ _ _ k := (-1, k);
  close_fd fd k :=
    match fd_table k !! fd with Some _ => (0, mkTable (delete fd (fd_table k)) (file_table k)) | None => (-1, k) end;
}.

Lemma change_same f fd k : fd_table (change f fd k).2 = fd_table k.
Proof. unfold change. destruct (fd_table k !! fd) as [o|]; [|done]. by destruct (file_table k !! o) as [[]|]. Qed.
Lemma change_fails f fd k rt k' : change f fd k = (rt, k') -> rt <> 0 -> k' = k.
Proof.
  unfold change. destruct (fd_table k !! fd) as [o|]; [|by intros [= <- <-]].
  destruct (file_table k !! o) as [[]|]; by intros [= <- <-].
Qed.
Lemma change_other f fd k fd' : fd_table k !! fd' <> fd_table k !! fd -> file fd' (change f fd k).2 = file fd' k.
Proof.
  intros Hne. unfold file. rewrite change_same. unfold change. destruct (fd_table k !! fd) as [o|] eqn:Eo; [|done].
  destruct (file_table k !! o) as [[b v]|]; [|done]. cbn. destruct (fd_table k !! fd') as [o'|]; [|done]. cbn.
  rewrite lookup_insert_ne; [done|]. congruence.
Qed.
Lemma change_sets f fd k k' fd' :
  change f fd k = (0, k') -> fd_table k !! fd' = fd_table k !! fd -> exists b v, file fd' k' = Some (b, f v).
Proof.
  unfold change, file. destruct (fd_table k !! fd) as [o|] eqn:Eo; [|done].
  destruct (file_table k !! o) as [[b v]|]; [|done]. intros [= <-] Ed. cbn. rewrite Ed. cbn. rewrite lookup_insert_eq. eauto.
Qed.

#[global] Instance Table_laws : DescriptorsLaws Table.
Proof.
  split; unfold kernel_nonblock; cbn.
  - intros fd k b. unfold file. destruct (fd_table k !! fd); [eauto|done].
  - intros fd v k k' fd' E Ed. by destruct (change_sets _ _ _ _ _ E Ed) as (b & w & ->).
  - intros fd v k k' fd' E Ed. pose proof (change_other (λ _, v) fd k fd' Ed) as H. rewrite E in H. cbn in H. by rewrite H.
  - intros fd v k fd'. by rewrite change_same.
  - intros fd v k rt k'. apply change_fails.
  - intros fd v k k' fd' E Ed. destruct (change_sets _ _ _ _ _ E Ed) as (b & w & ->). cbn.
    destruct v; [apply lor_nonblock|apply land_lor_nonblock].
  - intros fd v k k' fd' E Ed. pose proof (change_other (λ f, if v then Z.lor f O_NONBLOCK else Z.land f (Z.lnot O_NONBLOCK)) fd k fd' Ed) as H.
    rewrite E in H. cbn in H. by rewrite H.
  - intros fd v k fd'. by rewrite change_same.
  - intros fd v k rt k'. apply change_fails.
  - done.
  - intros fd k fd' Hne. unfold file. destruct (fd_table k !! fd); [|done]. cbn. by rewrite lookup_delete_ne.
Qed.

(** One socket, which descriptors 5 and 6 refer to; only 5 has a context. *)
Definition a_table : Table := mkTable {[5 := 0; 6 := 0]} {[0 := (true, 2)]}.
Definition one_socket : FdManager Table := (socket true 5 (FdManager_new a_table)).2.


(** Turning [O_NONBLOCK] off through a duplicate, which has no context, makes the kernel
    block on the socket whose context says it never does. *)
Example duplicate_not_hidden :
  let m := (fcntl 6 F_SETFL 2 one_socket).2 in
  hooked (the_ctx 5 m) = true /\ kernel_nonblock 5 (descriptors one_socket) = true /\ kernel_nonblock 5 (descriptors m) = false.
Proof. vm_compute. by split_and!. Qed.

Lemma sockopt_round_trip_witness :
  getsockopt_timeout true 5 SO_SNDTIMEO (setsockopt_timeout true 5 SO_SNDTIMEO (mkTimeval 2 1500) one_socket) =
    Some (mkTimeval 2 1000).
Proof.
  apply (sockopt_round_trip one_socket 5 (mkFdCtx true true false false 5 no_timeout no_timeout) (mkTimeval 2 1500) SO_SNDTIMEO).
  - vm_compute. reflexivity.
  - apply list_elem_of_further, list_elem_of_here.
  - cbn. lia.
  - cbn. lia.
  - cbn. lia.
Defined.
