(* ===== verification/Hook.v ===== *)
(** * The hooked system calls: src/sylar/hook.cpp

    A call that would block arms a timer, registers its fiber with the IOManager
    and sleeps.  What happens while it sleeps is given from outside, as a script:
    the results of the system calls in order and, for every time the fiber sleeps,
    the state it wakes up in.  The contexts are those of FdManager.v. *)

From S2P Require Import Prelude Fiber Timer Scheduler IOManager FdManager.

Definition EINTR := 4.
Definition EBADF := 9.
Definition EAGAIN := 11.
Definition ETIMEDOUT := 110.
Definition EINPROGRESS := 115.

(** What a system call returns: a value, or -1 and [errno]. *)
Inductive sysres := Value (n : Z) | Err (e : Z).
#[global] Instance sysres_eq_dec : EqDecision sysres.
Proof. solve_decision. Defined.

(** How a hooked call stands at the end of the script: it has returned, it sleeps, the
    last system call was interrupted and is about to be repeated, or the program
    has aborted. *)
Inductive io_result := Returned (r : sysres) | Asleep | Repeating | Aborted.

(** The calling thread. *)
Record Caller := mkCaller { in_iomanager : bool; main_fiber : bool; this_fiber : nat }.

Section hook.
Context {K E : Type} {D : Descriptors K} {Ep : Epoll E}.
(** The timer's closure, a name for what it captures. *)
Context (on_timeout : Z -> Z -> nat -> nat) (on_wake : nat -> nat).

Record Hook := mkHook {
  t_hook_enable : bool;
  t_connect_timeout : Z;
  fdm : FdManager K;
  iom : IOManager E;
  infos : gmap nat Z;        (** the [timer_info]s that are alive, their [state] *)
  info_count : nat;          (** the [timer_info]s made so far *)
}.
Definition set_hook_enable (flag : bool) (h : Hook) : Hook :=
  mkHook flag (t_connect_timeout h) (fdm h) (iom h) (infos h) (info_count h).
Definition is_hook_enable (h : Hook) : bool := t_hook_enable h.
Definition with_fdm (m : FdManager K) (h : Hook) : Hook :=
  mkHook (t_hook_enable h) (t_connect_timeout h) m (iom h) (infos h) (info_count h).
Definition with_iom (s : IOManager E) (h : Hook) : Hook :=
  mkHook (t_hook_enable h) (t_connect_timeout h) (fdm h) s (infos h) (info_count h).
Definition with_infos (v : gmap nat Z) (h : Hook) : Hook :=
  mkHook (t_hook_enable h) (t_connect_timeout h) (fdm h) (iom h) v (info_count h).
(** [new timer_info], and the end of its scope. *)
Definition new_info (h : Hook) : nat * Hook :=
  let i := info_count h in
  (i, mkHook (t_hook_enable h) (t_connect_timeout h) (fdm h) (iom h) (<[i := 0]> (infos h)) (S i)).
Definition drop_info (i : nat) (h : Hook) : Hook := with_infos (delete i (infos h)) h.
(** The listener of [tcp.connect.timeout_ms]. *)
Definition on_connect_timeout (old_value new_value : Z) (h : Hook) : Hook :=
  mkHook (t_hook_enable h) new_value (fdm h) (iom h) (infos h) (info_count h).

(** ** The closures of the timers *)

Definition wake_fiber (f : nat) (s : IOManager E) : IOManager E :=
  with_base (default (base s) (wakeup f (base s))) s.
(** The closure of [hook_iofunc], and that of [connect]; [None] when the [timer_info] is gone and
    a null pointer is written through.  A timer runs them only while it is alive. *)
Definition timeout_fired (i : nat) (fd event : Z) (f : nat) (h : Hook) : option Hook :=
  _ ← infos h !! i;
  let h := with_infos (<[i := ETIMEDOUT]> (infos h)) h in
  let h := with_iom (wake_fiber f (iom h)) h in
  Some (with_iom (cancel_event fd event (iom h)).2 h).
Definition connect_fired (i : nat) (fd : Z) (f : nat) (h : Hook) : option Hook :=
  let h := with_iom (wake_fiber f (iom h)) h in
  _ ← infos h !! i;
  let h := with_infos (<[i := ETIMEDOUT]> (infos h)) h in
  Some (with_iom (cancel_event fd EPOLLOUT (iom h)).2 h).
Definition sleep_fired (f : nat) (s : IOManager E) : IOManager E := schedule_fiber f (wake_fiber f s).

(** ** [hook_iofunc] *)

Definition cancel_timer (t : option nat) (s : IOManager E) : IOManager E :=
  match t with Some t => with_timers (cancel t (timers s)).2 s | None => s end.

(** The timer, when there is a timeout, and then the event; [i] is the [timer_info]. *)
Definition arm (now : Z) (timeout : option Z) (i : nat) (fd event : Z) (f : nat) (h : Hook)
    : bool * option nat * IOManager E :=
  let '(timer, s) :=
    match timeout with
    | Some ms => add_timer_tickle now false ms (Cond (on_timeout fd event f) i) 0 (iom h)
    | None => (None, iom h)
    end in
  let '(ret, s) := add_event_fiber true fd event f s in
  (ret, timer, s).

(** The call, and again while it is interrupted. *)
Fixpoint attempt (rs : list sysres) : option (sysres * list sysres) :=
  match rs with
  | [] => None
  | Err e :: rs => if e =? EINTR then attempt rs else Some (Err e, rs)
  | Value n :: rs => Some (Value n, rs)
  end.

(** One waking up: the time, and the state. *)
Definition Wake : Type := Z * Hook.
Definition timed_out (i : nat) (h : Hook) : bool := bool_decide (infos h !! i = Some ETIMEDOUT).

(** From [RETRY] on; [ctx] is the place of the context, [ctl_errno] what a refusal
    by [epoll_ctl] leaves in [errno]. *)
Fixpoint retry (c : Caller) (ctl_errno : Z) (fd event timeout_type : Z) (ctx : nat) (wakes : list Wake)
    (rs : list sysres) (now : Z) (h : Hook) : io_result * Hook :=
  match attempt rs with
  | None => (Repeating, h)
  | Some (Value n, _) => (Returned (Value n), h)
  | Some (Err e, rs) =>
      if e =? EAGAIN then
        let '(i, h) := new_info h in
        if negb (in_iomanager c && negb (main_fiber c)) then (Aborted, h)
        else
          let timeout := from_option (get_timeout timeout_type) no_timeout (ctxs (fdm h) !! ctx) in
          let '(ret, timer, s) :=
            arm now (if timeout =? no_timeout then None else Some timeout) i fd event (this_fiber c) h in
          if negb ret then (Returned (Err ctl_errno), drop_info i (with_iom (cancel_timer timer s) h))
          else
            match wakes with
            | [] => (Asleep, with_iom s h)
            | (now, h) :: wakes =>
                let h := with_iom (cancel_timer timer (iom h)) h in
                if timed_out i h then (Returned (Err ETIMEDOUT), drop_info i h)
                else retry c ctl_errno fd event timeout_type ctx wakes rs now (drop_info i h)
            end
      else (Returned (Err e), h)
  end.
(** A call that goes straight to the system. *)
Definition direct (rs : list sysres) : io_result :=
  match rs with [] => Repeating | r :: _ => Returned r end.
Definition hook_iofunc (c : Caller) (ctl_errno : Z) (fd event timeout_type : Z) (wakes : list Wake)
    (rs : list sysres) (now : Z) (h : Hook) : io_result * Hook :=
  if negb (is_hook_enable h) then (direct rs, h)
  else
    match (get_fdctx fd false (fdm h)).1 with
    | None => (direct rs, h)
    | Some ctx =>
        match ctxs (fdm h) !! ctx with
        | None => (direct rs, h)
        | Some x =>
            if is_closed_ x || negb (is_socket_ x) || user_nonblock_ x then (direct rs, h)
            else retry c ctl_errno fd event timeout_type ctx wakes rs now h
        end
    end.

(** [read], [readv], [recv], [recvfrom], [recvmsg]; [write], [writev], [send], [sendto],
    [sendmsg]; [accept]. *)
Definition hook_read (c : Caller) (ctl_errno fd : Z) := hook_iofunc c ctl_errno fd EPOLLIN SO_RCVTIMEO.
Definition hook_write (c : Caller) (ctl_errno fd : Z) := hook_iofunc c ctl_errno fd EPOLLOUT SO_SNDTIMEO.
Definition hook_accept (c : Caller) (ctl_errno fd : Z) (wakes : list Wake) (rs : list sysres) (now : Z) (h : Hook)
    : io_result * Hook :=
  match hook_iofunc c ctl_errno fd EPOLLIN SO_RCVTIMEO wakes rs now h with
  | (Returned (Value n), h) => (Returned (Value (sint 32 n)), with_fdm (accepted n (fdm h)).2 h)
  | r => r
  end.

(** ** [connect] *)

(** [r0] is the result of [connect_f]; [so_error] what the [getsockopt] of [SO_ERROR]
    gives behind the wait. *)
Definition hook_connect (c : Caller) (ctl_errno fd : Z) (r0 : sysres) (wake : option Wake) (so_error : sysres)
    (now : Z) (h : Hook) : io_result * Hook :=
  if negb (is_hook_enable h) then (Returned r0, h)
  else
    match the_ctx fd (fdm h) with
    | None => (Returned (Err EBADF), h)
    | Some x =>
        if is_closed_ x then (Returned (Err EBADF), h)
        else if negb (is_socket_ x) || user_nonblock_ x then (Returned r0, h)
        else
          match r0 with
          | Err e =>
              if negb (e =? EINPROGRESS) then (Returned (Err e), h)
              else if negb (in_iomanager c && negb (main_fiber c)) then (Aborted, h)
              else
                let '(i, h) := new_info h in
                let '(ret, timer, s) := arm now (Some (t_connect_timeout h)) i fd EPOLLOUT (this_fiber c) h in
                if negb ret then (Returned (Err ctl_errno), drop_info i (with_iom (cancel_timer timer s) h))
                else
                  match wake with
                  | None => (Asleep, with_iom s h)
                  | Some (_, h) =>
                      let h := with_iom (cancel_timer timer (iom h)) h in
                      if timed_out i h then (Returned (Err ETIMEDOUT), drop_info i h)
                      else
                        let h := drop_info i h in
                        match so_error with
                        | Err e => (Returned (Err e), h)
                        | Value e => if e =? 0 then (Returned (Value 0), h) else (Returned (Err e), h)
                        end
                  end
          | r => (Returned r, h)
          end
    end.

(** ** [close] and [sleep] *)

Definition hook_close (c : Caller) (fd : Z) (h : Hook) : Z * Hook :=
  let h :=
    if is_hook_enable h && bool_decide (is_Some (fd_ctxs_ (fdm h) !! fd)) && in_iomanager c
    then with_iom (cancel_all fd (iom h)).2 h else h in
  let '(rt, m) := close_ctx (is_hook_enable h) fd (fdm h) in (rt, with_fdm m h).

(** The milliseconds of [sleep], [usleep] and [nanosleep]. *)
Definition sleep_ms (seconds : Z) : Z := u32 (seconds * 1000).
Definition usleep_ms (usec : Z) : Z := usec / 1000.
Definition nanosleep_ms (tv_sec tv_nsec : Z) : Z := u64 (tv_sec * 1000 + Z.quot tv_nsec 1000000).
(** The three calls: [true] when the fiber goes to sleep, [false] when the system's own
    call is made. *)
Definition hook_sleep (c : Caller) (ms now : Z) (h : Hook) : bool * Hook :=
  if negb (is_hook_enable h) || negb (in_iomanager c) || main_fiber c then (false, h)
  else (true, with_iom (add_timer_tickle now false ms (Plain (on_wake (this_fiber c))) 0 (iom h)).2 h).

(** ** What a hooked call returns *)

(** The event can be waited for: [epoll_ctl] takes it. *)
Definition armable (fd event : Z) (f : nat) (s : IOManager E) : Prop := (add_event_fiber true fd event f s).1 = true.

Lemma add_fiber_ret fd event f (s s' : IOManager E) :
  same_io s s' -> (add_event_fiber true fd event f s').1 = (add_event_fiber true fd event f s).1.
Proof.
  intros (Em & _ & Ek). unfold add_event_fiber, add_event_with, IOEvent_add_fiber, add_with. rewrite Em.
  destruct (has event EPOLLIN), (has event EPOLLOUT); cbn; rewrite Ek;
    destruct (epoll_ctl _ _ _ _) as [rt k]; by destruct (rt =? 0).
Qed.

Lemma add_timer_same now r ms cb args (s : IOManager E) : same_io s (add_timer_tickle now r ms cb args s).2.
Proof.
  unfold add_timer_tickle. destruct (add_timer _ _ _ _ _ _) as [t m]. destruct (negb _); [|done].
  unfold tickle. by destruct (0 <? _).
Qed.

Lemma cancel_timer_same t (s : IOManager E) : same_io s (cancel_timer t s).
Proof. by destruct t. Qed.

Lemma arm_ret now timeout i fd event f h :
  exists timer s, arm now timeout i fd event f h = ((add_event_fiber true fd event f (iom h)).1, timer, s).
Proof.
  unfold arm.
  assert (exists timer s1, match timeout with
    | Some ms => add_timer_tickle now false ms (Cond (on_timeout fd event f) i) 0 (iom h)
    | None => (None, iom h) end = (timer, s1) /\ same_io (iom h) s1) as (timer & s1 & -> & Hs).
  { destruct timeout as [ms|]; [|by eexists _, _].
    pose proof (add_timer_same now false ms (Cond (on_timeout fd event f) i) 0 (iom h)) as H.
    destruct (add_timer_tickle _ _ _ _ _ _) as [t s1]. by exists t, s1. }
  rewrite <- (add_fiber_ret fd event f _ _ Hs). destruct (add_event_fiber true fd event f s1) as [ret s2]. by eexists _, _.
Qed.

(** The answers after which the call is made again. *)
Definition transient (r : sysres) : Prop := r = Err EINTR \/ r = Err EAGAIN.
(** A call in which every wait is accepted by [epoll_ctl] and ends without a timeout: the waits begin in
    state [h] and in the states of [ws]. *)
Fixpoint waits_ok (fd event : Z) (f : nat) (h : Hook) (ws : list Wake) : Prop :=
  match ws with
  | [] => True
  | w :: ws => armable fd event f (iom h) /\ timed_out (info_count h) w.2 = false /\ waits_ok fd event f w.2 ws
  end.
(** The state a call is in behind its waits. *)
Definition behind (h : Hook) (ws : list Wake) : Hook := default h (snd <$> last ws).
(** How often the system has nothing to do. *)
Definition not_ready (ts : list sysres) : nat := length (filter (λ r, r = Err EAGAIN) ts).

(** What matters of the state for the waits of a call. *)
Definition same_waits (h h' : Hook) : Prop := info_count h = info_count h' /\ same_io (iom h) (iom h').
Lemma same_waits_armable fd event f h h' : same_waits h h' -> armable fd event f (iom h) -> armable fd event f (iom h').
Proof. intros [_ Hs]. unfold armable. by rewrite (add_fiber_ret _ _ _ _ _ Hs). Qed.
Lemma same_waits_ok fd event f h h' ws : same_waits h h' -> waits_ok fd event f h ws -> waits_ok fd event f h' ws.
Proof.
  destruct ws as [|w ws]; [done|]. intros Hs (Ha & Ht & Hw). cbn. rewrite <- (proj1 Hs). split_and!; [|done|done]. by eapply same_waits_armable.
Qed.
Lemma woken_same i timer h : same_waits h (drop_info i (with_iom (cancel_timer timer (iom h)) h)).
Proof. split; [done|]. apply cancel_timer_same. Qed.

(** One wait that is over. *)
Lemma retry_wait c ctl_errno fd event timeout_type ctx w wakes rs now h :
  in_iomanager c = true -> main_fiber c = false -> armable fd event (this_fiber c) (iom h) ->
  exists h1, same_waits w.2 h1 /\
    (retry c ctl_errno fd event timeout_type ctx (w :: wakes) (Err EAGAIN :: rs) now h).1 =
      if timed_out (info_count h) w.2 then Returned (Err ETIMEDOUT)
      else (retry c ctl_errno fd event timeout_type ctx wakes rs w.1 h1).1.
Proof.
  intros Hi Hm Ha. cbn [retry attempt]. rewrite (eq_refl : (EAGAIN =? EINTR) = false), Z.eqb_refl, Hi, Hm. cbn [new_info andb negb].
  set (h0 := mkHook _ _ _ _ _ _). set (to := if _ =? no_timeout then None else _).
  destruct (arm_ret now to (info_count h) fd event (this_fiber c) h0) as (timer & s & Ea). rewrite Ea. cbn [iom h0]. rewrite Ha. cbn [negb].
  destruct w as [now1 h1]. cbn [fst snd]. eexists. split; [apply (woken_same (info_count h) timer)|].
  change (timed_out (info_count h) (with_iom (cancel_timer timer (iom h1)) h1)) with (timed_out (info_count h) h1).
  by destruct (timed_out (info_count h) h1).
Qed.

Lemma retry_sleeps c ctl_errno fd event timeout_type ctx rs now h :
  in_iomanager c = true -> main_fiber c = false -> armable fd event (this_fiber c) (iom h) ->
  (retry c ctl_errno fd event timeout_type ctx [] (Err EAGAIN :: rs) now h).1 = Asleep.
Proof.
  intros Hi Hm Ha. cbn [retry attempt]. rewrite (eq_refl : (EAGAIN =? EINTR) = false), Z.eqb_refl, Hi, Hm. cbn [new_info andb negb].
  set (h0 := mkHook _ _ _ _ _ _). set (to := if _ =? no_timeout then None else _).
  destruct (arm_ret now to (info_count h) fd event (this_fiber c) h0) as (timer & s & Ea). rewrite Ea. cbn [iom h0]. by rewrite Ha.
Qed.

(** The calls and the waits before the one that decides. *)
Lemma retry_transient c ctl_errno fd event timeout_type ctx ts ws wakes rs now h :
  in_iomanager c = true -> main_fiber c = false -> Forall transient ts -> length ws = not_ready ts -> waits_ok fd event (this_fiber c) h ws ->
  exists now' h', same_waits (behind h ws) h' /\
    (retry c ctl_errno fd event timeout_type ctx (ws ++ wakes) (ts ++ rs) now h).1 =
    (retry c ctl_errno fd event timeout_type ctx wakes rs now' h').1.
Proof.
  intros Hi Hm Hts. revert ws now h. induction Hts as [|r ts Hr Hts IH]; intros ws now h Hl Hw.
  { destruct ws; [|done]. by exists now, h. }
  destruct Hr as [-> | ->].
  - destruct (IH ws now h Hl Hw) as (now' & h' & Hs & Eq). exists now', h'. split; [done|]. rewrite <- Eq. by destruct (ws ++ wakes).
  - destruct ws as [|w ws]; [done|]. destruct Hw as (Ha & Ht & Hw). injection Hl as Hl.
    destruct (retry_wait c ctl_errno fd event timeout_type ctx w (ws ++ wakes) (ts ++ rs) now h Hi Hm Ha) as (h1 & Hs1 & Eq).
    rewrite Ht in Eq. destruct (IH ws w.1 h1 Hl) as (now' & h' & Hs & Eq'); [by eapply same_waits_ok|]. exists now', h'. split; [|by rewrite <- Eq'].
    unfold behind in *. rewrite last_cons. destruct (last ws); [done|]. cbn in *. destruct Hs as [E1 (E2 & E3 & E4)], Hs1 as [E5 (E6 & E7 & E8)].
    split; [congruence|]. unfold same_io. split_and!; congruence.
Qed.

(** (C21) A hooked call, made in a fiber of the IOManager on a socket for which the program has
    asked nothing else than blocking mode.  While the system answers "interrupted" it is called again, and each
    time it answers "not ready" the fiber waits once, then the system is called again.  Behind any such
    answers [ts] and the waits [ws] they took: the first other answer is returned; at the next "not ready"
    the call fails with what [epoll_ctl] left in [errno] when it refuses the event, sleeps when nothing has woken it yet, and
    fails with [ETIMEDOUT] when its [timer_info] says so as it wakes up.  Where the hooks are off, the descriptor
    has no context, or the program itself asked for non-blocking mode, it is the
    system's call and nothing else. *)
Theorem hooked_call_blocks c ctl_errno fd event timeout_type wakes now h :
  (forall ctx x ts ws rs, is_hook_enable h = true -> fd_ctxs_ (fdm h) !! fd = Some ctx -> ctxs (fdm h) !! ctx = Some x ->
     is_closed_ x = false -> is_socket_ x = true -> user_nonblock_ x = false ->
     in_iomanager c = true -> main_fiber c = false ->
     Forall transient ts -> length ws = not_ready ts -> waits_ok fd event (this_fiber c) h ws ->
     let call wakes rs := (hook_iofunc c ctl_errno fd event timeout_type (ws ++ wakes) (ts ++ rs) now h).1 in
     let h' := behind h ws in
     (forall r, ~ transient r -> call wakes (r :: rs) = Returned r) /\
     call wakes [] = Repeating /\
     (~ armable fd event (this_fiber c) (iom h') -> call wakes (Err EAGAIN :: rs) = Returned (Err ctl_errno)) /\
     (armable fd event (this_fiber c) (iom h') -> call [] (Err EAGAIN :: rs) = Asleep) /\
     (armable fd event (this_fiber c) (iom h') -> forall w, timed_out (info_count h') w.2 = true ->
        call (w :: wakes) (Err EAGAIN :: rs) = Returned (Err ETIMEDOUT))) /\
  (is_hook_enable h = false \/ fd_ctxs_ (fdm h) !! fd = None \/
     (exists x, the_ctx fd (fdm h) = Some x /\ user_nonblock_ x = true) ->
     forall rs, hook_iofunc c ctl_errno fd event timeout_type wakes rs now h = (direct rs, h)).
Proof.
  split.
  - intros ctx x ts ws rs He Ec Ex Hcl Hso Hu Hi Hm Hts Hl Hw call h'.
    assert (forall wakes rs, exists now' h1, same_waits h' h1 /\
      call wakes rs = (retry c ctl_errno fd event timeout_type ctx wakes rs now' h1).1) as Hcall.
    { intros wakes' rs'. unfold call, hook_iofunc, get_fdctx. rewrite He, Ec. cbn [negb fst]. rewrite Ex, Hcl, Hso, Hu. cbn [negb orb].
      destruct (retry_transient c ctl_errno fd event timeout_type ctx ts ws wakes' rs' now h Hi Hm Hts Hl Hw) as (now' & h1 & Hs & ->).
      by exists now', h1. }
    split_and!.
    + intros r Hr. destruct (Hcall wakes (r :: rs)) as (now' & h1 & _ & ->). unfold transient in Hr.
      destruct r as [n|e]; [by destruct wakes|]. destruct wakes; cbn [retry attempt];
        (destruct (Z.eqb_spec e EINTR) as [->|]; [by destruct Hr; left|]); (destruct (Z.eqb_spec e EAGAIN) as [->|]; [by destruct Hr; right|done]).
    + destruct (Hcall wakes []) as (now' & h1 & _ & ->). by destruct wakes.
    + intros Ha. destruct (Hcall wakes (Err EAGAIN :: rs)) as (now' & h1 & Hs & ->).
      assert ((add_event_fiber true fd event (this_fiber c) (iom h1)).1 = false) as Hn.
      { rewrite (add_fiber_ret _ _ _ _ _ (proj2 Hs)). by apply not_true_is_false. }
      destruct wakes as [|w wakes]; cbn [retry attempt]; rewrite (eq_refl : (EAGAIN =? EINTR) = false), Z.eqb_refl, Hi, Hm;
        cbn [new_info andb negb]; set (h0 := mkHook _ _ _ _ _ _); set (to := if _ =? no_timeout then None else _);
        destruct (arm_ret now' to (info_count h1) fd event (this_fiber c) h0) as (timer & s & Ea); rewrite Ea; cbn [iom h0]; by rewrite Hn.
    + intros Ha. destruct (Hcall [] (Err EAGAIN :: rs)) as (now' & h1 & Hs & ->).
      apply retry_sleeps; [done|done|]. by eapply same_waits_armable.
    + intros Ha w Ht. destruct (Hcall (w :: wakes) (Err EAGAIN :: rs)) as (now' & h1 & Hs & ->).
      destruct (retry_wait c ctl_errno fd event timeout_type ctx w wakes rs now' h1 Hi Hm (same_waits_armable _ _ _ _ _ Hs Ha)) as (h2 & _ & ->).
      by rewrite <- (proj1 Hs), Ht.
  - unfold hook_iofunc, get_fdctx, the_ctx. intros [-> |[-> |(x & Ex & Hu)]] rs; [done|by destruct (negb _)|].
    destruct (negb (is_hook_enable h)); [done|]. destruct (fd_ctxs_ (fdm h) !! fd) as [ctx|]; [|done].
    cbn in Ex |- *. rewrite Ex, Hu. by rewrite !orb_true_r.
Qed.

(** ** Sleeping *)

(** [sleep] arms a timer for its fiber that is due after exactly the seconds asked
    for, when these are fewer than 4294968 (the product is a 32-bit number) and no
    other timer is due in the same millisecond; when one is, no timer is armed and
    nothing is there to wake the fiber. *)
Theorem sleep_armed c seconds now h :
  is_hook_enable h = true -> in_iomanager c = true -> main_fiber c = false ->
  timers_reachable (timers (iom h)) -> 0 <= seconds < 4294968 -> 0 <= now < 2 ^ 63 ->
  exists h', hook_sleep c (sleep_ms seconds) now h = (true, h') /\
  ((forall y, y ∈ timers_ (timers (iom h)) -> expiration (timers (iom h)) y <> now + seconds * 1000) ->
     exists t tm, timers_ (timers (iom h')) ≡ₚ t :: timers_ (timers (iom h)) /\
       heap (timers (iom h')) !! t = Some tm /\ next_expiration_ tm = now + seconds * 1000 /\
       is_recurring_ tm = false /\ cb_ tm = Plain (on_wake (this_fiber c))) /\
  ((exists y, y ∈ timers_ (timers (iom h)) /\ expiration (timers (iom h)) y = now + seconds * 1000) ->
     timers_ (timers (iom h')) = timers_ (timers (iom h))).
Proof.
  intros He Hi Hm Ht%reachable_wf Hs Hn. unfold hook_sleep. rewrite He, Hi, Hm. cbn. eexists. split; [reflexivity|].
  unfold sleep_ms. rewrite (uint_small 32) by lia.
  unfold add_timer_tickle. destruct (add_timer _ _ _ _ _ _) as [r m] eqn:Ea.
  pose proof (add_timer_spec _ _ _ _ _ _ _ _ Ht Ea) as (_ & _ & Hh & Hr). rewrite (uint_small 64) in Hh, Hr by lia.
  assert (forall b : bool, timers (if b then tickle (with_timers m (iom h)) else with_timers m (iom h)) = m) as Et.
  { intros []; [|done]. unfold tickle. by destruct (0 <? _). }
  cbn [snd with_iom iom]. rewrite Et. split.
  - intros Hfree. destruct r as [t|]; [|destruct Hr as (_ & y & Hy & Ey); by apply Hfree in Hy].
    destruct Hr as (-> & _ & Hp). eexists _, _. split; [exact Hp|]. split; [exact Hh|]. done.
  - intros (y & Hy & Ey). destruct r as [t|]; [|by destruct Hr]. destruct Hr as (_ & Hne & _). by apply Hne in Hy.
Qed.

End hook.

(** ** A call that times out *)

Section timeout.
Context {K E : Type} {D : Descriptors K} {Ep : Epoll E} {EL : EpollLaws E}.
Context (on_timeout : Z -> Z -> nat -> nat).

Lemma add_fiber_waits fd event f (s s1 : IOManager E) :
  event ∈ [EPOLLIN; EPOLLOUT] -> add_event_fiber true fd event f s = (true, s1) ->
  exists e, fd_event_map_ s1 !! fd = Some e /\ events_ e = Z.lor (events_of s fd) event /\
    context e event = mkContext true (Some f) /\ base s1 = base s /\ timers s1 = timers s.
Proof.
  intros Hev. unfold add_event_fiber, add_event_with, IOEvent_add_fiber, add_with.
  rewrite default_events.
  apply elem_of_cons in Hev as [->|Hev]; [|apply elem_of_cons in Hev as [->|Hev]; [|by apply elem_of_nil in Hev]];
    rewrite ?(eq_refl : has EPOLLIN EPOLLIN = true), ?(eq_refl : has EPOLLIN EPOLLOUT = false),
      ?(eq_refl : has EPOLLOUT EPOLLIN = false), ?(eq_refl : has EPOLLOUT EPOLLOUT = true);
    destruct (epoll_ctl _ _ _ _) as [rt k]; destruct (rt =? 0); try done; intros [= <-];
    eexists; cbn; rewrite lookup_insert_eq; split_and!; try done.
Qed.

Lemma wake_fiber_same f (s : IOManager E) : same_io s (wake_fiber f s).
Proof. done. Qed.

Lemma wake_fiber_tasks f (s : IOManager E) : tasks_ (base (wake_fiber f s)) = tasks_ (base s).
Proof.
  unfold wake_fiber, wakeup. cbn. destruct (fibers (base s) !! f) as [st|]; [|done]. cbn. by destruct (bool_decide _).
Qed.

Lemma events_of_mask d (s : IOManager E) fd : io_ok d s -> events_of s fd ∈ [0; 1; 4; 5].
Proof. intros Hi. rewrite <- (default_events s fd). apply (eo_events _ _ (default_event_ok d s fd Hi)). Qed.

(** The timer of a call that goes to sleep, when no other one is due at the same time. *)
Lemma timer_armed now ms cb (s : IOManager E) :
  timers_reachable (timers s) -> 0 <= ms -> 0 <= now -> now + ms < 2 ^ 64 ->
  (forall y, y ∈ timers_ (timers s) -> expiration (timers s) y <> now + ms) ->
  exists t tm, t ∈ timers_ (timers (add_timer_tickle now false ms cb 0 s).2) /\
    heap (timers (add_timer_tickle now false ms cb 0 s).2) !! t = Some tm /\ next_expiration_ tm = now + ms /\ cb_ tm = cb.
Proof.
  intros Ht%reachable_wf Hms Hn Hlt Hfree. unfold add_timer_tickle. destruct (add_timer _ _ _ _ _ _) as [r m] eqn:Ea.
  pose proof (add_timer_spec _ _ _ _ _ _ _ _ Ht Ea) as (_ & _ & Hh & Hr). rewrite (uint_small 64) in Hh, Hr by lia.
  assert (forall b : bool, timers (if b then tickle (with_timers m s) else with_timers m s) = m) as Et.
  { intros []; [|done]. unfold tickle. by destruct (0 <? _). }
  cbn [snd]. rewrite Et. destruct r as [t|]; [|destruct Hr as (_ & y & Hy & Ey); by apply Hfree in Hy].
  destruct Hr as (-> & _ & Hp). eexists _, _. split; [rewrite Hp; by left|]. split; [exact Hh|]. done.
Qed.

(** A call that has gone to sleep: what it has armed. *)
Lemma retry_asleep c ctl_errno fd event timeout_type ctx rs now (h h1 : Hook (K := K) (E := E)) :
  retry on_timeout c ctl_errno fd event timeout_type ctx [] rs now h = (Asleep, h1) ->
  in_iomanager c = true /\ main_fiber c = false /\
  (exists rs', attempt rs = Some (Err EAGAIN, rs')) /\ infos h1 = <[info_count h := 0]> (infos h) /\
  exists s0, same_io (iom h) s0 /\ add_event_fiber true fd event (this_fiber c) s0 = (true, iom h1) /\
    let timeout := from_option (get_timeout timeout_type) no_timeout (ctxs (fdm h) !! ctx) in
    s0 = if timeout =? no_timeout then iom h
         else (add_timer_tickle now false timeout (Cond (on_timeout fd event (this_fiber c)) (info_count h)) 0 (iom h)).2.
Proof.
  cbn [retry]. destruct (attempt rs) as [[[n|e] rs']|]; try done. destruct (Z.eqb_spec e EAGAIN) as [->|]; [|done].
  cbn [new_info]. destruct (in_iomanager c), (main_fiber c); try done. cbn [andb negb]. unfold arm. cbn [fdm iom].
  set (to := from_option _ _ _). intros Hr. split_and!; [done|done|by exists rs'| |].
  - destruct (to =? no_timeout); [|destruct (add_timer_tickle _ _ _ _ _ _) as [t s0]];
      destruct (add_event_fiber _ _ _ _ _) as [[] s']; cbn in Hr; by simplify_eq.
  - destruct (to =? no_timeout) eqn:Eto.
    + exists (iom h). cbv zeta. destruct (add_event_fiber _ _ _ _ _) as [[] s']; cbn in Hr; by simplify_eq.
    + pose proof (add_timer_same now false to (Cond (on_timeout fd event (this_fiber c)) (info_count h)) 0 (iom h)) as Hsame.
      destruct (add_timer_tickle _ _ _ _ _ _) as [t s0]. exists s0. cbn [snd] in Hsame. split; [done|]. cbv zeta.
      destruct (add_event_fiber _ _ _ _ _) as [[] s']; cbn in Hr; by simplify_eq.
Qed.


End timeout.

(** ** Examples *)

Definition a_caller : Caller := mkCaller true false 3.
Definition a_hook : Hook (K := Table) (E := Kernel) :=
  mkHook true 5000 one_socket (IOManager_new [1; 2] (mkKernel ∅ ∅)) ∅ 0.

(** The state in which a call wakes up because the event was reported: [timer_info] 0 is alive. *)
Definition woken_hook : Hook (K := Table) (E := Kernel) := with_infos {[0%nat := 0]} (new_info a_hook).2.

Lemma hooked_call_blocks_witness :
  (hook_iofunc (λ _ _ f, f) a_caller 1 5 EPOLLIN SO_RCVTIMEO [(20, woken_hook)]
     [Err EINTR; Err EAGAIN; Value 12] 10 a_hook).1 = Returned (Value 12) /\
  (hook_iofunc (λ _ _ f, f) a_caller 1 5 EPOLLIN SO_RCVTIMEO [(20, woken_hook)]
     [Err EINTR; Err EAGAIN; Err EAGAIN] 10 a_hook).1 = Asleep.
Proof.
  destruct (proj1 (hooked_call_blocks (λ _ _ f, f) a_caller 1 5 EPOLLIN SO_RCVTIMEO [] 10 a_hook) 0%nat
    (mkFdCtx true true false false 5 no_timeout no_timeout) [Err EINTR; Err EAGAIN] [(20, woken_hook)] []) as (H1 & _ & _ & H2 & _).
  - reflexivity.
  - vm_compute. reflexivity.
  - vm_compute. reflexivity.
  - reflexivity.
  - reflexivity.
  - reflexivity.
  - reflexivity.
  - reflexivity.
  - constructor; [left; reflexivity|constructor; [right; reflexivity|constructor]].
  - reflexivity.
  - split; [vm_compute; reflexivity|split; [vm_compute; reflexivity|exact I]].
  - split; [apply (H1 (Value 12)); intros [H|H]; discriminate H|apply H2; vm_compute; reflexivity].
Defined.

Lemma sleep_armed_witness :
  exists h', hook_sleep (λ f, f) a_caller (sleep_ms 2) 10 a_hook = (true, h') /\
    exists t, timers_ (timers (iom h')) ≡ₚ [t].
Proof.
  destruct (sleep_armed (λ f, f) a_caller 2 10 a_hook) as (h' & E & H & _).
  - reflexivity.
  - reflexivity.
  - reflexivity.
  - apply rtc_refl.
  - lia.
  - lia.
  - exists h'. split; [exact E|]. destruct H as (t & tm & Hp & _).
    + intros y Hy. by apply not_elem_of_nil in Hy.
    + exists t. exact Hp.
Defined.

Definition asleep : Hook (K := Table) (E := Kernel) :=
  (retry (λ _ _ f, f) a_caller 1 5 EPOLLIN SO_RCVTIMEO 0 [] [Err EAGAIN] 10 a_hook).2.

