(* ===== verification/Socket.v ===== *)
(** * Sockets: src/sylar/socket.{h,cpp}

    The kernel's side is the class [Net] over the program's addresses; the system
    calls are the hooked ones of hook.cpp.  A computation works on one [Socket] and
    the kernel.  The options are those of FdManager.v. *)

From S2P Require Import Prelude Text Fiber Scheduler IOManager FdManager.

Class Net (K A : Type) := {
  addr_family : A -> Z;                            (** [get_family()] *)
  sys_socket : Z -> Z -> Z -> K -> Z * K;          (** a descriptor, or -1 *)
  sys_bind : Z -> A -> K -> Z * K;
  sys_listen : Z -> Z -> K -> Z * K;
  sys_connect : Z -> A -> K -> Z * K;
  sys_accept : Z -> K -> Z * A * K;                (** the descriptor, and the address it fills in *)
  sys_close : Z -> K -> Z * K;
  sys_setsockopt : Z -> Z -> Z -> Z -> K -> Z * K;
  sys_getsockopt : Z -> Z -> Z -> K -> Z * Z;      (** the result and the value *)
  getsockname : Z -> K -> option A;                (** [None] when it fails *)
  getpeername : Z -> K -> option A;
  has_fdctx : Z -> K -> bool;                      (** [FdMgr.get_fdctx(fd)] is not null *)
}.

Definition SOCK_STREAM := 1.
Definition SOL_SOCKET := 1.
Definition SO_REUSEADDR := 2.
Definition SO_ERROR := 4.
Definition IPPROTO_TCP := 6.
Definition TCP_NODELAY := 1.
Definition SOMAXCONN := 4096.

Section socket.
Context {K A : Type} {N : Net K A}.
(** Whether the logger takes errors, and [errno] after a failed [getsockopt]. *)
Context (logging : bool) (errno : Z).

Record Socket := mkSocket {
  sockfd_ : Z;
  family_ : Z;
  type_ : Z;
  protocol_ : Z;
  is_connected_ : bool;
  local_address_ : option A;
  remote_address_ : option A;
}.
Definition Socket_new (family type protocol : Z) : Socket := mkSocket (-1) family type protocol false None None.
Definition is_valid (s : Socket) : bool := negb (sockfd_ s =? -1).

Definition State : Type := Socket * K.
Definition with_fd (fd : Z) (c : bool) (s : Socket) : Socket :=
  mkSocket fd (family_ s) (type_ s) (protocol_ s) c (local_address_ s) (remote_address_ s).
Definition with_connected (c : bool) (s : Socket) : Socket := with_fd (sockfd_ s) c s.
Definition with_local (a : option A) (s : Socket) : Socket :=
  mkSocket (sockfd_ s) (family_ s) (type_ s) (protocol_ s) (is_connected_ s) a (remote_address_ s).
Definition with_remote (a : option A) (s : Socket) : Socket :=
  mkSocket (sockfd_ s) (family_ s) (type_ s) (protocol_ s) (is_connected_ s) (local_address_ s) a.

(** A system call on the descriptor. *)
Definition sys (call : Z -> K -> Z * K) : M State Z := λ '(s, k),
  let '(rt, k) := call (sockfd_ s) k in (Ret rt, (s, k)).
Definition on_socket (f : Socket -> Socket) : M State unit := λ '(s, k), (Ret tt, (f s, k)).

(** ** Addresses *)

(** The address that is kept, or else the kernel's answer, which is then kept. *)
Definition get_local_address : M State (option A) := λ '(s, k),
  if sockfd_ s =? -1 then (Ret None, (s, k))
  else match local_address_ s with
       | Some a => (Ret (Some a), (s, k))
       | None => let a := getsockname (sockfd_ s) k in (Ret a, (with_local a s, k))
       end.
Definition get_remote_address : M State (option A) := λ '(s, k),
  if (sockfd_ s =? -1) || negb (is_connected_ s) then (Ret None, (s, k))
  else match remote_address_ s with
       | Some a => (Ret (Some a), (s, k))
       | None => let a := getpeername (sockfd_ s) k in (Ret a, (with_remote a s, k))
       end.
(** What [to_string] does to the socket, and what a logged error evaluates. *)
Definition to_string_effect : M State unit := _ ← get_local_address; _ ← get_remote_address; mret tt.
Definition log_socket : M State unit := if logging then to_string_effect else mret tt.

(** ** Options *)

Definition get_option (level option : Z) (s : Socket) (k : K) : bool * Z :=
  let '(rt, v) := sys_getsockopt (sockfd_ s) level option k in (rt =? 0, v).
Definition get_error (s : Socket) (k : K) : Z :=
  let '(ok, v) := get_option SOL_SOCKET SO_ERROR s k in if ok then v else errno.
Definition set_option (level option v : Z) : M State bool :=
  rt ← sys (λ fd, sys_setsockopt fd level option v); mret (rt =? 0).

(** ** The life of a socket *)

Definition init (sockfd : Z) : M State bool :=
  _ ← (if sockfd =? -1
       then λ '(s, k), let '(fd, k) := sys_socket (family_ s) (type_ s) (protocol_ s) k in (Ret tt, (with_fd fd false s, k))
       else on_socket (with_fd sockfd true));
  valid ← gets (is_valid ∘ fst);
  if negb valid then mret false
  else
    hooked ← gets (λ '(s, k), has_fdctx (sockfd_ s) k);
    _ ← (if hooked : bool then
           _ ← set_option SOL_SOCKET SO_REUSEADDR 1;
           stream ← gets (λ '(s, _), type_ s =? SOCK_STREAM);
           if stream : bool then set_option IPPROTO_TCP TCP_NODELAY 1 else mret true
         else mret true);
    mret true.
(** [if(!is_valid()) init(-1);] *)
Definition ensure_valid : M State unit :=
  valid ← gets (is_valid ∘ fst);
  if negb valid then _ ← init (-1); mret tt else mret tt.

Definition bind (addr : A) : M State bool :=
  _ ← ensure_valid;
  ok ← gets (λ '(s, _), is_valid s && (addr_family addr =? family_ s));
  if negb ok then _ ← log_socket; mret false
  else
    rt ← sys (λ fd, sys_bind fd addr);
    if negb (rt =? 0) then _ ← log_socket; mret false else mret true.

Definition listen (backlog : Z) : M State bool :=
  valid ← gets (is_valid ∘ fst);
  if negb valid then _ ← log_socket; mret false
  else
    rt ← sys (λ fd, sys_listen fd backlog);
    if negb (rt =? 0) then _ ← log_socket; mret false else mret true.

Definition close : M State bool :=
  open ← gets (λ '(s, _), is_valid s && is_connected_ s);
  if negb open then mret true
  else
    _ ← on_socket (with_connected false);
    _ ← to_string_effect;
    rt ← sys sys_close;
    mret (rt =? 0).

(** [addr] is null for [None]. *)
Definition connect (addr : option A) : M State bool :=
  _ ← ensure_valid;
  ok ← gets (λ '(s, _), is_valid s && match addr with Some a => addr_family a =? family_ s | None => false end);
  match negb ok, addr with
  | true, None => if logging then crash NullDeref else mret false
  | true, Some _ => _ ← log_socket; mret false
  | false, None => mret false
  | false, Some a =>
      rt ← sys (λ fd, sys_connect fd a);
      if negb (rt =? 0) then _ ← log_socket; _ ← close; mret false
      else _ ← on_socket (with_connected true); mret true
  end.
Definition reconnect : M State bool :=
  remote ← get_remote_address;
  match remote with
  | None => mret false
  | Some _ => _ ← on_socket (with_local None); remote ← get_remote_address; connect remote
  end.

(** [accept]: the socket of the connection, made for the descriptor of the listener. *)
Definition accept : M State (option Socket) := λ '(s, k),
  let '(fd, a, k) := sys_accept (sockfd_ s) k in
  if fd =? -1 then (Ret None, (s, k))
  else
    let '(r, (comm, k)) := init fd (with_remote (Some a) (Socket_new (family_ s) (type_ s) (protocol_ s)), k) in
    match r with
    | Ret _ => (Ret (Some comm), (s, k))
    | Throw e => (Throw e, (s, k))
    | Fault f => (Fault f, (s, k))
    end.

(** ** Data *)

(** The system call that [send], [recv] and their kin make, or -1 without one. *)
Inductive DataCall :=
  | SysSend (fd : Z) | SysSendmsg (fd : Z) (to : option A) | SysSendto (fd : Z) (to : A)
  | SysRecv (fd : Z) | SysRecvmsg (fd : Z) (from : option A) | SysRecvfrom (fd : Z) (from : A).
Definition send (s : Socket) : option DataCall := if is_connected_ s then Some (SysSend (sockfd_ s)) else None.
Definition send_iov (s : Socket) : option DataCall := if is_connected_ s then Some (SysSendmsg (sockfd_ s) None) else None.
Definition send_to (to : option A) (s : Socket) : option DataCall :=
  match to with
  | Some a => if is_valid s then None else Some (SysSendto (sockfd_ s) a)
  | None => None
  end.
Definition send_to_iov (to : option A) (s : Socket) : option DataCall :=
  match to with
  | Some a => if is_valid s then Some (SysSendmsg (sockfd_ s) (Some a)) else None
  | None => None
  end.
Definition recv (s : Socket) : option DataCall := if is_connected_ s then Some (SysRecv (sockfd_ s)) else None.
Definition recv_iov (s : Socket) : option DataCall := if is_connected_ s then Some (SysRecvmsg (sockfd_ s) None) else None.
Definition recv_from (from : option A) (s : Socket) : option DataCall :=
  match from with
  | Some a => if is_valid s then Some (SysRecvfrom (sockfd_ s) a) else None
  | None => None
  end.
Definition recv_from_iov (from : option A) (s : Socket) : option DataCall :=
  match from with
  | Some a => if is_valid s then Some (SysRecvmsg (sockfd_ s) (Some a)) else None
  | None => None
  end.

End socket.
Arguments Socket A : clear implicits.
Arguments State K A : clear implicits.
Arguments DataCall A : clear implicits.

(** [set_timeout] and [get_timeout], through the hooked [setsockopt] and [getsockopt]. *)
Definition set_timeout `{!Descriptors K} (fd type value : Z) (m : FdManager K) : FdManager K :=
  setsockopt_timeout true fd type (mkTimeval (value / 1000) ((value mod 1000) * 1000)) m.
Definition get_timeout `{!Descriptors K} (fd type : Z) (m : FdManager K) : option Z :=
  (λ tv, u64 (tv_sec tv * 1000 + Z.quot (tv_usec tv) 1000)) <$> getsockopt_timeout true fd type m.

(** [cancel_read], [cancel_write], [cancel_accept] and [cancel_all], on the manager of
    the calling thread. *)
Definition cancel_read {A E} `{!Epoll E} (s : Socket A) : IOManager E -> bool * IOManager E :=
  cancel_event (sockfd_ s) EPOLLIN.
Definition cancel_write {A E} `{!Epoll E} (s : Socket A) : IOManager E -> bool * IOManager E :=
  cancel_event (sockfd_ s) EPOLLOUT.
Definition cancel_accept {A E} `{!Epoll E} (s : Socket A) : IOManager E -> bool * IOManager E :=
  cancel_event (sockfd_ s) EPOLLIN.
Definition Socket_cancel_all {A E} `{!Epoll E} (s : Socket A) : IOManager E -> bool * IOManager E :=
  cancel_all (sockfd_ s).

(** A timeout in milliseconds is read back as it was set. *)
Lemma timeval_ms v : 0 <= v < 2 ^ 64 -> u64 (v / 1000 * 1000 + Z.quot ((v mod 1000) * 1000) 1000) = v.
Proof.
  intros Hv. rewrite Z.quot_mul by lia. pose proof (Z.div_mod v 1000 ltac:(lia)) as E.
  replace (v / 1000 * 1000 + v mod 1000) with v by lia. by apply uint_small.
Qed.

Theorem socket_timeout_kept `{!Descriptors K} fd type v c (m : FdManager K) :
  the_ctx fd m = Some c -> type ∈ [SO_RCVTIMEO; SO_SNDTIMEO] -> 0 <= v < 2 ^ 64 ->
  get_timeout fd type (set_timeout fd type v m) = Some v.
Proof.
  intros Ec Ht Hv. unfold get_timeout, set_timeout, getsockopt_timeout, setsockopt_timeout. cbn [negb].
  erewrite the_ctx_update by exact Ec. cbn [tv_sec tv_usec fmap option_fmap option_map]. rewrite (timeval_ms v) by done.
  assert (FdManager.get_timeout type (FdManager.set_timeout type v c).2 = v) as ->.
  { rewrite !elem_of_cons, elem_of_nil in Ht. by destruct Ht as [-> |[-> |[]]]. }
  by rewrite timeval_ms.
Qed.

(** A fiber that waits to read from the socket is handed to the scheduler by
    [cancel_read], and a fiber that waits to write keeps waiting. *)
Theorem cancel_read_wakes {A E} `{!Epoll E, !EpollLaws E} (d : Z) (s : Socket A) (m : IOManager E) :
  io_ok d m -> has (events_of m (sockfd_ s)) EPOLLIN = true ->
  exists e f, fd_event_map_ m !! sockfd_ s = Some e /\ context e EPOLLIN = mkContext true (Some f) /\
    base (cancel_read s m).2 = base (schedule_fiber f m) /\
    has (events_of (cancel_read s m).2 (sockfd_ s)) EPOLLOUT = has (events_of m (sockfd_ s)) EPOLLOUT.
Proof.
  intros Hm Hh. assert (EPOLLIN ∈ [EPOLLIN; EPOLLOUT]) as Hin by (by left).
  destruct (cancel_event_eq d (sockfd_ s) EPOLLIN m Hm Hin Hh) as (e & f & ok & s1 & k & Ee & Ec & _ & (-> & _) & Er).
  exists e, f. unfold cancel_read. split_and!; [done|done|rewrite Er; by destruct ok|].
  apply (cancel_keeps d); [done|done|by right; left|done].
Qed.

(** ** Descriptors *)

(** The open descriptors: [socket] opens one, [close] closes its argument, nothing else
    of what a socket does changes them; a descriptor that is connected cannot be
    connected again (connect(2): EISCONN). *)
Class NetLaws (K A : Type) `{!Net K A} := {
  open_fds : K -> gset Z;
  connected : Z -> K -> bool;
  socket_opens : forall f t p k fd k', sys_socket f t p k = (fd, k') -> fd <> -1 ->
    (fd ∉ open_fds k) /\ open_fds k' = {[fd]} ∪ open_fds k;
  socket_fails : forall f t p k k', sys_socket f t p k = (-1, k') -> open_fds k' = open_fds k;
  bind_keeps : forall fd a k, open_fds (sys_bind fd a k).2 = open_fds k;
  listen_keeps : forall fd n k, open_fds (sys_listen fd n k).2 = open_fds k;
  connect_keeps : forall fd a k, open_fds (sys_connect fd a k).2 = open_fds k;
  setopt_keeps : forall fd l o v k, open_fds (sys_setsockopt fd l o v k).2 = open_fds k;
  close_closes : forall fd k k', sys_close fd k = (0, k') -> open_fds k' = open_fds k ∖ {[fd]};
  isconn : forall fd a k, connected fd k = true -> (sys_connect fd a k).1 <> 0 /\ connected fd (sys_connect fd a k).2 = true;
  close_works : forall fd k, fd ∈ open_fds k -> (sys_close fd k).1 = 0;
}.

Section facts.
Context {K A : Type} {N : Net K A} {L : NetLaws K A} (logging : bool).

(** [m] returns, keeps the descriptor and the connection, and closes nothing. *)
Definition harmless {R} (m : M (State K A) R) : Prop :=
  forall s k, exists r s' k', m (s, k) = (Ret r, (s', k')) /\ open_fds k ⊆ open_fds k' /\
    is_connected_ s' = is_connected_ s /\ family_ s' = family_ s /\ (is_valid s = true -> sockfd_ s' = sockfd_ s).

Lemma harmless_ret {R} (r : R) : harmless (mret r).
Proof. intros s k. by eexists _, _, _. Qed.

Lemma harmless_bind {R R'} (m : M (State K A) R) (f : R -> M (State K A) R') :
  harmless m -> (forall r, harmless (f r)) -> harmless (m ≫= f).
Proof.
  intros Hm Hf s k. destruct (Hm s k) as (r & s1 & k1 & E1 & O1 & C1 & F1 & V1).
  destruct (Hf r s1 k1) as (r2 & s2 & k2 & E2 & O2 & C2 & F2 & V2). exists r2, s2, k2.
  erewrite bind_Ret by exact E1. split_and!; [done|by etrans|congruence|congruence|].
  intros Hv. pose proof (V1 Hv) as E. rewrite V2; [done|]. unfold is_valid in *. by rewrite E.
Qed.

Lemma harmless_gets {R} (f : State K A -> R) : harmless (gets f).
Proof. intros s k. by eexists _, _, _. Qed.

Lemma harmless_sys call : (forall fd k, open_fds k ⊆ open_fds (call fd k).2) -> harmless (sys call).
Proof.
  intros H s k. unfold sys. pose proof (H (sockfd_ s) k) as Hk. destruct (call (sockfd_ s) k) as [rt k']. by eexists _, _, _.
Qed.

Lemma harmless_local : harmless get_local_address.
Proof. intros s k. unfold get_local_address. destruct (_ =? -1); [|destruct (local_address_ s)];
  (eexists _, _, _; split; [reflexivity|by split_and!]). Qed.
Lemma harmless_remote : harmless get_remote_address.
Proof. intros s k. unfold get_remote_address. destruct (_ || _); [|destruct (remote_address_ s)];
  (eexists _, _, _; split; [reflexivity|by split_and!]). Qed.

Lemma harmless_log : harmless (log_socket logging).
Proof.
  unfold log_socket, to_string_effect. destruct logging; [|apply harmless_ret].
  apply harmless_bind; [apply harmless_local|]. intros _. apply harmless_bind; [apply harmless_remote|]. intros _. apply harmless_ret.
Qed.

Lemma harmless_set_option l o v : harmless (set_option l o v).
Proof.
  apply harmless_bind; [|intros; apply harmless_ret]. apply harmless_sys. intros fd k. by rewrite setopt_keeps.
Qed.

Lemma harmless_listen n : harmless (listen logging n).
Proof.
  apply harmless_bind; [apply harmless_gets|]. intros valid. destruct (negb valid).
  { apply harmless_bind; [apply harmless_log|]. intros. apply harmless_ret. }
  apply harmless_bind; [apply harmless_sys; intros; by rewrite listen_keeps|]. intros rt.
  destruct (negb _); [|apply harmless_ret]. apply harmless_bind; [apply harmless_log|]. intros. apply harmless_ret.
Qed.

(** On a valid socket [ensure_valid] does nothing. *)
Lemma ensure_valid_id (s : Socket A) (k : K) : is_valid s = true -> ensure_valid (s, k) = (Ret tt, (s, k)).
Proof. intros Hv. unfold ensure_valid. erewrite bind_Ret by done. cbn. by rewrite Hv. Qed.

Lemma harmless_bind_tail addr : harmless (
  ok ← gets (λ '(s, _), is_valid s && (addr_family addr =? family_ s));
  if negb ok then _ ← log_socket logging; mret false
  else rt ← sys (λ fd, sys_bind fd addr); if negb (rt =? 0) then _ ← log_socket logging; mret false else mret true).
Proof.
  apply harmless_bind; [apply harmless_gets|]. intros ok. destruct (negb ok).
  { apply harmless_bind; [apply harmless_log|]. intros. apply harmless_ret. }
  apply harmless_bind; [apply harmless_sys; intros; by rewrite bind_keeps|]. intros rt.
  destruct (negb _); [|apply harmless_ret]. apply harmless_bind; [apply harmless_log|]. intros. apply harmless_ret.
Qed.

(** The calls of a socket's interface that the program can make again and again. *)
Inductive op :=
  | OpBind (a : A) | OpListen (n : Z) | OpConnect (a : A) | OpClose | OpLocalAddress | OpRemoteAddress | OpReconnect.
Definition exec (o : op) (σ : State K A) : State K A :=
  match o with
  | OpBind a => (bind logging a σ).2
  | OpListen n => (listen logging n σ).2
  | OpConnect a => (connect logging (Some a) σ).2
  | OpClose => (close σ).2
  | OpLocalAddress => (get_local_address σ).2
  | OpRemoteAddress => (get_remote_address σ).2
  | OpReconnect => (reconnect logging σ).2
  end.

(** A valid socket that is not connected, on an open descriptor. *)
Definition idle_open (fd : Z) (σ : State K A) : Prop :=
  sockfd_ σ.1 = fd /\ is_valid σ.1 = true /\ is_connected_ σ.1 = false /\ fd ∈ open_fds σ.2.

Lemma harmless_idle {R} (m : M (State K A) R) fd σ : harmless m -> idle_open fd σ -> idle_open fd (m σ).2.
Proof.
  intros Hm (E & Hv & Hc & Ho). destruct σ as [s k]. destruct (Hm s k) as (r & s' & k' & -> & O & C & _ & V).
  cbn in *. pose proof (V Hv) as Ev. unfold idle_open, is_valid in *. cbn. rewrite Ev, C. split_and!; try done. set_solver.
Qed.

Lemma close_idle (σ : State K A) : is_connected_ σ.1 = false -> close σ = (Ret true, σ).
Proof. destruct σ as [s k]. cbn. intros Hc. unfold close. erewrite bind_Ret by done. cbn. by rewrite Hc, andb_false_r. Qed.

Lemma connect_refused fd a σ :
  idle_open fd σ -> (sys_connect fd a σ.2).1 <> 0 ->
  exists σ', connect logging (Some a) σ = (Ret false, σ') /\ idle_open fd σ'.
Proof.
  destruct σ as [s k]. intros Hi Hr. pose proof Hi as (E & Hv & Hc & Ho). cbn in *. unfold connect.
  erewrite bind_Ret by (by apply ensure_valid_id). erewrite bind_Ret by done. cbn.
  assert (idle_open fd (log_socket logging (s, k)).2) as Hlog by (apply harmless_idle; [apply harmless_log|done]).
  rewrite Hv. cbn. destruct (addr_family a =? family_ s); cbn.
  - pose proof (connect_keeps fd a k) as Ok.
    destruct (sys_connect fd a k) as [rt k'] eqn:Es. cbn in Hr, Ok.
    erewrite bind_Ret by (unfold sys; rewrite E, Es; reflexivity). cbn. rewrite (proj2 (Z.eqb_neq rt 0) Hr). cbn.
    assert (idle_open fd (s, k')) as Hi' by (split_and!; try done; cbn; by rewrite Ok).
    destruct (harmless_log s k') as (r & s2 & k2 & E2 & _).
    pose proof (harmless_idle _ fd (s, k') harmless_log Hi') as Hi2. rewrite E2 in Hi2. cbn in Hi2.
    erewrite bind_Ret by exact E2. cbv beta. erewrite bind_Ret by (apply close_idle; by apply Hi2). by eexists.
  - destruct (harmless_log s k) as (r & s2 & k2 & E2 & _). rewrite E2 in Hlog.
    erewrite bind_Ret by exact E2. by eexists.
Qed.

(** A [connect] that does not connect keeps the descriptor. *)
Lemma connect_idle fd a σ :
  idle_open fd σ -> is_connected_ (connect logging (Some a) σ).2.1 = false -> idle_open fd (connect logging (Some a) σ).2.
Proof.
  intros Hi Hn. destruct (decide ((sys_connect fd a σ.2).1 = 0)) as [E0|Hr].
  2: { destruct (connect_refused fd a σ Hi Hr) as (σ' & E & H). by rewrite E. }
  destruct σ as [s k]. pose proof Hi as (E & Hv & Hc & Ho). cbn in *. unfold connect in *.
  erewrite bind_Ret in * by (by apply ensure_valid_id). cbv beta in *.
  erewrite bind_Ret in * by done. cbn in *. rewrite Hv in *. cbn in *.
  destruct (addr_family a =? family_ s); cbn in *.
  - destruct (sys_connect fd a k) as [rt k'] eqn:Es. cbn in E0. subst rt.
    erewrite bind_Ret in Hn by (unfold sys; rewrite E, Es; reflexivity). done.
  - pose proof (harmless_idle _ fd (s, k) harmless_log Hi) as Hlog. destruct (harmless_log s k) as (r & s2 & k2 & E2 & _).
    rewrite E2 in Hlog. by erewrite bind_Ret by exact E2.
Qed.

Lemma exec_idle o fd σ : idle_open fd σ -> is_connected_ (exec o σ).1 = false -> idle_open fd (exec o σ).
Proof.
  intros Hi Hn. pose proof Hi as (E & Hv & Hc & Ho). destruct o as [a|n|a| | | |]; cbn [exec] in *.
  - destruct σ as [s k]. unfold bind. erewrite bind_Ret by (by apply ensure_valid_id).
    apply harmless_idle; [apply harmless_bind_tail|done].
  - apply harmless_idle; [apply harmless_listen|done].
  - by apply connect_idle.
  - by rewrite close_idle.
  - apply harmless_idle; [apply harmless_local|done].
  - apply harmless_idle; [apply harmless_remote|done].
  - unfold reconnect. destruct σ as [s k]. cbn in *.
    erewrite bind_Ret by (unfold get_remote_address; rewrite Hc, orb_true_r; reflexivity). done.
Qed.

(** The calls in turn, none of which connects the socket. *)
Fixpoint never_connected (ops : list op) (σ : State K A) : Prop :=
  match ops with
  | [] => True
  | o :: ops => is_connected_ (exec o σ).1 = false /\ never_connected ops (exec o σ)
  end.
Definition run (ops : list op) (σ : State K A) : State K A := foldl (flip exec) σ ops.

(** A descriptor opened for a socket that does not get connected is never closed:
    on a listening socket, and on one whose every [connect] fails, no sequence of
    calls closes the descriptor, [close] (which the destructor calls) included. *)
Theorem unconnected_never_closed (fd : Z) (σ : State K A) (ops : list op) :
  idle_open fd σ -> never_connected ops σ ->
  (fd ∈ open_fds (run ops σ).2) /\ close (run ops σ) = (Ret true, run ops σ).
Proof.
  intros Hi Hn. assert (idle_open fd (run ops σ)) as (_ & _ & Hc & Ho).
  { unfold run. revert σ Hi Hn. induction ops as [|o ops IH]; intros σ Hi Hn; [done|]. cbn in *.
    destruct Hn as [Hn1 Hn]. apply IH; [by apply exec_idle|done]. }
  split; [done|by apply close_idle].
Qed.

(** [reconnect] never succeeds: without a connection it returns false at once and
    does nothing, and with one it connects the connected descriptor again, which the
    kernel refuses, and then closes the connection. *)
Theorem reconnect_never (s : Socket A) (k : K) :
  (is_connected_ s = false -> reconnect logging (s, k) = (Ret false, (s, k))) /\
  forall a, is_connected_ s = true -> is_valid s = true -> sockfd_ s ∈ open_fds k ->
    connected (sockfd_ s) k = true -> remote_address_ s = Some a -> addr_family a = family_ s ->
    exists s' k', reconnect logging (s, k) = (Ret false, (s', k')) /\
      is_connected_ s' = false /\ sockfd_ s ∉ open_fds k'.
Proof.
  split.
  { intros Hc. unfold reconnect.
    by erewrite bind_Ret by (unfold get_remote_address; rewrite Hc, orb_true_r; reflexivity). }
  intros a Hc Hv Ho Hk Ha Hf. unfold reconnect.
  assert ((sockfd_ s =? -1) = false) as Hfd by (by apply negb_true_iff).
  assert (forall l, get_remote_address (with_local l s, k) = (Ret (Some a), (with_local l s, k))) as Hrem.
  { intros l. unfold get_remote_address. cbn. by rewrite Hfd, Hc, Ha. }
  destruct s as [fd fam ty pr conn loc rem]. cbn in *. subst conn rem.
  erewrite bind_Ret by (exact (Hrem loc)). cbv beta iota. erewrite bind_Ret by done. erewrite bind_Ret by exact (Hrem None).
  cbv beta. unfold connect. erewrite bind_Ret by (by apply ensure_valid_id). erewrite bind_Ret by done. cbv beta iota.
  set (s0 := mkSocket fd fam ty pr true None (Some a)). change (is_valid (with_local None _)) with (is_valid s0).
  change (is_valid s0) with (negb (fd =? -1)). rewrite Hfd. cbn [negb andb family_ with_local].
  rewrite Hf, Z.eqb_refl. cbn [negb].
  destruct (isconn fd a k Hk) as [Hr _]. pose proof (connect_keeps fd a k) as Ok.
  destruct (sys_connect fd a k) as [rt k1] eqn:Es. cbn in Hr, Ok.
  erewrite bind_Ret by (unfold sys; cbn; rewrite Es; reflexivity). cbv beta. rewrite (proj2 (Z.eqb_neq rt 0) Hr). cbn [negb].
  destruct (harmless_log s0 k1) as (r & s1 & k2 & E2 & O2 & C2 & _ & V2). erewrite bind_Ret by exact E2. cbv beta.
  pose proof (V2 Hv) as Efd. change (sockfd_ s0) with fd in Efd. unfold close.
  erewrite bind_assoc. erewrite bind_Ret by done. cbn beta iota. unfold is_valid. rewrite Efd, Hfd, C2. cbn [negb andb is_connected_ s0].
  rewrite bind_assoc. erewrite bind_Ret by done. cbv beta. rewrite bind_assoc.
  set (s2 := with_connected false s1).
  assert (harmless (to_string_effect (K := K) (A := A))) as Hts.
  { apply harmless_bind; [apply harmless_local|]. intros _. apply harmless_bind; [apply harmless_remote|]. intros _. apply harmless_ret. }
  destruct (Hts s2 k2) as (r3 & s3 & k3 & E3 & O3 & C3 & _ & V3). erewrite bind_Ret by exact E3. cbv beta.
  assert (sockfd_ s3 = fd) as Efd3.
  { rewrite V3; [exact Efd|]. unfold is_valid. cbn. by rewrite Efd, Hfd. }
  assert (fd ∈ open_fds k3) as Ho3 by (apply O3, O2; by rewrite Ok).
  pose proof (close_works fd k3 Ho3) as Hw. destruct (sys_close fd k3) as [rt4 k4] eqn:Ecl. cbn in Hw. subst rt4.
  rewrite bind_assoc. erewrite bind_Ret by (unfold sys; rewrite Efd3, Ecl; reflexivity). cbv beta.
  eexists _, _. split; [reflexivity|]. split; [by rewrite C3|]. rewrite (close_closes _ _ _ Ecl). set_solver.
Qed.

End facts.

(** ** A kernel *)

Record Switch := mkSwitch { opens : gset Z; conns : gset Z; next_fd : Z; accepting : bool }.
#[global] Instance Switch_net : Net Switch Z := {
  addr_family a := a / 2 ^ 16;
  sys_socket _ _ _ k :=
    if bool_decide ((next_fd k ∈ opens k) \/ next_fd k = -1) then (-1, k)
    else (next_fd k, mkSwitch ({[next_fd k]} ∪ opens k) (conns k) (next_fd k + 1) (accepting k));
  sys_bind _ _ k := (0, k);
  sys_listen _ _ k := (0, k);
  sys_connect fd _ k :=
    if negb (accepting k) || bool_decide (fd ∈ conns k) then (-1, k)
    else (0, mkSwitch (opens k) ({[fd]} ∪ conns k) (next_fd k) (accepting k));
  sys_accept _ k := (-1, 0, k);
  sys_close fd k :=
    if bool_decide (fd ∈ opens k) then (0, mkSwitch (opens k ∖ {[fd]}) (conns k ∖ {[fd]}) (next_fd k) (accepting k))
    else (-1, k);
  sys_setsockopt _ _ _ _ k := (0, k);
  sys_getsockopt _ _ _ _ := (0, 0);
  getsockname _ _ := None;
  getpeername _ _ := None;
  has_fdctx _ _ := true;
}.
#[global] Instance Switch_laws : NetLaws Switch Z.
Proof.
  refine {| open_fds := opens; connected := λ fd k, bool_decide (fd ∈ conns k) |}; cbn; try done.
  - intros _ _ _ k fd k'. case_bool_decide as H; intros [= <- <-]; [done|]. intros _. cbn. tauto.
  - intros _ _ _ k k'. case_bool_decide as H; [by intros [= <-]|]. intros [= E <-]. tauto.
  - intros fd _ k. by destruct (_ || _).
  - intros fd k k'. case_bool_decide; [|done]. by intros [= <-].
  - intros fd _ k E. rewrite E, orb_true_r. done.
  - intros fd k H. by rewrite bool_decide_eq_true_2.
Defined.

Definition listening : State Switch Z := run false [OpBind (2 * 2 ^ 16 + 80); OpListen SOMAXCONN] (Socket_new 2 1 0, mkSwitch ∅ ∅ 7 false).

Lemma unconnected_never_closed_witness :
  7 ∈ opens (run false [OpClose; OpConnect (2 * 2 ^ 16 + 80); OpClose] listening).2.
Proof.
  refine (proj1 (unconnected_never_closed false 7 listening [OpClose; OpConnect (2 * 2 ^ 16 + 80); OpClose] _ _)).
  - split_and!; [vm_compute; reflexivity..|]. apply (bool_decide_unpack _). vm_compute. exact I.
  - repeat split; vm_compute; reflexivity.
Defined.

Lemma reconnect_never_witness :
  exists s' k', reconnect false (mkSocket 7 2 1 0 true None (Some (2 * 2 ^ 16 + 80)), mkSwitch {[7]} {[7]} 8 true) =
    (Ret false, (s', k')) /\ is_connected_ s' = false.
Proof.
  destruct (proj2 (reconnect_never false (mkSocket 7 2 1 0 true None (Some (2 * 2 ^ 16 + 80))) (mkSwitch {[7]} {[7]} 8 true))
    (2 * 2 ^ 16 + 80)) as (s' & k' & E & Hc & _).
  - reflexivity.
  - reflexivity.
  - apply (bool_decide_unpack _). vm_compute. exact I.
  - vm_compute. reflexivity.
  - reflexivity.
  - vm_compute. reflexivity.
  - exists s', k'. split; [exact E|exact Hc].
Defined.
