(* ===== verification/TcpServer.v ===== *)
(** * The TCP server: src/sylar/tcp_server.{h,cpp}

    Sockets are those of Socket.v, in a heap, since the fibers of the server share
    them with it.  What is given to the workers and what the IOManager is asked to
    cancel is recorded. *)

From S2P Require Import Prelude Text Timer Scheduler IOManager FdManager Hook Socket.

Section server.
Context {K A : Type} {N : Net K A} (logging : bool).

Record TcpServer := mkTcpServer {
  recv_timeout_ : Z;
  is_stop_ : bool;
  listen_socks_ : list nat;
  socks : list (Socket A);
  accept_fibers : list nat;       (** [on_accepted] given to [accept_worker_], with its socket *)
  client_fibers : list nat;       (** [handle_client] given to [worker_] *)
  cancelled : list Z;             (** [IOManager::cancel_all] *)
  net : K;
}.
(** The constructor; [timeout] is the value of [tcp.server.recv_timeout]. *)
Definition TcpServer_new (timeout : Z) (k : K) : TcpServer := mkTcpServer timeout true [] [] [] [] [] k.
Definition set_recv_timeout (v : Z) (σ : TcpServer) : TcpServer :=
  mkTcpServer v (is_stop_ σ) (listen_socks_ σ) (socks σ) (accept_fibers σ) (client_fibers σ) (cancelled σ) (net σ).
Definition with_stop (b : bool) (σ : TcpServer) : TcpServer :=
  mkTcpServer (recv_timeout_ σ) b (listen_socks_ σ) (socks σ) (accept_fibers σ) (client_fibers σ) (cancelled σ) (net σ).
Definition with_listen (l : list nat) (σ : TcpServer) : TcpServer :=
  mkTcpServer (recv_timeout_ σ) (is_stop_ σ) l (socks σ) (accept_fibers σ) (client_fibers σ) (cancelled σ) (net σ).
Definition with_socks (l : list (Socket A)) (k : K) (σ : TcpServer) : TcpServer :=
  mkTcpServer (recv_timeout_ σ) (is_stop_ σ) (listen_socks_ σ) l (accept_fibers σ) (client_fibers σ) (cancelled σ) k.
Definition add_accept_fiber (i : nat) (σ : TcpServer) : TcpServer :=
  mkTcpServer (recv_timeout_ σ) (is_stop_ σ) (listen_socks_ σ) (socks σ) (accept_fibers σ ++ [i]) (client_fibers σ)
    (cancelled σ) (net σ).
Definition add_client_fiber (i : nat) (σ : TcpServer) : TcpServer :=
  mkTcpServer (recv_timeout_ σ) (is_stop_ σ) (listen_socks_ σ) (socks σ) (accept_fibers σ) (client_fibers σ ++ [i])
    (cancelled σ) (net σ).
Definition cancel_fd (fd : Z) (σ : TcpServer) : TcpServer :=
  mkTcpServer (recv_timeout_ σ) (is_stop_ σ) (listen_socks_ σ) (socks σ) (accept_fibers σ) (client_fibers σ)
    (cancelled σ ++ [fd]) (net σ).

(** A call on the socket at [i]. *)
Definition on_sock {R} (i : nat) (m : M (State K A) R) : M TcpServer R := λ σ,
  match socks σ !! i with
  | None => (Fault NullDeref, σ)
  | Some s => let '(r, (s, k)) := m (s, net σ) in (r, with_socks (<[i := s]> (socks σ)) k σ)
  end.
Definition make_sock (s : Socket A) : M TcpServer nat := λ σ,
  (Ret (length (socks σ)), with_socks (socks σ ++ [s]) (net σ) σ).

(** ** [bind] *)

(** One address: a socket that is bound and listens joins the listening ones. *)
Definition bind_one (addr : A) : M TcpServer bool :=
  i ← make_sock (Socket_new (addr_family addr) SOCK_STREAM 0);
  bound ← on_sock i (Socket.bind logging addr);
  if negb bound then mret false
  else
    ok ← on_sock i (Socket.listen logging SOMAXCONN);
    if negb ok then mret false
    else _ ← modify (λ σ, with_listen (listen_socks_ σ ++ [i]) σ); mret true.
(** The loop: the result and the addresses that failed. *)
Fixpoint bind_loop (addrs : list A) (rt : bool) (fails : list A) : M TcpServer (bool * list A) :=
  match addrs with
  | [] => mret (rt, fails)
  | addr :: addrs =>
      ok ← bind_one addr;
      if negb ok then bind_loop addrs false (fails ++ [addr]) else bind_loop addrs rt fails
  end.
Definition bind_all (addrs : list A) : M TcpServer (bool * list A) := bind_loop addrs true [].
Definition bind (addr : A) : M TcpServer bool := r ← bind_all [addr]; mret r.1.

(** ** [start] and [stop] *)

(** The loop of [start], before [is_stop_] is cleared. *)
Definition start_fibers (σ : TcpServer) : TcpServer := foldl (flip add_accept_fiber) σ (listen_socks_ σ).
Definition start : M TcpServer bool := λ σ,
  if negb (is_stop_ σ) then (Ret true, σ) else (Ret true, with_stop false (start_fibers σ)).

Fixpoint stop_loop (l : list nat) : M TcpServer unit :=
  match l with
  | [] => mret tt
  | i :: l =>
      fd ← on_sock i (gets (sockfd_ ∘ fst));
      _ ← modify (cancel_fd fd);
      _ ← on_sock i Socket.close;
      stop_loop l
  end.
Definition stop : M TcpServer bool :=
  stopped ← gets is_stop_;
  if stopped : bool then mret true
  else
    l ← gets listen_socks_;
    _ ← stop_loop l;
    _ ← modify (λ σ, with_stop true (with_listen [] σ));
    mret true.

(** ** The fibers *)

(** One turn of [on_accepted]; [false] when its loop ends. *)
Definition accept_turn (i : nat) : M TcpServer bool :=
  stopped ← gets is_stop_;
  if stopped : bool then mret false
  else
    client ← on_sock i Socket.accept;
    match client with
    | None => mret true
    | Some c =>
        j ← make_sock c;
        _ ← (if logging then
               remote ← on_sock j get_remote_address;
               local ← on_sock j get_local_address;
               match remote, local with Some _, Some _ => mret tt | _, _ => crash NullDeref end
             else mret tt);
        timeout ← gets recv_timeout_;
        _ ← on_sock j (set_option SOL_SOCKET SO_RCVTIMEO timeout);
        _ ← modify (add_client_fiber j);
        mret true
    end.
(** [on_accepted] for as many turns as there are. *)
Fixpoint on_accepted (turns : nat) (i : nat) : M TcpServer unit :=
  match turns with
  | O => mret tt
  | S turns => more ← accept_turn i; if more : bool then on_accepted turns i else mret tt
  end.

(** [handle_client], when [recv] fills [data] into the zeroed buffer; printing reads
    up to a zero. *)
Definition handle_client (i : nat) (data : list Z) : M TcpServer (list Z) :=
  let buf := take 1024 (data ++ replicate 1024 0) in
  if bool_decide (0 ∈ buf) then _ ← on_sock i Socket.close; mret (c_str buf) else crash BadAccess.

End server.
Arguments TcpServer K A : clear implicits.

Section facts.
Context {K A : Type} {N : Net K A} {L : NetLaws K A} (logging : bool).

(** ** Binding *)

Lemma harmless_options : harmless (K := K) (A := A) (
  hooked ← gets (λ '(s, k), has_fdctx (sockfd_ s) k);
  _ ← (if hooked : bool then
         _ ← set_option SOL_SOCKET SO_REUSEADDR 1;
         stream ← gets (λ '(s, _), type_ s =? SOCK_STREAM);
         if stream : bool then set_option IPPROTO_TCP TCP_NODELAY 1 else mret true
       else mret true);
  mret true).
Proof.
  apply harmless_bind; [apply harmless_gets|]. intros hooked. apply harmless_bind; [|intros; apply harmless_ret].
  destruct hooked; [|apply harmless_ret]. apply harmless_bind; [apply harmless_set_option|]. intros _.
  apply harmless_bind; [apply harmless_gets|]. intros []; [apply harmless_set_option|apply harmless_ret].
Qed.

(** A socket without a descriptor gets one, or stays without. *)
Lemma init_fresh (s : Socket A) (k : K) :
  is_connected_ s = false ->
  exists b s' k', init (-1) (s, k) = (Ret b, (s', k')) /\ open_fds k ⊆ open_fds k' /\
    is_connected_ s' = false /\ family_ s' = family_ s /\ (is_valid s' = true -> sockfd_ s' ∈ open_fds k').
Proof.
  intros Hc. unfold init. change (-1 =? -1) with true. cbv iota.
  destruct (sys_socket (family_ s) (type_ s) (protocol_ s) k) as [fd k1] eqn:Es.
  erewrite bind_Ret by (cbv beta iota; rewrite Es; reflexivity). cbv beta. erewrite bind_Ret by done. cbv beta.
  unfold compose. cbn [fst]. destruct (is_valid (with_fd fd false s)) eqn:Hv; cbn [negb].
  - assert (fd <> -1) as Hfd. { intros ->. done. }
    destruct (socket_opens _ _ _ _ _ _ Es Hfd) as [_ Ho].
    destruct (harmless_options (with_fd fd false s) k1) as (r & s2 & k2 & E2 & O2 & C2 & F2 & V2).
    exists r, s2, k2. split; [exact E2|]. split; [set_solver|]. split; [by rewrite C2|]. split; [by rewrite F2|].
    intros _. rewrite V2 by done. apply O2. rewrite Ho. cbn. set_solver.
  - assert (fd = -1) as ->. { apply negb_false_iff, Z.eqb_eq in Hv. exact Hv. }
    exists false, (with_fd (-1) false s), k1. split_and!; try done. by rewrite (socket_fails _ _ _ _ _ Es).
Qed.

Lemma bind_fresh (a : A) fam (k : K) :
  exists b s' k', Socket.bind logging a (Socket_new fam SOCK_STREAM 0, k) = (Ret b, (s', k')) /\
    open_fds k ⊆ open_fds k' /\ is_connected_ s' = false /\ family_ s' = fam /\
    (b = true -> idle_open (sockfd_ s') (s', k')).
Proof.
  unfold Socket.bind. destruct (init_fresh (Socket_new fam SOCK_STREAM 0) k eq_refl) as (b1 & s1 & k1 & E1 & O1 & C1 & F1 & V1).
  assert (ensure_valid (Socket_new fam SOCK_STREAM 0, k) = (Ret tt, (s1, k1))) as Ee.
  { change ((_ ← init (-1); mret tt) (Socket_new fam SOCK_STREAM 0, k) = (Ret tt, (s1, k1))).
    by erewrite bind_Ret by exact E1. }
  erewrite bind_Ret by exact Ee. cbv beta.
  destruct (harmless_bind_tail logging a s1 k1) as (b & s' & k' & Et & O & C & F & V).
  exists b, s', k'. split; [exact Et|]. split; [by etrans|]. split; [by rewrite C|]. split; [by rewrite F, F1|].
  intros ->. assert (is_valid s1 = true) as Hv.
  { destruct (is_valid s1) eqn:Hv; [done|]. erewrite bind_Ret in Et by done. cbn in Et. rewrite Hv in Et. cbn in Et.
    destruct (harmless_log logging s1 k1) as (r & s2 & k2 & E2 & _). erewrite bind_Ret in Et by exact E2. done. }
  pose proof (V Hv) as Ev. split; [done|]. split; [unfold is_valid; cbn; by rewrite Ev|]. split; [cbn; by rewrite C|].
  cbn. rewrite Ev. apply O, V1, Hv.
Qed.

(** The sockets at the listed places are valid, unconnected and on open descriptors. *)
Definition listed_open (σ : TcpServer K A) : Prop :=
  Forall (λ i, exists s, socks σ !! i = Some s /\ idle_open (sockfd_ s) (s, net σ)) (listen_socks_ σ).

Lemma listening_grows (σ σ' : TcpServer K A) l :
  (forall i s, socks σ !! i = Some s -> socks σ' !! i = Some s) -> open_fds (net σ) ⊆ open_fds (net σ') ->
  Forall (λ i, exists s, socks σ !! i = Some s /\ idle_open (sockfd_ s) (s, net σ)) l ->
  Forall (λ i, exists s, socks σ' !! i = Some s /\ idle_open (sockfd_ s) (s, net σ')) l.
Proof.
  intros Hs Ho H. eapply Forall_impl; [exact H|]. intros i (s & E & (H1 & H2 & H3 & H4)). exists s. split; [by apply Hs|].
  split_and!; try done. cbn in *. set_solver.
Qed.

(** A call on the socket made last. *)
Lemma on_new_sock {R} (m : M (State K A) R) (σ : TcpServer K A) s0 k0 r s' k' :
  m (s0, k0) = (Ret r, (s', k')) ->
  on_sock (length (socks σ)) m (with_socks (socks σ ++ [s0]) k0 σ) = (Ret r, with_socks (socks σ ++ [s']) k' σ).
Proof.
  intros E. unfold on_sock. cbn [with_socks socks net]. rewrite list_lookup_middle by done. rewrite E.
  replace (<[length (socks σ) := s']> (socks σ ++ [s0])) with (socks σ ++ [s']); [done|].
  rewrite insert_app_r_alt by done. by rewrite Nat.sub_diag.
Qed.

Lemma bind_one_spec (a : A) (σ : TcpServer K A) :
  listed_open σ -> exists ok σ', bind_one logging a σ = (Ret ok, σ') /\ listed_open σ' /\
    open_fds (net σ) ⊆ open_fds (net σ') /\
    if ok : bool then exists s, listen_socks_ σ' = listen_socks_ σ ++ [length (socks σ)] /\
                    socks σ' = socks σ ++ [s] /\ family_ s = addr_family a
    else listen_socks_ σ' = listen_socks_ σ /\ exists s, socks σ' = socks σ ++ [s].
Proof.
  intros Hok. unfold bind_one. erewrite bind_Ret by done. cbv beta.
  destruct (bind_fresh a (addr_family a) (net σ)) as (b & s1 & k1 & E1 & O1 & C1 & F1 & I1).
  set (σ1 := with_socks (socks σ ++ [s1]) k1 σ).
  erewrite bind_Ret by (apply on_new_sock; exact E1). cbv beta. fold σ1.
  assert (forall i s, socks σ !! i = Some s -> forall s' k', socks (with_socks (socks σ ++ [s']) k' σ) !! i = Some s) as Hpre.
  { intros i s E s' k'. cbn. by apply lookup_app_l_Some. }
  destruct b; cbn [negb].
  - specialize (I1 eq_refl). destruct (harmless_listen logging SOMAXCONN s1 k1) as (b & s2 & k2 & E2 & O2 & C2 & F2 & V2).
    pose proof (harmless_idle (listen logging SOMAXCONN) (sockfd_ s1) (s1, k1) (harmless_listen logging SOMAXCONN) I1) as I2.
    rewrite E2 in I2. cbn [snd] in I2.
    set (σ2 := with_socks (socks σ ++ [s2]) k2 σ). erewrite bind_Ret by (apply on_new_sock; exact E2). cbv beta. fold σ2.
    assert (Forall (λ i, exists s, socks σ2 !! i = Some s /\ idle_open (sockfd_ s) (s, net σ2)) (listen_socks_ σ)) as Hold.
    { eapply (listening_grows σ); [intros i s E; by apply Hpre|cbn; set_solver|exact Hok]. }
    destruct b; cbn [negb].
    + eexists true, _. split; [reflexivity|]. split; [|split; [cbn; set_solver|]].
      * unfold listed_open. cbn. apply Forall_app. split; [exact Hold|]. constructor; [|constructor].
        exists s2. rewrite list_lookup_middle by done. split; [done|]. destruct I2 as (Ef & ? & ? & ?). cbn in *.
        split_and!; try done. by rewrite Ef.
      * exists s2. cbn. split_and!; [done|done|]. by rewrite F2, F1.
    + exists false, σ2. split; [reflexivity|]. split; [exact Hold|]. split; [cbn; set_solver|]. split; [done|by exists s2].
  - exists false, σ1. split; [reflexivity|]. split; [|split; [done|split; [done|by exists s1]]].
    eapply (listening_grows σ); [intros i s E; by apply Hpre|done|exact Hok].
Qed.

(** ** What the system was asked, and what it answered *)

(** An option of descriptor [fd] is set. *)
Definition sets_option (fd : Z) (k k' : K) : Prop := exists l o v, k' = (sys_setsockopt fd l o v k).2.

(** From kernel state [k] to [k'] one address is tried with socket(2), setsockopt(2), bind(2) and
    listen(2), on descriptor [fd]; [true] when all but setsockopt(2) succeed, and none is called behind one
    that fails. *)
Inductive tried (a : A) (k : K) : Z -> bool -> K -> Prop :=
| no_socket k' : sys_socket (addr_family a) SOCK_STREAM 0 k = (-1, k') -> tried a k (-1) false k'
| not_bound fd k1 k2 rt k' :
    sys_socket (addr_family a) SOCK_STREAM 0 k = (fd, k1) -> fd <> -1 -> rtc (sets_option fd) k1 k2 ->
    sys_bind fd a k2 = (rt, k') -> rt <> 0 -> tried a k fd false k'
| bound fd k1 k2 k3 rt k' :
    sys_socket (addr_family a) SOCK_STREAM 0 k = (fd, k1) -> fd <> -1 -> rtc (sets_option fd) k1 k2 ->
    sys_bind fd a k2 = (0, k3) -> sys_listen fd SOMAXCONN k3 = (rt, k') -> tried a k fd (bool_decide (rt = 0)) k'.
(** The addresses in turn, each with its descriptor and its result. *)
Inductive all_tried (k : K) : list (A * Z * bool) -> K -> Prop :=
| tried_nil : all_tried k [] k
| tried_cons a fd ok k1 rs k' : tried a k fd ok k1 -> all_tried k1 rs k' -> all_tried k ((a, fd, ok) :: rs) k'.

Lemma log_keeps (s : Socket A) (k : K) :
  exists s', log_socket logging (s, k) = (Ret tt, (s', k)) /\ sockfd_ s' = sockfd_ s /\ family_ s' = family_ s.
Proof.
  unfold log_socket, to_string_effect, get_local_address, get_remote_address. destruct logging; [|by exists s].
  assert (exists r s1, get_local_address (s, k) = (Ret r, (s1, k)) /\ sockfd_ s1 = sockfd_ s /\ family_ s1 = family_ s) as (r & s1 & E1 & Ef & Ea).
  { unfold get_local_address. destruct (_ =? -1); [|destruct (local_address_ s)]; by eexists _, _. }
  assert (exists r s2, get_remote_address (s1, k) = (Ret r, (s2, k)) /\ sockfd_ s2 = sockfd_ s1 /\ family_ s2 = family_ s1) as (r2 & s2 & E2 & Ef2 & Ea2).
  { unfold get_remote_address. destruct (_ || _); [|destruct (remote_address_ s1)]; by eexists _, _. }
  exists s2. erewrite bind_Ret by exact E1. cbv beta. erewrite bind_Ret by exact E2. cbv beta. split_and!; [done|congruence..].
Qed.

Lemma set_option_sets l o v (s : Socket A) (k : K) :
  exists r k', set_option l o v (s, k) = (Ret r, (s, k')) /\ sets_option (sockfd_ s) k k'.
Proof.
  unfold set_option, sys. destruct (sys_setsockopt (sockfd_ s) l o v k) as [rt k'] eqn:E.
  eexists _, k'. split; [erewrite bind_Ret by (cbv beta iota; rewrite E; reflexivity); done|]. exists l, o, v. by rewrite E.
Qed.

(** The first part: a descriptor and its options. *)
Lemma ensure_valid_fresh (s : Socket A) (k : K) :
  sockfd_ s = -1 -> is_connected_ s = false ->
  exists fd k1 k2, sys_socket (family_ s) (type_ s) (protocol_ s) k = (fd, k1) /\
    ensure_valid (s, k) = (Ret tt, (with_fd fd false s, k2)) /\
    (fd = -1 -> k2 = k1) /\ rtc (sets_option fd) k1 k2.
Proof.
  intros Hfd Hc. destruct (sys_socket (family_ s) (type_ s) (protocol_ s) k) as [fd k1] eqn:Es. exists fd, k1.
  unfold ensure_valid. erewrite bind_Ret by done. cbv beta. unfold compose, is_valid. cbn [fst]. rewrite Hfd. change (-1 =? -1) with true. cbn [negb].
  unfold init. change (-1 =? -1) with true. cbv iota.
  assert (exists k2 b, (_ ← (λ '(s, k), let '(fd, k) := sys_socket (family_ s) (type_ s) (protocol_ s) k in (Ret tt, (with_fd fd false s, k)));
    valid ← gets (is_valid ∘ fst);
    if negb valid then mret false
    else
      hooked ← gets (λ '(s, k), has_fdctx (sockfd_ s) k);
      _ ← (if hooked : bool then
             _ ← set_option SOL_SOCKET SO_REUSEADDR 1;
             stream ← gets (λ '(s, _), type_ s =? SOCK_STREAM);
             if stream : bool then set_option IPPROTO_TCP TCP_NODELAY 1 else mret true
           else mret true);
      mret true) (s, k) = (Ret b, (with_fd fd false s, k2)) /\ (fd = -1 -> k2 = k1) /\ rtc (sets_option fd) k1 k2) as (k2 & b & E & Hk & Hr).
  { erewrite bind_Ret by (cbv beta iota; rewrite Es; reflexivity). cbv beta. erewrite bind_Ret by done. cbv beta. unfold compose, is_valid.
    cbn [fst sockfd_ with_fd]. destruct (Z.eqb_spec fd (-1)) as [->|Hne]; cbn [negb]; [by eexists k1, _|].
    erewrite bind_Ret by done. cbv beta. destruct (has_fdctx _ _); [|by eexists k1, _].
    destruct (set_option_sets SOL_SOCKET SO_REUSEADDR 1 (with_fd fd false s) k1) as (r1 & k2 & E1 & H1).
    destruct (type_ s =? SOCK_STREAM) eqn:Ety.
    - destruct (set_option_sets IPPROTO_TCP TCP_NODELAY 1 (with_fd fd false s) k2) as (r2 & k3 & E2 & H2).
      exists k3, true. split_and!; [|done|by eapply rtc_l; [exact H1|apply rtc_once]].
      erewrite bind_Ret; [reflexivity|]. cbv beta iota. erewrite bind_Ret by exact E1. cbv beta. erewrite bind_Ret by done. cbv beta iota.
      cbn [type_ with_fd]. rewrite Ety. exact E2.
    - exists k2, true. split_and!; [|done|by apply rtc_once].
      erewrite bind_Ret; [reflexivity|]. cbv beta iota. erewrite bind_Ret by exact E1. cbv beta. erewrite bind_Ret by done. cbv beta iota.
      cbn [type_ with_fd]. rewrite Ety. reflexivity. }
  exists k2. split; [done|]. split; [|done]. by erewrite bind_Ret by exact E.
Qed.

Lemma bind_one_tried (a : A) (σ : TcpServer K A) :
  exists fd ok σ' s, bind_one logging a σ = (Ret ok, σ') /\ tried a (net σ) fd ok (net σ') /\
    socks σ' = socks σ ++ [s] /\ sockfd_ s = fd.
Proof.
  destruct (ensure_valid_fresh (Socket_new (addr_family a) SOCK_STREAM 0) (net σ) eq_refl eq_refl) as (fd & k1 & k2 & Es & Ee & Hk & Hr).
  cbn [family_ type_ protocol_ Socket_new] in Es.
  set (s1 := with_fd fd false (Socket_new (addr_family a) SOCK_STREAM 0)) in *.
  unfold bind_one. erewrite bind_Ret by done. cbv beta.
  destruct (Z.eqb_spec fd (-1)) as [->|Hfd].
  { destruct (log_keeps s1 k2) as (s2 & E2 & Ef & _).
    assert (Socket.bind logging a (Socket_new (addr_family a) SOCK_STREAM 0, net σ) = (Ret false, (s2, k2))) as Eb.
    { unfold Socket.bind. erewrite bind_Ret by exact Ee. cbv beta. erewrite bind_Ret by done. cbv beta iota.
      change (is_valid s1) with false. cbn [negb andb]. by erewrite bind_Ret by exact E2. }
    erewrite bind_Ret by (apply on_new_sock; exact Eb). cbv beta. cbn [negb].
    eexists (-1), false, _, s2. split; [reflexivity|]. cbn. split_and!; [|done|by rewrite Ef]. rewrite Hk by done. by apply no_socket. }
  assert (is_valid s1 = true) as Hv by (unfold is_valid; cbn; by rewrite (proj2 (Z.eqb_neq _ _) Hfd)).
  destruct (sys_bind fd a k2) as [rt k3] eqn:Ebd.
  assert (forall m : Z -> M (State K A) bool,
    (ok ← gets (λ '(s, _), is_valid s && (addr_family a =? family_ s));
     if negb ok then _ ← log_socket logging; mret false
     else rt ← sys (λ fd, sys_bind fd a); m rt) (s1, k2) = m rt (s1, k3)) as Hbind.
  { intros m. erewrite bind_Ret by done. cbv beta iota. rewrite Hv. cbn [s1 with_fd family_ Socket_new]. rewrite Z.eqb_refl. cbn [negb andb].
    by erewrite bind_Ret by (unfold sys; cbn [s1 with_fd sockfd_]; rewrite Ebd; reflexivity). }
  destruct (Z.eqb_spec rt 0) as [->|Hrt].
  - assert (Socket.bind logging a (Socket_new (addr_family a) SOCK_STREAM 0, net σ) = (Ret true, (s1, k3))) as Eb.
    { unfold Socket.bind. erewrite bind_Ret by exact Ee. cbv beta. by rewrite Hbind. }
    erewrite bind_Ret by (apply on_new_sock; exact Eb). cbv beta. cbn [negb].
    destruct (sys_listen fd SOMAXCONN k3) as [rt k4] eqn:El.
    assert (exists s2, Socket.listen logging SOMAXCONN (s1, k3) = (Ret (bool_decide (rt = 0)), (s2, k4)) /\ sockfd_ s2 = fd) as (s2 & E2 & Ef2).
    { unfold Socket.listen. erewrite bind_Ret by done. cbv beta. unfold compose. cbn [fst]. rewrite Hv. cbn [negb].
      erewrite bind_Ret by (unfold sys; cbn [s1 with_fd sockfd_]; rewrite El; reflexivity). cbv beta.
      destruct (Z.eqb_spec rt 0) as [->|Hrt]; cbn [negb]; [by exists s1|].
      destruct (log_keeps s1 k4) as (s2 & E2 & Ef & _). exists s2. rewrite bool_decide_false by done. by erewrite bind_Ret by exact E2. }
    erewrite bind_Ret by (apply on_new_sock; exact E2). cbv beta.
    pose proof (bound a (net σ) fd k1 k2 k3 rt k4 Es Hfd Hr Ebd El) as Ht.
    destruct (bool_decide (rt = 0)); cbn [negb]; eexists fd, _, _, s2; (split; [reflexivity|]; by split_and!).
  - destruct (log_keeps s1 k3) as (s2 & E2 & Ef & _).
    assert (Socket.bind logging a (Socket_new (addr_family a) SOCK_STREAM 0, net σ) = (Ret false, (s2, k3))) as Eb.
    { unfold Socket.bind. erewrite bind_Ret by exact Ee. cbv beta. rewrite Hbind, (proj2 (Z.eqb_neq _ _) Hrt). cbn [negb].
      by erewrite bind_Ret by exact E2. }
    erewrite bind_Ret by (apply on_new_sock; exact Eb). cbv beta. cbn [negb].
    eexists fd, false, _, s2. split; [reflexivity|]. split_and!; [|done|by rewrite Ef]. by eapply not_bound.
Qed.

(** Of the results: the addresses that failed, and the descriptors that listen. *)
Definition failed (rs : list (A * Z * bool)) : list A := (filter (λ r : A * Z * bool, r.2 = false) rs).*1.*1.
Definition bound_at (rs : list (A * Z * bool)) : list (A * Z) := (filter (λ r : A * Z * bool, r.2 = true) rs).*1.

Lemma bind_loop_spec addrs : forall rt fs (σ : TcpServer K A), listed_open σ ->
  exists rs new σ', bind_loop logging addrs rt fs σ = (Ret (rt && bool_decide (failed rs = []), fs ++ failed rs), σ') /\
    all_tried (net σ) rs (net σ') /\ rs.*1.*1 = addrs /\
    listen_socks_ σ' = listen_socks_ σ ++ new /\ (forall i s, socks σ !! i = Some s -> socks σ' !! i = Some s) /\
    Forall2 (λ '(a, fd) i, exists s, socks σ' !! i = Some s /\ sockfd_ s = fd /\ family_ s = addr_family a) (bound_at rs) new /\
    listed_open σ'.
Proof.
  induction addrs as [|a addrs IH]; intros rt fs σ Hok.
  { exists [], [], σ. cbn. rewrite andb_true_r, !app_nil_r. split_and!; try done; constructor. }
  cbn [bind_loop]. destruct (bind_one_spec a σ Hok) as (ok & σ1 & E1 & Hok1 & _ & H1).
  destruct (bind_one_tried a σ) as (fd & ok' & σ1' & s & E1' & Ht & S1 & Ef). rewrite E1 in E1'. injection E1' as <- <-.
  erewrite bind_Ret by exact E1. cbv beta. destruct ok; cbn [negb].
  - destruct H1 as (s' & L1 & S1' & F1). rewrite S1 in S1'. apply app_inv_head in S1'. injection S1' as <-.
    destruct (IH rt fs σ1 Hok1) as (rs & new & σ' & E & Hat & Hp & Hl & Hs & H2 & Hok').
    exists ((a, fd, true) :: rs), (length (socks σ) :: new), σ'. split_and!; try done.
    + by econstructor.
    + cbn. by rewrite Hp.
    + by rewrite Hl, L1, <- app_assoc.
    + intros i s0 Ei. apply Hs. rewrite S1. by apply lookup_app_l_Some.
    + constructor; [|done]. exists s. split; [|done]. apply Hs. rewrite S1. by apply list_lookup_middle.
  - destruct H1 as (L1 & s' & _). destruct (IH false (fs ++ [a]) σ1 Hok1) as (rs & new & σ' & E & Hat & Hp & Hl & Hs & H2 & Hok').
    exists ((a, fd, false) :: rs), new, σ'. split_and!; try done.
    + rewrite E, <- app_assoc. cbn. by rewrite andb_false_r.
    + by econstructor.
    + cbn. by rewrite Hp.
    + by rewrite Hl, L1.
    + intros i s0 Ei. apply Hs. rewrite S1. by apply lookup_app_l_Some.
Qed.

(** (C38) [bind] tries every address in turn, with socket(2), bind(2) and listen(2) on one new
    descriptor, and reports exactly: the addresses for which one of the three failed are
    returned, in their order, and the result is true when there is none; for each of the others, for which all three
    succeeded, one more socket is in the list, with that descriptor and the address's family, unconnected and open,
    behind the sockets that were in the list before, which stay open. *)
Theorem bind_exact addrs (σ : TcpServer K A) :
  listed_open σ ->
  exists rs new σ', bind_all logging addrs σ = (Ret (bool_decide (failed rs = []), failed rs), σ') /\
    rs.*1.*1 = addrs /\ all_tried (net σ) rs (net σ') /\
    listen_socks_ σ' = listen_socks_ σ ++ new /\
    Forall2 (λ '(a, fd) i, exists s, socks σ' !! i = Some s /\ sockfd_ s = fd /\ family_ s = addr_family a) (bound_at rs) new /\
    listed_open σ'.
Proof.
  intros Hok. destruct (bind_loop_spec addrs true [] σ Hok) as (rs & new & σ' & E & Hat & Hp & Hl & _ & H2 & Hok').
  by exists rs, new, σ'.
Qed.

(** ** Stopping *)

Lemma on_sock_id {R} i (m : M (State K A) R) (σ : TcpServer K A) s r :
  socks σ !! i = Some s -> m (s, net σ) = (Ret r, (s, net σ)) -> on_sock i m σ = (Ret r, σ).
Proof.
  intros Es Em. unfold on_sock. rewrite Es, Em. rewrite list_insert_id by done. by destruct σ.
Qed.

Lemma stop_loop_spec l : forall (σ : TcpServer K A),
  Forall (λ i, exists s, socks σ !! i = Some s /\ idle_open (sockfd_ s) (s, net σ)) l ->
  exists fds, stop_loop l σ = (Ret tt, foldl (flip cancel_fd) σ fds) /\
    Forall2 (λ i fd, exists s, socks σ !! i = Some s /\ sockfd_ s = fd /\ fd ∈ open_fds (net σ)) l fds.
Proof.
  induction l as [|i l IH]; intros σ Hl; [by exists []|]. apply Forall_cons in Hl as [(s & Es & (_ & _ & Hc & Ho)) Hl].
  cbn [stop_loop]. erewrite bind_Ret by (by apply (on_sock_id i _ σ s)). cbv beta. erewrite bind_Ret by done. cbv beta.
  erewrite bind_Ret by (apply (on_sock_id i _ (cancel_fd (sockfd_ s) σ) s); [done|by apply close_idle]). cbv beta.
  destruct (IH (cancel_fd (sockfd_ s) σ) Hl) as (fds & E & H). exists (sockfd_ s :: fds). split; [exact E|].
  constructor; [by exists s|exact H].
Qed.

Lemma cancel_fds fds (σ : TcpServer K A) :
  let σ' := foldl (flip cancel_fd) σ fds in
  socks σ' = socks σ /\ net σ' = net σ /\ cancelled σ' = cancelled σ ++ fds.
Proof.
  revert σ. induction fds as [|fd fds IH]; intros σ; cbn; [by rewrite app_nil_r|].
  destruct (IH (cancel_fd fd σ)) as (E1 & E2 & E3). cbn in *. rewrite E1, E2, E3. by rewrite <- app_assoc.
Qed.

(** [stop] does not stop the listening: it cancels what waits on the listening
    descriptors, forgets the sockets and sets the flag, but no descriptor is closed;
    and an [accept] that the cancellation wakes while no client is there goes back to
    sleep on the open descriptor, without looking at the flag. *)
Theorem stop_keeps_listening (σ : TcpServer K A) :
  listed_open σ -> is_stop_ σ = false ->
  (exists fds σ', stop σ = (Ret true, σ') /\ is_stop_ σ' = true /\ listen_socks_ σ' = [] /\
     cancelled σ' = cancelled σ ++ fds /\ net σ' = net σ /\
     Forall2 (λ i fd, exists s, socks σ !! i = Some s /\ sockfd_ s = fd /\ fd ∈ open_fds (net σ')) (listen_socks_ σ) fds) /\
  forall (D E : Type) `{!Descriptors D, !Epoll E} on_timeout c ctl_errno fd ctx now now' (h h' : Hook (K := D) (E := E)),
    in_iomanager c = true -> main_fiber c = false ->
    armable fd EPOLLIN (this_fiber c) (iom h) -> armable fd EPOLLIN (this_fiber c) (iom h') ->
    timed_out (info_count h) h' = false ->
    (retry on_timeout c ctl_errno fd EPOLLIN SO_RCVTIMEO ctx [(now', h')] [Err EAGAIN; Err EAGAIN] now h).1 = Asleep.
Proof.
  intros Hok Hst. split.
  - destruct (stop_loop_spec (listen_socks_ σ) σ Hok) as (fds & E & H). destruct (cancel_fds fds σ) as (_ & En & Ec).
    exists fds. unfold stop. erewrite bind_Ret by done. cbv beta. rewrite Hst. cbv iota. erewrite bind_Ret by done. cbv beta.
    erewrite bind_Ret by exact E. cbv beta. erewrite bind_Ret by done. eexists. split; [reflexivity|].
    split_and!; try done. cbn. by rewrite En.
  - intros D E HD HE on_timeout c err fd ctx now now' h h' Hi Hm Ha Ha' Ht.
    destruct (retry_wait on_timeout c err fd EPOLLIN SO_RCVTIMEO ctx (now', h') [] [Err EAGAIN] now h Hi Hm Ha) as (h1 & Hs & ->).
    cbn [snd fst] in *. rewrite Ht. apply retry_sleeps; [done|done|]. by eapply same_waits_armable.
Qed.

(** [start] clears the flag behind the fibers' back: one that runs before the
    assignment ends at once. *)
Theorem start_race (σ : TcpServer K A) i :
  is_stop_ σ = true -> accept_turn logging i (start_fibers σ) = (Ret false, start_fibers σ).
Proof.
  intros Hst. assert (is_stop_ (start_fibers σ) = true) as E.
  { unfold start_fibers. generalize (listen_socks_ σ). intros l. revert σ Hst.
    induction l as [|j l IH]; intros σ Hst; [done|]. cbn. by apply IH. }
  unfold accept_turn. erewrite bind_Ret by done. cbv beta. by rewrite E.
Qed.

End facts.

(** ** Examples *)

Definition a_server : TcpServer Switch Z := TcpServer_new 60000 (mkSwitch ∅ ∅ 7 false).
Definition bound_server : TcpServer Switch Z := (bind_all false [2 * 2 ^ 16 + 80] a_server).2.

Lemma bind_exact_witness :
  exists rs σ', bind_all false [2 * 2 ^ 16 + 80] a_server = (Ret (bool_decide (failed rs = []), failed rs), σ') /\
    rs.*1.*1 = [2 * 2 ^ 16 + 80] /\ all_tried (net a_server) rs (net σ') /\ length (listen_socks_ σ') = length (bound_at rs).
Proof.
  destruct (bind_exact false [2 * 2 ^ 16 + 80] a_server) as (rs & new & σ' & E & Er & Ht & El & H & _).
  - constructor.
  - exists rs, σ'. split; [exact E|]. split; [exact Er|]. split; [exact Ht|]. rewrite El, (Forall2_length _ _ _ H). reflexivity.
Defined.

Lemma stop_keeps_listening_witness :
  exists σ', stop (with_stop false bound_server) = (Ret true, σ') /\ 7 ∈ opens (net σ').
Proof.
  destruct (stop_keeps_listening (with_stop false bound_server)) as [(fds & σ' & E & _ & _ & _ & En & _) _].
  - constructor; [|constructor]. exists (with_fd 7 false (Socket_new 2 1 0)). split; [vm_compute; reflexivity|].
    split; [reflexivity|]. split; [reflexivity|]. split; [reflexivity|]. apply (bool_decide_unpack _). vm_compute. exact I.
  - reflexivity.
  - exists σ'. split; [exact E|]. rewrite En. apply (bool_decide_unpack _). vm_compute. exact I.
Defined.
