(* ===== verification/Thread.v ===== *)
(** * Threads and semaphores: src/sylar/thread.{h,cpp}, src/sylar/mutex.{h,cpp}

    [Thread] objects live in a heap, the system's threads in a table with their
    thread-local variables.  The constructor and [run] work on the same object from
    two threads: they are cut where one can overtake the other, and a run is a list
    of the pieces in the order in which they happen.  A piece that has to wait is
    not enabled.  Semaphores are their counters; the name the system keeps for a
    thread ([pthread_setname_np]) is left out. *)

From S2P Require Import Prelude.

(** ** [Semaphore] *)

Definition SEM_VALUE_MAX := 2 ^ 31 - 1.
Definition sem_init (count : Z) : Z * Z := if SEM_VALUE_MAX <? count then (-1, 0) else (0, count).
Definition sem_post (v : Z) : Z * Z := if v =? SEM_VALUE_MAX then (-1, v) else (0, v + 1).
(** Nothing while it waits; [interrupted] when a signal handler ran meanwhile. *)
Definition sem_wait (interrupted : bool) (v : Z) : option (Z * Z) :=
  if interrupted then Some (-1, v) else if v =? 0 then None else Some (0, v - 1).

Definition Semaphore (count : Z) : outcome Z :=
  let '(rt, v) := sem_init count in if negb (rt =? 0) then Throw LogicError else Ret v.
Definition Post : M Z unit := λ v,
  let '(rt, v) := sem_post v in (if negb (rt =? 0) then Throw LogicError else Ret tt, v).
Definition Wait (interrupted : bool) (v : Z) : option (outcome unit * Z) :=
  match sem_wait interrupted v with
  | None => None
  | Some (rt, v) => Some (if negb (rt =? 0) then Throw LogicError else Ret tt, v)
  end.

(** ** [Thread] *)

Record Thread := mkThread {
  id_ : option Z;             (** not initialised before [run] sets it *)
  name_ : list Z;
  thread_ : Z;                (** the [pthread_t], 0 after [join] *)
  cb_ : option nat;           (** an empty function is [None] *)
  sema_ : Z;
}.
Definition with_id (i : option Z) (o : Thread) : Thread := mkThread i (name_ o) (thread_ o) (cb_ o) (sema_ o).
Definition with_name (n : list Z) (o : Thread) : Thread := mkThread (id_ o) n (thread_ o) (cb_ o) (sema_ o).
Definition with_thread (t : Z) (o : Thread) : Thread := mkThread (id_ o) (name_ o) t (cb_ o) (sema_ o).
Definition with_cb (c : option nat) (o : Thread) : Thread := mkThread (id_ o) (name_ o) (thread_ o) c (sema_ o).
Definition with_sema (v : Z) (o : Thread) : Thread := mkThread (id_ o) (name_ o) (thread_ o) (cb_ o) v.

(** Where a thread of the system is: at the three points of [run], in code of the
    program, in the constructor of the object at [a] before [sema_.Wait()], or done. *)
Inductive PC := RunEnter | RunPost | RunCall | User | InCtor (a : nat) | Finished.

Record Pthread := mkPthread {
  arg : option nat;           (** the argument of [run]; [None] for the main thread *)
  tid : Z;                    (** the kernel's id, [get_thread_id()] *)
  t_thread : option nat;
  t_thread_name : list Z;
  pc : PC;
}.
Definition at_pc (c : PC) (l : Pthread) : Pthread := mkPthread (arg l) (tid l) (t_thread l) (t_thread_name l) c.

Record Process := mkProcess {
  objects : gmap nat Thread;
  pthreads : gmap Z Pthread;
  next_addr : nat;
  built : gset nat;           (** objects whose constructor has returned *)
  called : list (nat * nat);  (** the callbacks called so far, with their objects *)
}.
Definition with_objects (m : gmap nat Thread) (w : Process) : Process :=
  mkProcess m (pthreads w) (next_addr w) (built w) (called w).
Definition with_pthreads (m : gmap Z Pthread) (w : Process) : Process :=
  mkProcess (objects w) m (next_addr w) (built w) (called w).
Definition with_built (b : gset nat) (w : Process) : Process :=
  mkProcess (objects w) (pthreads w) (next_addr w) b (called w).
Definition set_object (a : nat) (o : Thread) (w : Process) : Process := with_objects (<[a := o]> (objects w)) w.
Definition set_pthread (p : Z) (l : Pthread) (w : Process) : Process := with_pthreads (<[p := l]> (pthreads w)) w.

Definition UNKNOWN : list Z := [85; 78; 75; 78; 79; 87; 78].
(** The program starts with its main thread. *)
Definition Process_new (main main_tid : Z) : Process :=
  mkProcess ∅ {[main := mkPthread None main_tid None UNKNOWN User]} 0 ∅ [].

(** An access through a pointer to an object that is gone. *)
Definition the_object (a : nat) : M Process Thread := λ w,
  match objects w !! a with Some o => (Ret o, w) | None => (Fault BadAccess, w) end.
Definition the_pthread (p : Z) : M Process Pthread := λ w,
  match pthreads w !! p with Some l => (Ret l, w) | None => (Fault Abort, w) end.

(** *** The constructor *)

(** Up to [sema_.Wait()], for [pthread_create] returning [rt] and, when that is 0, a
    thread [np] with the kernel's id [nt].  On an error the object is gone. *)
Definition Thread_new (p : Z) (cb : option nat) (name : list Z) (rt np nt : Z) : M Process unit := λ w,
  match Semaphore 0 with
  | Throw e => (Throw e, w)
  | Fault f => (Fault f, w)
  | Ret v =>
      let a := next_addr w in
      if negb (rt =? 0) then (Throw LogicError, w)
      else
        let w := mkProcess (<[a := mkThread None name np cb v]> (objects w))
                   (<[np := mkPthread (Some a) nt None UNKNOWN RunEnter]> (pthreads w)) (S a) (built w) (called w) in
        (l ← the_pthread p; modify (set_pthread p (at_pc (InCtor a) l))) w
  end.

(** [sema_.Wait()] and the end of the constructor.  When the wait throws, the members
    are destroyed and the thread runs on. *)
Definition Thread_wait (p : Z) (a : nat) (interrupted : bool) (w : Process) : option (outcome unit * Process) :=
  match pthreads w !! p, objects w !! a with
  | Some l, Some o =>
      let w' := set_pthread p (at_pc User l) w in
      match Wait interrupted (sema_ o) with
      | None => None
      | Some (Ret _, v) => Some (Ret tt, with_built ({[a]} ∪ built w') (set_object a (with_sema v o) w'))
      | Some (r, v) => Some (r, with_objects (delete a (objects w')) w')
      end
  | _, _ => Some (Fault BadAccess, w)
  end.

(** *** [run] *)

(** Up to the semaphore. *)
Definition run_enter (p : Z) (args : nat) : M Process unit :=
  l ← the_pthread p;
  o ← the_object args;
  _ ← modify (set_object args (with_id (Some (tid l)) o));
  modify (set_pthread p (mkPthread (arg l) (tid l) (Some args) (name_ o) RunPost)).
(** [t_thread->sema_.Post()] *)
Definition run_post (p : Z) (args : nat) : M Process unit :=
  l ← the_pthread p;
  o ← the_object args;
  let '(r, v) := Post (sema_ o) in
  _ ← modify (set_object args (with_sema v o));
  match r with
  | Ret _ => modify (set_pthread p (at_pc RunCall l))
  | _ => crash Abort
  end.
(** The callback is copied, swapped with the original and called; a call of an empty
    function throws, which ends the program. *)
Definition run_call (p : Z) (args : nat) : M Process unit :=
  l ← the_pthread p;
  o ← the_object args;
  let cb := cb_ o in
  let '(cb, o) := (cb_ o, with_cb cb o) in
  _ ← modify (set_object args o);
  match cb with
  | None => crash Abort
  | Some f =>
      modify (λ w, mkProcess (objects w) (<[p := at_pc User l]> (pthreads w)) (next_addr w) (built w)
                     (called w ++ [(args, f)]))
  end.

(** *** The interface *)

(** [~Thread]: [pthread_detach] changes nothing the program sees. *)
Definition Thread_delete (a : nat) : M Process unit :=
  _ ← the_object a;
  modify (λ w, with_built (built w ∖ {[a]}) (with_objects (delete a (objects w)) w)).

(** [pthread_join] waits for the end of the thread, refuses the calling thread and a
    thread that does not exist. *)
Definition join (p : Z) (a : nat) (w : Process) : option (outcome unit * Process) :=
  match objects w !! a with
  | None => Some (Fault BadAccess, w)
  | Some o =>
      if thread_ o =? 0 then Some (Ret tt, w)
      else if thread_ o =? p then Some (Throw LogicError, w)
      else match pthreads w !! thread_ o with
           | None => Some (Throw LogicError, w)
           | Some l => match pc l with
                       | Finished => Some (Ret tt, with_pthreads (delete (thread_ o) (pthreads w))
                                                     (set_object a (with_thread 0 o) w))
                       | _ => None
                       end
           end
  end.

Definition get_this (p : Z) : M Process (option nat) := l ← the_pthread p; mret (t_thread l).
Definition get_name (p : Z) : M Process (list Z) := l ← the_pthread p; mret (t_thread_name l).
Definition get_id (p : Z) : M Process (option Z) :=
  l ← the_pthread p;
  match t_thread l with
  | Some a => o ← the_object a; mret (id_ o)
  | None => mret (Some (tid l))
  end.
Definition set_name (p : Z) (name : list Z) : M Process unit :=
  l ← the_pthread p;
  _ ← match t_thread l with
      | Some a => o ← the_object a; modify (set_object a (with_name name o))
      | None => mret tt
      end;
  modify (set_pthread p (mkPthread (arg l) (tid l) (t_thread l) name (pc l))).

(** ** Runs *)

(** One piece, made by the thread [p] of the system. *)
Inductive action :=
  | ACreate (p : Z) (cb : option nat) (name : list Z) (rt np nt : Z)
  | AWait (p : Z) (interrupted : bool)
  | ARun (p : Z)
  | AReturn (p : Z)
  | ADelete (p : Z) (a : nat)
  | AJoin (p : Z) (a : nat)
  | ASetName (p : Z) (name : list Z).

(** [None] when [p] is not at the piece or has to wait.  The system gives a new thread
    a name that is not in use. *)
Definition step (x : action) (w : Process) : option (outcome unit * Process) :=
  match x with
  | ACreate p cb name rt np nt =>
      l ← pthreads w !! p;
      match pc l, pthreads w !! np with
      | User, None => if np =? 0 then None else Some (Thread_new p cb name rt np nt w)
      | _, _ => None
      end
  | AWait p interrupted =>
      l ← pthreads w !! p;
      match pc l with InCtor a => Thread_wait p a interrupted w | _ => None end
  | ARun p =>
      l ← pthreads w !! p;
      match arg l, pc l with
      | Some a, RunEnter => Some (run_enter p a w)
      | Some a, RunPost => Some (run_post p a w)
      | Some a, RunCall => Some (run_call p a w)
      | _, _ => None
      end
  | AReturn p =>
      l ← pthreads w !! p;
      match arg l, pc l with
      | Some _, User => Some (Ret tt, set_pthread p (at_pc Finished l) w)
      | _, _ => None
      end
  | ADelete p a =>
      l ← pthreads w !! p;
      match pc l with User => if bool_decide (a ∈ built w) then Some (Thread_delete a w) else None | _ => None end
  | AJoin p a =>
      l ← pthreads w !! p;
      match pc l with User => if bool_decide (a ∈ built w) then join p a w else None | _ => None end
  | ASetName p name =>
      l ← pthreads w !! p;
      match pc l with User => Some (set_name p name w) | _ => None end
  end.

(** Callers that create threads with a function to call and delete only objects they
    have joined; waits are not interrupted. *)
Definition careful (x : action) (w : Process) : bool :=
  match x with
  | ACreate _ cb _ _ _ _ => bool_decide (is_Some cb)
  | AWait _ interrupted => negb interrupted
  | ADelete _ a => match objects w !! a with Some o => thread_ o =? 0 | None => true end
  | _ => true
  end.

Inductive reachable (main main_tid : Z) : Process -> Prop :=
  | reach_new : reachable main main_tid (Process_new main main_tid)
  | reach_step x w r w' : reachable main main_tid w -> careful x w = true -> step x w = Some (r, w') ->
      reachable main main_tid w'.

(** ** The invariant *)

Definition never_called (a : nat) (w : Process) : Prop := forall f, (a, f) ∉ called w.
Definition was_called (a : nat) (o : Thread) (w : Process) : Prop := exists f, cb_ o = Some f /\ (a, f) ∈ called w.

(** How far [run] has come with its object. *)
Definition run_ok (w : Process) (a : nat) (o : Thread) (l : Pthread) : Prop :=
  match pc l with
  | RunEnter => t_thread l = None /\ id_ o = None /\ sema_ o = 0 /\ never_called a w
  | RunPost => t_thread l = Some a /\ id_ o = Some (tid l) /\ sema_ o = 0 /\ never_called a w
  | RunCall => t_thread l = Some a /\ id_ o = Some (tid l) /\ (sema_ o = 1 \/ a ∈ built w) /\ never_called a w
  | User | InCtor _ | Finished =>
      t_thread l = Some a /\ id_ o = Some (tid l) /\ (sema_ o = 1 \/ a ∈ built w) /\ was_called a o w
  end.
Definition thread_ok (w : Process) (p : Z) (l : Pthread) : Prop :=
  match arg l with
  | None => t_thread l = None
  | Some a => exists o, objects w !! a = Some o /\ thread_ o = p /\ p <> 0 /\ run_ok w a o l
  end.
Definition object_ok (w : Process) (a : nat) (o : Thread) : Prop :=
  (a < next_addr w)%nat /\ 0 <= sema_ o <= 1 /\ is_Some (cb_ o) /\
  (thread_ o = 0 -> a ∈ built w /\ is_Some (id_ o) /\ was_called a o w) /\
  (thread_ o <> 0 -> exists l, pthreads w !! thread_ o = Some l /\ arg l = Some a).
Definition in_ctor (w : Process) (p : Z) (a : nat) : Prop := exists l, pthreads w !! p = Some l /\ pc l = InCtor a.

Record inv (w : Process) : Prop := {
  i_thread : forall p l, pthreads w !! p = Some l -> thread_ok w p l;
  i_object : forall a o, objects w !! a = Some o -> object_ok w a o;
  i_ctor : forall p a, in_ctor w p a -> is_Some (objects w !! a) /\ a ∉ built w;
  i_ctor_one : forall p q a, in_ctor w p a -> in_ctor w q a -> p = q;
  i_built : forall a, a ∈ built w -> exists o, objects w !! a = Some o /\ is_Some (id_ o);
  i_called : NoDup (called w).*1;
  i_called_lt : forall a f, (a, f) ∈ called w -> (a < next_addr w)%nat;
}.

Lemma inv_new main main_tid : inv (Process_new main main_tid).
Proof.
  split; cbn; try set_solver.
  - intros p l H. cbn in H; apply lookup_singleton_Some in H as [_ <-]. done.
  - intros p a (l & H & Hpc). cbn in H; apply lookup_singleton_Some in H as [_ <-]. done.
  - intros p q a (l & H & Hpc). cbn in H; apply lookup_singleton_Some in H as [_ <-]. done.
  - constructor.
Qed.

(** Two threads run different objects. *)
Lemma other_object w p q l l' a b :
  inv w -> pthreads w !! p = Some l -> arg l = Some a -> pthreads w !! q = Some l' -> arg l' = Some b ->
  p <> q -> a <> b.
Proof.
  intros Hi Hp Ha Hq Hb Hne ->. pose proof (i_thread _ Hi _ _ Hp) as H1. pose proof (i_thread _ Hi _ _ Hq) as H2.
  unfold thread_ok in *. rewrite Ha in H1. rewrite Hb in H2. destruct H1 as (o & E1 & T1 & _), H2 as (o' & E2 & T2 & _).
  congruence.
Qed.

(** What a thread knows depends on its own object only. *)
Lemma run_ok_mono w w' a o l :
  (forall f, (a, f) ∈ called w' <-> (a, f) ∈ called w) -> (a ∈ built w -> a ∈ built w') ->
  run_ok w a o l -> run_ok w' a o l.
Proof.
  intros Hc Hb. unfold run_ok, never_called, was_called. destruct (pc l); setoid_rewrite Hc; tauto.
Qed.

Lemma thread_ok_mono w w' p l :
  (forall a, arg l = Some a -> objects w' !! a = objects w !! a /\ (a ∈ built w -> a ∈ built w') /\
     forall f, (a, f) ∈ called w' <-> (a, f) ∈ called w) ->
  thread_ok w p l -> thread_ok w' p l.
Proof.
  intros H. unfold thread_ok. destruct (arg l) as [a|] eqn:Ea; [|done]. destruct (H a eq_refl) as (Eo & Hb & Hc).
  intros (o & E & T & N & R). exists o. rewrite Eo. split_and!; [done..|]. by eapply run_ok_mono.
Qed.

(** A thread changes its own state and its own object, and calls at most its own
    callback. *)
Lemma inv_local w p l l' a o o' cs :
  inv w -> pthreads w !! p = Some l -> arg l = Some a -> objects w !! a = Some o ->
  let w' := mkProcess (<[a := o']> (objects w)) (<[p := l']> (pthreads w)) (next_addr w) (built w) (called w ++ cs) in
  arg l' = Some a -> thread_ o' = thread_ o -> cb_ o' = cb_ o -> 0 <= sema_ o' <= 1 ->
  (is_Some (id_ o) -> is_Some (id_ o')) -> (forall b, pc l' = InCtor b -> pc l = InCtor b) ->
  run_ok w' a o' l' -> (cs = [] \/ exists f, cs = [(a, f)] /\ never_called a w) -> inv w'.
Proof.
  intros Hi Hp Ha Ho w' Ha' Ht Hcb Hs Hid Hpc Hrun Hcs.
  pose proof (i_thread _ Hi _ _ Hp) as Hth. unfold thread_ok in Hth. rewrite Ha in Hth.
  destruct Hth as (o0 & E0 & T0 & N0 & _). rewrite Ho in E0. injection E0 as <-.
  assert (forall b f, b <> a -> (b, f) ∈ called w' <-> (b, f) ∈ called w) as Hcall.
  { intros b f Hb. cbn. rewrite elem_of_app. destruct Hcs as [-> |(g & -> & _)]; set_solver. }
  assert (forall q b, in_ctor w' q b -> in_ctor w q b) as Hctor.
  { intros q b (k & E & Ek). cbn in E. apply lookup_insert_Some in E as [[<- <-]|[Hne E]].
    - exists l. split; [done|by apply Hpc].
    - by exists k. }
  split.
  - intros q k E. cbn in E. apply lookup_insert_Some in E as [[<- <-]|[Hne E]].
    + unfold thread_ok. rewrite Ha'. exists o'. cbn. rewrite lookup_insert_eq. split_and!; [done|congruence|done|done].
    + eapply thread_ok_mono; [|by apply (i_thread _ Hi)]. intros b Hb.
      assert (a <> b) by (by eapply (other_object w p q)). cbn. rewrite lookup_insert_ne by done. split_and!; [done..|].
      intros f. by apply Hcall.
  - intros b ob E. cbn in E. apply lookup_insert_Some in E as [[<- <-]|[Hne E]].
    + destruct (i_object _ Hi _ _ Ho) as (L & _ & C & Z & P). split_and!; [done|lia|lia|congruence| |].
      * intros. congruence.
      * intros _. exists l'. cbn. rewrite Ht, T0, lookup_insert_eq. done.
    + destruct (i_object _ Hi _ _ E) as (L & B & C & Z & P). split_and!; [done|lia|lia|done| |].
      * intros H0. destruct (Z H0) as (Bl & I & f & Ef & Cf). split_and!; [done..|]. exists f. split; [done|]. by apply Hcall.
      * intros H0. destruct (P H0) as (k & Ek & Ak). exists k. cbn. split; [|done].
        rewrite lookup_insert_ne; [done|]. intros ->. congruence.
  - intros q b H. destruct (i_ctor _ Hi _ _ (Hctor _ _ H)) as [H1 H2]. split; [|done]. cbn.
    destruct (decide (a = b)) as [<-|]; [rewrite lookup_insert_eq; done|by rewrite lookup_insert_ne].
  - intros q q' b H1 H2. eapply (i_ctor_one _ Hi); by apply Hctor.
  - intros b Hb. destruct (i_built _ Hi _ Hb) as (ob & E & I). cbn.
    destruct (decide (a = b)) as [<-|]; [|exists ob; by rewrite lookup_insert_ne].
    exists o'. rewrite lookup_insert_eq. split; [done|]. apply Hid. congruence.
  - cbn. rewrite fmap_app. destruct Hcs as [-> |(g & -> & Hnc)]; [rewrite app_nil_r; apply Hi|].
    apply NoDup_app. split_and!; [apply Hi| |apply NoDup_singleton].
    intros b Hb Hb'. cbn in Hb'. apply list_elem_of_singleton in Hb' as ->.
    apply list_elem_of_fmap in Hb as ([b f] & -> & Hf). by apply (Hnc f).
  - intros b f Hf. cbn in *. apply elem_of_app in Hf as [Hf|Hf]; [by eapply (i_called_lt _ Hi)|].
    destruct Hcs as [-> |(g & -> & _)]; [set_solver|]. apply list_elem_of_singleton in Hf. injection Hf as -> ->.
    apply (i_object _ Hi _ _ Ho).
Qed.

(** A thread changes its own state only. *)
Lemma inv_self w p l l' :
  inv w -> pthreads w !! p = Some l -> arg l' = arg l -> thread_ok w p l' ->
  (forall b, pc l' = InCtor b -> pc l = InCtor b) -> inv (set_pthread p l' w).
Proof.
  intros Hi Hp Ha Hok Hpc.
  assert (forall q b, in_ctor (set_pthread p l' w) q b -> in_ctor w q b) as Hctor.
  { intros q b (k & E & Ek). cbn in E. apply lookup_insert_Some in E as [[<- <-]|[Hne E]].
    - exists l. split; [done|by apply Hpc].
    - by exists k. }
  split.
  - intros q k E. cbn in E. apply lookup_insert_Some in E as [[<- <-]|[Hne E]]; [done|by apply (i_thread _ Hi)].
  - intros b o E. destruct (i_object _ Hi _ _ E) as (L & B & C & Z & P). split_and!; [done|lia|lia|done|done|].
    intros H0. destruct (P H0) as (k & Ek & Ak). cbn. destruct (decide (p = thread_ o)) as [->|].
    + exists l'. rewrite lookup_insert_eq. split; [done|congruence].
    + exists k. by rewrite lookup_insert_ne.
  - intros q b H. by apply (i_ctor _ Hi q), Hctor.
  - intros q q' b H1 H2. eapply (i_ctor_one _ Hi); by apply Hctor.
  - apply Hi.
  - apply Hi.
  - apply Hi.
Qed.

(** The creator takes the token of the object and is done with it. *)
Lemma inv_build w a o :
  inv w -> objects w !! a = Some o -> is_Some (id_ o) -> (forall q, ~ in_ctor w q a) ->
  inv (with_built ({[a]} ∪ built w) (set_object a (with_sema 0 o) w)).
Proof.
  intros Hi Ho Hid Hno. split; cbn.
  - intros q l E. pose proof (i_thread _ Hi _ _ E) as H. unfold thread_ok in *. destruct (arg l) as [b|]; [|done].
    destruct H as (ob & Eb & T & N & R). cbn. destruct (decide (a = b)) as [<-|].
    + exists (with_sema 0 o). rewrite lookup_insert_eq. rewrite Ho in Eb. injection Eb as <-. split_and!; [done..|].
      unfold run_ok in *. destruct (pc l); cbn; destruct_and?; split_and!; try done; right; set_solver.
    + exists ob. rewrite lookup_insert_ne by done. split_and!; [done..|]. apply (run_ok_mono w); [done| |done]. cbn. set_solver.
  - intros b ob E. apply lookup_insert_Some in E as [[<- <-]|[Hne E]].
    + destruct (i_object _ Hi _ _ Ho) as (L & B & C & Z & P). split_and!; cbn; [done|lia|lia|done| |done].
      intros H0. destruct (Z H0) as (_ & H). split; [set_solver|done].
    + destruct (i_object _ Hi _ _ E) as (L & B & C & Z & P). split_and!; cbn; [done|lia|lia|done| |done].
      intros H0. destruct (Z H0) as (Hb & H). split; [set_solver|done].
  - intros q b (l & E & Epc). assert (in_ctor w q b) as Hq by (by exists l). destruct (i_ctor _ Hi _ _ Hq) as [H1 H2].
    assert (b <> a) by (intros ->; by apply (Hno q)). rewrite lookup_insert_ne by done. set_solver.
  - intros q q' b (l & H) (l' & H'). eapply (i_ctor_one _ Hi); by eexists.
  - intros b Hb. destruct (decide (a = b)) as [<-|Hne].
    + exists (with_sema 0 o). by rewrite lookup_insert_eq.
    + rewrite lookup_insert_ne by done. apply (i_built _ Hi). set_solver.
  - apply Hi.
  - apply Hi.
Qed.

(** The creation of an object and its thread, with the creator in the constructor. *)
Lemma inv_create w p l np nt cb name :
  inv w -> pthreads w !! p = Some l -> pc l = User -> pthreads w !! np = None -> np <> 0 -> is_Some cb ->
  inv (mkProcess (<[next_addr w := mkThread None name np cb 0]> (objects w))
         (<[p := at_pc (InCtor (next_addr w)) l]>
            (<[np := mkPthread (Some (next_addr w)) nt None UNKNOWN RunEnter]> (pthreads w)))
         (S (next_addr w)) (built w) (called w)).
Proof.
  intros Hi Hp Hpc Hnp Hn0 Hcb. set (n := next_addr w).
  assert (forall b o, objects w !! b = Some o -> b <> n) as Hfresh.
  { intros b o E ->. destruct (i_object _ Hi _ _ E) as (L & _). unfold n in L. lia. }
  assert (p <> np) as Hpn by congruence.
  assert (forall q k, pthreads w !! q = Some k -> thread_ok (mkProcess (<[n := mkThread None name np cb 0]> (objects w))
    (pthreads w) (S n) (built w) (called w)) q k) as Hold.
  { intros q k E. pose proof (i_thread _ Hi _ _ E) as H. unfold thread_ok in *. destruct (arg k) as [b|]; [|done].
    destruct H as (o & Eo & T & N & R). exists o. cbn. rewrite lookup_insert_ne by (symmetry; by eapply Hfresh). done. }
  assert (forall q b, in_ctor w q b -> b <> n) as Hcn.
  { intros q b H. destruct (i_ctor _ Hi _ _ H) as [[o E] _]. by eapply Hfresh. }
  assert (forall q b, (exists k, <[p := at_pc (InCtor n) l]> (<[np := mkPthread (Some n) nt None UNKNOWN RunEnter]> (pthreads w))
    !! q = Some k /\ pc k = InCtor b) -> (q = p /\ b = n) \/ in_ctor w q b) as Hctor.
  { intros q b (k & E & Ek). apply lookup_insert_Some in E as [[<- <-]|[_ E]]; [left; cbn in Ek; by injection Ek as ->|].
    apply lookup_insert_Some in E as [[<- <-]|[_ E]]; [done|]. right. by exists k. }
  split; cbn.
  - intros q k E. apply lookup_insert_Some in E as [[<- <-]|[_ E]].
    + pose proof (Hold _ _ Hp) as H. unfold thread_ok, run_ok in *. cbn. rewrite Hpc in H. done.
    + apply lookup_insert_Some in E as [[<- <-]|[_ E]]; [|by apply (Hold _ _ E)].
      unfold thread_ok. cbn. exists (mkThread None name np cb 0). rewrite lookup_insert_eq. split_and!; [done..|].
      intros f Hf. apply (i_called_lt _ Hi) in Hf. unfold n in Hf. lia.
  - intros b o E. apply lookup_insert_Some in E as [[<- <-]|[_ E]].
    + split_and!; cbn; [lia|lia|lia|done|done|]. intros _.
      exists (mkPthread (Some n) nt None UNKNOWN RunEnter). by rewrite lookup_insert_ne, lookup_insert_eq.
    + destruct (i_object _ Hi _ _ E) as (L & B & C & Z & P). split_and!; cbn; [unfold n; lia|lia|lia|done|done|].
      intros H0. destruct (P H0) as (k & Ek & Ak). destruct (decide (p = thread_ o)) as [->|].
      * exists (at_pc (InCtor n) l). rewrite lookup_insert_eq. cbn. split; congruence.
      * exists k. rewrite lookup_insert_ne by done. rewrite lookup_insert_ne by congruence. done.
  - intros q b [[-> ->]|H]%Hctor.
    + rewrite lookup_insert_eq. split; [done|]. intros Hb. destruct (i_built _ Hi _ Hb) as (o & E & _). by apply (Hfresh _ _ E).
    + rewrite lookup_insert_ne by (symmetry; by eapply Hcn). by apply (i_ctor _ Hi q).
  - intros q q' b [[-> ->]|H1]%Hctor [[-> ?]|H2]%Hctor; [done|by apply Hcn in H2|subst; by apply Hcn in H1|].
    by eapply (i_ctor_one _ Hi).
  - intros b Hb. destruct (i_built _ Hi _ Hb) as (o & E & I). exists o.
    by rewrite lookup_insert_ne by (symmetry; by eapply Hfresh).
  - apply Hi.
  - intros b f Hf. apply (i_called_lt _ Hi) in Hf. unfold n. lia.
Qed.

(** An object without a thread goes. *)
Lemma inv_delete w a o :
  inv w -> objects w !! a = Some o -> thread_ o = 0 -> a ∈ built w ->
  inv (with_built (built w ∖ {[a]}) (with_objects (delete a (objects w)) w)).
Proof.
  intros Hi Ho H0 Hb. split; try apply Hi.
  - intros q l E. eapply thread_ok_mono; [|by apply (i_thread _ Hi)]. intros b Eb.
    assert (a <> b) as Hab.
    { intros <-. pose proof (i_thread _ Hi _ _ E) as H. unfold thread_ok in H. rewrite Eb in H.
      destruct H as (o' & E' & T & N & _). congruence. }
    cbn. rewrite lookup_delete_ne by done. split_and!; [done|set_solver|done].
  - intros b ob E. cbn in E. apply lookup_delete_Some in E as [Hab E].
    destruct (i_object _ Hi _ _ E) as (L & B & C & Z & P). split_and!; cbn; [done|lia|lia|done| |done].
    intros Hz. destruct (Z Hz) as (Hb' & H). split; [set_solver|done].
  - intros q b H. destruct (i_ctor _ Hi q b H) as [H1 H2]. cbn. rewrite lookup_delete_ne by congruence. set_solver.
  - cbn. intros b [Hb1 Hb2]%elem_of_difference. destruct (i_built _ Hi _ Hb1) as (ob & E & I). exists ob.
    rewrite lookup_delete_ne by set_solver. done.
Qed.

(** A finished thread is joined. *)
Lemma inv_join w a o l :
  inv w -> a ∈ built w -> objects w !! a = Some o -> pthreads w !! thread_ o = Some l -> thread_ o <> 0 ->
  pc l = Finished ->
  inv (with_pthreads (delete (thread_ o) (pthreads w)) (set_object a (with_thread 0 o) w)).
Proof.
  intros Hi Hbu Ho Hl Hne Hpc.
  destruct (i_object _ Hi _ _ Ho) as (L & B & C & _ & P). destruct (P Hne) as (l' & El & Al).
  rewrite Hl in El. injection El as <-.
  pose proof (i_thread _ Hi _ _ Hl) as Hth. unfold thread_ok in Hth. rewrite Al in Hth.
  destruct Hth as (o' & Eo & _ & _ & R). rewrite Ho in Eo. injection Eo as <-. unfold run_ok in R. rewrite Hpc in R.
  destruct R as (_ & Hid & _ & Hcall).
  assert (forall q b, in_ctor (with_pthreads (delete (thread_ o) (pthreads w)) (set_object a (with_thread 0 o) w)) q b ->
    in_ctor w q b) as Hctor.
  { intros q b (k & E & Ek). cbn in E. apply lookup_delete_Some in E as [_ E]. by exists k. }
  split; cbn.
  - intros q k E. apply lookup_delete_Some in E as [Hq E]. eapply thread_ok_mono; [|by apply (i_thread _ Hi)].
    intros b Eb. cbn. rewrite lookup_insert_ne; [by split_and!|]. by eapply (other_object w (thread_ o) q).
  - intros b ob E. apply lookup_insert_Some in E as [[<- <-]|[Hb E]].
    + split_and!; cbn; [done|lia|lia|done|by intros _; split_and!; [|eexists|]|done].
    + destruct (i_object _ Hi _ _ E) as (L' & B' & C' & Z & P'). split_and!; [done|lia|lia|done|done|].
      intros H0. destruct (P' H0) as (k & Ek & Ak). exists k. cbn. rewrite lookup_delete_ne; [done|]. congruence.
  - intros q b H. destruct (i_ctor _ Hi q b (Hctor _ _ H)) as [H1 H2]. split; [|done].
    destruct (decide (a = b)) as [<-|]; [by rewrite lookup_insert_eq|by rewrite lookup_insert_ne].
  - intros q q' b H1 H2. eapply (i_ctor_one _ Hi); by apply Hctor.
  - intros b Hb. destruct (i_built _ Hi _ Hb) as (ob & E & I).
    destruct (decide (a = b)) as [<-|]; [|exists ob; by rewrite lookup_insert_ne].
    exists (with_thread 0 o). rewrite lookup_insert_eq. split; [done|]. cbn. by eexists.
  - apply Hi.
  - apply Hi.
Qed.

(** ** Every piece keeps the invariant and does not fault *)

Definition fine (res : outcome unit * Process) : Prop := inv res.2 /\ forall f, res.1 <> Fault f.

(** The object of a thread. *)
Lemma own_object w p l a :
  inv w -> pthreads w !! p = Some l -> arg l = Some a ->
  exists o, objects w !! a = Some o /\ thread_ o = p /\ run_ok w a o l /\ object_ok w a o.
Proof.
  intros Hi Hp Ha. pose proof (i_thread _ Hi _ _ Hp) as H. unfold thread_ok in H. rewrite Ha in H.
  destruct H as (o & Eo & T & _ & R). exists o. split_and!; [done..|]. by apply (i_object _ Hi).
Qed.

Lemma run_enter_fine w p l a :
  inv w -> pthreads w !! p = Some l -> arg l = Some a -> pc l = RunEnter -> fine (run_enter p a w).
Proof.
  intros Hi Hp Ha Hpc. destruct (own_object _ _ _ _ Hi Hp Ha) as (o & Eo & T & R & (_ & B & _)).
  unfold run_ok in R. rewrite Hpc in R. destruct R as (_ & _ & S0 & Nc).
  unfold run_enter, the_pthread, the_object, mbind, M_bind, modify. rewrite Hp, Eo. cbn. split; [|done]. cbn.
  pose proof (inv_local w p l (mkPthread (arg l) (tid l) (Some a) (name_ o) RunPost) a o (with_id (Some (tid l)) o) []
    Hi Hp Ha Eo) as H. rewrite app_nil_r in H. apply H; try done; by left.
Qed.

Lemma run_post_fine w p l a :
  inv w -> pthreads w !! p = Some l -> arg l = Some a -> pc l = RunPost -> fine (run_post p a w).
Proof.
  intros Hi Hp Ha Hpc. destruct (own_object _ _ _ _ Hi Hp Ha) as (o & Eo & T & R & (_ & B & _)).
  unfold run_ok in R. rewrite Hpc in R. destruct R as (Et & Ei & S0 & Nc).
  unfold run_post, the_pthread, the_object, mbind, M_bind, modify. rewrite Hp, Eo, S0. cbn. split; [|done]. cbn.
  pose proof (inv_local w p l (at_pc RunCall l) a o (with_sema 1 o) [] Hi Hp Ha Eo) as H.
  rewrite app_nil_r in H. apply H; try done; [|by left]. split_and!; [done|done|by left|done].
Qed.

Lemma run_call_fine w p l a :
  inv w -> pthreads w !! p = Some l -> arg l = Some a -> pc l = RunCall -> fine (run_call p a w).
Proof.
  intros Hi Hp Ha Hpc. destruct (own_object _ _ _ _ Hi Hp Ha) as (o & Eo & T & R & (_ & B & [f Ef] & _)).
  unfold run_ok in R. rewrite Hpc in R. destruct R as (Et & Ei & Sb & Nc).
  unfold run_call, the_pthread, the_object, mbind, M_bind, modify. rewrite Hp, Eo, Ef. cbn. split; [|done]. cbn.
  apply (inv_local w p l (at_pc User l) a o (with_cb (Some f) o) [(a, f)] Hi Hp Ha Eo); try done.
  - split_and!; [done..|]. exists f. split; [done|]. cbn. rewrite elem_of_app. right. by left.
  - right. by exists f.
Qed.

Lemma set_name_fine w p l name : inv w -> pthreads w !! p = Some l -> pc l = User -> fine (set_name p name w).
Proof.
  intros Hi Hp Hpc. pose proof (i_thread _ Hi _ _ Hp) as H. unfold thread_ok in H.
  unfold set_name, the_pthread, the_object, mbind, M_bind, modify. rewrite Hp. destruct (arg l) as [a|] eqn:Ha.
  - destruct H as (o & Eo & T & N & R). destruct (i_object _ Hi _ _ Eo) as (_ & B & _).
    pose proof R as R'. unfold run_ok in R'. rewrite Hpc in R'. destruct R' as (Et & Ei & Sb & Wc).
    rewrite Et, Eo. cbn. split; [|done]. cbn.
    pose proof (inv_local w p l (mkPthread (Some a) (tid l) (t_thread l) name (pc l)) a o (with_name name o) []
      Hi Hp Ha Eo) as Hl. rewrite app_nil_r, Et in Hl. apply Hl; try done; [|by left].
    unfold run_ok. cbn. rewrite Hpc. by split_and!.
  - rewrite H. cbn. split; [|done]. apply (inv_self w p l); [done..|].
    by intros b Hb.
Qed.

Lemma wait_fine w p l a r w' :
  inv w -> pthreads w !! p = Some l -> pc l = InCtor a -> Thread_wait p a false w = Some (r, w') -> fine (r, w').
Proof.
  intros Hi Hp Hpc. assert (in_ctor w p a) as Hc by (by exists l). destruct (i_ctor _ Hi _ _ Hc) as [[o Eo] Hb].
  unfold Thread_wait, Wait, sem_wait. rewrite Hp, Eo. destruct (Z.eqb_spec (sema_ o) 0) as [|Hs]; [done|]. cbn.
  destruct (i_object _ Hi _ _ Eo) as (_ & B & _ & Z0 & P0). intros [= <- <-]. split; [|done]. cbn [fst snd].
  assert (is_Some (id_ o)) as Hid.
  { destruct (decide (thread_ o = 0)) as [Hz|Hz]; [by apply Z0|]. destruct (P0 Hz) as (k & Ek & Ak).
    destruct (own_object _ _ _ _ Hi Ek Ak) as (o' & Eo' & _ & R & _). rewrite Eo in Eo'. injection Eo' as <-.
    unfold run_ok in R. destruct (pc k); destruct_and?; try done; by eexists. }
  assert (inv (set_pthread p (at_pc User l) w)) as H1.
  { apply (inv_self w p l); [done..| |done]. pose proof (i_thread _ Hi _ _ Hp) as H. unfold thread_ok, run_ok in *.
    rewrite Hpc in H. done. }
  replace (sema_ o - 1) with 0 by lia. apply (inv_build (set_pthread p (at_pc User l) w) a o); [done..|].
  intros q (k & Eq & Ek). cbn in Eq. apply lookup_insert_Some in Eq as [[<- <-]|[Hne Eq]]; [done|].
    apply Hne. eapply (i_ctor_one _ Hi _ _ a); [done|by exists k].
Qed.

Lemma create_fine w p l cb name rt np nt :
  inv w -> pthreads w !! p = Some l -> pc l = User -> pthreads w !! np = None -> np <> 0 -> is_Some cb ->
  fine (Thread_new p cb name rt np nt w).
Proof.
  intros Hi Hp Hpc Hnp Hn0 Hcb. unfold Thread_new. cbn. destruct (rt =? 0); cbn; [|by split].
  unfold the_pthread, mbind, M_bind, modify. cbn. rewrite lookup_insert_ne by congruence. rewrite Hp. cbn. split; [|done].
  by apply (inv_create w p l np nt cb name).
Qed.

Lemma join_fine w p a r w' : inv w -> a ∈ built w -> join p a w = Some (r, w') -> fine (r, w').
Proof.
  intros Hi Hb. unfold join. destruct (i_built _ Hi _ Hb) as (o & Eo & _). rewrite Eo.
  destruct (Z.eqb_spec (thread_ o) 0) as [|Hne]; [by intros [= <- <-]|].
  destruct (Z.eqb_spec (thread_ o) p); [by intros [= <- <-]|].
  destruct (pthreads w !! thread_ o) as [l|] eqn:El; [|by intros [= <- <-]].
  destruct (pc l) eqn:Hpc; try done. intros [= <- <-]. split; [|done]. by eapply inv_join.
Qed.

Lemma step_fine x w r w' : inv w -> careful x w = true -> step x w = Some (r, w') -> fine (r, w').
Proof.
  intros Hi Hc Hs. destruct x as [p cb name rt np nt|p i|p|p|p a|p a|p name]; cbn in Hs, Hc;
    apply bind_Some in Hs as (l & Hp & Hs).
  - destruct (pc l) eqn:Hpc; try done. destruct (pthreads w !! np) eqn:Hnp; [done|].
    destruct (Z.eqb_spec np 0); [done|]. injection Hs as E. rewrite <- E. apply bool_decide_eq_true in Hc. by eapply create_fine.
  - destruct i; [done|]. destruct (pc l) eqn:Hpc; try done. by eapply wait_fine.
  - destruct (arg l) as [a|] eqn:Ha; [|done]. destruct (pc l) eqn:Hpc; try done; injection Hs as E; rewrite <- E;
      [by eapply run_enter_fine|by eapply run_post_fine|by eapply run_call_fine].
  - destruct (arg l) as [a|] eqn:Ha; [|done]. destruct (pc l) eqn:Hpc; try done. injection Hs as <- <-. split; [|done].
    apply (inv_self w p l); [done..| |done]. pose proof (i_thread _ Hi _ _ Hp) as H. unfold thread_ok, run_ok in *.
    cbn. rewrite Hpc in H. done.
  - destruct (pc l); try done. case_bool_decide as Hb; [|done]. destruct (i_built _ Hi _ Hb) as (o & Eo & _).
    rewrite Eo in Hc. apply Z.eqb_eq in Hc. unfold Thread_delete, the_object, mbind, M_bind, modify in Hs. rewrite Eo in Hs.
    injection Hs as <- <-. split; [|done]. by apply inv_delete with (o := o).
  - destruct (pc l); try done. case_bool_decide as Hb; [|done]. by eapply join_fine.
  - destruct (pc l) eqn:Hpc; try done. injection Hs as E. rewrite <- E. by eapply set_name_fine.
Qed.

Lemma process_inv main main_tid w : reachable main main_tid w -> inv w.
Proof. induction 1 as [|x w r w' _ IH Hc Hs]; [apply inv_new|]. by apply (step_fine _ _ _ _ IH Hc Hs). Qed.

(** ** What the threads of a program can rely on *)

Lemma get_id_inv w p l : inv w -> pthreads w !! p = Some l -> get_id p w = (Ret (Some (tid l)), w).
Proof.
  intros Hi Hp. unfold get_id, the_pthread, the_object, mbind, M_bind. rewrite Hp.
  pose proof (i_thread _ Hi _ _ Hp) as H. unfold thread_ok in H. destruct (arg l) as [a|]; [|by rewrite H].
  destruct H as (o & Eo & _ & _ & R). unfold run_ok in R.
  destruct (pc l); destruct R as (-> & Hid & _); try rewrite Eo, Hid; done.
Qed.

(** An object whose constructor has returned knows its thread. *)
Lemma built_known w a :
  inv w -> a ∈ built w -> exists o, objects w !! a = Some o /\ is_Some (id_ o) /\
    (thread_ o <> 0 -> exists l, pthreads w !! thread_ o = Some l /\ id_ o = Some (tid l) /\ t_thread l = Some a) /\
    (thread_ o = 0 -> was_called a o w).
Proof.
  intros Hi Hb. destruct (i_built _ Hi _ Hb) as (o & Eo & [i Ei]). exists o.
  destruct (i_object _ Hi _ _ Eo) as (_ & _ & _ & Z & P). split_and!; [done|by eexists| |intros H; by apply Z in H as (_ & _ & ?)].
  intros H. destruct (P H) as (l & El & Al). exists l. split; [done|].
  destruct (own_object _ _ _ _ Hi El Al) as (o' & Eo' & _ & R & _). rewrite Eo in Eo'. injection Eo' as <-.
  unfold run_ok in R. destruct (pc l); destruct_and?; congruence || done.
Qed.

(** (C26) In every interleaving of callers that give every thread a function and delete only
    objects they have joined, when no signal interrupts the constructor's wait for the semaphore: no call runs into an object that is gone or not yet set up,
    [get_id] is the kernel's id in every thread at every moment, an object whose
    constructor has returned knows the id of its thread and the thread knows the
    object, no callback is called twice and that of a joined thread was called. *)
Theorem threads_know_themselves main main_tid w :
  reachable main main_tid w ->
  (forall x r w', careful x w = true -> step x w = Some (r, w') -> forall f, r <> Fault f) /\
  (forall p l, pthreads w !! p = Some l -> get_id p w = (Ret (Some (tid l)), w)) /\
  (forall a, a ∈ built w -> exists o, objects w !! a = Some o /\ is_Some (id_ o) /\
     (thread_ o <> 0 -> exists l, pthreads w !! thread_ o = Some l /\ id_ o = Some (tid l) /\ t_thread l = Some a) /\
     (thread_ o = 0 -> was_called a o w)) /\
  NoDup (called w).*1.
Proof.
  intros Hr. apply process_inv in Hr. split_and!.
  - intros x r w' Hc Hs. by apply (step_fine _ _ _ _ Hr Hc Hs).
  - intros p l Hp. by apply get_id_inv.
  - intros a Ha. by apply built_known.
  - apply Hr.
Qed.

(** A run of pieces, each of which returns or throws. *)
Fixpoint steps (l : list action) (w : Process) : option (outcome unit * Process) :=
  match l with
  | [] => Some (Ret tt, w)
  | x :: l => match step x w with
              | Some (Fault f, w) => Some (Fault f, w)
              | Some (_, w) => steps l w
              | None => None
              end
  end.

Lemma wait_passes w p a l o :
  pthreads w !! p = Some l -> pc l = InCtor a -> objects w !! a = Some o -> sema_ o = 1 ->
  exists w', step (AWait p false) w = Some (Ret tt, w').
Proof. intros Hp Hpc Ho Hs. cbn. rewrite Hp. cbn. rewrite Hpc. unfold Thread_wait. rewrite Hp, Ho, Hs. by eexists. Qed.

Lemma run_post_gives w p a l o :
  pthreads w !! p = Some l -> arg l = Some a -> pc l = RunPost -> objects w !! a = Some o -> sema_ o = 0 ->
  step (ARun p) w = Some (Ret tt, set_pthread p (at_pc RunCall l) (set_object a (with_sema 1 o) w)).
Proof.
  intros Hp Ha Hpc Ho Hs. cbn. rewrite Hp. cbn. rewrite Ha, Hpc.
  unfold run_post, the_pthread, the_object, mbind, M_bind, modify. by rewrite Hp, Ho, Hs.
Qed.

Lemma run_enter_gives w p a l o :
  pthreads w !! p = Some l -> arg l = Some a -> pc l = RunEnter -> objects w !! a = Some o ->
  step (ARun p) w = Some (Ret tt, set_pthread p (mkPthread (arg l) (tid l) (Some a) (name_ o) RunPost)
                                    (set_object a (with_id (Some (tid l)) o) w)).
Proof.
  intros Hp Ha Hpc Ho. cbn. rewrite Hp. cbn. rewrite Ha, Hpc.
  unfold run_enter, the_pthread, the_object, mbind, M_bind, modify. by rewrite Hp, Ho, Ha.
Qed.

(** The constructor never waits for good: at any moment, at most two pieces of the new
    thread later, it returns. *)
Theorem constructor_returns main main_tid w p a :
  reachable main main_tid w -> in_ctor w p a ->
  exists q n w', (n <= 2)%nat /\ steps (replicate n (ARun q) ++ [AWait p false]) w = Some (Ret tt, w').
Proof.
  intros Hi%process_inv Hc. destruct (i_ctor _ Hi _ _ Hc) as [[o Eo] Hb]. destruct Hc as (lp & Hp & Hpc).
  destruct (i_object _ Hi _ _ Eo) as (_ & _ & _ & Z & P). exists (thread_ o).
  assert (thread_ o <> 0) as Hne by (intros H; by apply Z in H as [? _]). destruct (P Hne) as (l & El & Al).
  destruct (own_object _ _ _ _ Hi El Al) as (o' & Eo' & _ & R & _). rewrite Eo in Eo'. injection Eo' as <-.
  assert (sema_ o = 1 -> exists n w', (n <= 2)%nat /\
    steps (replicate n (ARun (thread_ o)) ++ [AWait p false]) w = Some (Ret tt, w')) as Hready.
  { intros H1. destruct (wait_passes w p a lp o) as [w' E]; [done..|]. exists 0%nat, w'. split; [lia|]. cbn [replicate app steps].
    by rewrite E. }
  assert (forall c, pc l = c -> (match c with InCtor _ => True | _ => p <> thread_ o end)) as Hpne.
  { intros c <-. destruct (pc l) eqn:E; try done; intros ->; congruence. }
  unfold run_ok in R. destruct (pc l) eqn:Epc; destruct_and?;
    try (apply Hready; match goal with H : _ \/ _ |- _ => by destruct H end).
  - pose proof (Hpne _ eq_refl) as Hpq.
    pose proof (run_enter_gives w (thread_ o) a l o El Al Epc Eo) as E1. set (w1 := set_pthread _ _ _) in E1.
    pose proof (run_post_gives w1 (thread_ o) a _ (with_id (Some (tid l)) o) (lookup_insert_eq _ _ _) Al eq_refl
      (lookup_insert_eq _ _ _) ltac:(done)) as E2. set (w2 := set_pthread _ _ _) in E2.
    destruct (wait_passes w2 p a lp (with_sema 1 (with_id (Some (tid l)) o))) as [w' E3];
      [cbn; by rewrite !lookup_insert_ne by done|done|apply lookup_insert_eq|done|].
    exists 2%nat, w'. split; [lia|]. cbn [replicate app steps]. by rewrite E1, E2, E3.
  - pose proof (Hpne _ eq_refl) as Hpq.
    pose proof (run_post_gives w (thread_ o) a l o El Al Epc Eo ltac:(done)) as E1. set (w1 := set_pthread _ _ _) in E1.
    destruct (wait_passes w1 p a lp (with_sema 1 o)) as [w' E2];
      [cbn; by rewrite lookup_insert_ne by done|done|apply lookup_insert_eq|done|].
    exists 1%nat, w'. split; [lia|]. cbn [replicate app steps]. by rewrite E1, E2.
Qed.

(** *** Witnesses and what goes wrong *)

(** The main thread starts a thread, which runs and ends, and joins it. *)
Definition life : list action :=
  [ACreate 1 (Some 7%nat) [116] 0 2 102; ARun 2; ARun 2; AWait 1 false; ARun 2; AReturn 2; AJoin 1 0].

(** A run of a careful program. *)
Fixpoint careful_steps (l : list action) (w : Process) : option Process :=
  match l with
  | [] => Some w
  | x :: l => if careful x w then '(_, w) ← step x w; careful_steps l w else None
  end.

Lemma careful_reachable main main_tid l w w' :
  reachable main main_tid w -> careful_steps l w = Some w' -> reachable main main_tid w'.
Proof.
  revert w. induction l as [|x l IH]; intros w Hr H; cbn in H; [by injection H as <-|].
  destruct (careful x w) eqn:Hc; [|done]. destruct (step x w) as [[r w1]|] eqn:Hs; [|done]. cbn in H.
  apply (IH w1); [|done]. by eapply reach_step.
Qed.

Lemma threads_know_themselves_witness :
  exists w, careful_steps life (Process_new 1 101) = Some w /\ called w = [(0, 7)]%nat /\
    get_id 1 w = (Ret (Some 101), w).
Proof.
  destruct (careful_steps life (Process_new 1 101)) as [w|] eqn:E; [|exfalso; by vm_compute in E].
  destruct (threads_know_themselves 1 101 w) as (_ & Hid & _); [exact (careful_reachable _ _ _ _ _ (reach_new _ _) E)|].
  exists w. split; [done|]. split; [|apply (Hid 1 (mkPthread None 101 None UNKNOWN User))];
    vm_compute in E; injection E as <-; reflexivity.
Defined.

(** The constructor returns before the new thread has taken its callback: when the
    object is deleted then, [run] reads an object that is gone. *)
Theorem delete_races_with_run :
  exists w, steps [ACreate 1 (Some 7%nat) [116] 0 2 102; ARun 2; ARun 2; AWait 1 false; ADelete 1 0; ARun 2] (Process_new 1 101)
            = Some (Fault BadAccess, w).
Proof. eexists. vm_compute. reflexivity. Qed.

(** A signal handler that runs while the constructor waits makes it throw, the object
    is destroyed and its thread runs into it. *)
Theorem interrupted_constructor :
  exists w, steps [ACreate 1 (Some 7%nat) [116] 0 2 102; AWait 1 true; ARun 2] (Process_new 1 101) = Some (Fault BadAccess, w).
Proof. eexists. vm_compute. reflexivity. Qed.

(** [run] swaps its copy of the callback with the original, which is the same: the
    object keeps the callback, and all it holds, as long as it lives. *)
Theorem callback_kept w p a o l :
  pthreads w !! p = Some l -> objects w !! a = Some o ->
  objects (run_call p a w).2 !! a = Some o.
Proof.
  intros Hp Ho. unfold run_call, the_pthread, the_object, mbind, M_bind, modify. rewrite Hp, Ho. cbn.
  assert (with_cb (cb_ o) o = o) as -> by (by destruct o). destruct (cb_ o); cbn; apply lookup_insert_eq.
Qed.
